(* ===== verification/_CoqProject ===== *)
-Q . S2P
Prelude.v
OperatorTask.v
OperatorDispatch.v
Episodes.v
JsText.v
JsDate.v
IsoDate.v
ZoneClock.v
Pam.v
Contracts.v
Cron.v
Commands.v
IpAccess.v
Authority.v
Patches.v
Transaction.v
Redis.v
RateLimit.v
AuthTransition.v
Sessions.v
SessionHistory.v
SessionFacts.v
Budget.v
BudgetLedger.v
Recurrence.v
Maintenance.v
MaintenanceFacts.v
MaintenanceDevice.v
Assurance.v
StepUpGrant.v
Intents.v
Approvers.v
ApprovalDecide.v
DecideFacts.v
IntentHistory.v
MonitorEpisodes.v
MonitorHistory.v
AlertNoise.v
Alerts.v
AlertSpacing.v
AlertOutbox.v
AlertSweep.v
AlertInvariant.v
AlertKeeps.v
AlertHistory.v
AlertConditions.v
ConditionFacts.v
