(* ===== verification/Prelude.v ===== *)
(** * Breeze: a verification library of the core services

    Breeze is a remote monitoring and management platform: a TypeScript API
    server with a PostgreSQL database and Redis, web and mobile clients, and an
    agent on the managed devices.  This library models decision code of the API
    server ([src/apps/api/src]) and of the shared package
    ([src/packages/shared/src]): the parts in which a wrong answer runs a
    command twice, elevates a process, releases an action nobody approved, bills a
    wrong period or lets a caller in.

    ** Parts, files and sources

    - [Prelude]: results of calls that may throw, [Array.prototype.sort], list
      and run lemmas, tactics and the hint database [breeze].
    - [OperatorTask] models the life cycle of an AI operator task
      ([services/aiOperator/taskTransitions.ts]: [nextTaskState] over the
      transition table, the fence and leasability tests) and its limits
      ([taskLimits.ts]).
    - [OperatorDispatch] models how such a task acts: a coordinator takes a lease
      ([taskCoordinator.ts]: [claimTaskLease]), writes under it ([writeLeased] with
      the patches of yielding, settling and admitting an attempt), and an approved
      action intent is claimed for execution ([dispatchClaim.ts]:
      [claimTaskLinkedIntentForDispatch], [revertTaskLinkedDispatchClaim]), the
      outcome being kept in the operation row ([operationService.ts]).  The state
      [Db] is the three tables; every exported function is one transaction on it,
      and [step] is the union of these transactions with what other services write
      to the intents.  It calls [OperatorTask].
    - [Episodes] models the grouping of metric anomalies into episodes
      ([services/metricAnomalyEpisodeKeys.ts], [metricAnomalyEpisodePlanner.ts]:
      [planEpisodeAssembly]).
    - [JsText], [JsDate], [IsoDate] model what the sources use of JavaScript
      strings, [Date.UTC] and its getters, and ISO dates as strings.
    - [ZoneClock] states, as classes, what the clients of [Intl.DateTimeFormat]
      rely on; [Pam] and [Cron] are proved against these classes, and a formatter
      for UTC is an instance.
    - [Pam] models privileged access management: [Glob] the path matcher and
      [Bridge] the software-policy verdict of [services/pamBridge.ts], [RuleEngine]
      the rules of [services/pamRuleEngine.ts].
    - [Contracts] models [services/contractMath.ts]: periods, renewal, notice.
    - [Cron] models [packages/shared/src/utils/cron.ts] (validation, expansion,
      next occurrence), [services/cronDue.ts] (the schedulers' due check) and the
      catch-up walk of [services/aiAgents/sweepOccurrence.ts].
    - [Commands] models which device-command rows still take an agent's result
      ([services/commandResultAcceptance.ts]) and the four writers it governs, in
      [routes/agentWs.ts], [services/commandQueue.ts], [jobs/staleCommandReaper.ts]
      and [services/commandResultProcessingFailure.ts], as steps on one row.
    - [IpAccess] models [services/ipMatch.ts] (parsing, CIDR, the /64 prefix) and
      [services/ipAllowlist.ts] (decision, cache, enforcement with its effects).
    - [Authority] models [services/permissionMatching.ts], [permissions.ts],
      [siteAllowlist.ts] and [delegationCeiling.ts].
    - [Patches]: [PatchApproval] models [services/patchApprovalEvaluator.ts], and
      [Eligibility] the gate of [services/patchEligibility.ts] that a patch job and
      the AI patch agent ask before an install.
    - [Transaction] is the monad of a callback given to [db.transaction]: tables in,
      an answer and tables or an exception out; what throws is rolled back.
    - [Redis] is the class of Redis commands the sources use with the laws relied on,
      and an in-memory instance.  [RateLimit] models [services/rate-limit.ts] and the
      account lockout against it.
    - [AuthTransition] models the browser-authentication transitions
      ([services/authBrowserTransition.ts]); [Sessions] the refresh-token families,
      issuing, revocation, terminal logout and [POST /auth/refresh]
      ([services/refreshTokenFamily.ts], [userSession.ts], [tokenRevocation.ts],
      [terminalLogout.ts], [routes/auth/login.ts]); [SessionHistory] every
      interleaving of these and its abstract specification; [SessionFacts] what the
      logout and refresh handlers answer.
    - [Budget] models [services/aiBudgetReservations.ts] and the effective budget of
      [effectiveSettings.ts]; [BudgetLedger] its histories.
    - [Recurrence] models [services/recurrence.ts] on [Contracts].
    - [Maintenance] models the window evaluator of [services/featureConfigResolver.ts]
      and [maintenanceWindowProjection.ts]; [MaintenanceFacts] its theorems;
      [MaintenanceDevice] the resolution for a device ([maintenanceService.ts],
      [executionTargetGating.ts]) and [quietHours.ts].
    - [Assurance] models how strongly an approval is proved: the floors of
      [packages/shared/src/utils/assuranceLevel.ts], the partner policy
      ([authenticatorPolicy.ts]), challenges and the two device factors
      ([authenticatorAssurance.ts], [approverWebAuthn.ts], [mobileHwKey.ts]).
      [StepUpGrant] models the grants of [mfaStepUpGrant.ts] and the reuse of an
      approval ceremony ([approvals/approvalDecideGrant.ts]).
    - [Intents] models the durable approval layer ([services/actionIntents]:
      [intentService.ts], [policyDecide.ts], [exposureBudget.ts]; the release writes of
      [jobs/intentReleaseWorker.ts] and the sweeps of [intentExpiryReaper.ts]): the
      tables, and one function per writer, with the insertion of an operation row
      ([reserveOperation]).  It uses the operation ledger of [OperatorDispatch].
    - [Approvers] models who may decide ([usersWithPermission.ts],
      [intentApprovers.ts], [intentTargetScope.ts]) against the permission service of
      [Authority]; [ApprovalDecide] the decide service with its gates in order, its
      transaction, batches and reports ([approvals/decideApprovalRequest.ts],
      [batchDecide.ts], [pamActuationLifecycle.ts], [routes/approvals.ts]).
      [DecideFacts] has the theorems on single calls, [IntentHistory] those on every
      interleaving: a decision is two steps there, its gates and its transaction.
    - [MonitorEpisodes] models the episodes of a monitor on a device, their count in
      a window and the escalation latch ([services/monitors/episodeService.ts],
      [episodeReset.ts], [escalationLatch.ts]); [MonitorHistory] its histories and
      their specification.
    - [AlertNoise] models cooldowns and flapping ([services/alertCooldown.ts]) on
      [Redis]; [Alerts] the alert rows and their writers ([services/alertService.ts],
      the handlers of [routes/alerts/alerts.ts], [jobs/suppressionExpiryReaper.ts]);
      [AlertSpacing] the composition of the two; [AlertOutbox] the two outboxes by which
      alerts of components reach the event bus ([subjectAlertOutbox.ts],
      [hardwareHealth/retire.ts], [retirementOutbox.ts]); [AlertSweep] the evaluation of
      a device's rules, components and monitors ([alertSubjects.ts],
      [alertService.ts]).
    - [AlertInvariant] states the invariant of the alert tables with one lemma per kind
      of write, [AlertKeeps] shows that every operation keeps it, and [AlertHistory]
      has the theorems on every history.
    - [AlertConditions] models the reading, evaluation and validation of condition
      trees and the scan for retired types ([services/alertConditions]);
      [ConditionFacts] has its theorems.

    ** What the theorems show

    - Dispatch: a task-linked intent is executed at most once between reversals
      ([dispatch_single_use]); a coordinator whose lease was taken over can write
      nothing ([stale_coordinator_cannot_commit]); what a won claim guarantees and
      changes ([dispatch_claim_safe]); a changed plan voids earlier approvals
      ([plan_bump_invalidates]); reversal restores the claim; results only gain
      information; the pure predicate and its SQL restatement agree; the lease
      claim's outcome.  Tasks: cancelling is a fence from which every task can be
      settled, results come only from running tasks, limits are ceilings.
    - Episodes: assembly accounts for every row once, at most one live episode per
      key, the islands are the maximal runs within the gap, summaries are faithful.
    - PAM: the dynamic-programming matcher decides the declarative glob dialect;
      precedence of the bridge; first match in rule order whatever the fetch order;
      missing data never satisfies a criterion; thumbprint pins are exact; when a
      time window is open, midnight and zones included.
    - Contracts: periods tile the calendar and the walk finds the right one within
      its guard; renewal passes the due date by the least number of terms; notice
      windows; the derived start of a due period, for anchors up to the 28th.
    - Cron: the search returns the first selected minute; validation and parsing
      agree; the two evaluators agree on portable patterns and differ outside them;
      the catch-up walk returns the last due minute.
    - Commands: the SQL predicate and its twin agree; a stored result is final
      under every history; provisional outcomes still take a late result.
    - Patches: what the gate lets through, manual approvals and app rules
      included; every patch asked about gets one verdict; automatic approval and the
      reading of a ring's setting fail closed; the version comparison.
    - Access: CIDR matching against the leading-bits definition; the /64 text reads
      back as the network; the enforcement decision and its audit events; how stale
      the allowlist and the permission cache can be when calls interleave at every
      [await] with invalidations; what a delegated credential may hold.

    - Sessions: the code refines a specification in which a family holds at most one
      current token ([sessions_refine_spec]); a token is exchanged at most once; the
      refresh handler serves only the holder and ends a family on reuse; logout ends
      every session of its subjects; rows keep their check constraints; ended stays
      ended.  Limits: no window admits more than its limit, whoever retries after the
      time given is admitted, what errors do, the lockout refines a counter.
    - Budget: no cap is oversold while outcomes stay within their reservations, the
      usage counters are the settled reservations, a settlement counts once, the output
      ceiling is the largest affordable.
    - Recurrence and maintenance: planning gives exactly the schedule; covered periods
      never overlap and where they leave days out; when a window is open; the
      conversion of wall-clock time around a clock change; projector and evaluator
      agree; the closest assignment decides; a device cannot join a window through a
      group it selects itself into; quiet hours.
    - Approvals: a four-eyes intent that is released was approved by a request that
      passed the gates for its content ([four_eyes_release_was_authorized]), and what
      such a request had to show ([four_eyes_approval_is_earned],
      [assurance_is_earned]); a reused approval is a recent ceremony; an intent ends
      once, outside the lane of policy decisions, where [deferred_intent_ends_twice]
      shows a second end; settled intents have no pending row; a policy decision stays
      within the exposure of the day; a batch is one decision on supervised rows; an
      elevation is settled with its row; a denial needs no proof and no stored floor
      locks a tier; the pool of approvers agrees with the permission service for users
      with one membership.
    - Monitors: the episodes refine a specification that keeps the runs of breaches
      between recoveries, unknown observations left aside ([episodes_implement_runs]); a
      pair escalates at most once between resets; an escalation asks for its alert until
      the alert is recorded ([escalation_reaches_a_human]), where no earlier alert was
      recorded after a reset had overtaken it ([overtaken_alert_silences]).
    - Alerts: at most one alert of a rule, device and subject is open
      ([one_open_alert]); an alert that has ended changes by a dismissal only
      ([alert_ends_once]); all the events that announce an alert carry one id, and so do
      those of its resolution, but for the events of a transaction that was rolled back
      after it had published ([announced_once]); while Redis is connected, two alerts of a
      rule and device are a cooldown apart, for calls that begin after the first alert's
      cooldown is set ([alerts_are_spaced]); an alert that requires a human is resolved by
      one, unless its component is retired ([escalations_closed_by_people]).
      [AlertHistory] and [AlertSpacing] have the exceptions as examples: a rollback after a
      publication, calls that overlap, a process without Redis, the retirement of a
      component, a cooldown of zero that throws after the row is written, and a
      compensation that deletes an alert resolved meanwhile.
    - Conditions: the verdict and the context do not depend on the order in which the
      leaves finish; the scan for retired types accepts exactly the payloads within its
      bounds that have none.

    ** Representation, bounds and fuel

    Integers the code keeps as JavaScript numbers are counters, milliseconds and
    small fields, far below 2^53, and are [Z]; addresses are [bigint]s and are [Z].
    Scores are only compared.  Strings are sequences of code units up to U+00FF.
    Ids are canonical lower-case UUIDs.  Database and Redis operations of one
    transaction or command are atomic; where a call awaits between them and shares
    a cache, the call is split at its [await]s and the steps interleave.
    Clocks of Redis, the database and the servers are separate arguments; the limiter's
    theorems take a bound on their difference.  The digest of a token id is an
    argument, injective where a theorem says so, as SHA-256 is taken to be.  The
    admission of [Budget] computes with numbers of a class whose laws hold for doubles
    up to 2^31 cents, and integer columns keep their width.  The output search has
    fuel [log2 + 1], the search for a clock change [log2 + 2], and the planning loop
    any fuel above the first due date beyond the lead window.
    Signature verification, the digest, the permission table of the tools, their
    device arguments and the permission service are arguments of the approval model;
    identifiers the database generates are inputs, fresh where a step says so.
    Batches, fan-outs and sweeps are folds over lists and need no fuel.
    In the alert model the statements of a dispatcher outside a transaction are steps of
    their own, and so are the writes of a creation whose checks ran earlier; a handler is
    given the row it read first, and what each Redis call and each publication comes to is
    an input.  A transaction may be rolled back after its operations ran, which leaves
    what they published and wrote to Redis.  The table reads of a permission resolution
    are steps of their own; the gates of one approval decision read one state, its
    transaction another.  The order in which the leaves of a condition
    finish is an input; the scan for retired types has the code's bounds, a depth of 10
    and 2000 nodes, and recurses on the tree.
    The loops of [Contracts] stop at the guard of 100000 the code has, and
    [walk_fuel] is that guard plus one; [nextCronOccurrence] scans the code's 400
    days and at most 24 hours and 60 minutes of each; [stepped] gets the size of
    the range; the catch-up walk gets the lookback plus one.  The loops are
    shown to return within these bounds; the catch-up walk is without an answer
    only where the formatter throws.

    ** Not modelled

    Of the approvals: the tool guardrails and autonomy evaluators that run before an
    intent is created or authorized, notifications, audit rows, response bodies, the
    detaching of a ticket scope, and the handlers that only read.
    Of the alerts: which rules apply to a device, the condition handlers that read
    metrics, correlation, deliveries to notification channels, the cooldown functions
    that scan the key space, the producers of sourced alerts other than those named,
    the writers of alerts in the mobile routes and the AI tools, and those that move a row
    to another rule, component or device (the conversion of rules to monitors, the linking
    of network changes).
    Of the budget: usage recorded without a reservation ([aiCostTracker.ts]).
    Queries and row-level security as such, HTTP and socket handling, queues and
    jobs around the modelled functions, the step and event rows of a task, recipe
    drivers, floating-point totals of quotes and invoices,
    calls to third-party services, user interfaces, and the agent, which is
    written in Go. *)
From stdpp Require Import base tactics list strings gmap sorting.
From Stdlib Require Import ZArith Lia.
Open Scope Z_scope.

(** ** Results: a call that may throw *)

Inductive result (E A : Type) : Type :=
| Ok (a : A)
| Err (e : E).
Arguments Ok {E A} a.
Arguments Err {E A} e.

Definition rbind {E A B} (k : A → result E B) (r : result E A) : result E B :=
  match r with Ok a => k a | Err e => Err e end.

Definition rmap {E A B} (f : A → B) (r : result E A) : result E B :=
  match r with Ok a => Ok (f a) | Err e => Err e end.

Definition is_Ok {E A} (r : result E A) : bool :=
  match r with Ok _ => true | Err _ => false end.

Declare Scope breeze_scope.
Delimit Scope breeze_scope with breeze.
Notation "'let!' x := c 'in' k" := (rbind (fun x => k) c)
  (at level 10, x pattern, k at level 200) : breeze_scope.
Open Scope breeze_scope.

(** ** Development tactics *)

Create HintDb breeze.

(** Split every boolean conjunction, disjunction and test among the
    hypotheses into the proposition it decides. *)
Ltac bool_hyps :=
  repeat match goal with
    | H : (_ && _)%bool = true |- _ => apply andb_true_iff in H; destruct H
    | H : (_ || _)%bool = false |- _ => apply orb_false_iff in H; destruct H
    | H : negb _ = true |- _ => apply negb_true_iff in H
    | H : negb _ = false |- _ => apply negb_false_iff in H
    | H : (_ =? _)%Z = true |- _ => apply Z.eqb_eq in H
    | H : (_ =? _)%Z = false |- _ => apply Z.eqb_neq in H
    | H : (_ <=? _)%Z = true |- _ => apply Z.leb_le in H
    | H : (_ <=? _)%Z = false |- _ => apply Z.leb_gt in H
    | H : (_ <? _)%Z = true |- _ => apply Z.ltb_lt in H
    | H : (_ <? _)%Z = false |- _ => apply Z.ltb_ge in H
    | H : bool_decide _ = true |- _ => apply bool_decide_eq_true in H
    | H : bool_decide _ = false |- _ => apply bool_decide_eq_false in H
    end.

(** Case on the scrutinee of every [if] and [match], in the goal and the
    hypotheses, closing the cases that become absurd. *)
Ltac case_all := repeat (case_match; simplify_eq/=; try done).

(** Membership in the empty list and lookups in the empty map are absurd. *)
#[export] Hint Extern 1 => match goal with
  | H : _ ∈ _ |- _ => exfalso; exact (not_elem_of_nil _ H)
  | H : ∅ !! _ = Some _ |- _ => exfalso; rewrite lookup_empty in H; discriminate H
  end : breeze.

(** ** Reachable states *)

(** What every step preserves holds at the end of every run. *)
Lemma rtc_invariant {A} (R : A → A → Prop) (I : A → Prop) x y :
  (∀ x y, R x y → I x → I y) → rtc R x y → I x → I y.
Proof. intros HR. induction 1 as [|x y z Hxy _ IH]; eauto. Qed.

(** ** [Array.prototype.sort]

    A stable sort by a comparison: [le a b] is [cmp(a, b) <= 0]. *)

Section js_sort.
Context {A : Type} (le : A → A → bool).

Fixpoint insert_by (x : A) (l : list A) : list A :=
  match l with
  | [] => [x]
  | y :: l' => if le x y then x :: y :: l' else y :: insert_by x l'
  end.

Definition js_sort (l : list A) : list A := foldr insert_by [] l.

Lemma insert_by_perm x l : insert_by x l ≡ₚ x :: l.
Proof.
  induction l as [|y l IH]; simpl; [done|]. case_match; [done|].
  rewrite IH. constructor.
Qed.

Lemma js_sort_perm l : js_sort l ≡ₚ l.
Proof. induction l as [|x l IH]; simpl; [done|]. by rewrite insert_by_perm, IH. Qed.

Lemma elem_of_js_sort x l : x ∈ js_sort l ↔ x ∈ l.
Proof. by rewrite js_sort_perm. Qed.

Lemma js_sort_nil l : js_sort l = [] → l = [].
Proof. intros H. apply Permutation_nil_r. by rewrite <-H, js_sort_perm. Qed.

Context (le_total : ∀ x y, le x y = true ∨ le y x = true)
        (le_trans : ∀ x y z, le x y = true → le y z = true → le x z = true).

Lemma insert_by_sorted x l :
  StronglySorted (λ a b, le a b = true) l → StronglySorted (λ a b, le a b = true) (insert_by x l).
Proof.
  induction 1 as [|y l Hs IH Hall]; simpl; [repeat constructor|].
  destruct (le x y) eqn:E; constructor.
  - by constructor.
  - constructor; [done|]. eapply Forall_impl; [exact Hall|]. simpl; eauto.
  - done.
  - assert (le y x = true) as Hyx by (destruct (le_total x y); congruence).
    rewrite Forall_forall in *. intros z Hz. rewrite insert_by_perm in Hz.
    apply elem_of_cons in Hz as [->|Hz]; eauto.
Qed.

Lemma js_sort_sorted l : StronglySorted (λ a b, le a b = true) (js_sort l).
Proof. induction l; simpl; [constructor|by apply insert_by_sorted]. Qed.
End js_sort.

(** ** Lists *)

Lemma StronglySorted_weaken {A} (R S : A → A → Prop) l :
  (∀ a b, R a b → S a b) → StronglySorted R l → StronglySorted S l.
Proof.
  intros HRS. induction 1 as [|x l _ IH Hall]; constructor; [done|].
  eapply Forall_impl; [exact Hall|]. simpl; auto.
Qed.

Lemma concat_snoc_elem {A} (ls : list (list A)) (l : list A) (x : A) :
  x ∈ concat (ls ++ [l]) ↔ x ∈ concat ls ∨ x ∈ l.
Proof. rewrite concat_app, elem_of_app. simpl. by rewrite app_nil_r. Qed.

(** Keys stay distinct through a partial map that reflects them. *)
Lemma NoDup_omap_keys {A B K K'} (f : A → option B) (kA : A → K) (kB : B → K') l :
  (∀ a a' b b', f a = Some b → f a' = Some b' → kB b = kB b' → kA a = kA a') →
  NoDup (kA <$> l) → NoDup (kB <$> omap f l).
Proof.
  intros Hk. induction l as [|a l IH]; intros Hn; [constructor|].
  rewrite fmap_cons, NoDup_cons in Hn. destruct Hn as [Ha Hn].
  destruct (f a) as [b|] eqn:E; [|cbn; rewrite E; by apply IH].
  cbn; rewrite E. cbn. constructor; [|by apply IH].
  intros (b' & Hb & (a' & Ha' & E')%list_elem_of_omap)%list_elem_of_fmap. apply Ha.
  rewrite (Hk a a' b b') by done. by apply list_elem_of_fmap_2.
Qed.

(** The largest of a list of integers, [None] for no element. *)
Definition omax (a : option Z) (b : Z) : option Z :=
  Some (match a with Some x => Z.max x b | None => b end).

Definition zmax_list (l : list Z) : option Z := foldl omax None l.

Lemma foldl_omax_ge l a x :
  x ∈ l ∨ a = Some x → ∃ m, foldl omax a l = Some m ∧ x ≤ m.
Proof.
  revert a x. induction l as [|y l IH]; intros a x Hx; simpl.
  { destruct Hx as [Hx|Hx]; [by auto with breeze|by exists x]. }
  assert (x ∈ l ∨ ∃ z, omax a y = Some z ∧ x ≤ z) as [Hl|(z & Hz & Hle)].
  { destruct Hx as [[->|Hx]%elem_of_cons| ->]; [right|by left|right].
    - eexists; split; [done|]. destruct a; lia.
    - eexists; split; [done|]. lia. }
  - apply IH. by left.
  - destruct (IH (omax a y) z) as (m & Hm & Hzm); [by right|]. exists m. split; [done|lia].
Qed.

Lemma foldl_omax_in l a m : foldl omax a l = Some m → m ∈ l ∨ a = Some m.
Proof.
  revert a. induction l as [|y l IH]; intros a Hm; simpl in *; [by right|].
  apply IH in Hm as [Hm|Hm]; [left; by right|]. unfold omax in Hm. injection Hm as Hm.
  destruct a as [x|]; [|subst; left; left].
  destruct (Z.max_spec x y) as [[_ H]|[_ H]]; rewrite H in Hm; subst; [left; left|by right].
Qed.
