(* ===== verification/OperatorTask.v ===== *)
(** * The AI Operator task state machine and its task-wide limits

    Models [apps/api/src/services/aiOperator/taskTransitions.ts] (states,
    events, the transition table, [nextTaskState], [canTransition], the
    terminal / leasable / admission-fence predicates) and
    [apps/api/src/services/aiOperator/taskLimits.ts] (the five budget checks).
    A thrown [TaskTransitionError] is the [Err] of a [result]. *)
From S2P Require Import Prelude.
From stdpp Require Import base tactics list strings sets pretty.
From Stdlib Require Import ZArith Lia.
Open Scope Z_scope.

Module TaskTransitions.

(** ** Data *)

Inductive AiOperatorTaskState :=
| queued | running | waiting | paused | stopping
| completed | partial | handed_off | cancelled | failed | expired.

Inductive TaskTransitionEvent :=
| claim | wait | pause | resume | stop
| settle_cancelled | settle_expired | settle_handed_off
| complete | partial_ev | hand_off | fail.

#[export] Instance AiOperatorTaskState_eq_dec : EqDecision AiOperatorTaskState.
Proof. solve_decision. Defined.
#[export] Instance TaskTransitionEvent_eq_dec : EqDecision TaskTransitionEvent.
Proof. solve_decision. Defined.

(** The text a state is stored as; the table is keyed by it. *)
Definition state_text (s : AiOperatorTaskState) : string :=
  match s with
  | queued => "queued" | running => "running" | waiting => "waiting"
  | paused => "paused" | stopping => "stopping" | completed => "completed"
  | partial => "partial" | handed_off => "handed_off" | cancelled => "cancelled"
  | failed => "failed" | expired => "expired"
  end.

Definition ALL_TASK_STATES : list AiOperatorTaskState :=
  [queued; running; waiting; paused; stopping; completed; partial; handed_off;
   cancelled; failed; expired].

Definition TERMINAL_TASK_STATES : list AiOperatorTaskState :=
  [completed; partial; handed_off; cancelled; failed; expired].

Definition TASK_TRANSITION_EVENTS : list TaskTransitionEvent :=
  [claim; wait; pause; resume; stop; settle_cancelled; settle_expired;
   settle_handed_off; complete; partial_ev; hand_off; fail].

Definition texts (l : list AiOperatorTaskState) : list string := state_text <$> l.

Definition isTerminalTaskState (state : string) : bool :=
  bool_decide (state ∈ texts TERMINAL_TASK_STATES).

(** The table, one row of arms per source state. *)
Definition TASK_TRANSITIONS (from : AiOperatorTaskState)
    : list (TaskTransitionEvent * AiOperatorTaskState) :=
  match from with
  | queued => [(claim, running); (pause, paused); (stop, stopping)]
  | running =>
      [(claim, running); (wait, waiting); (pause, paused); (stop, stopping);
       (complete, completed); (partial_ev, partial); (hand_off, handed_off);
       (fail, failed)]
  | waiting => [(claim, running); (wait, waiting); (pause, paused); (stop, stopping)]
  | paused => [(resume, running); (stop, stopping)]
  | stopping =>
      [(claim, stopping); (settle_cancelled, cancelled); (settle_expired, expired);
       (settle_handed_off, handed_off)]
  | completed | partial | handed_off | cancelled | failed | expired => []
  end.

(** Indexing the table by a text: [undefined] for a text that is no state. *)
Definition arms_of (from : string)
    : option (list (TaskTransitionEvent * AiOperatorTaskState)) :=
  TASK_TRANSITIONS <$> List.find (λ s, String.eqb (state_text s) from) ALL_TASK_STATES.

Definition arm (from : string) (event : TaskTransitionEvent) : option AiOperatorTaskState :=
  arms ← arms_of from;
  snd <$> List.find (λ p, bool_decide (p.1 = event)) arms.

Inductive TaskTransitionError :=
| task_transition_not_allowed (from : string) (event : TaskTransitionEvent).

Definition nextTaskState (from : string) (event : TaskTransitionEvent)
    : result TaskTransitionError AiOperatorTaskState :=
  match arm from event with
  | Some to => Ok to
  | None => Err (task_transition_not_allowed from event)
  end.

Definition canTransition (from : string) (event : TaskTransitionEvent) : bool :=
  match arm from event with Some _ => true | None => false end.

Definition LEASABLE_TASK_STATES : list AiOperatorTaskState :=
  [queued; running; waiting; stopping].

Definition isLeasableTaskState (state : string) : bool :=
  bool_decide (state ∈ texts LEASABLE_TASK_STATES).

Definition admissionFenced (state : string) : bool :=
  bool_decide (state = state_text paused) || bool_decide (state = state_text stopping)
  || isTerminalTaskState state.

(** ** Runs of the machine

    A task's history: the events applied to it, each through [nextTaskState]. *)

Definition next (s : AiOperatorTaskState) (ev : TaskTransitionEvent)
    : result TaskTransitionError AiOperatorTaskState :=
  nextTaskState (state_text s) ev.

Inductive run : AiOperatorTaskState → list TaskTransitionEvent → AiOperatorTaskState → Prop :=
| run_nil s : run s [] s
| run_cons s ev s' evs s'' : next s ev = Ok s' → run s' evs s'' → run s (ev :: evs) s''.

(** States from which no new reasoning or effect is ever admitted again. *)
Definition permanently_fenced (s : AiOperatorTaskState) : bool :=
  bool_decide (s = stopping) || isTerminalTaskState (state_text s).

#[local] Ltac by_table := intros; repeat match goal with
    | s : AiOperatorTaskState |- _ => destruct s
    | ev : TaskTransitionEvent |- _ => destruct ev
    end; vm_compute in *; try done; try congruence; auto.

Lemma next_fenced s ev s' :
  permanently_fenced s = true → next s ev = Ok s' → permanently_fenced s' = true.
Proof. by_table. Qed.

Lemma permanently_fenced_admissionFenced s :
  permanently_fenced s = true → admissionFenced (state_text s) = true.
Proof. by_table. Qed.

Lemma run_fenced s evs s' :
  permanently_fenced s = true → run s evs s' → permanently_fenced s' = true.
Proof. intros Hs Hr; induction Hr; eauto using next_fenced. Qed.

Lemma next_terminal_none s :
  isTerminalTaskState (state_text s) = true → ∀ ev, canTransition (state_text s) ev = false.
Proof. by_table. Qed.

Lemma arm_unknown from ev :
  from ∉ texts ALL_TASK_STATES → arm from ev = None.
Proof.
  intros Hn. unfold arm, arms_of.
  destruct (List.find _ ALL_TASK_STATES) as [s|] eqn:E; [|done].
  apply find_some in E as [Hin Heq]. apply String.eqb_eq in Heq as <-.
  destruct Hn. apply list_elem_of_fmap. exists s. by rewrite list_elem_of_In.
Qed.

(** Terminal task states are exactly the declared states with no way out:
    a history that reaches one ends there, a state that is not terminal always
    has an event it accepts, and a text that is not a declared state accepts no
    event at all. *)
Theorem terminal_states_absorb :
  (∀ s, isTerminalTaskState (state_text s) = true
        ↔ ∀ ev, canTransition (state_text s) ev = false)
  ∧ (∀ s evs s', isTerminalTaskState (state_text s) = true → run s evs s' → evs = [] ∧ s' = s)
  ∧ (∀ from ev, from ∉ texts ALL_TASK_STATES →
       nextTaskState from ev = Err (task_transition_not_allowed from ev)).
Proof.
  split_and!.
  - intros s; split; [apply next_terminal_none|].
    intros H. pose proof (H claim) as H1. pose proof (H resume) as H2. by_table.
  - intros s evs s' Ht Hr. destruct Hr as [|s ev s1 evs s2 Hn _]; [done|].
    pose proof (next_terminal_none s Ht ev) as Hc.
    unfold next, nextTaskState in Hn. unfold canTransition in Hc. by case_match.
  - intros from ev Hn. unfold nextTaskState. by rewrite arm_unknown.
Qed.

(** cancelling is a fence. Once a task is [stopping] (or terminal), no
    sequence of events whatsoever returns it to a state in which reasoning or
    effects may be admitted, nor to one in which the dispatch claim may be won;
    and from every state a task can be in there is a history of at most two
    events that ends in a terminal state. *)
Theorem stop_fences_and_settles :
  (∀ s evs s', permanently_fenced s = true → run s evs s' →
     admissionFenced (state_text s') = true ∧ s' ≠ running ∧ s' ≠ waiting)
  ∧ (∀ s, ∃ evs s', (length evs ≤ 2)%nat ∧ run s evs s' ∧ isTerminalTaskState (state_text s') = true).
Proof.
  split.
  - intros s evs s' Hs Hr. pose proof (run_fenced _ _ _ Hs Hr) as Hf.
    split; [by apply permanently_fenced_admissionFenced|]. split; by intros ->.
  - intros s. destruct (decide (isTerminalTaskState (state_text s) = true)) as [Ht|Ht].
    { exists [], s. split_and!; [simpl; lia | constructor | done]. }
    destruct (decide (s = stopping)) as [->|Hs].
    { exists [settle_cancelled], cancelled. split_and!; [simpl; lia| |done].
      econstructor; [done | constructor]. }
    exists [stop; settle_cancelled], cancelled. split_and!; [simpl; lia| |done].
    apply run_cons with stopping; [by_table|].
    econstructor; [done | constructor].
Qed.

Lemma run_snoc s evs s' :
  run s evs s' → evs = [] ∧ s' = s ∨
    ∃ evs0 ev s1, evs = evs0 ++ [ev] ∧ run s evs0 s1 ∧ next s1 ev = Ok s'.
Proof.
  induction 1 as [s|s ev s1 evs s2 Hn Hr [[-> ->]|(evs0 & ev' & s3 & -> & Hr0 & Hn')]];
    [by left|right..].
  - exists [], ev, s. split_and!; [done|constructor|done].
  - exists (ev :: evs0), ev', s3. split_and!; [done|by econstructor|done].
Qed.

Lemma next_into_running s ev :
  next s ev = Ok running → ev = claim ∨ ev = resume.
Proof. by_table. Qed.

Lemma next_into_result s ev s' :
  next s ev = Ok s' → s' = completed ∨ s' = partial ∨ s' = failed →
  s = running ∧ (ev = complete ∨ ev = partial_ev ∨ ev = fail).
Proof.
  intros Hn Hs. destruct s, ev; vm_compute in Hn; simplify_eq;
    try (split; [done|]); naive_solver.
Qed.

(** Work is only reported from a run. Every entry into [completed],
    [partial] or [failed] is made by the matching event from [running], so a
    history from [queued] that ends in one of them contains, before that event,
    the [claim] or [resume] that put the task into [running]. *)
Theorem results_only_from_running evs s :
  run queued evs s → s = completed ∨ s = partial ∨ s = failed →
  ∃ evs0 ev, evs = evs0 ++ [ev] ∧ run queued evs0 running
    ∧ (ev = complete ∨ ev = partial_ev ∨ ev = fail) ∧ (claim ∈ evs0 ∨ resume ∈ evs0).
Proof.
  intros Hr Hs.
  apply run_snoc in Hr as [[-> ->]|(evs0 & ev & s1 & -> & Hr & Hn)]; [naive_solver|].
  destruct (next_into_result _ _ _ Hn Hs) as [-> Hev].
  exists evs0, ev. split_and!; [done..|].
  apply run_snoc in Hr as [[-> ?]|(evs1 & ev1 & s2 & -> & _ & Hn1)]; [done|].
  apply next_into_running in Hn1 as [->| ->]; [left|right]; set_solver.
Qed.

Lemma results_only_from_running_witness :
  ∃ evs0 ev, [claim; complete] = evs0 ++ [ev] ∧ run queued evs0 running
    ∧ (ev = complete ∨ ev = partial_ev ∨ ev = fail) ∧ (claim ∈ evs0 ∨ resume ∈ evs0).
Proof.
  apply (results_only_from_running [claim; complete] completed); [|by left].
  apply run_cons with running; [reflexivity|].
  apply run_cons with completed; [reflexivity|constructor].
Defined.

End TaskTransitions.

(** ** Task-wide limits *)

Module TaskLimits.

Inductive TaskWideLimitKey :=
| taskMaxReasoningRuns | taskMaxMutationAttemptsPerTarget | taskMaxBudgetCents
| taskMaxActiveTargets | taskMaxPendingPerOrg.

Definition key_text (k : TaskWideLimitKey) : string :=
  match k with
  | taskMaxReasoningRuns => "taskMaxReasoningRuns"
  | taskMaxMutationAttemptsPerTarget => "taskMaxMutationAttemptsPerTarget"
  | taskMaxBudgetCents => "taskMaxBudgetCents"
  | taskMaxActiveTargets => "taskMaxActiveTargets"
  | taskMaxPendingPerOrg => "taskMaxPendingPerOrg"
  end.

Definition AI_AGENT_LIMIT_DEFAULTS (k : TaskWideLimitKey) : Z :=
  match k with
  | taskMaxReasoningRuns => 4
  | taskMaxMutationAttemptsPerTarget => 3
  | taskMaxBudgetCents => 200
  | taskMaxActiveTargets => 1
  | taskMaxPendingPerOrg => 100
  end.

(** A partial record of limits, or [null] when no policy resolved. *)
Definition TaskLimitPolicy := option (TaskWideLimitKey → option Z).

Inductive TaskLimitCheck :=
| ok
| refused (limit : TaskWideLimitKey) (detail : string).

Definition ceiling (policyLimits : TaskLimitPolicy) (key : TaskWideLimitKey) : Z :=
  default (AI_AGENT_LIMIT_DEFAULTS key) (policyLimits ≫= λ p, p key).

Definition narrower (recipeBound : Z) (recipeLabel : string)
    (policyLimits : TaskLimitPolicy) (key : TaskWideLimitKey) : Z * string :=
  let policyCap := ceiling policyLimits key in
  if recipeBound <? policyCap
  then (recipeBound, "recipe " +:+ recipeLabel)
  else (policyCap, "agent policy " +:+ key_text key).

Definition checkTaskReasoningRuns (attemptOrdinal recipeBound : Z)
    (policyLimits : TaskLimitPolicy) : TaskLimitCheck :=
  let '(cap, source) :=
    narrower recipeBound "bounds.maxReasoningRuns" policyLimits taskMaxReasoningRuns in
  if attemptOrdinal <? cap then ok
  else refused taskMaxReasoningRuns
         ("reasoning-run limit reached (" +:+ pretty cap +:+ ", " +:+ source +:+ ")").

Definition checkTaskMutationAttempts (mutationAttempts recipeBound : Z)
    (policyLimits : TaskLimitPolicy) : TaskLimitCheck :=
  let '(cap, source) :=
    narrower recipeBound "bounds.maxMutationAttempts" policyLimits
      taskMaxMutationAttemptsPerTarget in
  if mutationAttempts <? cap then ok
  else refused taskMaxMutationAttemptsPerTarget
         ("mutation-attempt limit reached (" +:+ pretty mutationAttempts +:+ " of "
          +:+ pretty cap +:+ ", " +:+ source +:+ ")").

Definition checkTaskBudget (spentCents : Z) (policyLimits : TaskLimitPolicy) : TaskLimitCheck :=
  let cap := ceiling policyLimits taskMaxBudgetCents in
  if spentCents <? cap then ok
  else refused taskMaxBudgetCents
         ("task model budget exhausted (" +:+ pretty spentCents +:+ " of " +:+ pretty cap
          +:+ " cents spent, agent policy taskMaxBudgetCents)").

Definition checkTaskActiveTargets (targetCount : Z) (policyLimits : TaskLimitPolicy)
    : TaskLimitCheck :=
  let cap := ceiling policyLimits taskMaxActiveTargets in
  if targetCount <=? cap then ok
  else refused taskMaxActiveTargets
         ("task would hold " +:+ pretty targetCount +:+ " active targets, above the limit of "
          +:+ pretty cap +:+ " (agent policy taskMaxActiveTargets)").

Definition checkTaskPendingCapacity (pendingCount : Z) (policyLimits : TaskLimitPolicy)
    : TaskLimitCheck :=
  let cap := ceiling policyLimits taskMaxPendingPerOrg in
  if pendingCount <? cap then ok
  else refused taskMaxPendingPerOrg
         ("org already has " +:+ pretty pendingCount +:+ " pending Operator tasks (limit "
          +:+ pretty cap +:+ ", agent policy taskMaxPendingPerOrg)").

Lemma narrower_cap b l p k : (narrower b l p k).1 = Z.min b (ceiling p k).
Proof. unfold narrower. destruct (Z.ltb_spec b (ceiling p k)); simpl; lia. Qed.

(** Counting admissions one by one from zero, a check that admits ordinal [n]
    exactly while [n] is below a cap admits [max 0 cap] of them. *)
Fixpoint admissions (check : Z → TaskLimitCheck) (fuel : nat) (n : Z) : nat :=
  match fuel with
  | O => 0
  | S fuel => match check n with ok => S (admissions check fuel (n + 1)) | refused _ _ => 0 end
  end.

Lemma admissions_count check cap fuel n :
  (∀ m, check m = ok ↔ m < cap) →
  admissions check fuel n = Nat.min fuel (Z.to_nat (cap - n)).
Proof.
  intros Hc. revert n. induction fuel as [|fuel IH]; intros n; [done|]. cbn [admissions].
  destruct (check n) eqn:E.
  - apply Hc in E. rewrite IH. lia.
  - assert (¬ n < cap) by (intros H%Hc; congruence). lia.
Qed.

(** Task-wide limits are ceilings. A policy with a missing limit is bounded
    by the default, the recipe can only narrow it, and a task that asks for one
    more reasoning run (or one more mutation attempt) as often as it likes is
    admitted exactly [min recipe policy] times; the reported source of the cap
    is the bound that was used. *)
Theorem limits_are_ceilings recipeBound policy fuel :
  0 ≤ recipeBound → 0 ≤ ceiling policy taskMaxReasoningRuns →
  0 ≤ ceiling policy taskMaxMutationAttemptsPerTarget →
  Z.min recipeBound (ceiling policy taskMaxReasoningRuns) ≤ Z.of_nat fuel →
  Z.min recipeBound (ceiling policy taskMaxMutationAttemptsPerTarget) ≤ Z.of_nat fuel →
  Z.of_nat (admissions (λ n, checkTaskReasoningRuns n recipeBound policy) fuel 0)
    = Z.min recipeBound (ceiling policy taskMaxReasoningRuns)
  ∧ Z.of_nat (admissions (λ n, checkTaskMutationAttempts n recipeBound policy) fuel 0)
    = Z.min recipeBound (ceiling policy taskMaxMutationAttemptsPerTarget)
  ∧ (policy = None → ∀ k, ceiling policy k = AI_AGENT_LIMIT_DEFAULTS k).
Proof.
  intros Hb Hp1 Hp2 Hf1 Hf2.
  assert (Hlt : ∀ n cap (d : TaskLimitCheck), d ≠ ok →
            (if n <? cap then ok else d) = ok ↔ n < cap).
  { intros n cap d Hd. destruct (Z.ltb_spec n cap); split; intros; try done; lia. }
  split_and!.
  - rewrite (admissions_count _ (Z.min recipeBound (ceiling policy taskMaxReasoningRuns))); [lia|].
    intros m. unfold checkTaskReasoningRuns.
    rewrite <-(narrower_cap _ "bounds.maxReasoningRuns").
    destruct (narrower _ _ _ _); by apply Hlt.
  - rewrite (admissions_count _ (Z.min recipeBound (ceiling policy taskMaxMutationAttemptsPerTarget))); [lia|].
    intros m. unfold checkTaskMutationAttempts.
    rewrite <-(narrower_cap _ "bounds.maxMutationAttempts").
    destruct (narrower _ _ _ _); by apply Hlt.
  - by intros ->.
Qed.

Lemma limits_are_ceilings_witness :
  Z.of_nat (admissions (λ n, checkTaskReasoningRuns n 2 None) 10 0) = 2
  ∧ Z.of_nat (admissions (λ n, checkTaskMutationAttempts n 2 None) 10 0) = 2
  ∧ (None = None :> TaskLimitPolicy → ∀ k, ceiling None k = AI_AGENT_LIMIT_DEFAULTS k).
Proof. apply (limits_are_ceilings 2 None 10); vm_compute; congruence. Defined.

End TaskLimits.
