(* ===== verification/OperatorDispatch.v ===== *)
(** * AI Operator: leases, leased writes and the dispatch claim

    Models, over the three tables they share ([ai_operator_tasks],
    [ai_operator_operations], [action_intents]):
    - [taskCoordinator.ts]: [claimTaskLease], [writeLeased] and the task patches
      of [yieldToWait], [settle] and [admitReasoningRun];
    - [dispatchClaim.ts]: [evaluateTaskClaimPredicate],
      [claimTaskLinkedIntentForDispatch], [revertTaskLinkedDispatchClaim];
    - [operationService.ts]: the writers of the operation row.

    Each exported function runs in one database transaction and takes row locks
    in the order task, operation, intent, so it is one atomic function on the
    database state [Db]; interleaving is the order in which the relation [step]
    takes them.  A thrown error rolls the transaction back and is an [Err]. *)
From S2P Require Import Prelude OperatorTask.
From stdpp Require Import base tactics list strings gmap sets pretty.
From Stdlib Require Import ZArith Lia.
Open Scope Z_scope.
Import TaskTransitions.

Module Dispatch.

(** ** Rows. Times are milliseconds; [None] is SQL [NULL]. *)

Record TaskRow := mkTask {
  t_orgId : string;
  t_state : AiOperatorTaskState;
  t_revision : Z;
  t_attemptOrdinal : Z;
  t_leaseOwner : option string;
  t_leaseEpoch : Z;
  t_leaseExpiresAt : option Z;
  t_nextWakeAt : option Z;
  t_deadlineAt : option Z;
  t_targetDetachedAt : option Z;
  t_phase : option string;
  t_currentStepKey : option string;
  t_waitReason : option string;
  t_waitDependency : option (string * string);
  t_outcome : option string;
  t_outcomeDetail : option string;
  t_handoffSummary : option string;
  t_checkpoint : string;
  t_updatedAt : Z }.

Inductive DispatchState := reserved | dispatched | dispatch_failed | op_cancelled | abandoned.
Inductive OperationResultState := pending | succeeded | op_failed | unknown | superseded.

#[export] Instance DispatchState_eq_dec : EqDecision DispatchState.
Proof. solve_decision. Defined.
#[export] Instance OperationResultState_eq_dec : EqDecision OperationResultState.
Proof. solve_decision. Defined.

Record OperationRow := mkOp {
  o_id : string;
  o_intentId : option string;
  o_planRevision : option Z;
  o_dispatchState : DispatchState;
  o_dispatchedAt : option Z;
  o_claimedLeaseEpoch : option Z;
  o_dispatchDetail : option string;
  o_cancelRequestedAt : option Z;
  o_executionRef : option (string * string);
  o_resultState : OperationResultState;
  o_result : string;
  o_resultAt : option Z;
  o_updatedAt : Z }.

Record IntentRow := mkIntent {
  i_orgId : string;
  i_taskId : option string;
  i_status : string;
  i_releaseBy : option Z;
  i_expiresAt : option Z;
  i_executedAt : option Z;
  i_executionStartedAt : option Z }.

(** [ai_operator_operations.intent_id] has no unique index: the table is a list
    of rows in scan order, [SELECT … LIMIT 1] the first match, [UPDATE] every
    match. *)
Record Db := mkDb {
  tasks : gmap string TaskRow;
  operations : list OperationRow;
  intents : gmap string IntentRow }.

Definition with_tasks (f : gmap string TaskRow → gmap string TaskRow) (db : Db) : Db :=
  mkDb (f (tasks db)) (operations db) (intents db).
Definition with_intents (f : gmap string IntentRow → gmap string IntentRow) (db : Db) : Db :=
  mkDb (tasks db) (operations db) (f (intents db)).

(** [UPDATE ai_operator_operations SET … WHERE p]: the new table and the number
    of rows returned. *)
Definition update_ops (p : OperationRow → bool) (f : OperationRow → OperationRow) (db : Db)
    : Db * nat :=
  (mkDb (tasks db) ((λ o, if p o then f o else o) <$> operations db) (intents db),
   length (List.filter p (operations db))).

(** ** Taking the lease *)

Definition TASK_LEASE_MS : Z := 60000.

Inductive LeaseLoss := not_found | not_claimable | lost_race.
Inductive LeaseClaim :=
| lease_won (task : TaskRow) (leaseEpoch : Z)
| lease_lost (reason : LeaseLoss).

Definition at_or_before (t : option Z) (now : Z) : bool :=
  match t with Some x => x <=? now | None => false end.

Definition leaseExpired (t : TaskRow) (now : Z) : bool :=
  match t_leaseExpiresAt t with None => true | Some x => x <=? now end.

Definition wakeDue (t : TaskRow) (now : Z) : bool := at_or_before (t_nextWakeAt t) now.

Definition lease_door (t : TaskRow) (requireWakeDue : bool) (now : Z) : bool :=
  (bool_decide (t_state t = queued) && (leaseExpired t now || wakeDue t now))
  || (bool_decide (t_state t = running) && leaseExpired t now)
  || (bool_decide (t_state t = stopping) && leaseExpired t now)
  || (bool_decide (t_state t = waiting) && (negb requireWakeDue || wakeDue t now)).

Definition lease_patch (st : AiOperatorTaskState) (owner : string) (now : Z) (t : TaskRow)
    : TaskRow :=
  mkTask (t_orgId t) st (t_revision t) (t_attemptOrdinal t) (Some owner)
    (t_leaseEpoch t + 1) (Some (now + TASK_LEASE_MS)) (t_nextWakeAt t) (t_deadlineAt t)
    (t_targetDetachedAt t) (t_phase t) (t_currentStepKey t) (t_waitReason t)
    (t_waitDependency t) (t_outcome t) (t_outcomeDetail t) (t_handoffSummary t)
    (t_checkpoint t) now.

(** The guarded [UPDATE] of the claim: it is written against the row read
    before, [current], and matches only while that row's revision and epoch are
    still the stored ones. *)
Definition lease_update (db : Db) (orgId taskId : string) (current : TaskRow)
    (st : AiOperatorTaskState) (owner : string) (now : Z) : LeaseClaim * Db :=
  match tasks db !! taskId with
  | Some t =>
      if bool_decide (t_orgId t = orgId) && (t_revision t =? t_revision current)
         && (t_leaseEpoch t =? t_leaseEpoch current)
      then let t' := lease_patch st owner now t in
           (lease_won t' (t_leaseEpoch t'), with_tasks (<[taskId := t']>) db)
      else (lease_lost lost_race, db)
  | None => (lease_lost lost_race, db)
  end.

(** [rowLocked]: another transaction holds the row, which [SKIP LOCKED] makes
    invisible to the read. *)
Definition claimTaskLease (db : Db) (orgId taskId : string) (requireWakeDue : bool)
    (owner : string) (now : Z) (rowLocked : bool)
    : result TaskTransitionError (LeaseClaim * Db) :=
  match (if rowLocked then None else tasks db !! taskId) with
  | None => Ok (lease_lost not_found, db)
  | Some current =>
      if negb (bool_decide (t_orgId current = orgId)) then Ok (lease_lost not_found, db)
      else if negb (lease_door current requireWakeDue now)
      then Ok (lease_lost not_claimable, db)
      else let! st := nextTaskState (state_text (t_state current)) claim in
           Ok (lease_update db orgId taskId current st owner now)
  end.

(** ** Writes of a lease holder *)

(** [also] is the callback run in the same transaction when the compare-and-set
    won; [None] is its throw, which rolls everything back. *)
Definition writeLeased (db : Db) (orgId taskId : string) (revision leaseEpoch : Z)
    (patch : TaskRow → TaskRow) (now : Z) (also : Db → option Db) : result unit (bool * Db) :=
  match tasks db !! taskId with
  | Some t =>
      if bool_decide (t_orgId t = orgId) && (t_revision t =? revision)
         && (t_leaseEpoch t =? leaseEpoch)
      then let t' := patch t in
           let t'' := mkTask (t_orgId t') (t_state t') (t_revision t') (t_attemptOrdinal t')
             (t_leaseOwner t') (t_leaseEpoch t') (t_leaseExpiresAt t') (t_nextWakeAt t')
             (t_deadlineAt t') (t_targetDetachedAt t') (t_phase t') (t_currentStepKey t')
             (t_waitReason t') (t_waitDependency t') (t_outcome t') (t_outcomeDetail t')
             (t_handoffSummary t') (t_checkpoint t') now in
           match also (with_tasks (<[taskId := t'']>) db) with
           | Some db' => Ok (true, db')
           | None => Err tt
           end
      else Ok (false, db)
  | None => Ok (false, db)
  end.

(** [{ ...(x ? { field: x } : {}) }]: a field kept when the argument is absent
    or the empty string. *)
Definition keep_or_set (old : option string) (x : option string) : option string :=
  match x with Some s => if String.eqb s "" then old else Some s | None => old end.

Definition slice4000 (s : string) : string := String.substring 0 4000 s.

(** The patch [yieldToWait] hands to [writeLeased]; [st] is the state
    [nextTaskState] gives for the event [wait]. *)
Definition yieldToWait_patch (st : AiOperatorTaskState) (reason : string)
    (dependency : option (string * string)) (wakeAfterMs : Z)
    (stepKey checkpoint : option string) (now : Z) (t : TaskRow) : TaskRow :=
  mkTask (t_orgId t) st (t_revision t) (t_attemptOrdinal t) None (t_leaseEpoch t) None
    (Some (now + wakeAfterMs)) (t_deadlineAt t) (t_targetDetachedAt t) (t_phase t)
    (keep_or_set (t_currentStepKey t) stepKey) (Some reason) dependency (t_outcome t)
    (t_outcomeDetail t) (t_handoffSummary t)
    (default (t_checkpoint t) checkpoint) (t_updatedAt t).

(** The patch [settle] hands to [writeLeased]. *)
Definition settle_patch (st : AiOperatorTaskState) (outcome detail : string)
    (handoffSummary checkpoint : option string) (t : TaskRow) : TaskRow :=
  mkTask (t_orgId t) st (t_revision t) (t_attemptOrdinal t) None (t_leaseEpoch t) None None
    (t_deadlineAt t) (t_targetDetachedAt t) (Some "document") (t_currentStepKey t) None None
    (Some outcome) (Some (slice4000 detail))
    (keep_or_set (t_handoffSummary t) (slice4000 <$> handoffSummary))
    (default (t_checkpoint t) checkpoint) (t_updatedAt t).

(** The stamp of [admitReasoningRun]: a new plan revision and attempt when
    [bumpPlanRevision]. [task] is the coordinator's own snapshot. *)
Definition admit_patch (task : TaskRow) (bumpPlanRevision : bool) (stepKey checkpoint : string)
    (t : TaskRow) : TaskRow :=
  mkTask (t_orgId t) (t_state t)
    (if bumpPlanRevision then t_revision task + 1 else t_revision task)
    (if bumpPlanRevision then t_attemptOrdinal task + 1 else t_attemptOrdinal task)
    (t_leaseOwner t) (t_leaseEpoch t) (t_leaseExpiresAt t) (t_nextWakeAt t) (t_deadlineAt t)
    (t_targetDetachedAt t) (Some "investigate") (Some stepKey) (t_waitReason t) (t_waitDependency t)
    (t_outcome t) (t_outcomeDetail t) (t_handoffSummary t) checkpoint (t_updatedAt t).

(** ** Writers of the operation row *)

Definition for_intent (intentId : string) (o : OperationRow) : bool :=
  bool_decide (o_intentId o = Some intentId).

Definition boundedDetail (detail : string) : string :=
  if (500 <? String.length detail)%nat then String.substring 0 497 detail +:+ "..." else detail.

Definition set_dispatched (epoch : option Z) (now : Z) (o : OperationRow) : OperationRow :=
  mkOp (o_id o) (o_intentId o) (o_planRevision o) dispatched (Some now) epoch None
    (o_cancelRequestedAt o) (o_executionRef o) (o_resultState o) (o_result o) (o_resultAt o) now.

Definition markOperationDispatched (db : Db) (intentId : string) (claimedLeaseEpoch : option Z)
    (now : Z) : result nat Db :=
  let '(db', rows) := update_ops
    (λ o, for_intent intentId o && bool_decide (o_dispatchState o = reserved))
    (set_dispatched claimedLeaseEpoch now) db in
  if (rows =? 1)%nat then Ok db' else Err rows.

Definition markOperationDispatchFailed (db : Db) (intentId detail : string) (now : Z) : Db :=
  (update_ops
    (λ o, for_intent intentId o
          && (bool_decide (o_dispatchState o = reserved)
              || bool_decide (o_dispatchState o = dispatched))
          && bool_decide (o_executionRef o = None))
    (λ o, mkOp (o_id o) (o_intentId o) (o_planRevision o) dispatch_failed (o_dispatchedAt o)
       (o_claimedLeaseEpoch o) (Some (boundedDetail detail)) (o_cancelRequestedAt o)
       (o_executionRef o) (o_resultState o) (o_result o) (o_resultAt o) now) db).1.

Definition set_reserved (detail : string) (now : Z) (o : OperationRow) : OperationRow :=
  mkOp (o_id o) (o_intentId o) (o_planRevision o) reserved None (o_claimedLeaseEpoch o)
    (Some (boundedDetail detail)) (o_cancelRequestedAt o) (o_executionRef o) (o_resultState o)
    (o_result o) (o_resultAt o) now.

Definition revertOperationToReserved (db : Db) (intentId detail : string) (now : Z) : Db :=
  (update_ops (for_intent intentId) (set_reserved detail now) db).1.

Definition markOperationCancelled (db : Db) (intentId : string) (now : Z) : Db :=
  (update_ops (for_intent intentId)
    (λ o, mkOp (o_id o) (o_intentId o) (o_planRevision o) op_cancelled (o_dispatchedAt o)
       (o_claimedLeaseEpoch o) (o_dispatchDetail o) (Some now) (o_executionRef o)
       (o_resultState o) (o_result o) (o_resultAt o) now) db).1.

Definition markOperationCancelRequested (db : Db) (intentId : string) (now : Z) : bool * Db :=
  let '(db', rows) := update_ops
    (λ o, for_intent intentId o && bool_decide (o_cancelRequestedAt o = None))
    (λ o, mkOp (o_id o) (o_intentId o) (o_planRevision o) (o_dispatchState o)
       (o_dispatchedAt o) (o_claimedLeaseEpoch o) (o_dispatchDetail o) (Some now)
       (o_executionRef o) (o_resultState o) (o_result o) (o_resultAt o) now) db in
  ((0 <? rows)%nat, db').

Definition RESULT_STATE_RANK (r : OperationResultState) : Z :=
  match r with pending => 0 | unknown => 1 | superseded => 1 | succeeded => 2 | op_failed => 2 end.

(** The [CASE] of the guard in SQL. *)
Definition sql_result_rank (r : OperationResultState) : Z :=
  match r with pending => 0 | unknown => 1 | superseded => 1 | _ => 2 end.

Definition set_result (resultState : OperationResultState) (result : string)
    (executionRef : option (string * string)) (now : Z) (o : OperationRow) : OperationRow :=
  mkOp (o_id o) (o_intentId o) (o_planRevision o) (o_dispatchState o) (o_dispatchedAt o)
    (o_claimedLeaseEpoch o) (o_dispatchDetail o) (o_cancelRequestedAt o)
    (match executionRef with Some r => Some r | None => o_executionRef o end)
    resultState result (Some now) now.

(** [result] is the already bounded JSON text that [boundedResult] returns. *)
Definition recordOperationResult (db : Db) (intentId : string)
    (resultState : OperationResultState) (result : string)
    (executionRef : option (string * string)) (now : Z) : Db :=
  (update_ops
    (λ o, for_intent intentId o
          && (sql_result_rank (o_resultState o) <? RESULT_STATE_RANK resultState))
    (set_result resultState result executionRef now) db).1.

Definition recordOperationExecutionRef (db : Db) (intentId : string) (ref : string * string)
    (now : Z) : Db :=
  (update_ops (λ o, for_intent intentId o && bool_decide (o_executionRef o = None))
    (λ o, mkOp (o_id o) (o_intentId o) (o_planRevision o) (o_dispatchState o)
       (o_dispatchedAt o) (o_claimedLeaseEpoch o) (o_dispatchDetail o)
       (o_cancelRequestedAt o) (Some ref) (o_resultState o) (o_result o) (o_resultAt o) now) db).1.

(** ** The dispatch claim *)

Inductive DispatchClaimRefusal :=
| operation_missing | operation_already_claimed | task_not_claimable | intent_not_claimable.
Inductive DispatchClaimResult :=
| claim_won (leaseEpoch : Z)
| claim_refused (refusal : DispatchClaimRefusal) (detail : string).

Definition CLAIMABLE_TASK_STATES : list AiOperatorTaskState := [running; waiting].

Definition null_or (z : option Z) : string :=
  match z with Some n => pretty n | None => "null" end.

Definition evaluateTaskClaimPredicate (task : TaskRow) (planRevision : option Z) (now : Z)
    (expectedLeaseEpoch : option Z) : option string :=
  if negb (bool_decide (t_state task ∈ CLAIMABLE_TASK_STATES)) then
    Some ("task state '" +:+ state_text (t_state task) +:+ "' cannot admit a new effect")
  else if negb (bool_decide (planRevision = Some (t_revision task))) then
    Some ("plan revision moved: approved " +:+ null_or planRevision +:+ ", task now "
          +:+ pretty (t_revision task))
  else match t_deadlineAt task with
  | None => Some "task has no deadline_at — admission did not bound it"
  | Some deadline =>
      if deadline <=? now then Some "task deadline has passed"
      else if negb (bool_decide (t_targetDetachedAt task = None)) then
        Some "task target is detached"
      else match expectedLeaseEpoch with
      | Some e =>
          if negb (t_leaseEpoch task =? e) then
            Some ("lease epoch moved: claimant " +:+ pretty e +:+ ", task now "
                  +:+ pretty (t_leaseEpoch task))
          else None
      | None => None
      end
  end.

(** The [EXISTS] of the intent update: the task predicate restated in SQL. *)
Definition sql_task_exists (db : Db) (i : IntentRow) (planRevision : option Z) (sqlNow : Z) : bool :=
  match i_taskId i ≫= λ id, tasks db !! id with
  | Some t =>
      bool_decide (t_orgId t = i_orgId i)
      && (bool_decide (t_state t = running) || bool_decide (t_state t = waiting))
      && bool_decide (planRevision = Some (t_revision t))
      && (match t_deadlineAt t with Some d => sqlNow <? d | None => false end)
      && bool_decide (t_targetDetachedAt t = None)
  | None => false
  end.

Definition release_live (i : IntentRow) (sqlNow : Z) : bool :=
  match (match i_releaseBy i with Some r => Some r | None => i_expiresAt i end) with
  | Some r => sqlNow <? r
  | None => false
  end.

Definition intent_claimable (db : Db) (i : IntentRow) (planRevision : option Z) (sqlNow : Z) : bool :=
  String.eqb (i_status i) "approved" && release_live i sqlNow
  && sql_task_exists db i planRevision sqlNow.

Definition set_executing (now : Z) (i : IntentRow) : IntentRow :=
  mkIntent (i_orgId i) (i_taskId i) "executing" (i_releaseBy i) (i_expiresAt i) None (Some now).

Record TaskLinkedIntentRef := mkRef { r_id : string; r_orgId : string; r_taskId : string }.

Definition dispatch_text (s : DispatchState) : string :=
  match s with
  | reserved => "reserved" | dispatched => "dispatched" | dispatch_failed => "dispatch_failed"
  | op_cancelled => "cancelled" | abandoned => "abandoned"
  end.

(** [jsNow] is the process clock, [sqlNow] the transaction timestamp. *)
Definition claimTaskLinkedIntentForDispatch (db : Db) (intent : TaskLinkedIntentRef)
    (expectedLeaseEpoch : option Z) (jsNow sqlNow : Z)
    : result nat (DispatchClaimResult * Db) :=
  let refuse r d := Ok (claim_refused r d, db) in
  match tasks db !! r_taskId intent with
  | Some task =>
    if negb (bool_decide (t_orgId task = r_orgId intent)) then
      refuse task_not_claimable
        ("task " +:+ r_taskId intent +:+ " not found in org " +:+ r_orgId intent)
    else match List.find (for_intent (r_id intent)) (operations db) with
    | None =>
        refuse operation_missing ("no operation row reserved for intent " +:+ r_id intent)
    | Some operation =>
      if negb (bool_decide (o_dispatchState operation = reserved)) then
        refuse operation_already_claimed
          ("operation " +:+ o_id operation +:+ " is '"
           +:+ dispatch_text (o_dispatchState operation) +:+ "', not 'reserved'")
      else match evaluateTaskClaimPredicate task (o_planRevision operation) jsNow
                   expectedLeaseEpoch with
      | Some detail => refuse task_not_claimable detail
      | None =>
        match intents db !! r_id intent with
        | Some i =>
          if intent_claimable db i (o_planRevision operation) sqlNow then
            let db1 := with_intents (<[r_id intent := set_executing jsNow i]>) db in
            let! db2 := markOperationDispatched db1 (r_id intent)
                          (Some (t_leaseEpoch task)) jsNow in
            Ok (claim_won (t_leaseEpoch task), db2)
          else refuse intent_not_claimable
                 ("intent " +:+ r_id intent +:+ " was not 'approved' within its release lease")
        | None => refuse intent_not_claimable
                 ("intent " +:+ r_id intent +:+ " was not 'approved' within its release lease")
        end
      end
    end
  | None => refuse task_not_claimable
      ("task " +:+ r_taskId intent +:+ " not found in org " +:+ r_orgId intent)
  end.

Definition set_approved (i : IntentRow) : IntentRow :=
  mkIntent (i_orgId i) (i_taskId i) "approved" (i_releaseBy i) (i_expiresAt i) (i_executedAt i)
    (i_executionStartedAt i).

Definition revertTaskLinkedDispatchClaim (db : Db) (intentId detail : string) (now : Z) : bool * Db :=
  match intents db !! intentId with
  | Some i =>
      if String.eqb (i_status i) "executing" then
        let db1 := with_intents (<[intentId := set_approved i]>) db in
        (true, revertOperationToReserved db1 intentId detail now)
      else (false, db)
  | None => (false, db)
  end.

(** ** Histories

    One constructor per transaction of this component. [step_control] stands
    for the other services' writes to a task row (pause, stop, detach, settle,
    human work): none of them writes [lease_epoch], and task ids are never
    reused. [step_intents] stands for every writer of [action_intents] outside
    this component, and [step_reserve] for a new operation row. *)

Definition commits (ok : bool) (db : Db) : option Db := if ok then Some db else None.

Definition settle_event (ev : TaskTransitionEvent) : bool :=
  bool_decide (ev ∈ [complete; partial_ev; hand_off; fail]).

Inductive step : Db → Db → Prop :=
| step_claim db orgId id wake owner now locked c db' :
    claimTaskLease db orgId id wake owner now locked = Ok (c, db') → step db db'
| step_wait db orgId id task st epoch reason dep ms key cp now ok b db' :
    nextTaskState (state_text (t_state task)) wait = Ok st →
    writeLeased db orgId id (t_revision task) epoch
      (yieldToWait_patch st reason dep ms key cp now) now (commits ok) = Ok (b, db') →
    step db db'
| step_settle db orgId id task st ev epoch outcome detail summary cp now ok b db' :
    settle_event ev = true →
    nextTaskState (state_text (t_state task)) ev = Ok st →
    writeLeased db orgId id (t_revision task) epoch
      (settle_patch st outcome detail summary cp) now (commits ok) = Ok (b, db') →
    step db db'
| step_admit db orgId id task epoch bump key cp now ok b db' :
    writeLeased db orgId id (t_revision task) epoch (admit_patch task bump key cp) now
      (commits ok) = Ok (b, db') →
    step db db'
| step_dispatch db ref e jsNow sqlNow r db' :
    claimTaskLinkedIntentForDispatch db ref e jsNow sqlNow = Ok (r, db') → step db db'
| step_revert db id detail now b db' :
    revertTaskLinkedDispatchClaim db id detail now = (b, db') → step db db'
| step_dispatch_failed db id detail now :
    step db (markOperationDispatchFailed db id detail now)
| step_op_cancelled db id now : step db (markOperationCancelled db id now)
| step_cancel_requested db id now : step db (markOperationCancelRequested db id now).2
| step_result db id r text ref now : step db (recordOperationResult db id r text ref now)
| step_exec_ref db id ref now : step db (recordOperationExecutionRef db id ref now)
| step_control db id t t' :
    tasks db !! id = Some t → t_leaseEpoch t' = t_leaseEpoch t →
    step db (with_tasks (<[id := t']>) db)
| step_new_task db id t : tasks db !! id = None → step db (with_tasks (<[id := t]>) db)
| step_intents db f : step db (with_intents f db)
| step_reserve db o : step db (mkDb (tasks db) (operations db ++ [o]) (intents db)).

(** ** Lemmas *)

Lemma tasks_update_ops p f db : tasks (update_ops p f db).1 = tasks db.
Proof. done. Qed.
Lemma intents_update_ops p f db : intents (update_ops p f db).1 = intents db.
Proof. done. Qed.

Lemma markOperationDispatched_inv db id e now db' :
  markOperationDispatched db id e now = Ok db' →
  tasks db' = tasks db ∧ intents db' = intents db ∧
  operations db' =
    (λ o, if for_intent id o && bool_decide (o_dispatchState o = reserved)
          then set_dispatched e now o else o) <$> operations db ∧
  length (List.filter (λ o, for_intent id o && bool_decide (o_dispatchState o = reserved))
            (operations db)) = 1%nat.
Proof.
  unfold markOperationDispatched, update_ops. intros H. case_match eqn:E; [|done].
  apply Nat.eqb_eq in E. by simplify_eq.
Qed.

Lemma lease_door_leasable t w now :
  lease_door t w now = true → is_Ok (nextTaskState (state_text (t_state t)) claim) = true.
Proof. unfold lease_door. by destruct (t_state t). Qed.

(** A claim either leaves the database alone, or is a win of exactly this shape. *)
Lemma claimTaskLease_inv db orgId id w owner now locked :
  ∃ c db', claimTaskLease db orgId id w owner now locked = Ok (c, db') ∧
  ((∃ r, c = lease_lost r ∧ db' = db ∧ (r = not_found ∨ r = not_claimable)) ∨
   ∃ t st, locked = false ∧ tasks db !! id = Some t ∧ t_orgId t = orgId
     ∧ lease_door t w now = true
     ∧ nextTaskState (state_text (t_state t)) claim = Ok st
     ∧ c = lease_won (lease_patch st owner now t) (t_leaseEpoch t + 1)
     ∧ db' = with_tasks (<[id := lease_patch st owner now t]>) db).
Proof.
  unfold claimTaskLease.
  destruct (if locked then None else tasks db !! id) as [t|] eqn:Et; [|naive_solver].
  destruct locked; [done|].
  case_bool_decide as Horg; simpl; [|naive_solver].
  destruct (lease_door t w now) eqn:Hd; simpl; [|naive_solver].
  pose proof (lease_door_leasable _ _ _ Hd) as Hok.
  destruct (nextTaskState _ _) as [st|] eqn:Hn; [|done]. simpl.
  unfold lease_update. rewrite Et, bool_decide_true, !Z.eqb_refl by done. simpl.
  do 2 eexists. split; [done|]. right. exists t, st. naive_solver.
Qed.

Lemma writeLeased_inv db orgId id rev epoch patch now also b db' :
  writeLeased db orgId id rev epoch patch now also = Ok (b, db') →
  (b = false ∧ db' = db) ∨
  ∃ t t'' , b = true ∧ tasks db !! id = Some t ∧ t_orgId t = orgId ∧ t_revision t = rev
    ∧ t_leaseEpoch t = epoch ∧ t_leaseEpoch t'' = t_leaseEpoch (patch t)
    ∧ t_revision t'' = t_revision (patch t) ∧ t_state t'' = t_state (patch t)
    ∧ also (with_tasks (<[id := t'']>) db) = Some db'.
Proof.
  unfold writeLeased. intros H. destruct (tasks db !! id) as [t|] eqn:E; [|naive_solver].
  destruct (bool_decide (t_orgId t = orgId) && (t_revision t =? rev)
            && (t_leaseEpoch t =? epoch)) eqn:C; [|naive_solver].
  bool_hyps. case_match eqn:Ha; [|done]. right. simplify_eq.
  eexists t, _. split_and!; cycle -1; [exact Ha|done..].
Qed.

Lemma writeLeased_stale db orgId id rev epoch patch now also t :
  tasks db !! id = Some t → t_leaseEpoch t ≠ epoch →
  writeLeased db orgId id rev epoch patch now also = Ok (false, db).
Proof.
  intros E Hne. unfold writeLeased. rewrite E.
  apply Z.eqb_neq in Hne. by rewrite Hne, andb_false_r.
Qed.

Definition epoch_of (db : Db) (id : string) : option Z := t_leaseEpoch <$> tasks db !! id.

(** The epoch of an existing task never decreases and the task never disappears. *)
Definition epoch_le (id : string) (db db' : Db) : Prop :=
  ∀ e, epoch_of db id = Some e → ∃ e', epoch_of db' id = Some e' ∧ e ≤ e'.

#[export] Instance epoch_le_preorder id : PreOrder (epoch_le id).
Proof.
  split; [intros db e He; by exists e; split|].
  intros d1 d2 d3 H12 H23 e He. destruct (H12 e He) as (e2 & H2 & ?).
  destruct (H23 e2 H2) as (e3 & H3 & ?). exists e3; split; [done|lia].
Qed.

Lemma epoch_le_same_tasks id db db' : tasks db' = tasks db → epoch_le id db db'.
Proof. intros H e He. exists e. split; [|done]. unfold epoch_of in *. by rewrite H. Qed.

Lemma epoch_le_insert id db id' t t' :
  tasks db !! id' = Some t → t_leaseEpoch t ≤ t_leaseEpoch t' →
  epoch_le id db (with_tasks (<[id' := t']>) db).
Proof.
  intros Ht Hle e He. unfold epoch_of in *; simpl. destruct (decide (id' = id)) as [->|Hne].
  - rewrite lookup_insert_eq; simpl. rewrite Ht in He; simplify_eq/=. by eexists.
  - rewrite lookup_insert_ne by done. by exists e.
Qed.

Lemma writeLeased_epoch_le id db orgId id' rev epoch patch now ok b db' :
  (∀ t, t_leaseEpoch (patch t) = t_leaseEpoch t) →
  writeLeased db orgId id' rev epoch patch now (commits ok) = Ok (b, db') → epoch_le id db db'.
Proof.
  intros Hp H. apply writeLeased_inv in H
    as [[_ ->]|(t & t'' & _ & Ht & _ & _ & _ & He & _ & _ & Ha)]; [reflexivity|].
  unfold commits in Ha. case_match; simplify_eq. apply epoch_le_insert with t; [done|].
  rewrite He, Hp. lia.
Qed.

Lemma claimTaskLinked_tasks db ref e j s r db' :
  claimTaskLinkedIntentForDispatch db ref e j s = Ok (r, db') → tasks db' = tasks db.
Proof.
  unfold claimTaskLinkedIntentForDispatch. intros H. repeat (case_match; simplify_eq/=; try done).
  destruct (markOperationDispatched _ _ _ _) eqn:E; simplify_eq/=.
  apply markOperationDispatched_inv in E as (-> & _). done.
Qed.

Lemma step_epoch_le id db db' : step db db' → epoch_le id db db'.
Proof.
  destruct 1; try (by apply epoch_le_same_tasks);
    try (eapply writeLeased_epoch_le; [|done]; done).
  - destruct (claimTaskLease_inv db orgId id0 wake owner now locked)
      as (c1 & db1 & Hc & [(r & _ & -> & _)|(t & st & _ & Ht & _ & _ & _ & _ & ->)]);
      rewrite H in Hc; simplify_eq; [reflexivity|].
    apply epoch_le_insert with t; [done|]. simpl. lia.
  - apply epoch_le_same_tasks. by eapply claimTaskLinked_tasks.
  - apply epoch_le_same_tasks. unfold revertTaskLinkedDispatchClaim in *. by case_all.
  - by apply epoch_le_insert with t; [|lia].
  - intros e He. unfold epoch_of in *; simpl. destruct (decide (id0 = id)) as [->|Hne].
    + by rewrite H in He.
    + rewrite lookup_insert_ne by done. by exists e.
Qed.

Lemma steps_epoch_le id db db' : rtc step db db' → epoch_le id db db'.
Proof. induction 1 as [|d1 d2 d3 Hs _ IH]; [reflexivity|]. etransitivity; [by apply step_epoch_le|done]. Qed.

(** Taking a lease. The claim never throws and never reports a lost race
    (the row stays locked between its read and its write). It either changes
    nothing, or it moves an unlocked task of that organisation through the door
    of its state: a [running] or [stopping] task only when its previous lease had
    expired, a [waiting] one only when its wake is due if the poller asks. The
    new row has the next epoch, a lease of one minute, and the old plan
    revision. *)
Theorem lease_claim_correct db orgId id wake owner now locked :
  ∃ c db', claimTaskLease db orgId id wake owner now locked = Ok (c, db') ∧
    match c with
    | lease_lost r => r ≠ lost_race ∧ db' = db
    | lease_won t' e =>
        ∃ t, locked = false ∧ tasks db !! id = Some t ∧ t_orgId t = orgId
          ∧ e = t_leaseEpoch t + 1 ∧ t_leaseEpoch t' = e ∧ t_revision t' = t_revision t
          ∧ t_leaseExpiresAt t' = Some (now + TASK_LEASE_MS)
          ∧ t_attemptOrdinal t' = t_attemptOrdinal t
          ∧ isLeasableTaskState (state_text (t_state t)) = true
          ∧ nextTaskState (state_text (t_state t)) claim = Ok (t_state t')
          ∧ (t_state t = running ∨ t_state t = stopping → leaseExpired t now = true)
          ∧ (t_state t = waiting → wake = true → wakeDue t now = true)
          ∧ db' = with_tasks (<[id := t']>) db
    end.
Proof.
  destruct (claimTaskLease_inv db orgId id wake owner now locked)
    as (c & db' & Hc & [(r & -> & -> & Hr)|(t & st & Hl & Ht & Ho & Hd & Hn & -> & ->)]);
    do 2 eexists; (split; [exact Hc|]); [naive_solver|].
  exists t. split_and!; try done.
  - by apply lease_door_leasable in Hd; destruct (t_state t).
  - unfold lease_door in Hd. intros [Hs|Hs]; rewrite Hs in Hd; simpl in Hd;
      rewrite ?orb_false_r in Hd; done.
  - unfold lease_door in Hd. intros Hs ->. by rewrite Hs in Hd.
Qed.

(** C27: stale coordinators cannot commit. Once any claim of a task has been won
    after epoch [e] was handed out, then in every later state of every history,
    a write carrying [e] returns false and changes nothing, whatever revision,
    patch or callback it carries. *)
Theorem stale_coordinator_cannot_commit db0 db1 db2 db3 id e t1
    orgId' wake owner now locked t2 e2 orgw rev patch noww also :
  tasks db0 !! id = Some t1 → t_leaseEpoch t1 = e →
  rtc step db0 db1 →
  claimTaskLease db1 orgId' id wake owner now locked = Ok (lease_won t2 e2, db2) →
  rtc step db2 db3 →
  e < e2 ∧ writeLeased db3 orgw id rev e patch noww also = Ok (false, db3).
Proof.
  intros H0 He H01 Hc H23.
  destruct (steps_epoch_le id _ _ H01 e) as (e1 & He1 & Hle1).
  { unfold epoch_of. by rewrite H0; simpl; rewrite He. }
  destruct (claimTaskLease_inv db1 orgId' id wake owner now locked)
    as (c & d & Hc' & [(r & -> & _)|(t & st & _ & Ht & _ & _ & _ & -> & ->)]);
    rewrite Hc in Hc'; simplify_eq.
  unfold epoch_of in He1. rewrite Ht in He1. simplify_eq/=.
  destruct (steps_epoch_le id _ _ H23 (t_leaseEpoch t + 1)) as (e3 & He3 & Hle3).
  { unfold epoch_of; simpl. by rewrite lookup_insert_eq. }
  split; [lia|]. unfold epoch_of in He3.
  destruct (tasks db3 !! id) as [t3|] eqn:E3; [|done]. simplify_eq/=.
  eapply writeLeased_stale; [done|lia].
Qed.

(** ** The dispatch claim *)

Lemma claim_won_inv db ref e j s ep db' :
  claimTaskLinkedIntentForDispatch db ref e j s = Ok (claim_won ep, db') →
  ∃ task op i,
    tasks db !! r_taskId ref = Some task ∧ t_orgId task = r_orgId ref
    ∧ List.find (for_intent (r_id ref)) (operations db) = Some op
    ∧ o_dispatchState op = reserved
    ∧ evaluateTaskClaimPredicate task (o_planRevision op) j e = None
    ∧ intents db !! r_id ref = Some i ∧ intent_claimable db i (o_planRevision op) s = true
    ∧ ep = t_leaseEpoch task
    ∧ markOperationDispatched (with_intents (<[r_id ref := set_executing j i]>) db)
        (r_id ref) (Some (t_leaseEpoch task)) j = Ok db'.
Proof.
  unfold claimTaskLinkedIntentForDispatch. intros H.
  destruct (tasks db !! r_taskId ref) as [task|] eqn:Et; [|done].
  case_bool_decide as Ho; simpl in H; [|done].
  destruct (List.find _ _) as [op|] eqn:Ef; [|done].
  case_bool_decide as Hr; simpl in H; [|done].
  destruct (evaluateTaskClaimPredicate _ _ _ _) eqn:Ev; [done|].
  destruct (intents db !! r_id ref) as [i|] eqn:Ei; [|done].
  destruct (intent_claimable _ _ _ _) eqn:Ec; [|done].
  destruct (markOperationDispatched _ _ _ _) eqn:Em; simplify_eq/=.
  exists task, op, i. split_and!; done.
Qed.

Lemma evaluate_None task plan now e :
  evaluateTaskClaimPredicate task plan now e = None ↔
  (t_state task = running ∨ t_state task = waiting) ∧ plan = Some (t_revision task)
  ∧ (∃ d, t_deadlineAt task = Some d ∧ now < d) ∧ t_targetDetachedAt task = None
  ∧ (∀ x, e = Some x → t_leaseEpoch task = x).
Proof.
  unfold evaluateTaskClaimPredicate, CLAIMABLE_TASK_STATES.
  rewrite (bool_decide_ext _ (t_state task = running ∨ t_state task = waiting))
    by (rewrite !elem_of_cons, elem_of_nil; naive_solver).
  do 2 (case_bool_decide; simpl; [|naive_solver]).
  destruct (t_deadlineAt task) as [d|]; [|naive_solver].
  destruct (Z.leb_spec d now).
  { split; [done|]. intros (_ & _ & (d' & ? & ?) & _); simplify_eq; lia. }
  case_bool_decide; simpl; [|naive_solver].
  destruct e as [x|]; [|naive_solver].
  destruct (Z.eqb_spec (t_leaseEpoch task) x); simpl; naive_solver.
Qed.

Lemma find_fmap_keep {A} (p : A → bool) (f : A → A) l :
  (∀ x, p (f x) = p x) → List.find p (f <$> l) = f <$> List.find p l.
Proof. intros Hp. induction l as [|x l IH]; [done|]. simpl. rewrite Hp. by destruct (p x). Qed.

Lemma find_app_left {A} (p : A → bool) l k x :
  List.find p l = Some x → List.find p (l ++ k) = Some x.
Proof. induction l as [|y l IH]; simpl; [done|]. by destruct (p y). Qed.

(** What a won dispatch claim means. The task was in a state that may admit
    an effect (so not fenced), at the plan revision the approval covers, inside
    a deadline that both clocks put in the future, with its target attached and
    at the claimant's lease epoch if one was given; the intent was approved and
    inside its release lease. Afterwards the intent is executing and the one
    reserved operation of the intent is dispatched under the task's epoch; no
    task, no other intent and no other operation changed. *)
Theorem dispatch_claim_safe db ref e jsNow sqlNow ep db' :
  claimTaskLinkedIntentForDispatch db ref e jsNow sqlNow = Ok (claim_won ep, db') →
  ∃ task op i d,
    (tasks db !! r_taskId ref = Some task ∧ t_orgId task = r_orgId ref
     ∧ admissionFenced (state_text (t_state task)) = false
     ∧ o_planRevision op = Some (t_revision task)
     ∧ t_deadlineAt task = Some d ∧ jsNow < d ∧ t_targetDetachedAt task = None
     ∧ (∀ x, e = Some x → t_leaseEpoch task = x) ∧ ep = t_leaseEpoch task)
    ∧ (intents db !! r_id ref = Some i ∧ i_status i = "approved" ∧ release_live i sqlNow = true
       ∧ (i_taskId i = Some (r_taskId ref) → sqlNow < d))
    ∧ tasks db' = tasks db
    ∧ intents db' = <[r_id ref := set_executing jsNow i]> (intents db)
    ∧ length (operations db') = length (operations db)
    ∧ (∀ k o, operations db !! k = Some o → ∃ o', operations db' !! k = Some o' ∧
         if for_intent (r_id ref) o && bool_decide (o_dispatchState o = reserved)
         then o_dispatchState o' = dispatched ∧ o_claimedLeaseEpoch o' = Some ep
              ∧ o_dispatchedAt o' = Some jsNow
         else o' = o)
    ∧ length (List.filter (λ o, for_intent (r_id ref) o && bool_decide (o_dispatchState o = reserved))
                (operations db)) = 1%nat
    ∧ List.find (for_intent (r_id ref)) (operations db) = Some op.
Proof.
  intros H. destruct (claim_won_inv _ _ _ _ _ _ _ H)
    as (task & op & i & Ht & Ho & Hf & Hr & Hev & Hi & Hc & -> & Hm).
  apply evaluate_None in Hev as (Hst & Hp & (d & Hd & Hjs) & Hdet & Hep).
  apply markOperationDispatched_inv in Hm as (Ht' & Hi' & Ho' & Hlen).
  unfold intent_claimable in Hc. bool_hyps. simpl in *.
  exists task, op, i, d. split_and!; try done.
  - by destruct Hst as [-> | ->].
  - by apply String.eqb_eq.
  - intros Hl. unfold sql_task_exists in *. rewrite Hl in *; simpl in *.
    rewrite Ht, Hd in *. bool_hyps. lia.
  - by rewrite Ho', length_fmap.
  - intros k o Hk. rewrite Ho', list_lookup_fmap, Hk. simpl. eexists; split; [done|].
    by case_match.
Qed.

(** The first operation row of an intent, and that it is not up for a claim. *)
Definition claimed (id : string) (db : Db) : Prop :=
  ∃ op, List.find (for_intent id) (operations db) = Some op ∧ o_dispatchState op ≠ reserved.

Lemma claimed_same_ops id db db' :
  operations db' = operations db → claimed id db → claimed id db'.
Proof. unfold claimed. by intros ->. Qed.

Lemma claimed_update_ops id p f db :
  (∀ o, o_intentId (f o) = o_intentId o) →
  (∀ o, for_intent id o = true → p o = true → o_dispatchState o ≠ reserved →
        o_dispatchState (f o) ≠ reserved) →
  claimed id db → claimed id (update_ops p f db).1.
Proof.
  intros Hid Hf (op & Hfind & Hop). unfold claimed; simpl.
  rewrite (find_fmap_keep (for_intent id)), Hfind; simpl.
  - eexists; split; [done|]. apply find_some in Hfind as [_ Hfor].
    destruct (p op) eqn:Hp; eauto.
  - intros x. unfold for_intent. by destruct (p x); rewrite ?Hid.
Qed.

#[local] Ltac claimed_by_update :=
  apply claimed_update_ops; [done | intros; simpl; done |]; done.

Lemma claimed_refuses id db org tid e j s ep db' :
  claimed id db →
  claimTaskLinkedIntentForDispatch db (mkRef id org tid) e j s ≠ Ok (claim_won ep, db').
Proof.
  intros (op & Hf & Hop) H. apply claim_won_inv in H as (task & op' & i & _ & _ & Hf' & Hr & _).
  simpl in Hf'. congruence.
Qed.

Lemma markOperationDispatched_claimed id id' e now db db' :
  markOperationDispatched db id' e now = Ok db' → claimed id db → claimed id db'.
Proof.
  unfold markOperationDispatched. intros H Hc.
  destruct (update_ops _ _ db) as [d n] eqn:E. destruct (n =? 1)%nat; simplify_eq.
  replace db' with (update_ops (λ o, for_intent id' o && bool_decide (o_dispatchState o = reserved))
    (set_dispatched e now) db).1 by (by rewrite E).
  by apply claimed_update_ops.
Qed.

Lemma claimTaskLinked_claimed id db ref e j s r db' :
  claimTaskLinkedIntentForDispatch db ref e j s = Ok (r, db') → claimed id db → claimed id db'.
Proof.
  unfold claimTaskLinkedIntentForDispatch. intros H Hc. repeat (case_match; simplify_eq/=; try done).
  destruct (markOperationDispatched _ _ _ _) eqn:E; simplify_eq/=.
  eapply markOperationDispatched_claimed; [done|]. by eapply claimed_same_ops; [|done].
Qed.

Lemma writeLeased_ops db orgId id rev epoch patch now ok b db' :
  writeLeased db orgId id rev epoch patch now (commits ok) = Ok (b, db') →
  operations db' = operations db.
Proof.
  intros H. apply writeLeased_inv in H as [[_ ->]|(t & t'' & _ & _ & _ & _ & _ & _ & _ & _ & Ha)];
    [done|]. unfold commits in Ha. by case_match; simplify_eq.
Qed.

(** A transaction that is not a successful reversal of the intent's claim. *)
Definition step_not_revert (id : string) (db db' : Db) : Prop :=
  step db db' ∧ ∀ detail now, revertTaskLinkedDispatchClaim db id detail now ≠ (true, db').

Lemma step_claimed id db db' : step_not_revert id db db' → claimed id db → claimed id db'.
Proof.
  intros [Hs Hnr] Hc. destruct Hs;
    try (eapply claimed_same_ops; [eapply writeLeased_ops; done|done]);
    try (by eapply claimed_same_ops; [|done]);
    try (apply claimed_update_ops; [done|by intros; simpl|done]).
  - destruct (claimTaskLease_inv db orgId id0 wake owner now locked)
      as (c1 & db1 & Hc1 & [(r & _ & -> & _)|(t & st & _ & _ & _ & _ & _ & _ & ->)]);
      rewrite H in Hc1; simplify_eq; [done|]. by eapply claimed_same_ops; [|done].
  - by eapply claimTaskLinked_claimed.
  - unfold revertTaskLinkedDispatchClaim in H.
    destruct (intents db !! id0) as [i|] eqn:Ei; [|by simplify_eq].
    destruct (String.eqb (i_status i) "executing") eqn:Es; [|by simplify_eq].
    destruct (decide (id0 = id)) as [->|Hne].
    { destruct (Hnr detail now). unfold revertTaskLinkedDispatchClaim. rewrite Ei, Es. congruence. }
    simplify_eq. apply claimed_update_ops; [done| |by eapply claimed_same_ops; [|done]].
    intros o H1 H2. unfold for_intent in *. bool_hyps. congruence.
  - destruct Hc as (op & Hf & Hop). exists op. split; [|done]. simpl. by apply find_app_left.
Qed.

(** C26: the claim is single-use. After one claim of an intent has been won, no
    later claim of that intent is won, by any caller, with any epoch, at any
    time, in any history of the component's transactions and of the other
    services' writes, until a successful kill-switch reversal of that intent. *)
Theorem dispatch_single_use db0 ref e j s ep db1 db2 org tid e' j' s' ep' db3 :
  claimTaskLinkedIntentForDispatch db0 ref e j s = Ok (claim_won ep, db1) →
  rtc (step_not_revert (r_id ref)) db1 db2 →
  claimTaskLinkedIntentForDispatch db2 (mkRef (r_id ref) org tid) e' j' s' ≠ Ok (claim_won ep', db3).
Proof.
  intros H Hrtc. apply claimed_refuses.
  assert (claimed (r_id ref) db1) as Hc.
  { apply claim_won_inv in H as (task & op & i & _ & _ & Hf & Hr & _ & _ & _ & _ & Hm).
    apply markOperationDispatched_inv in Hm as (_ & _ & Ho & _). simpl in Ho.
    exists (set_dispatched (Some (t_leaseEpoch task)) j op). split; [|done].
    rewrite Ho, (find_fmap_keep (for_intent (r_id ref))), Hf; simpl.
    - apply find_some in Hf as [_ Hf]. rewrite Hf, bool_decide_true by done. done.
    - intros x. by case_match. }
  clear H. induction Hrtc; eauto using step_claimed.
Qed.

(** the pure predicate and the SQL it is restated as agree: for a claimant
    without a lease epoch, on the locked task row the intent points at and with
    the same clock, the predicate admits the claim exactly when the [EXISTS] of
    the intent update holds. *)
Theorem claim_predicate_twin db i id task plan now :
  i_taskId i = Some id → tasks db !! id = Some task → t_orgId task = i_orgId i →
  evaluateTaskClaimPredicate task plan now None = None ↔ sql_task_exists db i plan now = true.
Proof.
  intros Hi Ht Ho. rewrite evaluate_None. unfold sql_task_exists. rewrite Hi; simpl.
  rewrite Ht, Ho, bool_decide_true by done. simpl.
  rewrite !andb_true_iff, orb_true_iff, !bool_decide_eq_true.
  destruct (t_deadlineAt task) as [d|]; [|naive_solver].
  rewrite Z.ltb_lt. naive_solver.
Qed.

Lemma filter_find_one {A} (p : A → bool) l x :
  List.find p l = Some x → length (List.filter p l) = 1%nat → List.filter p l = [x].
Proof.
  induction l as [|y l IH]; simpl; [done|]. destruct (p y); [|by auto].
  intros [= ->] H. simpl in H. f_equal. by apply nil_length_inv; lia.
Qed.

Lemma filter_fmap_keep {A} (p : A → bool) (f : A → A) l :
  (∀ x, p (f x) = p x) → List.filter p (f <$> l) = f <$> List.filter p l.
Proof.
  intros Hp. induction l as [|x l IH]; [done|]. csimpl. rewrite Hp.
  destruct (p x); csimpl; by rewrite IH.
Qed.

Lemma filter_andb {A} (p q : A → bool) l :
  List.filter (λ x, p x && q x) l = List.filter q (List.filter p l).
Proof. induction l as [|x l IH]; [done|]. simpl. destruct (p x); simpl; by rewrite IH. Qed.

Lemma find_filter {A} (p : A → bool) l : List.find p l = head (List.filter p l).
Proof. induction l as [|x l IH]; [done|]. simpl. by destruct (p x). Qed.

Definition one_op (id : string) (db : Db) : Prop :=
  length (List.filter (for_intent id) (operations db)) = 1%nat.

(** The kill-switch reversal undoes a claim. When the intent has its one
    operation row, reverting the claim it just won succeeds, makes the intent
    approved and the operation reserved and undispatched again, leaves every
    task alone, and the same claim can be won again. *)
Theorem revert_restores_claim db ref e j s ep db1 detail now :
  claimTaskLinkedIntentForDispatch db ref e j s = Ok (claim_won ep, db1) →
  one_op (r_id ref) db →
  ∃ db2 op2,
    revertTaskLinkedDispatchClaim db1 (r_id ref) detail now = (true, db2)
    ∧ tasks db2 = tasks db
    ∧ List.filter (for_intent (r_id ref)) (operations db2) = [op2]
    ∧ o_dispatchState op2 = reserved ∧ o_dispatchedAt op2 = None
    ∧ (i_status <$> intents db2 !! r_id ref) = Some "approved"
    ∧ ∃ db3, claimTaskLinkedIntentForDispatch db2 ref e j s = Ok (claim_won ep, db3).
Proof.
  intros H Hone. pose proof H as (task & op & i & Ht & Ho & Hf & Hr & Hev & Hi & Hc & -> & Hm)%claim_won_inv.
  apply markOperationDispatched_inv in Hm as (Ht1 & Hi1 & Ho1 & _). simpl in *.
  assert (Hops : List.filter (for_intent (r_id ref)) (operations db) = [op])
    by by apply filter_find_one.
  assert (Hkeep : ∀ x, for_intent (r_id ref)
     (if for_intent (r_id ref) x && bool_decide (o_dispatchState x = reserved)
      then set_dispatched (Some (t_leaseEpoch task)) j x else x) = for_intent (r_id ref) x)
    by (intros x; by case_match).
  set (op2 := set_reserved detail now (set_dispatched (Some (t_leaseEpoch task)) j op)).
  set (i2 := set_approved (set_executing j i)).
  assert (Hrev : ∃ db2, revertTaskLinkedDispatchClaim db1 (r_id ref) detail now = (true, db2)
    ∧ tasks db2 = tasks db ∧ intents db2 !! r_id ref = Some i2
    ∧ List.filter (for_intent (r_id ref)) (operations db2) = [op2]).
  { unfold revertTaskLinkedDispatchClaim. rewrite Hi1, lookup_insert_eq; simpl.
    eexists; split; [done|]. simpl. rewrite lookup_insert_eq. split_and!; [done|done|].
    rewrite filter_fmap_keep by (intros x; by case_match).
    rewrite Ho1, filter_fmap_keep, Hops by done. simpl.
    apply find_some in Hf as [_ Hf]. rewrite Hf, Hr, bool_decide_true by done; simpl.
    unfold for_intent in *; simpl. by rewrite Hf. }
  destruct Hrev as (db2 & Hrev & Htt & Hii & Hoo).
  exists db2, op2. split_and!; try done; [by rewrite Hii|].
  assert (Hfind2 : List.find (for_intent (r_id ref)) (operations db2) = Some op2)
    by by rewrite find_filter, Hoo.
  unfold claimTaskLinkedIntentForDispatch. rewrite Htt, Ht, Ho, bool_decide_true by done. simpl.
  rewrite Hfind2. simpl. rewrite Hev, Hii.
  assert (intent_claimable db2 i2 (o_planRevision op) s = true) as ->.
  { unfold intent_claimable, sql_task_exists, release_live in *. simpl. rewrite Htt. bool_hyps.
    rewrite !andb_true_iff. done. }
  unfold markOperationDispatched, update_ops. simpl.
  rewrite filter_andb, Hoo. simpl. by eexists.
Qed.

(** a plan change invalidates every earlier approval. When a lease holder
    stamps a new attempt with a plan bump, the task's revision grows, so a
    dispatch claim for an operation reserved under any earlier revision is
    refused as [task_not_claimable] for as long as the plan revision stands and
    the operation is still reserved. *)
Theorem plan_bump_invalidates db orgId id task epoch key cp now db' ref op e j s :
  writeLeased db orgId id (t_revision task) epoch (admit_patch task true key cp) now
    (commits true) = Ok (true, db') →
  r_taskId ref = id → r_orgId ref = orgId →
  List.find (for_intent (r_id ref)) (operations db') = Some op →
  o_dispatchState op = reserved →
  (∀ r, o_planRevision op = Some r → r ≤ t_revision task) →
  (∃ t', tasks db' !! id = Some t' ∧ t_revision t' = t_revision task + 1) ∧
  ∃ detail, claimTaskLinkedIntentForDispatch db' ref e j s
            = Ok (claim_refused task_not_claimable detail, db').
Proof.
  intros Hw Hid Horg Hf Hr Hold. unfold writeLeased in Hw.
  destruct (tasks db !! id) as [t|] eqn:Et; [|done].
  destruct (_ && _ && _) eqn:C in Hw; [|done]. bool_hyps. simpl in Hw. simplify_eq/=.
  rewrite lookup_insert_eq. split; [by eexists|].
  unfold claimTaskLinkedIntentForDispatch; simpl. rewrite lookup_insert_eq; simpl.
  rewrite bool_decide_true by done. simpl. rewrite Hf, Hr, bool_decide_true by done. simpl.
  case_match eqn:Ev; [by eexists|]. exfalso.
  apply evaluate_None in Ev as (_ & Hp & _). simpl in Hp. apply Hold in Hp. lia.
Qed.

(** ** Results of an operation *)

Record ResultWrite := mkWrite {
  w_state : OperationResultState;
  w_text : string;
  w_ref : option (string * string);
  w_now : Z }.

Definition record_one (id : string) (db : Db) (w : ResultWrite) : Db :=
  recordOperationResult db id (w_state w) (w_text w) (w_ref w) (w_now w).

(** Result writers of one intent, in arrival order. *)
Definition record_all (id : string) (db : Db) (ws : list ResultWrite) : Db :=
  foldl (record_one id) db ws.

Lemma sql_rank_js r : sql_result_rank r = RESULT_STATE_RANK r.
Proof. by destruct r. Qed.

Definition accept (o : OperationRow) (w : ResultWrite) : OperationRow :=
  if RESULT_STATE_RANK (o_resultState o) <? RESULT_STATE_RANK (w_state w)
  then set_result (w_state w) (w_text w) (w_ref w) (w_now w) o else o.

Lemma accept_for_intent id o w : for_intent id (accept o w) = for_intent id o.
Proof. unfold accept. by case_match. Qed.

Lemma record_all_row id ws db k o :
  operations db !! k = Some o → for_intent id o = true →
  operations (record_all id db ws) !! k = Some (foldl accept o ws).
Proof.
  revert db o. induction ws as [|w ws IH]; intros db o Hk Ho; [done|]. simpl.
  apply IH; [|by rewrite accept_for_intent].
  unfold record_one, recordOperationResult. simpl.
  rewrite list_lookup_fmap, Hk. simpl. rewrite Ho, sql_rank_js. simpl. unfold accept. by case_match.
Qed.

Definition definite (r : OperationResultState) : bool := RESULT_STATE_RANK r =? 2.

Lemma foldl_accept_definite ws o :
  definite (o_resultState o) = true → foldl accept o ws = o.
Proof.
  intros Hd. induction ws as [|w ws IH]; [done|]. simpl.
  replace (accept o w) with o; [done|]. unfold accept.
  destruct (o_resultState o), (w_state w); done.
Qed.

Lemma foldl_accept_lands ws o d :
  definite (o_resultState o) = false →
  (∀ w, w ∈ ws → definite (w_state w) = true → w_state w = d) →
  (∃ w, w ∈ ws ∧ definite (w_state w) = true) →
  o_resultState (foldl accept o ws) = d.
Proof.
  revert o. induction ws as [|w ws IH]; intros o Ho Hall [w0 [Hin Hw0]]; [by auto with breeze|].
  simpl. destruct (definite (w_state w)) eqn:Hw.
  - assert (o_resultState (accept o w) = w_state w) as Hs.
    { unfold accept. by destruct (o_resultState o), (w_state w). }
    rewrite foldl_accept_definite by by rewrite Hs. rewrite Hs. apply Hall; [left|done].
  - apply IH.
    + unfold accept. destruct (o_resultState o) eqn:E, (w_state w); simpl; by rewrite ?E.
    + intros w1 H1. apply Hall. by right.
    + apply elem_of_cons in Hin as [->|Hin]; [congruence|]. by exists w0.
Qed.

(** results are recorded monotonically. Whatever the order in which the
    reaper's [unknown], a late device result and redeliveries arrive, a row that
    already holds a definite outcome never changes again, and a row that does
    not takes the definite outcome that is reported, if the reports agree on
    one, even after [unknown] was written. *)
Theorem results_monotone id db k o ws :
  operations db !! k = Some o → for_intent id o = true →
  ∃ o', operations (record_all id db ws) !! k = Some o'
    ∧ (definite (o_resultState o) = true → o' = o)
    ∧ RESULT_STATE_RANK (o_resultState o) ≤ RESULT_STATE_RANK (o_resultState o')
    ∧ ∀ d, definite (o_resultState o) = false →
        (∀ w, w ∈ ws → definite (w_state w) = true → w_state w = d) →
        (∃ w, w ∈ ws ∧ definite (w_state w) = true) →
        ∀ ws', ws' ≡ₚ ws → o_resultState (foldl accept o ws') = d ∧ o_resultState o' = d.
Proof.
  intros Hk Ho. exists (foldl accept o ws). split_and!.
  - by apply record_all_row.
  - by apply foldl_accept_definite.
  - clear. revert o. induction ws as [|w ws IH]; intros o; [done|]. simpl.
    etransitivity; [|apply IH]. unfold accept.
    destruct (Z.ltb_spec (RESULT_STATE_RANK (o_resultState o)) (RESULT_STATE_RANK (w_state w)));
      simpl; lia.
  - intros d Hd Hall Hex ws' Hp. split; [|by apply foldl_accept_lands].
    apply foldl_accept_lands; [done| |].
    + intros w Hw. apply Hall. by rewrite <-Hp.
    + destruct Hex as (w & Hw & ?). exists w. by rewrite Hp.
Qed.

(** ** Witnesses, on one concrete database *)

Definition ex_task : TaskRow :=
  mkTask "org" running 7 0 (Some "c1") 3 (Some 1000) None (Some 9000) None (Some "execute") (Some "s")
    None None None None None "{}" 0.
Definition ex_op : OperationRow :=
  mkOp "op" (Some "in") (Some 7) reserved None None None None None pending "{}" None 0.
Definition ex_intent : IntentRow :=
  mkIntent "org" (Some "t") "approved" None (Some 8000) None None.
Definition ex_db : Db := mkDb {[ "t" := ex_task ]} [ex_op] {[ "in" := ex_intent ]}.
Definition ex_ref : TaskLinkedIntentRef := mkRef "in" "org" "t".

Definition ex_lease : LeaseClaim * Db :=
  match claimTaskLease ex_db "org" "t" true "c2" 2000 false with
  | Ok r => r | Err _ => (lease_lost not_found, ex_db) end.
Definition ex_won : DispatchClaimResult * Db :=
  match claimTaskLinkedIntentForDispatch ex_db ex_ref None 2000 2000 with
  | Ok r => r | Err _ => (claim_won 0, ex_db) end.

Lemma stale_coordinator_cannot_commit_witness :
  3 < 4 ∧ writeLeased ex_lease.2 "org" "t" 7 3 (λ t, t) 2000 Some = Ok (false, ex_lease.2).
Proof.
  eapply (stale_coordinator_cannot_commit ex_db ex_db ex_lease.2 ex_lease.2 "t" 3 ex_task
    "org" true "c2" 2000 false (lease_patch running "c2" 2000 ex_task));
    [reflexivity | reflexivity | apply rtc_refl | vm_compute; reflexivity | apply rtc_refl].
Defined.

Lemma dispatch_claim_safe_witness : ∃ task, tasks ex_db !! "t" = Some task
    ∧ admissionFenced (state_text (t_state task)) = false.
Proof.
  destruct (dispatch_claim_safe ex_db ex_ref None 2000 2000 3 ex_won.2)
    as (task & op & i & d & (H1 & _ & H2 & _) & _); [vm_compute; reflexivity|].
  exists task. split; [exact H1|exact H2].
Defined.

Lemma dispatch_single_use_witness :
  claimTaskLinkedIntentForDispatch ex_won.2 ex_ref None 2001 2001 ≠ Ok (claim_won 3, ex_db).
Proof.
  apply (dispatch_single_use ex_db ex_ref None 2000 2000 3 ex_won.2 ex_won.2 "org" "t");
    [vm_compute; reflexivity | apply rtc_refl].
Defined.

Lemma claim_predicate_twin_witness :
  evaluateTaskClaimPredicate ex_task (Some 7) 2000 None = None
  ↔ sql_task_exists ex_db ex_intent (Some 7) 2000 = true.
Proof. apply (claim_predicate_twin ex_db ex_intent "t" ex_task); reflexivity. Defined.

Lemma revert_restores_claim_witness :
  ∃ db2, revertTaskLinkedDispatchClaim ex_won.2 "in" "paused" 2500 = (true, db2).
Proof.
  destruct (revert_restores_claim ex_db ex_ref None 2000 2000 3 ex_won.2 "paused" 2500)
    as (db2 & op2 & H & _); [vm_compute; reflexivity | vm_compute; reflexivity |].
  exists db2. exact H.
Defined.

Definition ex_bumped : Db :=
  match writeLeased ex_db "org" "t" 7 3 (admit_patch ex_task true "s" "{}") 2000 (commits true) with
  | Ok (_, db) => db | Err _ => ex_db end.

Lemma plan_bump_invalidates_witness :
  ∃ detail, claimTaskLinkedIntentForDispatch ex_bumped ex_ref None 2000 2000
            = Ok (claim_refused task_not_claimable detail, ex_bumped).
Proof.
  apply (plan_bump_invalidates ex_db "org" "t" ex_task 3 "s" "{}" 2000 ex_bumped ex_ref ex_op);
    try (vm_compute; reflexivity).
  intros r Hr. vm_compute in Hr. injection Hr as <-. vm_compute. congruence.
Defined.

Lemma results_monotone_witness :
  ∃ o', operations (record_all "in" ex_db
      [mkWrite unknown "{}" None 1; mkWrite succeeded "{}" None 2]) !! 0%nat = Some o'
    ∧ RESULT_STATE_RANK pending ≤ RESULT_STATE_RANK (o_resultState o').
Proof.
  destruct (results_monotone "in" ex_db 0%nat ex_op
    [mkWrite unknown "{}" None 1; mkWrite succeeded "{}" None 2]) as (o' & H & _ & Hr & _);
    [reflexivity | reflexivity |].
  exists o'. split; [exact H | exact Hr].
Defined.

End Dispatch.
