(* ===== verification/Episodes.v ===== *)
(** * Metric anomaly episodes: the assembly planner

    Models [apps/api/src/services/metricAnomalyEpisodeKeys.ts] ([episodeKeyFor]
    and its family table) and
    [apps/api/src/services/metricAnomalyEpisodePlanner.ts]
    ([planEpisodeAssembly] and everything it calls).

    Times are milliseconds.  Scores and values are finite doubles, only ever
    compared and copied, so they are kept as the integers they are on the common
    scale 2^-1074.  The id generator is the function [newId] of the number of
    ids drawn before. *)
From S2P Require Import Prelude.
From stdpp Require Import base tactics list strings sets sorting.
From Stdlib Require Import ZArith Lia.
Open Scope Z_scope.

Module Episodes.

(** ** Episode keys *)

Inductive AttributionDimension := cpu | ramMb | diskBps | netBps.
Abbreviation AttributionDimensionOrNull := (option AttributionDimension).

Definition EPISODE_METRIC_FAMILIES
    : list (string * list (string * (string * AttributionDimensionOrNull))) :=
  [ ("device_metrics",
     [("cpu_percent", ("cpu", Some cpu));
      ("ram_percent", ("ram", Some ramMb));
      ("ram_used_mb", ("ram", Some ramMb));
      ("disk_percent", ("disk", None));
      ("disk_used_gb", ("disk", None));
      ("disk_read_bps", ("disk_read", Some diskBps));
      ("disk_write_bps", ("disk_write", Some diskBps));
      ("bandwidth_in_bps", ("net_in", Some netBps));
      ("bandwidth_out_bps", ("net_out", Some netBps));
      ("process_count", ("process_count", None))]);
    ("device_process_samples",
     [("top_process_cpu_percent_sum", ("process_cpu", Some cpu));
      ("top_process_cpu_percent_max", ("process_cpu", Some cpu));
      ("top_process_ram_mb_sum", ("process_ram", Some ramMb));
      ("top_process_ram_mb_max", ("process_ram", Some ramMb));
      ("top_process_disk_bps_sum", ("process_disk", Some diskBps));
      ("top_process_net_bps_sum", ("process_net", Some netBps));
      ("top_process_count", ("process_count_top", None))]) ].

(** Own-property lookup of an object literal. *)
Definition own {V} (k : string) (o : list (string * V)) : option V :=
  snd <$> List.find (λ p, String.eqb p.1 k) o.

Record EpisodeKey := mkKey {
  episodeKey : string;
  metricFamily : string;
  attributionDimension : AttributionDimensionOrNull }.

Definition episodeKeyFor (sourceTable anomalyType metricName : string) : EpisodeKey :=
  let entry := own sourceTable EPISODE_METRIC_FAMILIES ≫= own metricName in
  let family := match entry with Some e => e.1 | None => metricName end in
  mkKey (sourceTable +:+ ":" +:+ anomalyType +:+ ":" +:+ family) family (entry ≫= snd).

(** ** Planner data *)

Record UnassignedAnomalyRow := mkRow {
  id : string; deviceId : string; sourceTable : string; anomalyType : string;
  metricName : string; windowStart : Z; windowEnd : Z; score : Z;
  observedValue : Z; baselineValue : option Z }.

Inductive AnchorStatus := anchor_open | anchor_dismissed.
#[export] Instance AnchorStatus_eq_dec : EqDecision AnchorStatus.
Proof. solve_decision. Defined.

Record AnchorEpisode := mkAnchor {
  a_id : string; a_deviceId : string; a_episodeKey : string; a_status : AnchorStatus;
  a_firstSeenAt : Z; a_lastSeenAt : Z }.

Inductive PlannedDisposition := d_open | d_snoozed | d_historical.
Inductive MemberStatus := m_open | m_dismissed | m_cleared.
#[export] Instance PlannedDisposition_eq_dec : EqDecision PlannedDisposition.
Proof. solve_decision. Defined.

Record PlannedAttach := mkAttach {
  pa_anomalyId : string; pa_episodeId : string; pa_memberStatus : MemberStatus;
  pa_attributionDimension : AttributionDimensionOrNull }.

Record PlannedSupersede := mkSupersede { ps_episodeId : string; ps_cleanUntil : Z }.

Record GroupMeta := mkMeta {
  gm_deviceId : string; gm_sourceTable : string; gm_anomalyType : string;
  gm_episodeKey : string; gm_metricFamily : string;
  gm_attributionDimension : AttributionDimensionOrNull }.

Record Summary := mkSummary {
  metricNames : list string; firstSeenAt : Z; lastSeenAt : Z; bucketCount : Z;
  peakValue : Z; peakMetricName : string; peakBaselineValue : option Z; peakScore : Z;
  peakAt : Z; memberIds : list string }.

Record PlannedEpisode := mkEpisode {
  pe_id : string; pe_meta : GroupMeta; pe_summary : Summary;
  disposition : PlannedDisposition; snoozedUntil : option Z; cleanUntil : option Z;
  priorInBatch : Z }.

Record EpisodeAssemblyPlan := mkPlan {
  anchorAttaches : list PlannedAttach;
  creates : list PlannedEpisode;
  supersedes : list PlannedSupersede;
  transients : list string }.

Definition groupKeyOf (deviceId episodeKey : string) : string := deviceId +:+ "|" +:+ episodeKey.

Definition memberStatusFor (d : PlannedDisposition) : MemberStatus :=
  match d with d_open => m_open | d_snoozed => m_dismissed | d_historical => m_cleared end.

Inductive IslandItem :=
| item_row (row : UnassignedAnomalyRow)
| item_anchor (anchor : AnchorEpisode).

Definition start (i : IslandItem) : Z :=
  match i with item_row r => windowStart r | item_anchor a => a_firstSeenAt a end.
Definition end_ (i : IslandItem) : Z :=
  match i with item_row r => windowEnd r | item_anchor a => a_lastSeenAt a end.
Definition is_anchor (i : IslandItem) : bool :=
  match i with item_row _ => false | item_anchor _ => true end.

(** ** Choosing the anchor, summarising an island *)

Definition chooseAnchor (candidates : list AnchorEpisode) : option AnchorEpisode :=
  match List.find (λ c, bool_decide (a_status c = anchor_open)) candidates with
  | Some c => Some c
  | None => head (js_sort (λ a b, a_lastSeenAt b <=? a_lastSeenAt a) candidates)
  end.

Definition better_peak (candidate peak : UnassignedAnomalyRow) : bool :=
  (score peak <? score candidate)
  || ((score candidate =? score peak) && (windowStart candidate <? windowStart peak)).

Definition distinct_starts (rows : list UnassignedAnomalyRow) : Z :=
  Z.of_nat (length (remove_dups (windowStart <$> rows))).

(** [summarize]; [first] is [rows[0]], which an island of rows always has. *)
Definition summarize (first : UnassignedAnomalyRow) (rows : list UnassignedAnomalyRow) : Summary :=
  let firstSeen := foldl (λ s c, if windowStart c <? s then windowStart c else s)
                     (windowStart first) rows in
  let lastSeen := foldl (λ s c, if s <? windowEnd c then windowEnd c else s)
                    (windowEnd first) rows in
  let peak := foldl (λ p c, if better_peak c p then c else p) first rows in
  mkSummary (js_sort String.leb (remove_dups (metricName <$> rows)))
    firstSeen lastSeen (distinct_starts rows)
    (observedValue peak) (metricName peak) (baselineValue peak) (score peak)
    (windowStart peak) (id <$> rows).

(** ** Islands of one group *)

Definition item_le (a b : IslandItem) : bool :=
  (start a <? start b)
  || ((start a =? start b) && (is_anchor a || negb (is_anchor b))).

Definition push_last (islands : list (list IslandItem)) (i : IslandItem) : list (list IslandItem) :=
  match reverse islands with
  | [] => []
  | l :: rest => reverse ((l ++ [i]) :: rest)
  end.

Definition opens_island (gapMs : Z) (islands : list (list IslandItem)) (runningEnd : option Z)
    (i : IslandItem) : bool :=
  bool_decide (islands = [])
  || match runningEnd with Some e => e + gapMs <? start i | None => true end.

Definition sweep_step (gapMs : Z) (st : list (list IslandItem) * option Z) (i : IslandItem)
    : list (list IslandItem) * option Z :=
  let '(islands, runningEnd) := st in
  (push_last (if opens_island gapMs islands runningEnd i then islands ++ [[]] else islands) i,
   omax runningEnd (end_ i)).

Definition sweep (gapMs : Z) (items : list IslandItem) : list (list IslandItem) :=
  (foldl (sweep_step gapMs) ([], None) items).1.

Definition rows_of (island : list IslandItem) : list UnassignedAnomalyRow :=
  omap (λ i, match i with item_row r => Some r | item_anchor _ => None end) island.

Definition has_anchor (island : list IslandItem) : bool := existsb is_anchor island.

Definition BUCKET_MS : Z := 5 * 60000.

(** The filter's verdict on the island at [idx]: kept, or dropped as transient
    (settled) or pending. *)
Inductive Gate := keep | transient | still_pending.

Definition gate (minBuckets gapMs : Z) (settledBefore : option Z) (n : nat)
    (anchorIdx : option nat) (idx : nat) (island : list IslandItem) : Gate :=
  if bool_decide (anchorIdx = Some idx) then keep
  else if minBuckets <=? distinct_starts (rows_of island) then keep
  else
    let settled := (idx <? n - 1)%nat
      || match zmax_list (end_ <$> island), settledBefore with
         | Some islandEnd, Some b => islandEnd + gapMs + BUCKET_MS <=? b
         | _, None => true
         | None, Some _ => true
         end in
    if settled then transient else still_pending.

Definition findIndex {A} (p : A → bool) (l : list A) : option nat :=
  fst <$> list_find (λ x, p x = true) l.

Record PlanEpisodeAssemblyInput := mkInput {
  rows : list UnassignedAnomalyRow;
  anchors : list AnchorEpisode;
  activeSnoozes : list (string * Z);
  gapMinutes : Z;
  minBuckets : Z;
  settledBefore : option Z }.

(** ** Planning one group, then all of them *)

Definition group_items (grows : list UnassignedAnomalyRow) (current : option AnchorEpisode)
    : list IslandItem :=
  js_sort item_le ((item_row <$> grows)
    ++ match current with Some a => [item_anchor a] | None => [] end).

Definition gates (inp : PlanEpisodeAssemblyInput) (islands : list (list IslandItem))
    : list (list IslandItem * Gate) :=
  let gapMs := gapMinutes inp * 60000 in
  let anchorIdx := findIndex has_anchor islands in
  imap (λ idx island,
    (island, gate (minBuckets inp) gapMs (settledBefore inp) (length islands) anchorIdx idx island))
    islands.

Definition eligible (gs : list (list IslandItem * Gate)) : list (list IslandItem) :=
  omap (λ g, match g.2 with keep => Some g.1 | _ => None end) gs.

Definition transient_ids (gs : list (list IslandItem * Gate)) : list string :=
  concat ((λ g : list IslandItem * Gate,
             match g.2 with transient => id <$> rows_of g.1 | _ => [] end) <$> gs).

Definition first_start (island : list IslandItem) : Z :=
  match island with i :: _ => start i | [] => 0 end.

Section group.
Context (newId : nat → string) (meta : GroupMeta) (current : option AnchorEpisode)
        (snooze : option Z).

(** The body of [islands.forEach] on the islands from index [idx] on, [all]
    being the whole array, [drawn] the ids drawn before the group and [created]
    the episodes created so far in it. *)
Fixpoint plan_islands (anchorIdx : option nat) (lastIdx : nat) (drawn : nat)
    (idx created : nat) (islands : list (list IslandItem)) : EpisodeAssemblyPlan :=
  match islands with
  | [] => mkPlan [] [] [] []
  | island :: rest =>
    let islandRows := rows_of island in
    match (if bool_decide (anchorIdx = Some idx) then current else None) with
    | Some a =>
        let memberStatus :=
          match a_status a with anchor_open => m_open | anchor_dismissed => m_dismissed end in
        let p := plan_islands anchorIdx lastIdx drawn (S idx) created rest in
        mkPlan (((λ r, mkAttach (id r) (a_id a) memberStatus (gm_attributionDimension meta))
                   <$> islandRows) ++ anchorAttaches p)
          (creates p) (supersedes p) (transients p)
    | None =>
        let isHead := (idx =? lastIdx)%nat in
        let sup :=
          match current, anchorIdx with
          | Some a, Some k =>
              if isHead && bool_decide (a_status a = anchor_open) && (k <? idx)%nat
              then [mkSupersede (a_id a) (first_start island)] else []
          | _, _ => []
          end in
        let disp := if isHead then match snooze with Some _ => d_snoozed | None => d_open end
                    else d_historical in
        let new :=
          match islandRows with
          | [] => []
          | first :: _ =>
              [mkEpisode (newId (drawn + created)%nat) meta (summarize first islandRows) disp
                 (match disp with d_snoozed => snooze | _ => None end)
                 (match disp, rest with
                  | d_historical, next :: _ => Some (first_start next)
                  | _, _ => None
                  end)
                 (Z.of_nat created)]
          end in
        let p := plan_islands anchorIdx lastIdx drawn (S idx) (S created) rest in
        mkPlan (anchorAttaches p) (new ++ creates p) (sup ++ supersedes p) (transients p)
    end
  end.
End group.

Definition group_anchor (inp : PlanEpisodeAssemblyInput) (groupKey : string) : option AnchorEpisode :=
  chooseAnchor
    (List.filter (λ c, String.eqb (groupKeyOf (a_deviceId c) (a_episodeKey c)) groupKey)
       (anchors inp)).

Definition plan_group (newId : nat → string) (inp : PlanEpisodeAssemblyInput) (drawn : nat)
    (groupKey : string) (meta : GroupMeta) (grows : list UnassignedAnomalyRow)
    : EpisodeAssemblyPlan :=
  let gapMs := gapMinutes inp * 60000 in
  let current := group_anchor inp groupKey in
  let gs := gates inp (sweep gapMs (group_items grows current)) in
  let islands := eligible gs in
  let p := plan_islands newId meta current (own groupKey (activeSnoozes inp))
             (findIndex has_anchor islands) (length islands - 1) drawn 0 0 islands in
  mkPlan (anchorAttaches p) (creates p) (supersedes p) (transient_ids gs).

(** The insertion-ordered [Map] of groups. *)
Definition row_key (r : UnassignedAnomalyRow) : EpisodeKey :=
  episodeKeyFor (sourceTable r) (anomalyType r) (metricName r).
Definition row_groupKey (r : UnassignedAnomalyRow) : string :=
  groupKeyOf (deviceId r) (episodeKey (row_key r)).
Definition row_meta (r : UnassignedAnomalyRow) : GroupMeta :=
  mkMeta (deviceId r) (sourceTable r) (anomalyType r) (episodeKey (row_key r))
    (metricFamily (row_key r)) (attributionDimension (row_key r)).

Definition Group : Type := string * (GroupMeta * list UnassignedAnomalyRow).

Fixpoint add_row (groups : list Group) (r : UnassignedAnomalyRow) : list Group :=
  match groups with
  | [] => [(row_groupKey r, (row_meta r, [r]))]
  | (k, (meta, rs)) :: rest =>
      if String.eqb k (row_groupKey r) then (k, (meta, rs ++ [r])) :: rest
      else (k, (meta, rs)) :: add_row rest r
  end.

Definition group_rows (rs : list UnassignedAnomalyRow) : list Group := foldl add_row [] rs.

Definition sorted_groups (gs : list Group) : list Group :=
  js_sort (λ a b, String.leb a.1 b.1) gs.

Definition plan_append (p q : EpisodeAssemblyPlan) : EpisodeAssemblyPlan :=
  mkPlan (anchorAttaches p ++ anchorAttaches q) (creates p ++ creates q)
    (supersedes p ++ supersedes q) (transients p ++ transients q).

Definition planEpisodeAssembly (newId : nat → string) (inp : PlanEpisodeAssemblyInput)
    : EpisodeAssemblyPlan :=
  foldl (λ plan g, plan_append plan
           (plan_group newId inp (length (creates plan)) g.1 g.2.1 g.2.2))
    (mkPlan [] [] [] []) (sorted_groups (group_rows (rows inp))).

(** ** The sweep: islands are the maximal gap-connected runs *)

Lemma push_last_snoc islands l i : push_last (islands ++ [l]) i = islands ++ [l ++ [i]].
Proof. unfold push_last. rewrite reverse_snoc. by rewrite reverse_cons, reverse_involutive. Qed.

(** What holds of the islands built so far from the items [done_] seen so far. *)
Record sweep_inv (gapMs : Z) (done_ : list IslandItem) (islands : list (list IslandItem))
    (re : option Z) : Prop := {
  si_concat : concat islands = done_;
  si_nonempty : Forall (λ l, l ≠ []) islands;
  si_end : re = zmax_list (end_ <$> done_);
  (** islands are more than the gap apart *)
  si_apart : ∀ pre l post x y, islands = pre ++ l :: post → x ∈ concat (pre ++ [l]) →
      y ∈ concat post → end_ x + gapMs < start y;
  (** inside an island every item but the first is within the gap of an earlier one *)
  si_linked : ∀ l pre y post, l ∈ islands → l = pre ++ y :: post → pre ≠ [] →
      ∃ x, x ∈ pre ∧ start y ≤ end_ x + gapMs }.

Lemma zmax_list_snoc l x : zmax_list (l ++ [x]) = omax (zmax_list l) x.
Proof. unfold zmax_list. by rewrite foldl_app. Qed.

Lemma zmax_ends_snoc l i :
  zmax_list (end_ <$> (l ++ [i])) = omax (zmax_list (end_ <$> l)) (end_ i).
Proof. rewrite fmap_app. apply zmax_list_snoc. Qed.

Lemma zmax_list_ge l x : x ∈ l → ∃ m, zmax_list l = Some m ∧ x ≤ m.
Proof. intros Hx. apply foldl_omax_ge. by left. Qed.

Lemma zmax_list_in l m : zmax_list l = Some m → m ∈ l.
Proof. intros [H|H]%foldl_omax_in; done. Qed.

Lemma app_snoc_cases {A} (ls : list A) a pre b post :
  ls ++ [a] = pre ++ b :: post →
  (post = [] ∧ pre = ls ∧ b = a) ∨ ∃ post', post = post' ++ [a] ∧ ls = pre ++ b :: post'.
Proof.
  destruct post as [|c post _] using rev_ind; intros H.
  - left. apply app_inj_tail in H as [-> ->]. done.
  - right. rewrite app_comm_cons, app_assoc in H. apply app_inj_tail in H as [-> ->].
    by exists post.
Qed.

Lemma sweep_inv_open gapMs done_ islands re i :
  sweep_inv gapMs done_ islands re →
  (∀ x, x ∈ done_ → end_ x + gapMs < start i) →
  sweep_inv gapMs (done_ ++ [i]) (islands ++ [[i]]) (omax re (end_ i)).
Proof.
  intros [Hc Hn He Ha Hl] Hi. split.
  - by rewrite concat_app, Hc.
  - apply Forall_app; split; [done|]. by repeat constructor.
  - by rewrite zmax_ends_snoc, He.
  - intros pre l post x y Heq Hx Hy.
    apply app_snoc_cases in Heq as [(-> & _ & _)|(post' & -> & ->)]; [by auto with breeze|].
    apply concat_snoc_elem in Hy as [Hy|Hy%list_elem_of_singleton]; [by eapply Ha|].
    subst y. apply Hi. rewrite <-Hc, concat_app, elem_of_app; simpl.
    apply concat_snoc_elem in Hx. rewrite elem_of_app. naive_solver.
  - intros l pre y post Hin Heq Hpre. apply elem_of_app in Hin as [Hin|Hin%list_elem_of_singleton].
    + by eapply Hl.
    + subst l. destruct pre as [|? [|??]]; done.
Qed.

Lemma sweep_inv_extend gapMs done_ islands l re i :
  sweep_inv gapMs done_ (islands ++ [l]) re →
  (∀ x, x ∈ done_ → start x ≤ start i) →
  (∃ x, x ∈ l ∧ start i ≤ end_ x + gapMs) →
  sweep_inv gapMs (done_ ++ [i]) (islands ++ [l ++ [i]]) (omax re (end_ i)).
Proof.
  intros [Hc Hn He Ha Hl] Hi Hnear. split.
  - rewrite concat_app in *; simpl in *. rewrite app_nil_r in *. by rewrite app_assoc, Hc.
  - apply Forall_app in Hn as [Hn1 _]. apply Forall_app; split; [done|].
    repeat constructor. by destruct l.
  - by rewrite zmax_ends_snoc, He.
  - intros pre k post x y Heq Hx Hy.
    apply app_snoc_cases in Heq as [(-> & _ & _)|(post' & -> & ->)]; [by auto with breeze|].
    assert (Hlast : ∀ z, z ∈ l → end_ x + gapMs < start z).
    { intros z Hz. apply (Ha pre k (post' ++ [l])); [by rewrite <-app_assoc|done|].
      apply concat_snoc_elem. by right. }
    apply concat_snoc_elem in Hy as [Hy|[Hy|Hy%list_elem_of_singleton]%elem_of_app].
    + apply (Ha pre k (post' ++ [l])); [by rewrite <-app_assoc|done|].
      apply concat_snoc_elem. by left.
    + by apply Hlast.
    + subst y. destruct Hnear as (z & Hz & _). specialize (Hlast z Hz).
      assert (start z ≤ start i) by (apply Hi; rewrite <-Hc; apply concat_snoc_elem; by right). lia.
  - intros l' pre y post Hin Heq Hpre.
    apply elem_of_app in Hin as [Hin|Hin%list_elem_of_singleton].
    + eapply Hl; [|done..]. apply elem_of_app. by left.
    + rewrite Hin in Heq.
      apply app_snoc_cases in Heq as [(-> & -> & ->)|(post' & -> & ->)]; [done|].
      eapply Hl; [|done..]. apply elem_of_app. right. by apply list_elem_of_singleton.
Qed.

Lemma sweep_step_inv gapMs done_ islands re i :
  sweep_inv gapMs done_ islands re → (∀ x, x ∈ done_ → start x ≤ start i) →
  let st := sweep_step gapMs (islands, re) i in sweep_inv gapMs (done_ ++ [i]) st.1 st.2.
Proof.
  intros Hinv Hsort. simpl. unfold opens_island.
  destruct islands as [|l0 islands0 _] using rev_ind; simpl.
  { apply (sweep_inv_open _ _ []); [done|].
    destruct Hinv as [Hc _ _ _ _]; simpl in Hc. subst. intros x Hx. by auto with breeze. }
  rewrite bool_decide_false by (by destruct islands0). simpl.
  pose proof Hinv as [Hc Hn He Ha Hl].
  destruct re as [e|].
  2: { apply Forall_app in Hn as [_ Hn]. apply Forall_cons in Hn as [Hn _].
       destruct l0 as [|x l0]; [done|]. destruct (zmax_list_ge (end_ <$> done_) (end_ x)) as (m & Hm & _).
       - apply list_elem_of_fmap_2. rewrite <-Hc. apply concat_snoc_elem. right. left.
       - congruence. }
  symmetry in He. destruct (Z.ltb_spec (e + gapMs) (start i)) as [Hlt|Hge].
  - rewrite push_last_snoc. apply sweep_inv_open; [done|]. intros x Hx.
    destruct (zmax_list_ge (end_ <$> done_) (end_ x)) as (m & Hm & ?);
      [by apply list_elem_of_fmap_2|]. simplify_eq. lia.
  - rewrite push_last_snoc. apply sweep_inv_extend; [done..|].
    apply zmax_list_in in He. apply list_elem_of_fmap in He as (x & -> & Hx).
    rewrite <-Hc in Hx. apply concat_snoc_elem in Hx as [Hx|Hx]; [|by exists x; split; [|lia]].
    apply Forall_app in Hn as [_ Hn]. apply Forall_cons in Hn as [Hn _].
    destruct l0 as [|z l0]; [done|].
    assert (end_ x + gapMs < start z).
    { destruct islands0 as [|k islands1 _] using rev_ind; [by auto with breeze|].
      apply (Ha islands1 k [z :: l0]); [by rewrite <-app_assoc|done|]. simpl. left. }
    assert (start z ≤ start i) by (apply Hsort; rewrite <-Hc; apply concat_snoc_elem; right; left).
    lia.
Qed.

Lemma sweep_spec gapMs items :
  StronglySorted (λ a b, start a ≤ start b) items →
  ∃ re, sweep_inv gapMs items (sweep gapMs items) re.
Proof.
  intros Hs. unfold sweep. exists (foldl (sweep_step gapMs) ([], None) items).2.
  induction items as [|i items IH] using rev_ind.
  { split; try done; [intros pre l post x y Heq; by destruct pre|].
    intros l pre y post Hin. by auto with breeze. }
  rewrite foldl_app; simpl.
  assert (Hs' : StronglySorted (λ a b, start a ≤ start b) items ∧ ∀ x, x ∈ items → start x ≤ start i).
  { clear IH. induction items as [|x items IH]; simpl in *;
      [split; [constructor|intros x Hx; by auto with breeze]|].
    apply StronglySorted_inv in Hs as [Hs Hall]. destruct (IH Hs) as [H1 H2].
    apply Forall_app in Hall as [Hall Hi]. apply Forall_cons in Hi as [Hi _].
    split; [by constructor|]. intros y [->|Hy]%elem_of_cons; auto. }
  destruct Hs' as [Hs1 Hs2]. specialize (IH Hs1).
  destruct (foldl (sweep_step gapMs) ([], None) items) as [islands re].
  by apply (sweep_step_inv gapMs items islands re i).
Qed.

(** ** Sorting the items of a group *)

Lemma item_le_start a b : item_le a b = true → start a ≤ start b.
Proof. unfold item_le. intros [H|[H _]%andb_true_iff]%orb_true_iff; bool_hyps; lia. Qed.

Lemma item_le_total a b : item_le a b = true ∨ item_le b a = true.
Proof.
  unfold item_le. destruct (Z.ltb_spec (start a) (start b)); [by left|].
  destruct (Z.ltb_spec (start b) (start a)); [by right|].
  assert (start a = start b) as -> by lia. rewrite Z.eqb_refl.
  destruct (is_anchor a), (is_anchor b); auto.
Qed.

Lemma item_le_trans a b c : item_le a b = true → item_le b c = true → item_le a c = true.
Proof.
  unfold item_le. rewrite !orb_true_iff, !andb_true_iff, !Z.ltb_lt, !Z.eqb_eq.
  destruct (is_anchor a), (is_anchor b), (is_anchor c); simpl; intuition (try lia; try congruence).
Qed.

Lemma group_items_sorted grows current :
  StronglySorted (λ a b, start a ≤ start b) (group_items grows current).
Proof.
  eapply StronglySorted_weaken; [apply item_le_start|].
  apply js_sort_sorted; [apply item_le_total|apply item_le_trans].
Qed.

Lemma rows_of_app l k : rows_of (l ++ k) = rows_of l ++ rows_of k.
Proof. apply omap_app. Qed.

Lemma rows_of_items grows : rows_of (item_row <$> grows) = grows.
Proof. induction grows as [|r l IH]; [done|]. unfold rows_of in *. csimpl. by rewrite IH. Qed.

Lemma rows_of_perm l k : l ≡ₚ k → rows_of l ≡ₚ rows_of k.
Proof. intros H. unfold rows_of. by rewrite H. Qed.

Lemma group_items_rows grows current : rows_of (group_items grows current) ≡ₚ grows.
Proof.
  unfold group_items. rewrite (rows_of_perm _ _ (js_sort_perm _ _)), rows_of_app, rows_of_items.
  destruct current; simpl; by rewrite app_nil_r.
Qed.

Lemma islands_partition gapMs grows current :
  concat (sweep gapMs (group_items grows current)) = group_items grows current
  ∧ rows_of (group_items grows current) ≡ₚ grows.
Proof.
  destruct (sweep_spec gapMs _ (group_items_sorted grows current)) as [re [Hc _ _ _ _]].
  split; [exact Hc|apply group_items_rows].
Qed.

(** The sweep cuts a group into the right islands. For any rows and
    anchor, the islands in order are exactly the sorted items, none is empty,
    two items of different islands are more than the gap apart (end to start),
    and inside an island every item after the first starts within the gap of
    the end of an earlier item of the same island. *)
Theorem islands_correct gapMs grows current :
  let items := group_items grows current in
  let islands := sweep gapMs items in
  concat islands = items ∧ rows_of items ≡ₚ grows ∧ Forall (λ l, l ≠ []) islands
  ∧ (∀ pre l post x y, islands = pre ++ l :: post → x ∈ l → y ∈ concat post →
       end_ x + gapMs < start y)
  ∧ (∀ l pre y post, l ∈ islands → l = pre ++ y :: post → pre ≠ [] →
       ∃ x, x ∈ pre ∧ start y ≤ end_ x + gapMs).
Proof.
  intros items islands.
  destruct (sweep_spec gapMs items (group_items_sorted _ _)) as [re [Hc Hn He Ha Hl]].
  split_and!; [done|apply group_items_rows|done| |done].
  intros pre l post x y Heq Hx Hy. eapply Ha; [done| |done]. apply concat_snoc_elem. by right.
Qed.

(** ** Conservation of rows *)

Definition ids_of (islands : list (list IslandItem)) : list string :=
  concat ((λ l, id <$> rows_of l) <$> islands).

Definition attached (p : EpisodeAssemblyPlan) : list string := pa_anomalyId <$> anchorAttaches p.
Definition members (p : EpisodeAssemblyPlan) : list string :=
  concat ((λ e, memberIds (pe_summary e)) <$> creates p).

Definition pending_ids (gs : list (list IslandItem * Gate)) : list string :=
  concat ((λ g : list IslandItem * Gate,
             match g.2 with still_pending => id <$> rows_of g.1 | _ => [] end) <$> gs).

Lemma ids_of_concat islands : ids_of islands = id <$> rows_of (concat islands).
Proof.
  induction islands as [|l islands IH]; [done|]. unfold ids_of in *. csimpl.
  by rewrite IH, rows_of_app, fmap_app.
Qed.

Lemma plan_islands_conserves newId meta cur sn ai li dr idx cr islands :
  let p := plan_islands newId meta cur sn ai li dr idx cr islands in
  attached p ++ members p ≡ₚ ids_of islands.
Proof.
  revert idx cr. induction islands as [|l islands IH]; intros idx cr; [done|].
  unfold ids_of, attached, members in *. cbn [plan_islands]. csimpl. case_match; csimpl.
  - rewrite fmap_app, <-app_assoc, IH. f_equiv. by rewrite <-list_fmap_compose.
  - rewrite fmap_app, concat_app.
    replace (concat ((λ e, memberIds (pe_summary e)) <$> match rows_of l with [] => [] | _ :: _ => _ end))
      with (id <$> rows_of l) by (destruct (rows_of l); csimpl; [done|by rewrite app_nil_r]).
    rewrite <-(IH (S idx) (S cr)). solve_Permutation.
Qed.

Lemma gates_conserve (gs : list (list IslandItem * Gate)) :
  ids_of (eligible gs) ++ transient_ids gs ++ pending_ids gs ≡ₚ ids_of gs.*1.
Proof.
  unfold ids_of, transient_ids, pending_ids, eligible.
  induction gs as [|[l g] gs IH]; [done|]. destruct g; csimpl; rewrite <-IH; solve_Permutation.
Qed.

Lemma gates_fst inp islands : (gates inp islands).*1 = islands.
Proof.
  unfold gates. rewrite fmap_imap. apply list_eq. intros k.
  rewrite list_lookup_imap. by destruct (islands !! k).
Qed.

Lemma gates_settled inp islands :
  settledBefore inp = None → pending_ids (gates inp islands) = [].
Proof.
  intros Hs. unfold pending_ids. apply concat_nil_Forall, Forall_fmap, Forall_forall.
  intros [l g] Hin. simpl. apply list_elem_of_lookup in Hin as [k Hk].
  unfold gates in Hk. rewrite list_lookup_imap in Hk.
  destruct (islands !! k); simplify_eq/=. unfold gate. rewrite Hs.
  by repeat case_match; try (rewrite orb_true_r in *).
Qed.

Definition group_islands (inp : PlanEpisodeAssemblyInput) (gk : string)
    (grows : list UnassignedAnomalyRow) : list (list IslandItem) :=
  sweep (gapMinutes inp * 60000) (group_items grows (group_anchor inp gk)).

Definition group_pending (inp : PlanEpisodeAssemblyInput) (gk : string)
    (grows : list UnassignedAnomalyRow) : list string :=
  pending_ids (gates inp (group_islands inp gk grows)).

Lemma plan_group_conserves newId inp dr gk meta grows :
  let p := plan_group newId inp dr gk meta grows in
  attached p ++ members p ++ transients p ++ group_pending inp gk grows ≡ₚ id <$> grows.
Proof.
  intros p. unfold p, plan_group. set (gs := gates inp _).
  pose proof (plan_islands_conserves newId meta (group_anchor inp gk)
    (own gk (activeSnoozes inp)) (findIndex has_anchor (eligible gs)) (length (eligible gs) - 1)
    dr 0 0 (eligible gs)) as H1.
  set (q := plan_islands _ _ _ _ _ _ _ _ _ _) in *. cbn zeta in H1.
  change (attached (mkPlan _ _ _ _)) with (attached q).
  change (members (mkPlan _ _ _ _)) with (members q). cbn [transients].
  rewrite (app_assoc (attached q)), H1. change (group_pending inp gk grows) with (pending_ids gs).
  rewrite gates_conserve. unfold gs. rewrite gates_fst, ids_of_concat.
  destruct (islands_partition (gapMinutes inp * 60000) grows (group_anchor inp gk)) as (Hc & Hr).
  rewrite Hc. by rewrite Hr.
Qed.

(** ** Groups *)

Lemma add_row_perm gs r :
  concat ((λ g : Group, g.2.2) <$> add_row gs r) ≡ₚ concat ((λ g : Group, g.2.2) <$> gs) ++ [r].
Proof.
  induction gs as [|[k [meta rs]] gs IH]; [done|]. cbn [add_row].
  case_match; csimpl; [solve_Permutation|]. rewrite IH. solve_Permutation.
Qed.

Lemma group_rows_perm rs : concat ((λ g : Group, g.2.2) <$> group_rows rs) ≡ₚ rs.
Proof.
  unfold group_rows. induction rs as [|r rs IH] using rev_ind; [done|].
  rewrite foldl_app. csimpl. by rewrite add_row_perm, IH.
Qed.

(** Every group holds the rows of its key, described by its meta. *)
Definition group_ok (g : Group) : Prop :=
  g.1 = groupKeyOf (gm_deviceId g.2.1) (gm_episodeKey g.2.1)
  ∧ Forall (λ r, row_groupKey r = g.1) g.2.2.

Lemma add_row_ok gs r :
  Forall group_ok gs → NoDup gs.*1 →
  Forall group_ok (add_row gs r) ∧ NoDup (add_row gs r).*1
  ∧ (∀ k, k ∈ (add_row gs r).*1 → k ∈ gs.*1 ∨ k = row_groupKey r).
Proof.
  induction gs as [|[k [meta rs]] gs IH]; intros Hok Hnd; cbn [add_row].
  { split_and!; [repeat constructor|apply NoDup_singleton|].
    intros k [->|Hk]%elem_of_cons; [by right|by auto with breeze]. }
  apply Forall_cons in Hok as [[Hk Hrs] Hok]. csimpl in Hnd. apply NoDup_cons in Hnd as [Hni Hnd].
  destruct (String.eqb_spec k (row_groupKey r)) as [->|Hne]; csimpl.
  - split_and!; [|by constructor|intros; by left].
    constructor; [|done]. split; [done|]. apply Forall_app; split; [done|]. by repeat constructor.
  - destruct (IH Hok Hnd) as (H1 & H2 & H3). split_and!; [by constructor| |].
    + constructor; [|done]. intros [?|?]%H3; done.
    + intros k' [->|Hk']%elem_of_cons; [left; left|].
      apply H3 in Hk' as [?|?]; [left; by right|by right].
Qed.

Lemma group_rows_ok rs : Forall group_ok (group_rows rs) ∧ NoDup (group_rows rs).*1.
Proof.
  unfold group_rows. induction rs as [|r rs [IH1 IH2]] using rev_ind; [by repeat constructor|].
  rewrite foldl_app. simpl. destruct (add_row_ok _ r IH1 IH2) as (? & ? & _). done.
Qed.

(** ** Running the groups in order *)

Definition plan_run (newId : nat → string) (inp : PlanEpisodeAssemblyInput) (gs : list Group)
    : EpisodeAssemblyPlan :=
  foldl (λ plan g, plan_append plan
           (plan_group newId inp (length (creates plan)) g.1 g.2.1 g.2.2))
    (mkPlan [] [] [] []) gs.

Lemma plan_run_snoc newId inp gs g :
  plan_run newId inp (gs ++ [g]) =
  plan_append (plan_run newId inp gs)
    (plan_group newId inp (length (creates (plan_run newId inp gs))) g.1 g.2.1 g.2.2).
Proof. unfold plan_run. by rewrite foldl_app. Qed.

Lemma plan_run_conserves newId inp gs :
  ∃ pend, attached (plan_run newId inp gs) ++ members (plan_run newId inp gs)
            ++ transients (plan_run newId inp gs) ++ pend
          ≡ₚ id <$> concat ((λ g : Group, g.2.2) <$> gs)
    ∧ (settledBefore inp = None → pend = []).
Proof.
  induction gs as [|g gs (pend & IH & Hp)] using rev_ind; [by exists []|].
  exists (pend ++ group_pending inp g.1 g.2.2). split.
  - rewrite plan_run_snoc. set (p := plan_run newId inp gs) in *.
    pose proof (plan_group_conserves newId inp (length (creates p)) g.1 g.2.1 g.2.2) as H.
    set (q := plan_group _ _ _ _ _ _) in *. cbn zeta in H.
    rewrite !fmap_app, concat_app, fmap_app. csimpl. rewrite app_nil_r, <-IH, <-H.
    unfold attached, members. simpl. rewrite !fmap_app, concat_app. solve_Permutation.
  - intros Hs. rewrite Hp by done. unfold group_pending. by rewrite gates_settled.
Qed.

(** Assembly loses and duplicates nothing. Every unassigned row ends in
    exactly one place: attached to an anchor, a member of exactly one created
    episode, closed as transient, or left pending; and once the detection range
    counts as settled nothing is left pending. *)
Theorem assembly_conserves_rows newId inp :
  let plan := planEpisodeAssembly newId inp in
  ∃ pend, attached plan ++ members plan ++ transients plan ++ pend ≡ₚ id <$> rows inp
    ∧ (settledBefore inp = None → pend = []).
Proof.
  intros plan. destruct (plan_run_conserves newId inp (sorted_groups (group_rows (rows inp))))
    as (pend & H & Hp). exists pend. split; [|done]. unfold plan, planEpisodeAssembly.
  fold (plan_run newId inp (sorted_groups (group_rows (rows inp)))). rewrite H.
  unfold sorted_groups. rewrite js_sort_perm. by rewrite group_rows_perm.
Qed.

(** ** The anchor's island *)

Definition n_anchors (l : list IslandItem) : nat := length (List.filter is_anchor l).

Lemma n_anchors_app l k : n_anchors (l ++ k) = (n_anchors l + n_anchors k)%nat.
Proof. unfold n_anchors. by rewrite List.filter_app, length_app. Qed.

Lemma n_anchors_perm l k : l ≡ₚ k → n_anchors l = n_anchors k.
Proof.
  unfold n_anchors. induction 1; simpl; repeat case_match; simpl in *; congruence.
Qed.

Lemma n_anchors_rows grows : n_anchors (item_row <$> grows) = 0%nat.
Proof. by induction grows. Qed.

Lemma n_anchors_items grows current : (n_anchors (group_items grows current) ≤ 1)%nat.
Proof.
  unfold group_items. rewrite (n_anchors_perm _ _ (js_sort_perm _ _)), n_anchors_app, n_anchors_rows.
  destruct current; unfold n_anchors; simpl; lia.
Qed.

Lemma has_anchor_pos l : has_anchor l = true → (0 < n_anchors l)%nat.
Proof. unfold has_anchor, n_anchors. induction l as [|i l IH]; simpl; [done|]. destruct (is_anchor i); simpl; [lia|auto]. Qed.

Lemma has_anchor_elem l : has_anchor l = true ↔ ∃ a, item_anchor a ∈ l.
Proof.
  unfold has_anchor. rewrite existsb_exists. split.
  - intros (i & Hin & Hi). destruct i as [|a]; [done|]. exists a. by apply list_elem_of_In.
  - intros [a Ha]. exists (item_anchor a). split; [by apply list_elem_of_In|done].
Qed.

Lemma n_anchors_concat_lookup (ls : list (list IslandItem)) j k l m :
  (n_anchors (concat ls) ≤ 1)%nat → ls !! j = Some l → ls !! k = Some m →
  has_anchor l = true → has_anchor m = true → j = k.
Proof.
  revert j k. induction ls as [|x ls IH]; intros j k Hn Hj Hk Hl Hm; [done|].
  simpl in Hn. rewrite n_anchors_app in Hn.
  assert (Htail : ∀ i y, ls !! i = Some y → has_anchor y = true → (0 < n_anchors (concat ls))%nat).
  { clear. induction ls as [|z ls IH]; intros i y Hi Hy; [done|]. simpl. rewrite n_anchors_app.
    apply has_anchor_pos in Hy as Hy'. destruct i; simplify_eq/=; [lia|]. specialize (IH _ _ Hi Hy). lia. }
  destruct j as [|j], k as [|k]; simplify_eq/=; [done| | |f_equal; eapply IH; eauto; lia].
  - apply has_anchor_pos in Hl. specialize (Htail _ _ Hk Hm). lia.
  - apply has_anchor_pos in Hm. specialize (Htail _ _ Hj Hl). lia.
Qed.

Lemma findIndex_Some {A} (p : A → bool) l j :
  findIndex p l = Some j → ∃ x, l !! j = Some x ∧ p x = true.
Proof.
  unfold findIndex. destruct (list_find _ l) as [[i x]|] eqn:E; simpl; [|done].
  intros [= ->]. apply list_find_Some in E as (? & ? & _). eauto.
Qed.

Lemma findIndex_None {A} (p : A → bool) l x : x ∈ l → p x = true → findIndex p l ≠ None.
Proof.
  intros Hx Hp. unfold findIndex.
  destruct (list_find_elem_of (λ x, p x = true) l x Hx Hp) as [[i y] E]. by rewrite E.
Qed.

Lemma findIndex_unique (ls : list (list IslandItem)) j l :
  (n_anchors (concat ls) ≤ 1)%nat → ls !! j = Some l → has_anchor l = true →
  findIndex has_anchor ls = Some j.
Proof.
  intros Hn Hj Hl. destruct (findIndex has_anchor ls) as [k|] eqn:E.
  - apply findIndex_Some in E as (m & Hk & Hm). f_equal. by eapply n_anchors_concat_lookup.
  - destruct (findIndex_None has_anchor ls l); [|done|done]. apply list_elem_of_lookup. eauto.
Qed.

Section eligible_facts.
Context (inp : PlanEpisodeAssemblyInput) (gk : string) (grows : list UnassignedAnomalyRow).
Let cur := group_anchor inp gk.
Let islands := group_islands inp gk grows.
Let gs := gates inp islands.

Lemma eligible_count : (n_anchors (concat (eligible gs)) ≤ 1)%nat.
Proof.
  assert (n_anchors (concat (eligible gs)) ≤ n_anchors (concat gs.*1))%nat as Hle.
  { clear. generalize gs as g. induction g as [|[l v] g IH]; [done|]. unfold eligible in *.
    destruct v; csimpl; rewrite ?n_anchors_app; lia. }
  etransitivity; [exact Hle|]. replace (gs.*1) with islands by (symmetry; apply gates_fst).
  destruct (islands_partition (gapMinutes inp * 60000) grows cur) as (Hc & _).
  change islands with (sweep (gapMinutes inp * 60000) (group_items grows cur)).
  rewrite Hc. apply n_anchors_items.
Qed.

Lemma eligible_elem l :
  l ∈ eligible gs → ∃ idx, islands !! idx = Some l ∧
    (findIndex has_anchor islands = Some idx ∨ minBuckets inp ≤ distinct_starts (rows_of l)).
Proof.
  unfold eligible. intros H. apply list_elem_of_omap in H as ([l' g] & Hin & Hg).
  simpl in Hg. destruct g; simplify_eq/=.
  apply list_elem_of_lookup in Hin as [idx Hidx]. unfold gs, gates in Hidx.
  rewrite list_lookup_imap in Hidx. destruct (islands !! idx) as [l'|] eqn:E; simplify_eq/=.
  exists idx. split; [done|]. unfold gate in *. case_bool_decide; [by left|].
  destruct (Z.leb_spec (minBuckets inp) (distinct_starts (rows_of l))); [by right|].
  repeat case_match; done.
Qed.

Lemma eligible_anchor_some l : l ∈ eligible gs → has_anchor l = true → is_Some cur.
Proof.
  intros Hl Ha. apply eligible_elem in Hl as (idx & Hidx & _).
  destruct (islands_partition (gapMinutes inp * 60000) grows cur) as (Hc & _).
  destruct cur as [a|] eqn:E; [by eexists|]. exfalso.
  apply has_anchor_pos in Ha.
  assert (Hin : ∀ i, i ∈ l → i ∈ group_items grows None).
  { intros i Hi. rewrite <-Hc. apply list_elem_of_In, in_concat. exists l.
    split; apply list_elem_of_In; [|done]. apply list_elem_of_lookup. exists idx.
    unfold islands, group_islands in Hidx. fold cur in Hidx. by rewrite E in Hidx. }
  assert (Hz : ∀ i, i ∈ l → is_anchor i = false).
  { intros i Hi. apply Hin in Hi. unfold group_items in Hi. apply elem_of_js_sort in Hi.
    rewrite app_nil_r in Hi. apply list_elem_of_fmap in Hi as (r & -> & _). done. }
  clear -Ha Hz. unfold n_anchors in Ha.
  induction l as [|i l IH]; simpl in *; [lia|]. rewrite (Hz i) in Ha by left.
  apply IH; [done|]. intros j Hj. apply Hz. by right.
Qed.

Lemma eligible_has_anchor a :
  cur = Some a → ∃ k, findIndex has_anchor (eligible gs) = Some k ∧ (k < length (eligible gs))%nat.
Proof.
  intros E. destruct (islands_partition (gapMinutes inp * 60000) grows cur) as (Hc & _).
  assert (item_anchor a ∈ concat islands) as Hin.
  { unfold islands, group_islands. fold cur. rewrite Hc. unfold group_items.
    apply elem_of_js_sort. rewrite E. apply elem_of_app. right. left. }
  apply list_elem_of_In, in_concat in Hin as (l & Hl & Hal).
  apply list_elem_of_In in Hl, Hal.
  destruct (findIndex has_anchor islands) as [k0|] eqn:Hk0.
  2: { by destruct (findIndex_None has_anchor islands l); [|apply has_anchor_elem; eauto|]. }
  apply findIndex_Some in Hk0 as Hx. destruct Hx as (x & Hx & Hax).
  assert (x ∈ eligible gs) as Hel.
  { unfold eligible. apply list_elem_of_omap. exists (x, keep). split; [|done].
    apply list_elem_of_lookup. exists k0. unfold gs, gates. rewrite list_lookup_imap, Hx. simpl.
    unfold gate. by rewrite Hk0, bool_decide_true. }
  destruct (findIndex has_anchor (eligible gs)) as [k|] eqn:Hk.
  - exists k. split; [done|]. apply findIndex_Some in Hk as (y & Hy & _). by eapply lookup_lt_Some.
  - by destruct (findIndex_None has_anchor (eligible gs) x).
Qed.
End eligible_facts.

(** ** What a group creates *)

Definition is_live (e : PlannedEpisode) : bool := negb (bool_decide (disposition e = d_historical)).

Lemma plan_islands_live newId meta cur sn ai li dr idx cr islands :
  (islands ≠ [] → idx + length islands = S li)%nat →
  let p := plan_islands newId meta cur sn ai li dr idx cr islands in
  (length (List.filter is_live (creates p)) ≤ 1)%nat ∧
  (List.filter is_live (creates p) ≠ [] → ∀ a k, cur = Some a → a_status a = anchor_open →
     ai = Some k → (k ≤ li)%nat → a_id a ∈ ps_episodeId <$> supersedes p).
Proof.
  revert idx cr. induction islands as [|l islands IH]; intros idx cr Hlen; [simpl; split; [lia|done]|].
  specialize (Hlen ltac:(done)). simpl in Hlen.
  assert (Hr : islands ≠ [] → (S idx + length islands = S li)%nat) by lia.
  cbn [plan_islands]. cbn zeta.
  destruct (if bool_decide (ai = Some idx) then cur else None) as [a0|] eqn:Ea.
  { simpl. by destruct (IH (S idx) cr Hr) as [H1 H2]. }
  specialize (IH (S idx) (S cr) Hr). cbn zeta in IH. destruct IH as [IH1 IH2]. simpl.
  destruct (Nat.eqb_spec idx li) as [->|Hne].
  - assert (islands = []) as -> by (apply nil_length_inv; lia). simpl. rewrite !app_nil_r. split.
    + destruct (rows_of l); [simpl; lia|]. simpl. repeat case_match; simpl; lia.
    + intros _ a k -> Hopen -> Hk. rewrite Hopen, bool_decide_true by done. simpl.
      destruct (Nat.ltb_spec k li); [simpl; left|]. exfalso.
      assert (k = li) as -> by lia. by rewrite bool_decide_true in Ea.
  - rewrite List.filter_app, length_app.
    assert (List.filter is_live (match rows_of l with [] => [] | first :: _ =>
       [mkEpisode (newId (dr + cr)%nat) meta (summarize first (rows_of l)) d_historical None
          (match islands with [] => None | next :: _ => Some (first_start next) end)
          (Z.of_nat cr)] end) = []) as Hnil by (by destruct (rows_of l)).
    rewrite Hnil; simpl. split; [done|]. intros Hl a k Hc Ho Hk Hle.
    rewrite fmap_app. apply elem_of_app. right. by eapply IH2.
Qed.

Lemma plan_islands_created newId meta cur sn ai li dr idx cr islands :
  (∀ j l, islands !! j = Some l → has_anchor l = true → ai = Some (idx + j)%nat ∧ is_Some cur) →
  ∀ e, e ∈ creates (plan_islands newId meta cur sn ai li dr idx cr islands) →
    pe_meta e = meta ∧
    ∃ l first, l ∈ islands ∧ has_anchor l = false ∧ head (rows_of l) = Some first
      ∧ pe_summary e = summarize first (rows_of l).
Proof.
  revert idx cr. induction islands as [|l islands IH]; intros idx cr Ha e He;
    [by auto with breeze|].
  assert (Ha' : ∀ j k, islands !! j = Some k → has_anchor k = true →
            ai = Some (S idx + j)%nat ∧ is_Some cur).
  { intros j k Hj Hk. replace (S idx + j)%nat with (idx + S j)%nat by lia. by apply Ha with k. }
  assert (Hgo : ∀ cr', e ∈ creates (plan_islands newId meta cur sn ai li dr (S idx) cr' islands) →
    pe_meta e = meta ∧ ∃ l' first, l' ∈ l :: islands ∧ has_anchor l' = false
      ∧ head (rows_of l') = Some first ∧ pe_summary e = summarize first (rows_of l')).
  { intros cr' H. destruct (IH (S idx) cr' Ha' e H) as (Hm & l' & f & ? & ? & ? & ?).
    split; [done|]. exists l', f. split_and!; [by right|done..]. }
  cbn [plan_islands] in He.
  destruct (if bool_decide (ai = Some idx) then cur else None) as [a0|] eqn:Ea; [by eapply Hgo|].
  simpl in He. apply elem_of_app in He as [He|He]; [|by eapply Hgo].
  destruct (rows_of l) as [|first rs] eqn:Er; [by auto with breeze|].
  apply list_elem_of_singleton in He as ->. split; [done|]. exists l, first.
  split_and!; [left| |by rewrite Er|by rewrite Er].
  destruct (has_anchor l) eqn:El; [|done]. destruct (Ha 0%nat l eq_refl El) as [Hai [a Hc]].
  rewrite Nat.add_0_r in Hai. by rewrite Hai, Hc, bool_decide_true in Ea.
Qed.

Lemma plan_group_live newId inp dr gk meta grows :
  let p := plan_group newId inp dr gk meta grows in
  (length (List.filter is_live (creates p)) ≤ 1)%nat ∧
  (List.filter is_live (creates p) ≠ [] → ∀ a, group_anchor inp gk = Some a →
     a_status a = anchor_open → a_id a ∈ ps_episodeId <$> supersedes p).
Proof.
  intros p. unfold p, plan_group. cbn [creates supersedes].
  set (es := eligible _). set (li := (length es - 1)%nat).
  destruct (plan_islands_live newId meta (group_anchor inp gk) (own gk (activeSnoozes inp))
    (findIndex has_anchor es) li dr 0 0 es) as [H1 H2].
  { intros Hne. unfold li. destruct es; simpl in *; [done|lia]. }
  split; [done|]. intros Hl a Ha Ho.
  destruct (eligible_has_anchor inp gk grows a Ha) as (k & Hk & Hlt).
  eapply H2; [done|done|done|exact Hk|]. unfold li. unfold es, group_islands in *. lia.
Qed.

Lemma plan_group_created newId inp dr gk meta grows e :
  e ∈ creates (plan_group newId inp dr gk meta grows) →
  pe_meta e = meta ∧ minBuckets inp ≤ bucketCount (pe_summary e)
  ∧ ∃ l first, l ∈ group_islands inp gk grows ∧ head (rows_of l) = Some first
      ∧ pe_summary e = summarize first (rows_of l).
Proof.
  unfold plan_group. cbn [creates]. intros He.
  apply plan_islands_created in He as (Hm & l & first & Hl & Hna & Hf & Hs).
  - split; [done|]. destruct (eligible_elem inp gk grows l Hl) as (idx & Hidx & Hb).
    rewrite Hs. split.
    + simpl. destruct Hb as [Hb|Hb]; [|done]. apply findIndex_Some in Hb as (x & Hx & ?).
      congruence.
    + exists l, first. split_and!; [|done|done]. apply list_elem_of_lookup. eauto.
  - intros j l Hj Hl. split.
    + apply (findIndex_unique _ _ l); [apply eligible_count|done|done].
    + apply (eligible_anchor_some inp gk grows l); [|done]. apply list_elem_of_lookup. by exists j.
Qed.

Definition key_of (e : PlannedEpisode) : string :=
  groupKeyOf (gm_deviceId (pe_meta e)) (gm_episodeKey (pe_meta e)).

Definition live_of (gk : string) (p : EpisodeAssemblyPlan) : list PlannedEpisode :=
  List.filter (λ e, String.eqb (key_of e) gk && is_live e) (creates p).

Lemma filter_nil_iff {A} (p : A → bool) l : List.filter p l = [] ↔ ∀ x, x ∈ l → p x = false.
Proof.
  induction l as [|y l IH]; simpl.
  { split; [intros _ x Hx; by auto with breeze|done]. }
  destruct (p y) eqn:E.
  - split; [done|]. intros H. rewrite (H y) in E by left. done.
  - rewrite IH. split; intros H x; [intros [->|?]%elem_of_cons; auto|intros; apply H; by right].
Qed.

Lemma live_of_group newId inp dr g gk :
  group_ok g →
  live_of gk (plan_group newId inp dr g.1 g.2.1 g.2.2) =
  if String.eqb g.1 gk
  then List.filter is_live (creates (plan_group newId inp dr g.1 g.2.1 g.2.2)) else [].
Proof.
  intros [Hk _]. unfold live_of. set (p := plan_group _ _ _ _ _ _).
  assert (Hmeta : ∀ e, e ∈ creates p → key_of e = g.1).
  { intros e (Hm & _)%plan_group_created. unfold key_of. by rewrite Hm. }
  destruct (String.eqb_spec g.1 gk) as [<-|Hne].
  - apply List.filter_ext_in. intros e He. rewrite Hmeta by by apply list_elem_of_In.
    by rewrite String.eqb_refl.
  - apply filter_nil_iff. intros e He. rewrite Hmeta by done.
    by apply String.eqb_neq in Hne as ->.
Qed.

Lemma plan_run_live newId inp gs gk :
  Forall group_ok gs → NoDup gs.*1 →
  let p := plan_run newId inp gs in
  (gk ∉ gs.*1 → live_of gk p = []) ∧ (length (live_of gk p) ≤ 1)%nat
  ∧ (live_of gk p ≠ [] → ∀ a, group_anchor inp gk = Some a → a_status a = anchor_open →
       a_id a ∈ ps_episodeId <$> supersedes p).
Proof.
  induction gs as [|g gs IH] using rev_ind; intros Hok Hnd; [simpl; split_and!; [done|lia|done]|].
  apply Forall_app in Hok as [Hok Hg]. apply Forall_cons in Hg as [Hg _].
  rewrite fmap_app in Hnd. apply NoDup_app in Hnd as (Hnd & Hdis & _).
  destruct (IH Hok Hnd) as (IH1 & IH2 & IH3). clear IH. cbn zeta.
  rewrite plan_run_snoc. set (p := plan_run newId inp gs) in *.
  pose proof (live_of_group newId inp (length (creates p)) g gk Hg) as Hl.
  pose proof (plan_group_live newId inp (length (creates p)) g.1 g.2.1 g.2.2) as [Hq1 Hq2].
  set (q := plan_group _ _ _ _ _ _) in *.
  assert (Happ : live_of gk (plan_append p q) = live_of gk p ++ live_of gk q)
    by (unfold live_of; simpl; apply List.filter_app).
  rewrite Happ, Hl, fmap_app. csimpl.
  destruct (String.eqb_spec g.1 gk) as [<-|Hne].
  - assert (g.1 ∉ gs.*1) as Hni.
    { intros Hin. apply (Hdis _ Hin). left. }
    rewrite (IH1 Hni). simpl. split_and!.
    + intros Hn. destruct Hn. apply elem_of_app. right. left.
    + done.
    + intros Hlive a Ha Ho. rewrite fmap_app. apply elem_of_app. right. by apply Hq2.
  - rewrite app_nil_r. split_and!; [|done|].
    + intros Hn. apply IH1. intros Hin. apply Hn, elem_of_app. by left.
    + intros Hlive a Ha Ho. rewrite fmap_app. apply elem_of_app. left. by apply IH3.
Qed.

Lemma sorted_groups_ok rs :
  Forall group_ok (sorted_groups (group_rows rs)) ∧ NoDup (sorted_groups (group_rows rs)).*1.
Proof.
  destruct (group_rows_ok rs) as [H1 H2]. unfold sorted_groups. split.
  - by rewrite js_sort_perm.
  - by rewrite js_sort_perm.
Qed.


(** ** Summaries *)

Lemma foldl_min_spec rs s :
  let m := foldl (λ s c, if windowStart c <? s then windowStart c else s) s rs in
  m ≤ s ∧ (∀ r, r ∈ rs → m ≤ windowStart r) ∧ (m = s ∨ m ∈ windowStart <$> rs).
Proof.
  revert s. induction rs as [|r rs IH]; intros s; csimpl.
  { split_and!; [lia|intros r Hr; by auto with breeze|by left]. }
  destruct (IH (if windowStart r <? s then windowStart r else s)) as (H1 & H2 & H3).
  destruct (Z.ltb_spec (windowStart r) s); split_and!; try lia; try done.
  1,3: intros r' [->|Hr']%elem_of_cons; [lia|auto].
  - right. destruct H3 as [->|H3]; [left|by right].
  - destruct H3 as [->|H3]; [by left|right; by right].
Qed.

Lemma foldl_max_spec rs s :
  let m := foldl (λ s c, if s <? windowEnd c then windowEnd c else s) s rs in
  s ≤ m ∧ (∀ r, r ∈ rs → windowEnd r ≤ m) ∧ (m = s ∨ m ∈ windowEnd <$> rs).
Proof.
  revert s. induction rs as [|r rs IH]; intros s; csimpl.
  { split_and!; [lia|intros r Hr; by auto with breeze|by left]. }
  destruct (IH (if s <? windowEnd r then windowEnd r else s)) as (H1 & H2 & H3).
  destruct (Z.ltb_spec s (windowEnd r)); split_and!; try lia; try done.
  1,3: intros r' [->|Hr']%elem_of_cons; [lia|auto].
  - right. destruct H3 as [->|H3]; [left|by right].
  - destruct H3 as [->|H3]; [by left|right; by right].
Qed.

Lemma foldl_peak_spec rs p :
  let m := foldl (λ p c, if better_peak c p then c else p) p rs in
  score p ≤ score m ∧ (∀ r, r ∈ rs → score r ≤ score m) ∧ (m = p ∨ m ∈ rs).
Proof.
  revert p. induction rs as [|r rs IH]; intros p; csimpl.
  { split_and!; [lia|intros r Hr; by auto with breeze|by left]. }
  destruct (IH (if better_peak r p then r else p)) as (H1 & H2 & H3).
  unfold better_peak in *.
  destruct (Z.ltb_spec (score p) (score r)), (Z.eqb_spec (score r) (score p)),
    (Z.ltb_spec (windowStart r) (windowStart p)); simpl in *; split_and!; try lia; try done;
    try (intros r' [->|Hr']%elem_of_cons; [lia|auto]);
    (destruct H3 as [->|H3]; [first [by left|right; left]|right; by right]).
Qed.

Lemma plan_run_creates newId inp gs e :
  e ∈ creates (plan_run newId inp gs) →
  ∃ g dr, g ∈ gs ∧ e ∈ creates (plan_group newId inp dr g.1 g.2.1 g.2.2).
Proof.
  induction gs as [|g gs IH] using rev_ind; [intros He; by auto with breeze|].
  rewrite plan_run_snoc. simpl. intros [He|He]%elem_of_app.
  - destruct (IH He) as (g' & dr & ? & ?). exists g', dr. split; [|done]. apply elem_of_app. by left.
  - exists g, (length (creates (plan_run newId inp gs))). split; [|done]. apply elem_of_app. right. left.
Qed.

(** every created episode is a faithful summary. It has at least
    [minBuckets] distinct buckets, and its members are input rows of its own
    device and key: it starts at the earliest and ends at the latest of their
    windows, and its peak is one of them with the largest score. *)
Theorem created_episode_summary newId inp e :
  e ∈ creates (planEpisodeAssembly newId inp) →
  minBuckets inp ≤ bucketCount (pe_summary e) ∧
  ∃ rs peak,
    memberIds (pe_summary e) = id <$> rs ∧ rs ≠ []
    ∧ Forall (λ r, r ∈ rows inp ∧ row_groupKey r = key_of e) rs
    ∧ bucketCount (pe_summary e) = distinct_starts rs
    ∧ firstSeenAt (pe_summary e) ∈ windowStart <$> rs
    ∧ lastSeenAt (pe_summary e) ∈ windowEnd <$> rs
    ∧ Forall (λ r, firstSeenAt (pe_summary e) ≤ windowStart r
                   ∧ windowEnd r ≤ lastSeenAt (pe_summary e)
                   ∧ score r ≤ peakScore (pe_summary e)) rs
    ∧ peak ∈ rs ∧ score peak = peakScore (pe_summary e)
    ∧ windowStart peak = peakAt (pe_summary e) ∧ observedValue peak = peakValue (pe_summary e).
Proof.
  intros He. destruct (sorted_groups_ok (rows inp)) as [Hok _].
  apply plan_run_creates in He as (g & dr & Hg & He).
  apply plan_group_created in He as (Hm & Hb & l & first & Hl & Hf & Hs).
  split; [done|]. rewrite Forall_forall in Hok. destruct (Hok g Hg) as [Hk Hrs].
  assert (Hfirst : first ∈ rows_of l) by (destruct (rows_of l); simplify_eq/=; left).
  assert (Hin : ∀ r, r ∈ rows_of l → r ∈ g.2.2).
  { intros r Hr. destruct (islands_partition (gapMinutes inp * 60000) g.2.2 (group_anchor inp g.1))
      as (Hc & Hp). rewrite <-Hp, <-Hc. apply list_elem_of_omap in Hr as (i & Hi & Hir).
    apply list_elem_of_omap. exists i. split; [|done]. apply list_elem_of_In, in_concat.
    exists l. split; by apply list_elem_of_In. }
  destruct (foldl_min_spec (rows_of l) (windowStart first)) as (_ & M1 & M2).
  destruct (foldl_max_spec (rows_of l) (windowEnd first)) as (_ & X1 & X2).
  destruct (foldl_peak_spec (rows_of l) first) as (_ & K1 & K2).
  exists (rows_of l), (foldl (λ p c, if better_peak c p then c else p) first (rows_of l)).
  rewrite Hs; simpl. split_and!; try done.
  - by destruct (rows_of l).
  - apply Forall_forall. intros r Hr. split.
    + rewrite <-(group_rows_perm (rows inp)). apply list_elem_of_In, in_concat. exists g.2.2.
      split; apply list_elem_of_In; [|by apply Hin]. 
      apply (list_elem_of_fmap_2 (λ g : Group, g.2.2)). by apply elem_of_js_sort in Hg.
    + rewrite Forall_forall in Hrs. rewrite (Hrs r (Hin r Hr)), Hk. unfold key_of. by rewrite Hm.
  - destruct M2 as [->|?]; [by apply list_elem_of_fmap_2|done].
  - destruct X2 as [->|?]; [by apply list_elem_of_fmap_2|done].
  - apply Forall_forall. intros r Hr. split_and!; auto.
  - destruct K2 as [->|?]; done.
Qed.

Definition ex_row (i : string) (s sc : Z) : UnassignedAnomalyRow :=
  mkRow i "dev" "device_metrics" "spike" "cpu_percent" (s * 60000) ((s + 5) * 60000) sc sc None.
Definition ex_input : PlanEpisodeAssemblyInput :=
  mkInput [ex_row "a" 0 3; ex_row "b" 5 7; ex_row "c" 100 1] [] [] 30 2 None.

Lemma created_episode_summary_witness :
  ∃ e, e ∈ creates (planEpisodeAssembly (λ _, "id") ex_input)
    ∧ minBuckets ex_input ≤ bucketCount (pe_summary e).
Proof.
  destruct (creates (planEpisodeAssembly (λ _, "id") ex_input)) as [|e es] eqn:E;
    [vm_compute in E; congruence|].
  exists e. split; [left|].
  apply (created_episode_summary (λ _, "id") ex_input e). rewrite E. left.
Defined.

End Episodes.
