(* ===== verification/JsText.v ===== *)
(** * JavaScript strings and JSON values

    The operations of [String.prototype] and [RegExp] the modelled code uses.
    A JavaScript string is its list of UTF-16 code units; the model restricts
    it to the units U+0000 to U+00FF (Latin-1), on which lower-casing, trimming
    and comparison below are exactly ECMAScript's.  A JSON document as
    [unknown] code receives it is a [json]. *)
From S2P Require Import Prelude.
From stdpp Require Import base tactics list strings.
From Stdlib Require Import ZArith Lia Ascii.
Open Scope Z_scope.

Definition chars (s : string) : list ascii := String.list_ascii_of_string s.
Definition of_chars (l : list ascii) : string := String.string_of_list_ascii l.

Lemma of_chars_chars s : of_chars (chars s) = s.
Proof. apply String.string_of_list_ascii_of_string. Qed.
Lemma chars_of_chars l : chars (of_chars l) = l.
Proof. apply String.list_ascii_of_string_of_list_ascii. Qed.
Lemma chars_inj s t : chars s = chars t → s = t.
Proof. intros H. by rewrite <-(of_chars_chars s), H, of_chars_chars. Qed.

Lemma chars_app s t : chars (s +:+ t) = chars s ++ chars t.
Proof. induction s as [|c s IH]; [done|]. unfold chars in *. simpl. by rewrite IH. Qed.

Lemma append_cancel p x y : p +:+ x = p +:+ y → x = y.
Proof. induction p as [|c p IH]; cbn; [done|]. intros [= H]. auto. Qed.

Definition code (c : ascii) : Z := Z.of_nat (nat_of_ascii c).

Lemma code_range c : 0 ≤ code c < 256.
Proof. unfold code. pose proof (nat_ascii_bounded c). lia. Qed.
Lemma code_inj c d : code c = code d → c = d.
Proof.
  unfold code. intros H%Nat2Z.inj. by rewrite <-(ascii_nat_embedding c), H, ascii_nat_embedding.
Qed.

(** ** Lower-casing, trimming, searching *)

Definition lower_char (c : ascii) : ascii :=
  if ((65 <=? code c) && (code c <=? 90))
     || ((192 <=? code c) && (code c <=? 222) && negb (code c =? 215))
  then ascii_of_nat (nat_of_ascii c + 32) else c.

Definition toLowerCase (s : string) : string := of_chars (lower_char <$> chars s).

Lemma lower_char_idemp c : lower_char (lower_char c) = lower_char c.
Proof. destruct c as [[] [] [] [] [] [] [] []]; reflexivity. Qed.

Lemma toLowerCase_idemp s : toLowerCase (toLowerCase s) = toLowerCase s.
Proof.
  unfold toLowerCase. rewrite chars_of_chars, <-list_fmap_compose. f_equal.
  apply list_fmap_ext. intros i c _. apply lower_char_idemp.
Qed.

(** [\s] and the characters [trim] removes. *)
Definition is_space (c : ascii) : bool :=
  ((9 <=? code c) && (code c <=? 13)) || (code c =? 32) || (code c =? 160).

Fixpoint trim_start (l : list ascii) : list ascii :=
  match l with c :: l' => if is_space c then trim_start l' else l | [] => [] end.

Definition trim (s : string) : string :=
  of_chars (reverse (trim_start (reverse (trim_start (chars s))))).

Fixpoint prefixb (p l : list ascii) : bool :=
  match p, l with
  | [], _ => true
  | c :: p', d :: l' => Ascii.eqb c d && prefixb p' l'
  | _ :: _, [] => false
  end.

Fixpoint infixb (p l : list ascii) : bool :=
  prefixb p l || match l with [] => false | _ :: l' => infixb p l' end.

Definition includes (s needle : string) : bool := infixb (chars needle) (chars s).
Definition startsWith (s p : string) : bool := prefixb (chars p) (chars s).

(** [s.split(sep)] for a one-character separator. *)
Fixpoint split_on (sep : ascii) (cur : list ascii) (l : list ascii) : list (list ascii) :=
  match l with
  | [] => [reverse cur]
  | c :: l' => if Ascii.eqb c sep then reverse cur :: split_on sep [] l'
               else split_on sep (c :: cur) l'
  end.

Definition js_split (sep : ascii) (s : string) : list string := of_chars <$> split_on sep [] (chars s).

Lemma split_on_app sep cur l rest :
  sep ∉ l → split_on sep cur (l ++ sep :: rest) = (reverse cur ++ l) :: split_on sep [] rest.
Proof.
  revert cur. induction l as [|c l IH]; intros cur Hl; simpl.
  - by rewrite Ascii.eqb_refl, app_nil_r.
  - apply not_elem_of_cons in Hl as [Hc Hl]. destruct (Ascii.eqb_spec c sep) as [->|_]; [done|].
    by rewrite IH, reverse_cons, <-(assoc (++)).
Qed.

Lemma split_on_end sep cur l : sep ∉ l → split_on sep cur l = [reverse cur ++ l].
Proof.
  revert cur. induction l as [|c l IH]; intros cur Hl; simpl; [by rewrite app_nil_r|].
  apply not_elem_of_cons in Hl as [Hc Hl]. destruct (Ascii.eqb_spec c sep) as [->|_]; [done|].
  by rewrite IH, reverse_cons, <-(assoc (++)).
Qed.

(** A character that fails a test is not in a list that passes it. *)
Lemma forallb_not_elem (P : ascii → bool) c l : P c = false → forallb P l = true → c ∉ l.
Proof. intros Hc Hl Hin%list_elem_of_In. rewrite forallb_forall in Hl. apply Hl in Hin. congruence. Qed.

(** ** Digits *)

Definition is_digit (c : ascii) : bool := (48 <=? code c) && (code c <=? 57).
Definition is_lower_hex (c : ascii) : bool :=
  is_digit c || ((97 <=? code c) && (code c <=? 102)).
Definition digit_val (c : ascii) : Z := code c - 48.
Definition digits_val (l : list ascii) : Z := foldl (λ n c, n * 10 + digit_val c) 0 l.
Definition all_digits (l : list ascii) : bool := forallb is_digit l.

(** [Number(s)] of a run of decimal digits; the empty string is 0.  Any other
    string the code converts has passed a digits-only test before. *)
Definition js_Number (s : string) : option Z :=
  if all_digits (chars s) then Some (digits_val (chars s)) else None.

Lemma digit_val_range c : is_digit c = true → 0 ≤ digit_val c ≤ 9.
Proof. unfold is_digit, digit_val. intros. bool_hyps. lia. Qed.

(** [Number.parseInt(s, 10)]: leading space, a sign, then a run of digits;
    [None] is [NaN]. *)
Fixpoint digit_prefix (l : list ascii) : list ascii :=
  match l with c :: l' => if is_digit c then c :: digit_prefix l' else [] | [] => [] end.

Definition parse_unsigned (l : list ascii) : option Z :=
  match digit_prefix l with [] => None | ds => Some (digits_val ds) end.

Definition parseInt (s : string) : option Z :=
  match trim_start (chars s) with
  | "-"%char :: l => Z.opp <$> parse_unsigned l
  | "+"%char :: l => parse_unsigned l
  | l => parse_unsigned l
  end.

Lemma digits_val_snoc l c : digits_val (l ++ [c]) = digits_val l * 10 + digit_val c.
Proof. unfold digits_val. by rewrite foldl_app. Qed.

Lemma digits_val_cons c l :
  digits_val (c :: l) = digit_val c * 10 ^ Z.of_nat (length l) + digits_val l.
Proof.
  induction l as [|d l IH] using rev_ind; [unfold digits_val; simpl; lia|].
  rewrite app_comm_cons, !digits_val_snoc, IH, length_app, Nat2Z.inj_add, Z.pow_add_r by lia. simpl. lia.
Qed.

Lemma digits_val_range l :
  all_digits l = true → 0 ≤ digits_val l < 10 ^ Z.of_nat (length l).
Proof.
  induction l as [|c l IH] using rev_ind; intros H; [by vm_compute|].
  unfold all_digits in H. rewrite forallb_app in H. bool_hyps. simpl in *. bool_hyps.
  rewrite digits_val_snoc, length_app, Nat2Z.inj_add, Z.pow_add_r by lia. simpl.
  apply digit_val_range in H0. specialize (IH H). lia.
Qed.

(** A nullable or optional string that is tested for truth: [None] and the
    empty string are falsy. *)
Definition truthy (o : option string) : option string :=
  match o with Some "" => None | _ => o end.

Lemma truthy_Some o s : truthy o = Some s → o = Some s ∧ s ≠ "".
Proof. destruct o as [[|c s']|]; simpl; intros; simplify_eq; done. Qed.

(** ** JSON values *)

Inductive json :=
| JNull
| JBool (b : bool)
| JNum (n : Z)          (* an integer *)
| JFrac (text : string)  (* a number that is not an integer *)
| JStr (s : string)
| JArr (l : list json)
| JObj (l : list (string * json)).

(** Property read on an object; [None] is [undefined]. *)
Definition jget (k : string) (j : json) : option json :=
  match j with
  | JObj l => snd <$> List.find (λ p, String.eqb p.1 k) l
  | _ => None
  end.

Definition jstring (o : option json) : option string :=
  match o with Some (JStr s) => Some s | _ => None end.

(** ** JSON text *)

(** A string literal of text that needs no escaping, and of an optional string. *)
Definition quoted (s : string) : string := String "034"%char s +:+ String "034"%char "".
Definition quoted_or_null (o : option string) : string :=
  match o with Some s => quoted s | None => "null" end.

(** An object with these fields, the values already as text. *)
Definition json_object (fields : list (string * string)) : string :=
  "{" +:+ foldr (λ kv rest, quoted kv.1 +:+ ":" +:+ kv.2 +:+ (if String.eqb rest "}" then rest else "," +:+ rest)) "}" fields.

(** Text without a double quote, such as an identifier. *)
Definition plain (s : string) : Prop := "034"%char ∉ chars s.
#[export] Instance plain_dec s : Decision (plain s).
Proof. unfold plain. apply _. Defined.

Lemma quoted_inj a b x y : plain a → plain b → quoted a +:+ x = quoted b +:+ y → a = b ∧ x = y.
Proof.
  unfold plain, quoted. intros Ha Hb H. cbn in H. injection H as H. revert b Hb H.
  induction a as [|c a IH]; intros [|c' b] Hb H; cbn in *.
  - by injection H as H.
  - injection H as <- _. by destruct Hb; left.
  - injection H as -> _. by destruct Ha; left.
  - injection H as <- H. apply not_elem_of_cons in Ha as [_ Ha], Hb as [_ Hb].
    by destruct (IH Ha b Hb H) as [-> ->].
Qed.

Lemma quoted_or_null_inj a b x y :
  (∀ s, a = Some s → plain s) → (∀ s, b = Some s → plain s) →
  quoted_or_null a +:+ x = quoted_or_null b +:+ y → a = b ∧ x = y.
Proof.
  intros Ha Hb. destruct a as [a|], b as [b|]; cbn [quoted_or_null]; intros H; try discriminate.
  - apply quoted_inj in H as [-> ->]; auto.
  - injection H as H. by split.
Qed.
