(* ===== verification/JsDate.v ===== *)
(** * The proleptic Gregorian calendar of ECMAScript dates

    [Date.UTC] and the UTC getters, after the abstract operations of the
    language definition ([DayFromYear], [MakeDay], [YearFromTime],
    [MonthFromTime], [DateFromTime], [WeekDay]).  A day is its number since
    1970-01-01; an instant is its milliseconds since then.  Instants are not
    clipped at +-8.64e15 ms (year 275760). *)
From S2P Require Import Prelude.
From stdpp Require Import base tactics list list_numbers.
From Stdlib Require Import ZArith Lia.
Open Scope Z_scope.

Definition msPerDay : Z := 86400000.

Definition leap (y : Z) : bool :=
  (y mod 4 =? 0) && (negb (y mod 100 =? 0) || (y mod 400 =? 0)).

Definition DayFromYear (y : Z) : Z :=
  365 * (y - 1970) + (y - 1969) / 4 - (y - 1901) / 100 + (y - 1601) / 400.

Definition month_len (lp : bool) (mn : Z) : Z :=
  if (mn =? 1) then (if lp then 29 else 28)
  else if (mn =? 3) || (mn =? 5) || (mn =? 8) || (mn =? 10) then 30 else 31.

(** Days of the year before month [mn] (0-based). *)
Definition month_offset (lp : bool) (mn : Z) : Z :=
  (if mn <=? 1 then 31 * mn else 31 * mn - (if lp then 2 else 3))
  - (if 4 <=? mn then 1 else 0) - (if 6 <=? mn then 1 else 0)
  - (if 9 <=? mn then 1 else 0) - (if 11 <=? mn then 1 else 0).

Definition MakeDay (y m dt : Z) : Z :=
  let ym := y + m / 12 in
  let mn := m mod 12 in
  DayFromYear ym + month_offset (leap ym) mn + dt - 1.

(** [Date.UTC(y, m, dt, h, min)]; years 0 to 99 stand for 1900 to 1999. *)
Definition fullYear (y : Z) : Z := if (0 <=? y) && (y <=? 99) then 1900 + y else y.
Definition DateUTC (y m dt h min : Z) : Z :=
  MakeDay (fullYear y) m dt * msPerDay + h * 3600000 + min * 60000.

Definition YearFromDay (d : Z) : Z :=
  let y := d * 400 / 146097 + 1970 in
  if d <? DayFromYear y then y - 1 else if DayFromYear (y + 1) <=? d then y + 1 else y.

Definition month_in_year (lp : bool) (dy : Z) : Z :=
  let ge m := if month_offset lp m <=? dy then 1 else 0 in
  ge 1 + ge 2 + ge 3 + ge 4 + ge 5 + ge 6 + ge 7 + ge 8 + ge 9 + ge 10 + ge 11.

Definition MonthFromDay (d : Z) : Z :=
  let y := YearFromDay d in month_in_year (leap y) (d - DayFromYear y).

Definition DateFromDay (d : Z) : Z :=
  let y := YearFromDay d in
  let lp := leap y in
  d - DayFromYear y - month_offset lp (month_in_year lp (d - DayFromYear y)) + 1.

Definition WeekDay (d : Z) : Z := (d + 4) mod 7.

Definition Day (t : Z) : Z := t / msPerDay.
Definition getUTCFullYear (t : Z) : Z := YearFromDay (Day t).
Definition getUTCMonth (t : Z) : Z := MonthFromDay (Day t).
Definition getUTCDate (t : Z) : Z := DateFromDay (Day t).
Definition getUTCDay (t : Z) : Z := WeekDay (Day t).
Definition getUTCHours (t : Z) : Z := t / 3600000 mod 24.
Definition getUTCMinutes (t : Z) : Z := t / 60000 mod 60.

(** ** Years *)

Definition year_len (lp : bool) : Z := if lp then 366 else 365.

Lemma DayFromYear_succ y : DayFromYear (y + 1) = DayFromYear y + year_len (leap y).
Proof.
  unfold DayFromYear, leap, year_len.
  destruct (Z.eqb_spec (y mod 4) 0), (Z.eqb_spec (y mod 100) 0), (Z.eqb_spec (y mod 400) 0);
    simpl; Z.to_euclidean_division_equations; lia.
Qed.

Lemma DayFromYear_mono y y' : y < y' → DayFromYear y + 365 ≤ DayFromYear y'.
Proof.
  intros H. replace y' with (y + 1 + (y' - y - 1)) by lia.
  assert (0 ≤ y' - y - 1) as Hk by lia. revert Hk. generalize (y' - y - 1).
  apply natlike_ind.
  - rewrite Z.add_0_r, DayFromYear_succ. unfold year_len. destruct (leap y); lia.
  - intros k Hk IH. replace (y + 1 + Z.succ k) with (y + 1 + k + 1) by lia.
    rewrite DayFromYear_succ. unfold year_len. destruct (leap _); lia.
Qed.

Lemma YearFromDay_spec d : DayFromYear (YearFromDay d) ≤ d < DayFromYear (YearFromDay d + 1).
Proof.
  unfold YearFromDay. set (y := d * 400 / 146097 + 1970).
  assert (Hy : 146097 * (y - 1970) ≤ 400 * d < 146097 * (y - 1970) + 146097)
    by (unfold y; Z.to_euclidean_division_equations; lia).
  clearbody y.
  assert (Hl : DayFromYear (y - 1) ≤ d) by (unfold DayFromYear; Z.to_euclidean_division_equations; lia).
  assert (Hu : d < DayFromYear (y + 1 + 1)) by (unfold DayFromYear; Z.to_euclidean_division_equations; lia).
  destruct (Z.ltb_spec d (DayFromYear y)).
  - replace (y - 1 + 1) with y by lia. lia.
  - destruct (Z.leb_spec (DayFromYear (y + 1)) d); lia.
Qed.

Lemma YearFromDay_unique d y : DayFromYear y ≤ d < DayFromYear (y + 1) → YearFromDay d = y.
Proof.
  intros H. pose proof (YearFromDay_spec d) as H'.
  destruct (Z.lt_total (YearFromDay d) y) as [Hlt|[?|Hgt]]; [|done|].
  - destruct (Z.eq_dec (YearFromDay d + 1) y) as [E|]; [rewrite E in H'; lia|].
    pose proof (DayFromYear_mono (YearFromDay d + 1) y). lia.
  - destruct (Z.eq_dec (y + 1) (YearFromDay d)) as [E|]; [rewrite E in H; lia|].
    pose proof (DayFromYear_mono (y + 1) (YearFromDay d)). lia.
Qed.

(** ** Months *)

Lemma month_len_range lp mn : 28 ≤ month_len lp mn ≤ 31.
Proof. unfold month_len. repeat case_match; lia. Qed.

(** Every claim about a month is one of twelve. *)
Lemma month_cases (P : Z → Prop) :
  P 0 → P 1 → P 2 → P 3 → P 4 → P 5 → P 6 → P 7 → P 8 → P 9 → P 10 → P 11 →
  ∀ mn, 0 ≤ mn < 12 → P mn.
Proof.
  intros ???????????? mn H.
  assert (mn = 0 ∨ mn = 1 ∨ mn = 2 ∨ mn = 3 ∨ mn = 4 ∨ mn = 5 ∨ mn = 6 ∨ mn = 7 ∨ mn = 8
          ∨ mn = 9 ∨ mn = 10 ∨ mn = 11) by lia. naive_solver.
Qed.

(** Case on the month [mn], known to be in range by [H]. *)
Ltac by_months mn H :=
  revert mn H;
  match goal with |- ∀ x, 0 ≤ x < 12 → @?P x => apply (month_cases P) end; cbv beta.

Lemma month_offset_succ lp mn :
  0 ≤ mn < 12 → month_offset lp mn + month_len lp mn
    = if mn =? 11 then year_len lp else month_offset lp (mn + 1).
Proof. intros H. by_months mn H; by destruct lp. Qed.

(** The month of a day of the year, checked on every day of a month. *)
Definition month_days_ok (lp : bool) (mn : Z) : bool :=
  forallb (λ dt, (month_len lp mn <? dt) || (month_in_year lp (month_offset lp mn + dt - 1) =? mn))
    (seqZ 1 31).

Lemma month_in_year_spec lp mn dt :
  0 ≤ mn < 12 → 1 ≤ dt ≤ month_len lp mn → month_in_year lp (month_offset lp mn + dt - 1) = mn.
Proof.
  intros H Hd. assert (month_days_ok lp mn = true) as Hok
    by (clear Hd; by_months mn H; destruct lp; by vm_compute).
  unfold month_days_ok in Hok. rewrite forallb_forall in Hok. specialize (Hok dt).
  rewrite <-list_elem_of_In, elem_of_seqZ in Hok. pose proof (month_len_range lp mn).
  assert (1 ≤ dt < 1 + 31) as Hr by lia. specialize (Hok Hr).
  apply orb_true_iff in Hok as [Hok|Hok]; bool_hyps; [lia|exact Hok].
Qed.

Lemma month_in_year_bounds lp dy :
  0 ≤ dy < year_len lp →
  let mn := month_in_year lp dy in
  0 ≤ mn < 12 ∧ 1 ≤ dy - month_offset lp mn + 1 ≤ month_len lp mn.
Proof.
  intros H. assert (∃ mn dt, 0 ≤ mn < 12 ∧ 1 ≤ dt ≤ month_len lp mn ∧ dy = month_offset lp mn + dt - 1)
    as (mn & dt & Hm & Hd & ->).
  { assert (Hind : ∀ k, 0 ≤ k → k < 12 → dy < month_offset lp k + month_len lp k →
      ∃ mn dt, 0 ≤ mn < 12 ∧ 1 ≤ dt ≤ month_len lp mn ∧ dy = month_offset lp mn + dt - 1).
    { apply (natlike_ind (λ k, k < 12 → dy < month_offset lp k + month_len lp k →
        ∃ mn dt, 0 ≤ mn < 12 ∧ 1 ≤ dt ≤ month_len lp mn ∧ dy = month_offset lp mn + dt - 1)).
      - intros _ Hlt. exists 0, (dy + 1).
        assert (month_offset lp 0 = 0) by (by destruct lp). lia.
      - intros k Hk IH Hk12 Hlt. pose proof (month_offset_succ lp k) as Hs.
        destruct (Z.eqb_spec k 11) as [?|_]; [lia|].
        destruct (Z.lt_ge_cases dy (month_offset lp (Z.succ k))) as [Hc|Hc].
        + apply IH; [lia|]. rewrite Hs by lia. unfold Z.succ in Hc. lia.
        + exists (Z.succ k), (dy - month_offset lp (Z.succ k) + 1). lia. }
    apply (Hind 11); [lia|lia|]. rewrite (month_offset_succ lp 11) by lia. apply H. }
  rewrite month_in_year_spec by done. simpl. lia.
Qed.

(** ** Round trips between day numbers and calendar dates *)

Lemma month_offset_range lp mn dt :
  0 ≤ mn < 12 → 1 ≤ dt ≤ month_len lp mn → 0 ≤ month_offset lp mn + dt - 1 < year_len lp.
Proof.
  intros H. by_months mn H; destruct lp; unfold month_len, month_offset, year_len; simpl; lia.
Qed.

Lemma MakeDay_valid y mn dt :
  0 ≤ mn < 12 → MakeDay y mn dt = DayFromYear y + month_offset (leap y) mn + dt - 1.
Proof. intros H. unfold MakeDay. rewrite Z.div_small, Z.mod_small, Z.add_0_r by lia. done. Qed.

Lemma civil_of_MakeDay y mn dt :
  0 ≤ mn < 12 → 1 ≤ dt ≤ month_len (leap y) mn →
  YearFromDay (MakeDay y mn dt) = y ∧ MonthFromDay (MakeDay y mn dt) = mn
  ∧ DateFromDay (MakeDay y mn dt) = dt.
Proof.
  intros Hm Hd. pose proof (month_offset_range _ _ _ Hm Hd) as Hr.
  assert (YearFromDay (MakeDay y mn dt) = y) as Hy.
  { apply YearFromDay_unique. rewrite DayFromYear_succ, MakeDay_valid by done. lia. }
  unfold MonthFromDay, DateFromDay. rewrite Hy.
  replace (MakeDay y mn dt - DayFromYear y) with (month_offset (leap y) mn + dt - 1)
    by (rewrite MakeDay_valid by done; lia).
  rewrite month_in_year_spec by done. split_and!; [done..|]. lia.
Qed.

Lemma civil_bounds d :
  0 ≤ MonthFromDay d < 12 ∧ 1 ≤ DateFromDay d ≤ month_len (leap (YearFromDay d)) (MonthFromDay d).
Proof.
  pose proof (YearFromDay_spec d) as H. rewrite DayFromYear_succ in H.
  unfold MonthFromDay, DateFromDay.
  apply (month_in_year_bounds (leap (YearFromDay d)) (d - DayFromYear (YearFromDay d))). lia.
Qed.

Lemma MakeDay_of_civil d : MakeDay (YearFromDay d) (MonthFromDay d) (DateFromDay d) = d.
Proof.
  destruct (civil_bounds d) as [Hm _]. rewrite MakeDay_valid by done.
  unfold DateFromDay, MonthFromDay. lia.
Qed.

(** Day 0 of the month after is the last of the month. *)
Lemma MakeDay_last y m1 :
  1 ≤ m1 ≤ 12 → MakeDay y m1 0 = MakeDay y (m1 - 1) (month_len (leap y) (m1 - 1)).
Proof.
  intros H. rewrite (MakeDay_valid y (m1 - 1)) by lia.
  pose proof (month_offset_succ (leap y) (m1 - 1)) as Hs.
  destruct (Z.eq_dec m1 12) as [->|Hne].
  - unfold MakeDay. change (12 / 12) with 1. change (12 mod 12) with 0.
    rewrite DayFromYear_succ. change (12 - 1) with 11 in *. simpl in Hs.
    assert (month_offset (leap (y + 1)) 0 = 0) by (by destruct (leap (y + 1))). lia.
  - rewrite MakeDay_valid by lia. destruct (Z.eqb_spec (m1 - 1) 11); [lia|].
    replace (m1 - 1 + 1) with m1 in Hs by lia. lia.
Qed.

(** The order of days is the order of dates. *)
Definition date_lt (a b : Z * Z * Z) : Prop :=
  let '(y, m, d) := a in let '(y', m', d') := b in
  y < y' ∨ (y = y' ∧ (m < m' ∨ (m = m' ∧ d < d'))).

Lemma MakeDay_lt y m d y' m' d' :
  0 ≤ m < 12 → 1 ≤ d ≤ month_len (leap y) m → 0 ≤ m' < 12 → 1 ≤ d' ≤ month_len (leap y') m' →
  date_lt (y, m, d) (y', m', d') → MakeDay y m d < MakeDay y' m' d'.
Proof.
  intros Hm Hd Hm' Hd' [Hy|[-> [Hlt|[-> Hlt]]]]; rewrite !MakeDay_valid by done.
  - pose proof (DayFromYear_mono (y + 1) y') as Hmono.
    pose proof (month_offset_range _ _ _ Hm Hd) as R1. pose proof (month_offset_range _ _ _ Hm' Hd') as R2.
    pose proof (DayFromYear_succ y). destruct (Z.eq_dec (y + 1) y') as [E|]; [rewrite <-E in *; lia|lia].
  - assert (month_offset (leap y') m + month_len (leap y') m ≤ month_offset (leap y') m') as Hmm.
    { clear Hd Hd'. revert Hlt. by_months m Hm; by_months m' Hm'; intros ?; try lia;
        destruct (leap y'); by vm_compute. }
    lia.
  - lia.
Qed.
