(* ===== verification/IsoDate.v ===== *)
(** * Calendar dates as text

    [String(n)], [padStart] and ISO [YYYY-MM-DD] dates as the billing code writes
    and compares them: formatting, parsing back, and the fact that comparing two
    such strings compares the dates. *)
From S2P Require Import Prelude JsText JsDate.
From stdpp Require Import base tactics list list_numbers strings pretty.
From Stdlib Require Import ZArith Lia Ascii.
Open Scope Z_scope.

(** [String(n)] of an integer. *)
Definition js_String (n : Z) : string := pretty n.

(** [s.padStart(2, '0')]. *)
Definition padStart2 (s : string) : string :=
  of_chars (replicate (2 - length (chars s)) "0"%char ++ chars s).

(** ** Order of strings *)

Definition scmp (a b : list ascii) : comparison := String.compare (of_chars a) (of_chars b).

Lemma scmp_cons c d a b :
  scmp (c :: a) (d :: b) = match Z.compare (code c) (code d) with Eq => scmp a b | r => r end.
Proof.
  unfold scmp. simpl. unfold Ascii.compare, code.
  assert (Z.of_nat (nat_of_ascii c) ?= Z.of_nat (nat_of_ascii d) = N.compare (N_of_ascii c) (N_of_ascii d)) as ->; [|done].
  unfold nat_of_ascii. rewrite <-N2Z.inj_compare, !N_nat_Z. done.
Qed.

Lemma scmp_app a a' b b' :
  length a = length a' → scmp (a ++ b) (a' ++ b') = match scmp a a' with Eq => scmp b b' | r => r end.
Proof.
  revert a'. induction a as [|c a IH]; intros [|c' a']; simpl; intros H; simplify_eq; [done|].
  rewrite !scmp_cons. case_match; [by apply IH|done..].
Qed.

Lemma scmp_refl a : scmp a a = Eq.
Proof. induction a; [done|]. by rewrite scmp_cons, Z.compare_refl. Qed.

(** Numerals of the same width compare as the numbers they denote. *)
Lemma scmp_digits a b :
  length a = length b → all_digits a = true → all_digits b = true →
  scmp a b = Z.compare (digits_val a) (digits_val b).
Proof.
  revert b. induction a as [|c a IH]; intros [|d b]; simpl; intros Hl Ha Hb; simplify_eq; [done|].
  bool_hyps. rewrite scmp_cons, !digits_val_cons, IH by done. rewrite Hl.
  pose proof (digits_val_range a ltac:(done)) as Ra. pose proof (digits_val_range b ltac:(done)) as Rb.
  rewrite Hl in Ra. unfold digit_val in *.
  set (p := 10 ^ Z.of_nat (length b)) in *.
  destruct (Z.compare_spec (code c) (code d)) as [->|Hlt|Hgt].
  - destruct (Z.compare_spec (digits_val a) (digits_val b)); symmetry;
      [apply Z.compare_eq_iff|apply Z.compare_lt_iff|apply Z.compare_gt_iff]; lia.
  - symmetry. apply Z.compare_lt_iff. nia.
  - symmetry. apply Z.compare_gt_iff. nia.
Qed.

(** ** Numerals up to four digits *)

Definition num_ok (n : Z) : bool :=
  let l := chars (js_String n) in
  all_digits l && (digits_val l =? n)
  && (Z.of_nat (length l) =? (if n <? 10 then 1 else if n <? 100 then 2 else if n <? 1000 then 3 else 4)).

Lemma num_ok_all n : 0 ≤ n ≤ 9999 → num_ok n = true.
Proof.
  assert (forallb num_ok (seqZ 0 10000) = true) as H by by vm_compute.
  intros Hn. rewrite forallb_forall in H. apply H. rewrite <-list_elem_of_In, elem_of_seqZ. lia.
Qed.

Record numeral (w : nat) (n : Z) (l : list ascii) : Prop := {
  nl_digits : all_digits l = true; nl_val : digits_val l = n; nl_len : length l = w }.

Lemma year_numeral y : 1000 ≤ y ≤ 9999 → numeral 4 y (chars (js_String y)).
Proof.
  intros H. pose proof (num_ok_all y ltac:(lia)) as Hn. unfold num_ok in Hn. bool_hyps.
  constructor; [done..|].
  destruct (Z.ltb_spec y 10), (Z.ltb_spec y 100), (Z.ltb_spec y 1000); lia.
Qed.

Lemma pad2_numeral n : 0 ≤ n ≤ 99 → numeral 2 n (chars (padStart2 (js_String n))).
Proof.
  intros H. pose proof (num_ok_all n ltac:(lia)) as Hn. unfold num_ok in Hn. bool_hyps.
  unfold padStart2. rewrite chars_of_chars.
  destruct (Z.ltb_spec n 10) as [Hlt|Hge]; [|destruct (Z.ltb_spec n 100); [|lia]].
  - replace (length (chars (js_String n))) with 1%nat by lia.
    constructor; simpl; [done| |lia]. rewrite digits_val_cons.
    change (digit_val "0"%char) with 0. lia.
  - replace (length (chars (js_String n))) with 2%nat by lia. constructor; [done..|]. simpl. lia.
Qed.

(** ** ISO dates *)

(** A calendar date of a four-digit year: year, 1-based month, day. *)
Abbreviation date := (Z * Z * Z)%type.

Definition valid_date (t : date) : Prop :=
  let '(y, m, d) := t in 1000 ≤ y ≤ 9999 ∧ 1 ≤ m ≤ 12 ∧ 1 ≤ d ≤ month_len (leap y) (m - 1).

Definition iso_chars (t : date) : list ascii :=
  let '(y, m, d) := t in
  chars (js_String y) ++ ["-"%char] ++ chars (padStart2 (js_String m)) ++ ["-"%char]
    ++ chars (padStart2 (js_String d)).

(** [`${y}-${mm}-${dd}`]. *)
Definition fmt (y m1 d : Z) : string :=
  js_String y +:+ "-" +:+ padStart2 (js_String m1) +:+ "-" +:+ padStart2 (js_String d).

Definition iso (t : date) : string := let '(y, m, d) := t in fmt y m d.

Lemma iso_chars_eq t : chars (iso t) = iso_chars t.
Proof. destruct t as [[y m] d]. unfold iso, fmt, iso_chars. by rewrite !chars_app. Qed.

(** Two ISO strings compare as the dates they write. *)
Lemma iso_compare t t' :
  valid_date t → valid_date t' →
  String.compare (iso t) (iso t') =
    let '(y, m, d) := t in let '(y', m', d') := t' in
    match Z.compare y y' with
    | Eq => match Z.compare m m' with Eq => Z.compare d d' | r => r end
    | r => r
    end.
Proof.
  destruct t as [[y m] d], t' as [[y' m'] d']. intros (Hy & Hm & Hd) (Hy' & Hm' & Hd').
  pose proof (month_len_range (leap y) (m - 1)). pose proof (month_len_range (leap y') (m' - 1)).
  rewrite <-(of_chars_chars (iso (y, m, d))), <-(of_chars_chars (iso (y', m', d'))).
  fold (scmp (chars (iso (y, m, d))) (chars (iso (y', m', d')))). rewrite !iso_chars_eq. unfold iso_chars.
  destruct (year_numeral y), (year_numeral y'), (pad2_numeral m), (pad2_numeral m'),
    (pad2_numeral d), (pad2_numeral d'); try lia.
  repeat (rewrite scmp_app by (simpl; congruence)). rewrite !scmp_refl, !scmp_digits by (done || congruence).
  repeat match goal with H : digits_val _ = _ |- _ => rewrite H; clear H end. done.
Qed.

Lemma iso_leb t t' :
  valid_date t → valid_date t' → String.leb (iso t) (iso t') = true ↔ ¬ date_lt t' t.
Proof.
  intros Ht Ht'. unfold String.leb. rewrite iso_compare by done.
  destruct t as [[y m] d], t' as [[y' m'] d']. simpl.
  destruct (Z.compare_spec y y'), (Z.compare_spec m m'), (Z.compare_spec d d'); split; intros; lia || done.
Qed.

Lemma iso_ltb t t' :
  valid_date t → valid_date t' → String.ltb (iso t) (iso t') = true ↔ date_lt t t'.
Proof.
  intros Ht Ht'. unfold String.ltb. rewrite iso_compare by done.
  destruct t as [[y m] d], t' as [[y' m'] d']. simpl.
  destruct (Z.compare_spec y y'), (Z.compare_spec m m'), (Z.compare_spec d d'); split; intros; lia || done.
Qed.

(** ** Reading a date back *)

Definition parts (s : string) : option date :=
  match js_split "-"%char s with
  | sy :: sm :: sd :: _ =>
      y ← js_Number sy; m ← js_Number sm; d ← js_Number sd; Some (y, m, d)
  | _ => None
  end.

Lemma js_Number_numeral w n l : numeral w n l → js_Number (of_chars l) = Some n.
Proof. intros [Hd Hv _]. unfold js_Number. rewrite chars_of_chars, Hd. by rewrite Hv. Qed.

Lemma parts_iso t : valid_date t → parts (iso t) = Some t.
Proof.
  destruct t as [[y m] d]. intros (Hy & Hm & Hd). pose proof (month_len_range (leap y) (m - 1)).
  pose proof (year_numeral y Hy) as Ny. pose proof (pad2_numeral m ltac:(lia)) as Nm.
  pose proof (pad2_numeral d ltac:(lia)) as Nd.
  unfold parts, js_split. rewrite iso_chars_eq. unfold iso_chars. simpl.
  assert (Hdash : ∀ l, all_digits l = true → "-"%char ∉ l) by (intros l; by apply forallb_not_elem).
  rewrite !split_on_app, split_on_end by (apply Hdash; apply Ny || apply Nm || apply Nd). simpl.
  rewrite (js_Number_numeral _ _ _ Ny), (js_Number_numeral _ _ _ Nm), (js_Number_numeral _ _ _ Nd). done.
Qed.

Lemma iso_inj t t' : valid_date t → valid_date t' → iso t = iso t' → t = t'.
Proof. intros H H' E. apply parts_iso in H, H'. congruence. Qed.

(** ** Day numbers *)

Definition day_of (t : date) : Z := let '(y, m, d) := t in MakeDay y (m - 1) d.
Definition date_of (n : Z) : date := (YearFromDay n, MonthFromDay n + 1, DateFromDay n).

Lemma day_of_date_of n : day_of (date_of n) = n.
Proof.
  unfold day_of, date_of. replace (MonthFromDay n + 1 - 1) with (MonthFromDay n) by lia.
  apply MakeDay_of_civil.
Qed.

Lemma date_of_day_of t : valid_date t → date_of (day_of t) = t.
Proof.
  destruct t as [[y m] d]. intros (Hy & Hm & Hd). unfold date_of, day_of.
  destruct (civil_of_MakeDay y (m - 1) d) as (-> & -> & ->); [lia..|]. do 2 f_equal. lia.
Qed.

Lemma date_of_valid n : 1000 ≤ YearFromDay n ≤ 9999 → valid_date (date_of n).
Proof.
  intros H. destruct (civil_bounds n) as [Hm Hd]. unfold date_of, valid_date.
  replace (MonthFromDay n + 1 - 1) with (MonthFromDay n) by lia. lia.
Qed.

Lemma date_lt_trichotomy (t t' : date) : date_lt t t' ∨ t = t' ∨ date_lt t' t.
Proof.
  destruct t as [[y m] d], t' as [[y' m'] d']. simpl.
  destruct (Z.lt_total y y') as [|[->|]], (Z.lt_total m m') as [|[->|]], (Z.lt_total d d') as [|[->|]];
    (right; left; reflexivity) || lia.
Qed.

Lemma day_of_lt t t' : valid_date t → valid_date t' → date_lt t t' ↔ day_of t < day_of t'.
Proof.
  assert (Hfw : ∀ t t', valid_date t → valid_date t' → date_lt t t' → day_of t < day_of t').
  { intros [[y m] d] [[y' m'] d'] (Hy & Hm & Hd) (Hy' & Hm' & Hd') H. unfold day_of.
    apply MakeDay_lt; try lia. simpl in *. lia. }
  intros Ht Ht'. split; [by apply Hfw|]. intros Hlt.
  destruct (date_lt_trichotomy t t') as [|[->|Hgt]]; [done|lia|]. apply Hfw in Hgt; [lia|done..].
Qed.

(** ** [Date.prototype.toISOString] *)

Definition padStart3 (s : string) : string :=
  of_chars (replicate (3 - length (chars s)) "0"%char ++ chars s).

Definition toISOString (t : Z) : string :=
  fmt (getUTCFullYear t) (getUTCMonth t + 1) (getUTCDate t) +:+ "T"
  +:+ padStart2 (js_String (getUTCHours t)) +:+ ":" +:+ padStart2 (js_String (getUTCMinutes t)) +:+ ":"
  +:+ padStart2 (js_String (t / 1000 mod 60)) +:+ "." +:+ padStart3 (js_String (t mod 1000)) +:+ "Z".

Example toISOString_ex : toISOString 1740000000007 = "2025-02-19T21:20:00.007Z".
Proof. by vm_compute. Qed.
