(* ===== verification/ZoneClock.v ===== *)
(** * What the formatters of [Intl.DateTimeFormat] promise

    The sources read the clock of a time zone by formatting an instant with
    [Intl.DateTimeFormat('en-US', ...).formatToParts] and reading the parts back.
    The formatter is not part of the repository; these classes state what its
    clients rely on, against a function [wall] that gives the wall clock of a zone
    at an instant, as a floating instant (the time shown, read as if it were UTC).
    [None] is an unknown zone, for which the formatter throws. *)
From S2P Require Import Prelude JsText JsDate IsoDate.
From stdpp Require Import base tactics list strings pretty.
From Stdlib Require Import ZArith Lia Ascii.
Open Scope Z_scope.

Notation Parts := (list (string * string)).

Definition weekday_names : list string := ["Sun"; "Mon"; "Tue"; "Wed"; "Thu"; "Fri"; "Sat"].

(** [k] is shown once, as [v]. *)
Definition shows (parts : Parts) (k v : string) : Prop :=
  ∃ pre post, parts = pre ++ (k, v) :: post ∧ k ∉ pre.*1 ∧ k ∉ post.*1.

(** A number of at most two digits, with or without a leading zero. *)
Definition numeral_text (n : Z) (s : string) : Prop :=
  0 ≤ n ≤ 99 ∧ (s = js_String n ∨ s = padStart2 (js_String n)).

Definition shows_number (parts : Parts) (k : string) (n : Z) : Prop :=
  ∃ s, shows parts k s ∧ numeral_text n s.

Definition shows_weekday (parts : Parts) (w : Z) : Prop :=
  ∃ s, shows parts "weekday" s ∧ weekday_names !! Z.to_nat (getUTCDay w) = Some s.

(** [{ weekday: 'short', hour: 'numeric', minute: 'numeric', hour12: false }]:
    midnight may be shown as 24. *)
Class ClockFormatter (formatToParts : string → Z → option Parts) (wall : string → Z → option Z) : Prop := {
  clock_unknown tz t : wall tz t = None → formatToParts tz t = None;
  clock_parts tz t w : wall tz t = Some w →
    ∃ parts h, formatToParts tz t = Some parts ∧ shows_weekday parts w
      ∧ shows_number parts "hour" h ∧ h mod 24 = getUTCHours w
      ∧ shows_number parts "minute" (getUTCMinutes w) }.

(** The same with [year], [month], [day] and [hourCycle: 'h23']: the hour is one
    of 0 to 23. *)
Class DateFormatter (formatToParts : string → Z → option Parts) (wall : string → Z → option Z) : Prop := {
  date_unknown tz t : wall tz t = None → formatToParts tz t = None;
  date_parts tz t w : wall tz t = Some w →
    ∃ parts, formatToParts tz t = Some parts ∧ shows_weekday parts w
      ∧ shows_number parts "month" (getUTCMonth w + 1) ∧ shows_number parts "day" (getUTCDate w)
      ∧ shows_number parts "hour" (getUTCHours w) ∧ shows_number parts "minute" (getUTCMinutes w) }.

(** A formatter of dates is a formatter of times of day. *)
#[export] Instance date_is_clock ftp wall `{!DateFormatter ftp wall} : ClockFormatter ftp wall.
Proof.
  split; [apply date_unknown|]. intros tz t w Hw.
  destruct (date_parts tz t w Hw) as (parts & ? & ? & _ & _ & ? & ?).
  exists parts, (getUTCHours w). split_and!; try done.
  apply Z.mod_small. unfold getUTCHours. by apply Z.mod_pos_bound.
Qed.

(** ** Reading the parts back *)

Lemma shows_find parts k v : shows parts k v → List.find (λ p, String.eqb p.1 k) parts = Some (k, v).
Proof.
  intros (pre & post & -> & Hpre & _). induction pre as [|[k' v'] pre IH]; simpl.
  - by rewrite String.eqb_refl.
  - apply not_elem_of_cons in Hpre as [Hne Hpre]. destruct (String.eqb_spec k' k); [done|]. by apply IH.
Qed.

Lemma shows_reverse parts k v : shows parts k v → shows (reverse parts) k v.
Proof.
  intros (pre & post & -> & Hpre & Hpost). exists (reverse post), (reverse pre).
  rewrite reverse_app, reverse_cons, <-app_assoc. split; [done|].
  rewrite !fmap_reverse, !elem_of_reverse. done.
Qed.

(** A property of all two-digit numerals holds when it holds of each. *)
Lemma numeral_cases (P : Z → string → bool) n s :
  forallb (λ i, P i (js_String i) && P i (padStart2 (js_String i))) (seqZ 0 100) = true →
  numeral_text n s → P n s = true.
Proof.
  intros Hall [Hn Hs]. rewrite forallb_forall in Hall.
  specialize (Hall n). rewrite <-list_elem_of_In, elem_of_seqZ in Hall.
  apply andb_true_iff in Hall as [H1 H2]; [|lia]. by destruct Hs as [-> | ->].
Qed.

Lemma numeral_Number n s : numeral_text n s → js_Number s = Some n.
Proof.
  intros H. eapply bool_decide_eq_true_1, (numeral_cases (λ n s, bool_decide (js_Number s = Some n)) n s); [|done].
  by vm_compute.
Qed.

Lemma utc_field_bounds t :
  0 ≤ getUTCDay t ≤ 6 ∧ 0 ≤ getUTCHours t ≤ 23 ∧ 0 ≤ getUTCMinutes t ≤ 59
  ∧ 1 ≤ getUTCDate t ≤ 31 ∧ 0 ≤ getUTCMonth t ≤ 11.
Proof.
  destruct (civil_bounds (Day t)) as [Hmo Hda].
  pose proof (month_len_range (leap (YearFromDay (Day t))) (MonthFromDay (Day t))).
  unfold getUTCDay, WeekDay, getUTCHours, getUTCMinutes, getUTCDate, getUTCMonth.
  split_and!; try lia; Z.to_euclidean_division_equations; lia.
Qed.

(** A property of all weekdays and their names holds when it holds of each. *)
Lemma weekday_cases (P : string → Z → bool) w s :
  forallb (λ i, P (default "" (weekday_names !! Z.to_nat i)) i) (seqZ 0 7) = true →
  weekday_names !! Z.to_nat (getUTCDay w) = Some s → P s (getUTCDay w) = true.
Proof.
  intros Hall Hs. rewrite forallb_forall in Hall. specialize (Hall (getUTCDay w)).
  rewrite <-list_elem_of_In, elem_of_seqZ, Hs in Hall. apply Hall. destruct (utc_field_bounds w). lia.
Qed.

(** ** A formatter for UTC *)

Definition utc_wall (timeZone : string) (t : Z) : option Z :=
  if String.eqb timeZone "UTC" then Some t else None.

Definition utc_parts (timeZone : string) (t : Z) : option Parts :=
  if String.eqb timeZone "UTC" then
    Some [("weekday", default "" (weekday_names !! Z.to_nat (getUTCDay t)));
          ("literal", ", "); ("month", js_String (getUTCMonth t + 1)); ("literal", "/");
          ("day", js_String (getUTCDate t)); ("literal", ", "); ("hour", padStart2 (js_String (getUTCHours t)));
          ("literal", ":"); ("minute", padStart2 (js_String (getUTCMinutes t)))]
  else None.

#[export] Instance utc_formatter : DateFormatter utc_parts utc_wall.
Proof.
  unfold utc_parts, utc_wall. split; intros tz t; [by destruct (String.eqb tz "UTC")|].
  intros w. destruct (String.eqb tz "UTC"); [|done]. intros [= <-].
  destruct (utc_field_bounds t) as (Hd & Hh & Hm & Hda & Hmo). eexists. split; [done|].
  assert (Hone : ∀ pre k (v : string) post, (bool_decide (k ∉ pre.*1) && bool_decide (k ∉ post.*1)) = true →
    shows (pre ++ (k, v) :: post) k v).
  { intros pre k v post Hk. bool_hyps. by exists pre, post. }
  assert (Hnum : ∀ n, 0 ≤ n ≤ 99 → numeral_text n (js_String n) ∧ numeral_text n (padStart2 (js_String n))).
  { intros n Hn. split; (split; [done|]); [by left|by right]. }
  split_and!.
  - destruct (lookup_lt_is_Some_2 weekday_names (Z.to_nat (getUTCDay t))) as [s Hs]; [simpl; lia|].
    exists s. split; [|done]. rewrite Hs. by apply (Hone []).
  - eexists. split; [by apply (Hone [_; _])|]. apply Hnum; lia.
  - eexists. split; [by apply (Hone [_; _; _; _])|]. apply Hnum; lia.
  - eexists. split; [by apply (Hone [_; _; _; _; _; _])|]. apply Hnum; lia.
  - eexists. split; [by apply (Hone [_; _; _; _; _; _; _; _])|]. apply Hnum; lia.
Qed.
