(* ===== verification/Pam.v ===== *)
(** * Privileged access management: glob matcher, policy bridge, rule engine

    Models [apps/api/src/services/pamBridge.ts] ([matchPathGlob], [matchRule],
    [pickStrongestHit], [matchPoliciesAgainst]),
    [apps/api/src/services/pamRuleEngine.ts] (everything) and
    [normalizeSignerGroupEntries] of [apps/api/src/db/schema/pam.ts].

    The parts [Intl.DateTimeFormat] yields for an instant in a time zone come
    from the time-zone database, so they are the parameter [formatToParts]
    ([None]: the constructor throws), with the laws of [ZoneClock] where a theorem
    needs them.  Rule ids are canonical lower-case UUIDs,
    on which [localeCompare] is the code-unit order. *)
From S2P Require Import Prelude JsText JsDate ZoneClock.
From stdpp Require Import base tactics list strings sorting gmap.
From Stdlib Require Import ZArith Lia Ascii.
Open Scope Z_scope.

Module Glob.

(** ** [matchPathGlob] *)

Definition star : ascii := "*"%char.
Definition slash : ascii := "/"%char.
Definition backslash : ascii := "\"%char.

Definition norm (s : string) : list ascii :=
  lower_char <$> ((λ c, if Ascii.eqb c backslash then slash else c) <$> chars s).

Inductive Tok :=
| TStar (crossesSlash : bool)
| TLit (ch : ascii).

(** The tokens of the stars counted so far. *)
Definition flush (count : nat) : list Tok :=
  match count with O => [] | S _ => [TStar (2 <=? count)%nat] end.

Fixpoint tokenize_from (count : nat) (g : list ascii) : list Tok :=
  match g with
  | [] => flush count
  | c :: g' =>
      if Ascii.eqb c star then tokenize_from (S count) g'
      else flush count ++ TLit c :: tokenize_from 0 g'
  end.

Definition tokenize (g : list ascii) : list Tok := tokenize_from 0 g.

(** [dp[i]] of a row, read at its first cell. *)
Definition cell (dp : list bool) : bool := match dp with b :: _ => b | [] => false end.

(** The new row of a star token: filled from the end of the text down, so a
    cell sees the cell after it. *)
Fixpoint star_row (crossesSlash : bool) (t : list ascii) (dp : list bool) : list bool :=
  match t with
  | [] => [cell dp]
  | c :: t' =>
      let next := star_row crossesSlash t' (tail dp) in
      (cell dp || ((crossesSlash || negb (Ascii.eqb c slash)) && cell next)) :: next
  end.

Fixpoint lit_row (ch : ascii) (t : list ascii) (dp : list bool) : list bool :=
  match t with
  | [] => [false]
  | c :: t' => (Ascii.eqb ch c && cell (tail dp)) :: lit_row ch t' (tail dp)
  end.

Definition dp_row (t : list ascii) (tok : Tok) (dp : list bool) : list bool :=
  match tok with
  | TStar crossesSlash => star_row crossesSlash t dp
  | TLit ch => lit_row ch t dp
  end.

Definition dp_init (t : list ascii) : list bool := replicate (length t) false ++ [true].

Definition matchPathGlob (glob path : string) : bool :=
  let t := norm path in
  cell (foldr (dp_row t) (dp_init t) (tokenize (norm glob))).

(** ** Reference semantics

    What the dialect means, on normalised text: a lone [*] stands for any text
    without a slash, a run of two or more for any text, anything else for
    itself. *)
Inductive glob_spec : list ascii → list ascii → Prop :=
| gs_nil : glob_spec [] []
| gs_lit c g t : c ≠ star → glob_spec g t → glob_spec (c :: g) (c :: t)
| gs_star n g u t :
    head g ≠ Some star → (n = O → slash ∉ u) → glob_spec g t →
    glob_spec (replicate (S n) star ++ g) (u ++ t).

(** The same on tokens. *)
Inductive tok_spec : list Tok → list ascii → Prop :=
| ts_nil : tok_spec [] []
| ts_lit c toks t : tok_spec toks t → tok_spec (TLit c :: toks) (c :: t)
| ts_star b toks u t : (b = false → slash ∉ u) → tok_spec toks t → tok_spec (TStar b :: toks) (u ++ t).

(** The suffixes of the text, longest first: what the cells of a row are about. *)
Fixpoint tails (t : list ascii) : list (list ascii) :=
  t :: match t with [] => [] | _ :: t' => tails t' end.

Definition row_ok (toks : list Tok) (t : list ascii) (dp : list bool) : Prop :=
  Forall2 (λ b t', b = true ↔ tok_spec toks t') dp (tails t).

Lemma row_ok_cell toks t dp : row_ok toks t dp → cell dp = true ↔ tok_spec toks t.
Proof. unfold row_ok. destruct t; inversion 1; subst; simpl; done. Qed.

Lemma row_ok_tail toks c t dp : row_ok toks (c :: t) dp → row_ok toks t (tail dp).
Proof. unfold row_ok. inversion 1; subst; done. Qed.

Lemma dp_init_ok t : row_ok [] t (dp_init t).
Proof.
  unfold row_ok, dp_init. induction t as [|c t IH]; simpl.
  - repeat constructor.
  - constructor; [|done]. split; [done|inversion 1].
Qed.

Lemma lit_row_ok ch toks t dp : row_ok toks t dp → row_ok (TLit ch :: toks) t (lit_row ch t dp).
Proof.
  revert dp. induction t as [|c t IH]; intros dp H; unfold row_ok; simpl.
  - repeat constructor; [done|inversion 1].
  - apply row_ok_tail in H. constructor; [|by apply IH].
    rewrite andb_true_iff, (row_ok_cell _ _ _ H), Ascii.eqb_eq. split.
    + intros [-> ?]. by constructor.
    + inversion 1; subst; done.
Qed.

Lemma tok_spec_star b toks t :
  tok_spec (TStar b :: toks) t ↔ ∃ u t', t = u ++ t' ∧ (b = false → slash ∉ u) ∧ tok_spec toks t'.
Proof.
  split; [inversion 1; subst; eauto|]. intros (u & t' & -> & Hu & H). by constructor.
Qed.

Lemma star_unfold b toks c t :
  tok_spec (TStar b :: toks) (c :: t) ↔
  tok_spec toks (c :: t) ∨ ((b = true ∨ c ≠ slash) ∧ tok_spec (TStar b :: toks) t).
Proof.
  split.
  - intros (u & t' & E & Hu & Ht)%tok_spec_star. destruct u as [|d u]; simplify_eq/=; [by left|].
    right. split.
    + destruct b; [by left|right]. specialize (Hu eq_refl). set_solver.
    + constructor; [|done]. intros ->. specialize (Hu eq_refl). set_solver.
  - intros [H|[Hb H]].
    + by apply (ts_star b toks [] (c :: t)); [set_solver|].
    + apply tok_spec_star in H as (u & t' & -> & Hu & Ht).
      apply (ts_star b toks (c :: u) t'); [|done]. intros ->.
      destruct Hb as [?|Hc]; [done|]. specialize (Hu eq_refl). set_solver.
Qed.

Lemma star_nil b toks : tok_spec (TStar b :: toks) [] ↔ tok_spec toks [].
Proof.
  split.
  - intros (u & t' & E & Hu & Ht)%tok_spec_star. symmetry in E. apply app_eq_nil in E as [-> ->]. done.
  - intros H. by apply (ts_star b toks [] []); [set_solver|].
Qed.

Lemma star_row_ok b toks t dp : row_ok toks t dp → row_ok (TStar b :: toks) t (star_row b t dp).
Proof.
  revert dp. induction t as [|c t IH]; intros dp H; unfold row_ok; simpl.
  - constructor; [|constructor]. by rewrite (row_ok_cell _ _ _ H), star_nil.
  - pose proof (IH _ (row_ok_tail _ _ _ _ H)) as IH'. constructor; [|exact IH'].
    rewrite star_unfold, orb_true_iff, andb_true_iff, orb_true_iff, negb_true_iff, Ascii.eqb_neq.
    by rewrite (row_ok_cell _ _ _ H), (row_ok_cell _ _ _ IH').
Qed.

Lemma dp_ok toks t : row_ok toks t (foldr (dp_row t) (dp_init t) toks).
Proof.
  induction toks as [|[b|ch] toks IH]; simpl; [apply dp_init_ok|by apply star_row_ok|by apply lit_row_ok].
Qed.

(** Tokenising keeps the meaning. *)
Lemma replicate_stars_inj n m g h :
  head g ≠ Some star → head h ≠ Some star →
  replicate n star ++ g = replicate m star ++ h → n = m ∧ g = h.
Proof.
  intros Hg Hh. revert m. induction n as [|n IH]; intros [|m]; simpl; intros H; simplify_eq;
    [done..|].
  - destruct (IH m H) as [-> ->]. done.
Qed.

Lemma glob_spec_stars n g t :
  head g ≠ Some star →
  glob_spec (replicate (S n) star ++ g) t ↔
  ∃ u t', t = u ++ t' ∧ (n = O → slash ∉ u) ∧ glob_spec g t'.
Proof.
  intros Hg. split.
  - intros H. remember (replicate (S n) star ++ g) as gg eqn:E.
    destruct H as [|c g' t' Hc H'|m h u t' Hh Hu H']; [done|by simplify_eq/=|].
    apply replicate_stars_inj in E as [? ->]; [|done..]. simplify_eq. eauto.
  - intros (u & t' & -> & Hu & H'). by constructor.
Qed.

Lemma glob_spec_lit c g t :
  c ≠ star → glob_spec (c :: g) t ↔ ∃ t', t = c :: t' ∧ glob_spec g t'.
Proof.
  intros Hc. split.
  - inversion 1; subst; [eauto|done].
  - intros (t' & -> & H). by constructor.
Qed.

Lemma flush_spec n toks g t :
  head g ≠ Some star → (∀ t, tok_spec toks t ↔ glob_spec g t) →
  tok_spec (flush n ++ toks) t ↔ glob_spec (replicate n star ++ g) t.
Proof.
  intros Hg H. destruct n as [|n]; [apply H|]. cbn [flush app].
  rewrite tok_spec_star, glob_spec_stars by done.
  assert (((2 <=? S n)%nat = false) ↔ n = O) as Hn by (destruct n; simpl; split; [done..|lia]).
  setoid_rewrite Hn. by setoid_rewrite H.
Qed.

Lemma tokenize_spec n g t :
  tok_spec (tokenize_from n g) t ↔ glob_spec (replicate n star ++ g) t.
Proof.
  revert n t. induction g as [|c g IH]; intros n t; simpl.
  - rewrite <-(app_nil_r (flush n)). apply flush_spec; [done|].
    intros t'. split; inversion 1; subst; constructor.
  - destruct (Ascii.eqb_spec c star) as [->|Hc].
    + by rewrite IH, replicate_S_end, <-(assoc (++)).
    + apply flush_spec; [naive_solver|]. intros t'. rewrite glob_spec_lit by done.
      split.
      * inversion 1; subst. eexists; split; [done|]. by apply (IH O).
      * intros (t'' & -> & H'). constructor. by apply (IH O).
Qed.

(** The matcher decides the reference semantics. *)
Lemma matchPathGlob_spec glob path :
  matchPathGlob glob path = true ↔ glob_spec (norm glob) (norm path).
Proof.
  unfold matchPathGlob. rewrite (row_ok_cell _ _ _ (dp_ok _ _)). apply (tokenize_spec O).
Qed.

Lemma glob_spec_literal g t : star ∉ g → glob_spec g t ↔ t = g.
Proof.
  revert t. induction g as [|c g IH]; intros t Hs.
  - split; [|intros ->; constructor]. inversion 1; done.
  - rewrite glob_spec_lit by set_solver. split.
    + intros (t' & -> & H). apply IH in H; [by subst|set_solver].
    + intros ->. exists g. split; [done|]. apply IH; set_solver.
Qed.

(** C28: The dynamic-programming matcher decides exactly the glob dialect (a lone
    [*] stays within a path segment, a run of stars crosses segments, every
    other character is literal, both sides normalised and the match anchored);
    in particular a pattern without a star matches only the path it spells. *)
Theorem glob_matcher_correct glob path :
  (matchPathGlob glob path = true ↔ glob_spec (norm glob) (norm path))
  ∧ (star ∉ norm glob → matchPathGlob glob path = true ↔ norm path = norm glob).
Proof.
  split; [apply matchPathGlob_spec|]. intros Hs.
  by rewrite matchPathGlob_spec, glob_spec_literal.
Qed.
End Glob.

Module Bridge.
Import Glob.

(** ** Software-policy bridge *)

Inductive PamBridgeMatchedField := hash | signer | publisher | path.
Inductive PolicyMode := allowlist | blocklist | audit.

Record PamBridgeInput := mkBridgeInput {
  bi_orgId : string; bi_deviceId : string;
  bi_targetExecutablePath : string;
  bi_targetExecutableHash : option string;
  bi_targetExecutableSigner : option string;
  bi_targetPublisher : option string }.

Record SoftwarePolicyExecutableRule := mkExecRule {
  er_name : string; er_sha256 : option string; er_signer : option string;
  er_publisher : option string; er_pathGlob : option string }.

Record LoadedPolicy := mkPolicy {
  lp_id : string; lp_mode : PolicyMode; lp_priority : Z;
  lp_executable : option (list SoftwarePolicyExecutableRule) }.

Record Hit := mkHit {
  hit_policy : LoadedPolicy; hit_ruleIndex : nat;
  hit_rule : SoftwarePolicyExecutableRule; hit_field : PamBridgeMatchedField }.

Record PamBridgeAuditMatch := mkAuditMatch {
  am_policyId : string; am_ruleName : string; am_matchedField : PamBridgeMatchedField }.

Inductive PamBridgeVerdictMode := v_allowlist | v_blocklist.

Record Binding := mkBinding {
  bd_match : PamBridgeVerdictMode; bd_policyId : string; bd_ruleIndex : nat;
  bd_ruleName : string; bd_matchedField : PamBridgeMatchedField }.

(** [match: null] is [binding = None]. *)
Record PamBridgeVerdict := mkVerdict {
  binding : option Binding; auditMatches : list PamBridgeAuditMatch }.

Definition both_eq (f : string → string) (a b : option string) : bool :=
  match truthy a, truthy b with
  | Some x, Some y => String.eqb (f x) (f y)
  | _, _ => false
  end.

Definition trim_lower (s : string) : string := toLowerCase (trim s).

Definition matchRule (input : PamBridgeInput) (rule : SoftwarePolicyExecutableRule)
    : option PamBridgeMatchedField :=
  if both_eq toLowerCase (er_sha256 rule) (bi_targetExecutableHash input) then Some hash
  else if both_eq trim_lower (er_signer rule) (bi_targetExecutableSigner input) then Some signer
  else if both_eq trim_lower (er_publisher rule) (bi_targetPublisher input) then Some publisher
  else
    match truthy (er_pathGlob rule), truthy (Some (bi_targetExecutablePath input)) with
    | Some g, Some p => if matchPathGlob g p then Some path else None
    | _, _ => None
    end.

Definition FIELD_PRECEDENCE (f : PamBridgeMatchedField) : Z :=
  match f with hash => 0 | signer => 1 | publisher => 2 | path => 3 end.

Definition better_hit (candidate best : Hit) : bool :=
  if FIELD_PRECEDENCE (hit_field candidate) <? FIELD_PRECEDENCE (hit_field best) then true
  else if FIELD_PRECEDENCE (hit_field candidate) =? FIELD_PRECEDENCE (hit_field best)
  then lp_priority (hit_policy best) <? lp_priority (hit_policy candidate)
  else false.

Definition pickStrongestHit (hits : list Hit) : option Hit :=
  match hits with
  | [] => None
  | h :: rest => Some (foldl (λ best c, if better_hit c best then c else best) h rest)
  end.

Definition policy_hits (input : PamBridgeInput) (policy : LoadedPolicy) : list Hit :=
  omap id (imap (λ i rule, mkHit policy i rule <$> matchRule input rule)
             (default [] (lp_executable policy))).

Definition mode_eqb (a b : PolicyMode) : bool :=
  match a, b with
  | allowlist, allowlist | blocklist, blocklist | audit, audit => true
  | _, _ => false
  end.

Definition hits_of (mode : PolicyMode) (hits : list Hit) : list Hit :=
  List.filter (λ h, mode_eqb (lp_mode (hit_policy h)) mode) hits.

Definition matchPoliciesAgainst (input : PamBridgeInput) (policies : list LoadedPolicy)
    : PamBridgeVerdict :=
  let hits := concat (policy_hits input <$> policies) in
  let auditMatches :=
    (λ h, mkAuditMatch (lp_id (hit_policy h)) (er_name (hit_rule h)) (hit_field h))
      <$> hits_of audit hits in
  let strongest :=
    match pickStrongestHit (hits_of blocklist hits) with
    | Some h => Some h
    | None => pickStrongestHit (hits_of allowlist hits)
    end in
  match strongest with
  | None => mkVerdict None auditMatches
  | Some h =>
      mkVerdict (Some (mkBinding
        (match lp_mode (hit_policy h) with blocklist => v_blocklist | _ => v_allowlist end)
        (lp_id (hit_policy h)) (hit_ruleIndex h) (er_name (hit_rule h)) (hit_field h)))
        auditMatches
  end.

(** ** Strength of hits *)

(** [stronger a b]: no reason to prefer [b] to [a]. *)
Definition stronger (a b : Hit) : Prop :=
  FIELD_PRECEDENCE (hit_field a) < FIELD_PRECEDENCE (hit_field b)
  ∨ (FIELD_PRECEDENCE (hit_field a) = FIELD_PRECEDENCE (hit_field b)
     ∧ lp_priority (hit_policy b) ≤ lp_priority (hit_policy a)).

Lemma better_hit_spec c b : better_hit c b = false ↔ stronger b c.
Proof. unfold better_hit, stronger. case_all; bool_hyps; split; intros; bool_hyps; try done; lia. Qed.

#[local] Instance stronger_refl : Reflexive stronger.
Proof. intros h. right. lia. Qed.
#[local] Instance stronger_trans : Transitive stronger.
Proof. unfold stronger. intros a b c. lia. Qed.

Lemma better_hit_stronger c b : better_hit c b = true → stronger c b.
Proof. unfold better_hit, stronger. case_all; bool_hyps; intros; bool_hyps; lia. Qed.

Lemma pick_fold hits h :
  let r := foldl (λ best c, if better_hit c best then c else best) h hits in
  r ∈ h :: hits ∧ Forall (stronger r) (h :: hits).
Proof.
  revert h. induction hits as [|c hits IH]; intros h; simpl.
  { split; [left|repeat constructor; reflexivity]. }
  destruct (IH (if better_hit c h then c else h)) as [Hin Hall].
  apply Forall_cons in Hall as [Hr Hall]. split.
  - apply elem_of_cons in Hin as [->|Hin]; [destruct (better_hit c h); set_solver|set_solver].
  - rewrite !Forall_cons. destruct (better_hit c h) eqn:E; split_and!; try done.
    + etrans; [exact Hr|]. by apply better_hit_stronger.
    + etrans; [exact Hr|]. by apply better_hit_spec.
Qed.

Lemma pickStrongestHit_spec hits :
  match pickStrongestHit hits with
  | None => hits = []
  | Some h => h ∈ hits ∧ Forall (stronger h) hits
  end.
Proof. destruct hits as [|h hits]; [done|]. apply pick_fold. Qed.

(** What a hit of a policy is: a rule of the policy that matches the candidate. *)
Lemma elem_of_policy_hits input p h :
  h ∈ policy_hits input p ↔
  hit_policy h = p ∧ default [] (lp_executable p) !! hit_ruleIndex h = Some (hit_rule h)
  ∧ matchRule input (hit_rule h) = Some (hit_field h).
Proof.
  unfold policy_hits. rewrite list_elem_of_omap. split.
  - intros (o & Ho & E). simpl in E. subst o. apply elem_of_lookup_imap in Ho as (i & r & Hr & Hl).
    symmetry in Hr. apply fmap_Some in Hr as (f & Hf & ->). done.
  - destruct h as [q i r f]; simpl. intros (-> & Hl & Hm). exists (Some (mkHit p i r f)).
    split; [|done]. apply elem_of_lookup_imap. exists i, r. by rewrite Hm.
Qed.

Definition is_hit (input : PamBridgeInput) (policies : list LoadedPolicy) (mode : PolicyMode)
    (h : Hit) : Prop :=
  hit_policy h ∈ policies ∧ lp_mode (hit_policy h) = mode
  ∧ default [] (lp_executable (hit_policy h)) !! hit_ruleIndex h = Some (hit_rule h)
  ∧ matchRule input (hit_rule h) = Some (hit_field h).

Lemma elem_of_hits_of input policies mode h :
  h ∈ hits_of mode (concat (policy_hits input <$> policies)) ↔ is_hit input policies mode h.
Proof.
  unfold hits_of, is_hit. rewrite list_elem_of_In, filter_In, <-list_elem_of_In.
  assert (mode_eqb (lp_mode (hit_policy h)) mode = true ↔ lp_mode (hit_policy h) = mode) as ->
    by (destruct (lp_mode (hit_policy h)), mode; simpl; split; congruence).
  assert (h ∈ concat (policy_hits input <$> policies)
          ↔ hit_policy h ∈ policies ∧ h ∈ policy_hits input (hit_policy h)) as ->.
  { rewrite list_elem_of_In, in_concat. split.
    - intros (l & Hl & Hh). apply list_elem_of_In in Hl, Hh. apply list_elem_of_fmap in Hl as (p & -> & Hp).
      assert (Hh' := Hh). apply elem_of_policy_hits in Hh' as (-> & _). done.
    - intros [Hp Hh]. exists (policy_hits input (hit_policy h)).
      split; apply list_elem_of_In; [by apply list_elem_of_fmap_2|done]. }
  rewrite elem_of_policy_hits. naive_solver.
Qed.

Definition verdict_of (h : Hit) (mode : PamBridgeVerdictMode) : Binding :=
  mkBinding mode (lp_id (hit_policy h)) (hit_ruleIndex h) (er_name (hit_rule h)) (hit_field h).

(** The bridge's verdict.  It binds as blocklist exactly when some rule of a
    blocklist policy matches, whatever the allowlists say; as allowlist exactly
    when none does and some rule of an allowlist policy matches; and binds
    nothing otherwise.  The rule it names is a hit of that mode than which no
    other hit of the mode is stronger (field first, then policy priority), and
    the audit matches are exactly the hits of audit policies, never the verdict. *)
Theorem bridge_verdict input policies :
  let v := matchPoliciesAgainst input policies in
  ((∃ h, is_hit input policies blocklist h) →
     ∃ h, is_hit input policies blocklist h ∧ binding v = Some (verdict_of h v_blocklist)
       ∧ ∀ h', is_hit input policies blocklist h' → stronger h h')
  ∧ ((¬ ∃ h, is_hit input policies blocklist h) → (∃ h, is_hit input policies allowlist h) →
     ∃ h, is_hit input policies allowlist h ∧ binding v = Some (verdict_of h v_allowlist)
       ∧ ∀ h', is_hit input policies allowlist h' → stronger h h')
  ∧ ((¬ ∃ h, is_hit input policies blocklist h) → (¬ ∃ h, is_hit input policies allowlist h) →
     binding v = None)
  ∧ (∀ a, a ∈ auditMatches v ↔ ∃ h, is_hit input policies audit h
       ∧ a = mkAuditMatch (lp_id (hit_policy h)) (er_name (hit_rule h)) (hit_field h)).
Proof.
  intros v. set (hits := concat (policy_hits input <$> policies)).
  assert (Hin : ∀ m h, h ∈ hits_of m hits ↔ is_hit input policies m h)
    by (intros; apply elem_of_hits_of).
  assert (Haud : auditMatches v =
    (λ h, mkAuditMatch (lp_id (hit_policy h)) (er_name (hit_rule h)) (hit_field h))
      <$> hits_of audit hits).
  { unfold v, matchPoliciesAgainst. fold hits. by case_match. }
  pose proof (pickStrongestHit_spec (hits_of blocklist hits)) as Hb.
  pose proof (pickStrongestHit_spec (hits_of allowlist hits)) as Ha.
  assert (Hv : binding v = match pickStrongestHit (hits_of blocklist hits) with
    | Some h => Some (verdict_of h v_blocklist)
    | None => (λ h, verdict_of h v_allowlist) <$> pickStrongestHit (hits_of allowlist hits) end).
  { unfold v, matchPoliciesAgainst. fold hits.
    destruct (pickStrongestHit (hits_of blocklist hits)) as [h|].
    - destruct Hb as [(_ & Hm & _)%Hin _]. simpl. by rewrite Hm.
    - destruct (pickStrongestHit (hits_of allowlist hits)) as [h|]; [|done].
      destruct Ha as [(_ & Hm & _)%Hin _]. simpl. by rewrite Hm. }
  rewrite Hv, Haud. clear Hv Haud.
  assert (Hnil : ∀ m, hits_of m hits = [] → ¬ ∃ h, is_hit input policies m h).
  { intros m Hm [h Hh%Hin]. rewrite Hm in Hh. by auto with breeze. }
  split_and!.
  - intros Hex. destruct (pickStrongestHit _) as [h|]; [|by apply Hnil in Hb].
    rewrite Forall_forall in Hb. destruct Hb as [Hh Hs]. exists h. rewrite <-Hin.
    split_and!; [done..|]. intros h' Hh'%Hin. auto.
  - intros Hno Hex. destruct (pickStrongestHit (hits_of blocklist hits)) as [h|].
    { destruct Hno. exists h. apply Hin, Hb. }
    destruct (pickStrongestHit _) as [h|]; [|by apply Hnil in Ha].
    rewrite Forall_forall in Ha. destruct Ha as [Hh Hs]. exists h. rewrite <-Hin.
    split_and!; [done..|]. intros h' Hh'%Hin. auto.
  - intros Hno Hno'. destruct (pickStrongestHit (hits_of blocklist hits)) as [h|].
    { destruct Hno. exists h. apply Hin, Hb. }
    destruct (pickStrongestHit _) as [h|]; [|done]. destruct Hno'. exists h. apply Hin, Ha.
  - intros a. rewrite list_elem_of_fmap. setoid_rewrite <-Hin. naive_solver.
Qed.
End Bridge.

Module RuleEngine.
Import Glob.

(** ** Data *)

Inductive PamRuleVerdict := auto_approve | auto_deny | require_approval | ignore.

Inductive PamRuleNegateKey :=
| k_signer | k_signerThumbprint | k_signerGroup | k_hash | k_pathGlob | k_parentImage
| k_commandLine | k_user | k_adGroup | k_toolName | k_riskTier.
#[export] Instance PamRuleNegateKey_eq_dec : EqDecision PamRuleNegateKey.
Proof. solve_decision. Defined.

Inductive SignerGroupEntry :=
| entry_cn (subjectCn : string) (thumbprint : option string)
| entry_thumbprint (thumbprint : string).

Record PamRuleTimeWindow := mkWindow {
  start : string; end_ : string; days : option (list Z); timezone : option string }.

Record PamRule := mkRule {
  id : string; name : string; enabled : bool; priority : Z; createdAt : option Z;
  matchSigner : option string; matchSignerThumbprint : option string;
  matchSignerGroupId : option string; matchHash : option string;
  matchPathGlob_ : option string; matchParentImage : option string;
  matchCommandLine : option string; matchUser : option string;
  matchAdGroup : option string; matchToolName : option string;
  matchRiskTier : option Z; matchNegate : option (list PamRuleNegateKey);
  timeWindow : option PamRuleTimeWindow;
  verdict : PamRuleVerdict; approvalDurationMinutes : option Z }.

Record PamRuleCandidate := mkCandidate {
  targetExecutablePath : option string; targetExecutableHash : option string;
  targetExecutableSigner : option string; targetExecutableSignerThumbprint : option string;
  subjectUsername : string; parentImage : option string; commandLine : option string;
  subjectAdGroups : option (list string); toolName : option string;
  riskTier : option Z; at_ : option Z }.

Record PamRuleMatch := mkMatch {
  ruleId : string; ruleName : string; m_verdict : PamRuleVerdict;
  m_approvalDurationMinutes : option Z }.

Abbreviation SignerGroupResolver := (gmap string (list SignerGroupEntry)).

(** ** Signers *)

Definition eqCi (a b : string) : bool := String.eqb (toLowerCase a) (toLowerCase b).

Definition THUMBPRINT_RE (s : string) : bool :=
  (length (chars s) =? 64)%nat && forallb is_lower_hex (chars s).

Definition thumbprintEq (pinned candidate : option string) : bool :=
  match truthy pinned, truthy candidate with
  | Some p, Some c =>
      let a := toLowerCase p in
      let b := toLowerCase c in
      if negb (THUMBPRINT_RE a) || negb (THUMBPRINT_RE b) then false else String.eqb a b
  | _, _ => false
  end.

Definition entry_subjectCn (e : SignerGroupEntry) : option string :=
  match e with entry_cn cn _ => truthy (Some cn) | entry_thumbprint _ => None end.
Definition entry_thumb (e : SignerGroupEntry) : option string :=
  match e with entry_cn _ t => truthy t | entry_thumbprint t => truthy (Some t) end.

Definition signerEntryMatches (entry : SignerGroupEntry) (candidate : PamRuleCandidate) : bool :=
  let cn := entry_subjectCn entry in
  let thumbprint := entry_thumb entry in
  match cn, thumbprint with
  | None, None => false
  | _, _ =>
      (match thumbprint with
       | Some _ => thumbprintEq thumbprint (targetExecutableSignerThumbprint candidate)
       | None => true
       end)
      && (match cn with
          | Some c => match targetExecutableSigner candidate with
                      | None => false
                      | Some s => eqCi c s
                      end
          | None => true
          end)
  end.

(** [normalizeSignerGroupEntries] of the schema file, on one element. *)
Definition SIGNER_THUMBPRINT_RE (s : string) : bool := THUMBPRINT_RE s.

Definition normalize_entry (el : json) : option SignerGroupEntry :=
  match el with
  | JStr s => let cn := trim s in
              if String.eqb cn "" then None else Some (entry_cn cn None)
  | JObj _ | JArr _ =>
      let cn := match jstring (jget "subjectCn" el) with Some s => trim s | None => "" end in
      let tpRaw := match jstring (jget "thumbprint" el) with
                   | Some s => toLowerCase (trim s) | None => "" end in
      if negb (String.eqb tpRaw "") then
        if negb (SIGNER_THUMBPRINT_RE tpRaw) then None
        else Some (if String.eqb cn "" then entry_thumbprint tpRaw else entry_cn cn (Some tpRaw))
      else if String.eqb cn "" then None else Some (entry_cn cn None)
  | _ => None
  end.

Definition normalizeSignerGroupEntries (raw : json) : list SignerGroupEntry :=
  match raw with JArr l => omap normalize_entry l | _ => [] end.

(** ** Criteria *)

Definition set_ (o : option string) : bool :=
  match truthy o with Some _ => true | None => false end.

Definition hasToolActionCriterion (rule : PamRule) : bool :=
  set_ (matchToolName rule) || bool_decide (matchRiskTier rule ≠ None).

Definition hasAnyCriteria (rule : PamRule) : bool :=
  set_ (matchSigner rule) || set_ (matchSignerThumbprint rule) || set_ (matchSignerGroupId rule)
  || set_ (matchHash rule) || set_ (matchPathGlob_ rule) || set_ (matchParentImage rule)
  || set_ (matchCommandLine rule) || set_ (matchUser rule) || set_ (matchAdGroup rule)
  || set_ (matchToolName rule) || bool_decide (matchRiskTier rule ≠ None).

(** ** Time windows *)

(** [/^(\d{1,2}):(\d{2})$/], then the range test. *)
Definition parse_groups (s : string) : option (list ascii * list ascii) :=
  match chars s with
  | [h1; ":"; m1; m2] =>
      if all_digits [h1; m1; m2] then Some ([h1], [m1; m2]) else None
  | [h1; h2; ":"; m1; m2] =>
      if all_digits [h1; h2; m1; m2] then Some ([h1; h2], [m1; m2]) else None
  | _ => None
  end%char.

Definition parse (s : string) : option Z :=
  '(hs, ms) ← parse_groups s;
  let h := digits_val hs in
  let min := digits_val ms in
  if (23 <? h) || (59 <? min) then None else Some (h * 60 + min).

Definition dayNames : list string := ["Sun"; "Mon"; "Tue"; "Wed"; "Thu"; "Fri"; "Sat"].

Section engine.
Context (formatToParts : string → Z → option (list (string * string))).

Definition get (parts : list (string * string)) (type : string) : string :=
  match List.find (λ p, String.eqb p.1 type) parts with Some p => p.2 | None => "" end.

(** [dayNames.indexOf(s)], [None] for -1. *)
Definition day_index (s : string) : option Z :=
  (Z.of_nat ∘ fst) <$> list_find (s =.) dayNames.

Definition isWithinTimeWindow (window : PamRuleTimeWindow) (at' : Z) : bool :=
  match parse (start window), parse (end_ window) with
  | Some start, Some end' =>
      match formatToParts (default "UTC" (timezone window)) at' with
      | None => false
      | Some parts =>
          match day_index (get parts "weekday"),
                js_Number (get parts "hour"), js_Number (get parts "minute") with
          | Some weekday, Some h, Some m =>
              let minutes := (h mod 24) * 60 + m in
              if match days window with
                 | Some (d :: ds) => negb (existsb (Z.eqb weekday) (d :: ds))
                 | _ => false
                 end
              then false
              else if start <=? end' then (start <=? minutes) && (minutes <=? end')
              else (start <=? minutes) || (minutes <=? end')
          | _, _, _ => false
          end
      end
  | _, _ => false
  end.

(** ** Rules *)

Definition satisfied (rule : PamRule) (key : PamRuleNegateKey) (present positive : bool) : bool :=
  if negb present then false
  else if bool_decide (key ∈ default [] (matchNegate rule)) then negb positive else positive.

(** A criterion of a rule: not set, or set and then tested on the candidate's
    value where there is one. *)
Definition criterion {V} (rule : PamRule) (key : PamRuleNegateKey) (value : option V)
    (test : V → bool) : bool :=
  match value with
  | Some v => satisfied rule key true (test v)
  | None => satisfied rule key false false
  end.

Definition has_signal (c : PamRuleCandidate) : bool :=
  bool_decide (targetExecutableSigner c ≠ None)
  || bool_decide (targetExecutableSignerThumbprint c ≠ None).

(** The members a signer-group criterion is tested against: none unless the
    group resolves to some and the candidate carries a signer signal. *)
Definition group_members (sg : option SignerGroupResolver) (gid : string) (c : PamRuleCandidate)
    : option (list SignerGroupEntry) :=
  match sg ≫= lookup gid with
  | Some (e :: es) => if has_signal c then Some (e :: es) else None
  | _ => None
  end.

Definition on_set (o : option string) (k : string → bool) : bool :=
  match truthy o with Some v => k v | None => true end.

Definition ruleMatches (now : Z) (rule : PamRule) (c : PamRuleCandidate)
    (signerGroups : option SignerGroupResolver) : bool :=
  if negb (hasAnyCriteria rule) then false else
  on_set (matchHash rule) (λ v, criterion rule k_hash (targetExecutableHash c) (eqCi v))
  && on_set (matchSigner rule) (λ v, criterion rule k_signer (targetExecutableSigner c) (eqCi v))
  && on_set (matchSignerThumbprint rule) (λ v,
       criterion rule k_signerThumbprint (targetExecutableSignerThumbprint c)
         (λ t, thumbprintEq (Some v) (Some t)))
  && on_set (matchSignerGroupId rule) (λ v,
       criterion rule k_signerGroup (group_members signerGroups v c)
         (existsb (λ e, signerEntryMatches e c)))
  && on_set (matchPathGlob_ rule) (λ v,
       criterion rule k_pathGlob (targetExecutablePath c) (matchPathGlob v))
  && on_set (matchParentImage rule) (λ v,
       criterion rule k_parentImage (parentImage c) (matchPathGlob v))
  && on_set (matchCommandLine rule) (λ v,
       criterion rule k_commandLine (commandLine c)
         (λ l, includes (toLowerCase l) (toLowerCase v)))
  && on_set (matchUser rule) (λ v, satisfied rule k_user true (eqCi v (subjectUsername c)))
  && on_set (matchAdGroup rule) (λ v,
       criterion rule k_adGroup (subjectAdGroups c) (existsb (λ g, eqCi g v)))
  && on_set (matchToolName rule) (λ v, criterion rule k_toolName (toolName c) (eqCi v))
  && (match matchRiskTier rule with
      | Some tier => criterion rule k_riskTier (riskTier c) (Z.eqb tier)
      | None => true
      end)
  && (match timeWindow rule with
      | Some w => isWithinTimeWindow w (default now (at_ c))
      | None => true
      end).

(** The comparator of [evaluatePamRules], as [cmp(a, b) <= 0]. *)
Definition rule_le (a b : PamRule) : bool :=
  if negb (priority a =? priority b) then priority a <=? priority b
  else
    let at' := default 0 (createdAt a) in
    let bt := default 0 (createdAt b) in
    if negb (at' =? bt) then at' <=? bt else String.leb (id a) (id b).

Definition match_of (rule : PamRule) : PamRuleMatch :=
  mkMatch (id rule) (name rule) (verdict rule) (approvalDurationMinutes rule).

Definition evaluatePamRules (now : Z) (rules : list PamRule) (c : PamRuleCandidate)
    (signerGroups : option SignerGroupResolver) : option PamRuleMatch :=
  match_of <$> List.find (λ r, enabled r && ruleMatches now r c signerGroups)
                 (js_sort rule_le rules).

Definition evaluatePamToolActionRules (now : Z) (rules : list PamRule) (c : PamRuleCandidate)
    : option PamRuleMatch :=
  evaluatePamRules now (List.filter hasToolActionCriterion rules) c None.

(** ** The order of evaluation *)

Lemma leb_refl s : String.leb s s = true.
Proof. destruct (String.leb_total s s); done. Qed.

Lemma leb_trans s t u : String.leb s t = true → String.leb t u = true → String.leb s u = true.
Proof.
  intros H1%Is_true_true H2%Is_true_true. apply Is_true_true.
  change (String.le s u). etrans; [exact H1|exact H2].
Qed.

Lemma rule_le_iff a b :
  rule_le a b = true ↔
  priority a < priority b ∨ (priority a = priority b ∧
    (default 0 (createdAt a) < default 0 (createdAt b)
     ∨ (default 0 (createdAt a) = default 0 (createdAt b) ∧ String.leb (id a) (id b) = true))).
Proof.
  unfold rule_le. destruct (Z.eqb_spec (priority a) (priority b)) as [E|E]; simpl.
  2: { rewrite Z.leb_le. lia. }
  destruct (Z.eqb_spec (default 0 (createdAt a)) (default 0 (createdAt b))) as [E'|E']; simpl.
  - destruct (String.leb (id a) (id b)); lia.
  - rewrite Z.leb_le. lia.
Qed.

Lemma rule_le_total a b : rule_le a b = true ∨ rule_le b a = true.
Proof.
  rewrite !rule_le_iff. destruct (String.leb_total (id a) (id b)) as [H|H]; rewrite H; lia.
Qed.

Lemma rule_le_trans a b c : rule_le a b = true → rule_le b c = true → rule_le a c = true.
Proof.
  rewrite !rule_le_iff.
  intros [?|[? [?|[? ?]]]] [?|[? [?|[? ?]]]]; try lia.
  right. split; [lia|]. right. split; [lia|]. by eapply leb_trans.
Qed.

Lemma rule_le_antisym a b : rule_le a b = true → rule_le b a = true → id a = id b.
Proof.
  rewrite !rule_le_iff.
  intros [?|[? [?|[? ?]]]] [?|[? [?|[? ?]]]]; try lia. by apply String.leb_antisym.
Qed.

(** The first element of a sorted list that passes a test is the least of those
    that do. *)
Lemma find_least (p : PamRule → bool) l r :
  StronglySorted (λ a b, rule_le a b = true) l → List.find p l = Some r →
  r ∈ l ∧ p r = true ∧ ∀ r', r' ∈ l → p r' = true → rule_le r r' = true.
Proof.
  induction 1 as [|x l Hs IH Hall]; simpl; [done|].
  destruct (p x) eqn:E; intros H.
  - simplify_eq. split_and!; [left|done|]. intros r' [->|Hr']%elem_of_cons Hp.
    + destruct (rule_le_total r r); done.
    + rewrite Forall_forall in Hall. auto.
  - destruct (IH H) as (Hin & Hp & Hmin). split_and!; [by right|done|].
    intros r' [->|Hr']%elem_of_cons Hp'; [congruence|auto].
Qed.

Lemma find_none (p : PamRule → bool) l :
  List.find p l = None ↔ ∀ r, r ∈ l → p r = false.
Proof.
  split.
  - intros H r Hr%list_elem_of_In. by eapply find_none in H.
  - intros H. destruct (List.find p l) eqn:E; [|done].
    apply find_some in E as [Hin%list_elem_of_In Hp]. by rewrite H in Hp.
Qed.

(** An enabled rule that matches. *)
Definition applies (now : Z) (rules : list PamRule) c sg (r : PamRule) : Prop :=
  r ∈ rules ∧ enabled r = true ∧ ruleMatches now r c sg = true.

Lemma evaluate_cases now rules c sg :
  match evaluatePamRules now rules c sg with
  | None => ∀ r, ¬ applies now rules c sg r
  | Some m => ∃ r, applies now rules c sg r ∧ m = match_of r
                ∧ ∀ r', applies now rules c sg r' → rule_le r r' = true
  end.
Proof.
  unfold evaluatePamRules, applies.
  destruct (List.find _ _) as [r|] eqn:E; simpl.
  - apply find_least in E as (Hin & Hp & Hmin);
      [|apply js_sort_sorted; eauto using rule_le_total, rule_le_trans].
    apply andb_true_iff in Hp as [He Hm]. rewrite elem_of_js_sort in Hin. exists r. split_and!; [done..|].
    intros r' (Hr & He' & Hm'). apply Hmin; [by apply elem_of_js_sort|by rewrite He', Hm'].
  - intros r (Hr & He & Hm). pose proof (proj1 (find_none _ _) E r) as Hf. simpl in Hf.
    rewrite He, Hm in Hf. apply elem_of_js_sort with (le := rule_le) in Hr. by specialize (Hf Hr).
Qed.

Lemma NoDup_id_inj (rules : list PamRule) a b :
  NoDup (id <$> rules) → a ∈ rules → b ∈ rules → id a = id b → a = b.
Proof.
  intros Hn (i & Hi)%list_elem_of_lookup (j & Hj)%list_elem_of_lookup E.
  assert (i = j) as ->; [|congruence].
  eapply NoDup_lookup; [exact Hn| |]; rewrite list_lookup_fmap; [by rewrite Hi|].
  rewrite Hj. simpl. by rewrite E.
Qed.

(** Rule selection.  With distinct rule ids, the engine answers with a rule
    exactly when that rule is the first, in the order (priority, creation time,
    id), of the enabled rules that match; it answers nothing exactly when no
    enabled rule matches; and the answer does not depend on the order in which
    the rules were fetched. *)
Theorem rule_selection now rules c sg (Hn : NoDup (id <$> rules)) :
  (evaluatePamRules now rules c sg = None ↔ ∀ r, ¬ applies now rules c sg r)
  ∧ (∀ r, applies now rules c sg r →
       (∀ r', applies now rules c sg r' → rule_le r r' = true) →
       evaluatePamRules now rules c sg = Some (match_of r))
  ∧ (∀ m, evaluatePamRules now rules c sg = Some m →
       ∃ r, applies now rules c sg r ∧ m = match_of r
         ∧ ∀ r', applies now rules c sg r' → r' ≠ r → rule_le r' r = false)
  ∧ (∀ rules', rules' ≡ₚ rules → evaluatePamRules now rules' c sg = evaluatePamRules now rules c sg).
Proof.
  assert (Huniq : ∀ r r', applies now rules c sg r → applies now rules c sg r' →
    rule_le r r' = true → rule_le r' r = true → r = r').
  { intros r r' (? & _) (? & _) ??. eapply NoDup_id_inj; eauto. by apply rule_le_antisym. }
  pose proof (evaluate_cases now rules c sg) as Hc.
  assert (Hleast : ∀ r, applies now rules c sg r →
    (∀ r', applies now rules c sg r' → rule_le r r' = true) →
    evaluatePamRules now rules c sg = Some (match_of r)).
  { intros r Hr Hmin. destruct (evaluatePamRules now rules c sg) as [m|]; [|by apply Hc in Hr].
    destruct Hc as (r0 & Hr0 & -> & Hmin0). by rewrite (Huniq r r0) by auto. }
  split_and!; [|done| |].
  - split; [intros E; by rewrite E in Hc|]. intros Hno.
    destruct (evaluatePamRules now rules c sg); [|done]. destruct Hc as (r & Hr & _). by apply Hno in Hr.
  - intros m E. rewrite E in Hc. destruct Hc as (r & Hr & -> & Hmin). exists r. split_and!; [done..|].
    intros r' Hr' Hne. apply not_true_is_false. intros Hle. apply Hne, Huniq; auto.
  - intros rules' Hp. pose proof (evaluate_cases now rules' c sg) as Hc'.
    assert (Happ : ∀ r, applies now rules' c sg r ↔ applies now rules c sg r)
      by (intros r; unfold applies; by rewrite Hp).
    destruct (evaluatePamRules now rules' c sg) as [m|].
    + destruct Hc' as (r & Hr%Happ & -> & Hmin). symmetry. apply Hleast; [done|].
      intros r' Hr'%Happ. auto.
    + destruct (evaluatePamRules now rules c sg); [|done]. destruct Hc as (r & Hr%Happ & _). by apply Hc' in Hr.
Qed.

(** ** Fail closed *)

(** Which column a criterion key stands for, and whether the rule sets it. *)
Definition criterion_set (r : PamRule) (k : PamRuleNegateKey) : bool :=
  match k with
  | k_signer => set_ (matchSigner r)
  | k_signerThumbprint => set_ (matchSignerThumbprint r)
  | k_signerGroup => set_ (matchSignerGroupId r)
  | k_hash => set_ (matchHash r)
  | k_pathGlob => set_ (matchPathGlob_ r)
  | k_parentImage => set_ (matchParentImage r)
  | k_commandLine => set_ (matchCommandLine r)
  | k_user => set_ (matchUser r)
  | k_adGroup => set_ (matchAdGroup r)
  | k_toolName => set_ (matchToolName r)
  | k_riskTier => bool_decide (matchRiskTier r ≠ None)
  end.

(** Whether the candidate carries the data the criterion is about. *)
Definition candidate_has (c : PamRuleCandidate) (sg : option SignerGroupResolver) (r : PamRule)
    (k : PamRuleNegateKey) : Prop :=
  match k with
  | k_signer => targetExecutableSigner c ≠ None
  | k_signerThumbprint => targetExecutableSignerThumbprint c ≠ None
  | k_signerGroup =>
      (targetExecutableSigner c ≠ None ∨ targetExecutableSignerThumbprint c ≠ None)
      ∧ ∃ gid m ms, matchSignerGroupId r = Some gid ∧ sg ≫= lookup gid = Some (m :: ms)
  | k_hash => targetExecutableHash c ≠ None
  | k_pathGlob => targetExecutablePath c ≠ None
  | k_parentImage => parentImage c ≠ None
  | k_commandLine => commandLine c ≠ None
  | k_user => True
  | k_adGroup => subjectAdGroups c ≠ None
  | k_toolName => toolName c ≠ None
  | k_riskTier => riskTier c ≠ None
  end.

Lemma criterion_present {V} r k (v : option V) test :
  criterion r k v test = true → v ≠ None.
Proof. by destruct v. Qed.

Lemma on_set_true o f : on_set o f = true → set_ o = true → ∃ v, o = Some v ∧ v ≠ "" ∧ f v = true.
Proof.
  unfold on_set, set_. destruct (truthy o) as [v|] eqn:E; [|done]. intros.
  apply truthy_Some in E as [-> ?]. eauto.
Qed.

Lemma group_members_Some sg gid c l :
  group_members sg gid c = Some l →
  (targetExecutableSigner c ≠ None ∨ targetExecutableSignerThumbprint c ≠ None)
  ∧ sg ≫= lookup gid = Some l ∧ l ≠ [].
Proof.
  unfold group_members, has_signal. destruct (sg ≫= lookup gid) as [[|e es]|]; [done| |done].
  case_match eqn:E; [|done]. intros [= <-]. apply orb_true_iff in E as [?|?]; bool_hyps; eauto.
Qed.

(** Opens the criterion a hypothesis says is set. *)
Ltac open_criterion v Hv Hc :=
  match goal with
  | Hs : set_ ?o = true, Ho : on_set ?o _ = true |- _ =>
      destruct (on_set_true _ _ Ho Hs) as (v & Hv & _ & Hc)
  end.

Lemma ruleMatches_criteria now r c sg :
  ruleMatches now r c sg = true →
  hasAnyCriteria r = true ∧ ∀ k, criterion_set r k = true → candidate_has c sg r k.
Proof.
  unfold ruleMatches. intros H. case_match; [done|]. bool_hyps. split; [done|].
  intros k Hk. destruct k; simpl in *; try done;
    try (open_criterion v Hv Hc; by eapply criterion_present in Hc).
  - open_criterion v Hv Hc.
    destruct (group_members sg v c) as [l|] eqn:E; [|done].
    apply group_members_Some in E as (Hs & Hl & Hne). split; [done|].
    destruct l as [|m ms]; [done|]. by exists v, m, ms.
  - destruct (matchRiskTier r); [|by apply bool_decide_eq_true in Hk].
    by eapply criterion_present.
Qed.

(** The engine fails closed.  A rule that matches sets at least one
    identifying criterion (a time window alone never matches), and for every
    criterion it sets, negated or not, the candidate carries the data the
    criterion is about: missing data never satisfies a negated criterion, and a
    signer group must resolve to a non-empty member list. *)
Theorem rule_match_fails_closed now r c sg (H : ruleMatches now r c sg = true) :
  (∃ k, criterion_set r k = true) ∧ ∀ k, criterion_set r k = true → candidate_has c sg r k.
Proof.
  apply ruleMatches_criteria in H as [Ha Hk]. split; [|done]. unfold hasAnyCriteria in Ha.
  repeat match goal with
    | H : (_ || _)%bool = true |- _ => apply orb_true_iff in H as [H|H]
    end;
    [by exists k_signer|by exists k_signerThumbprint|by exists k_signerGroup|by exists k_hash
    |by exists k_pathGlob|by exists k_parentImage|by exists k_commandLine|by exists k_user
    |by exists k_adGroup|by exists k_toolName|by exists k_riskTier].
Qed.

(** ** Strong signer pins *)

Lemma thumbprintEq_spec p c :
  thumbprintEq p c = true →
  ∃ a b, p = Some a ∧ c = Some b ∧ toLowerCase a = toLowerCase b ∧ THUMBPRINT_RE (toLowerCase b) = true.
Proof.
  unfold thumbprintEq. intros H.
  destruct (truthy p) as [a|] eqn:Ea; [|done]. destruct (truthy c) as [b|] eqn:Eb; [|done].
  apply truthy_Some in Ea as [-> _], Eb as [-> _]. case_match; [done|]. bool_hyps.
  apply String.eqb_eq in H. exists a, b. split_and!; done.
Qed.

Lemma entry_thumb_pins e c t :
  entry_thumb e = Some t → signerEntryMatches e c = true →
  ∃ b, targetExecutableSignerThumbprint c = Some b ∧ toLowerCase t = toLowerCase b
    ∧ THUMBPRINT_RE (toLowerCase b) = true.
Proof.
  unfold signerEntryMatches. intros -> H.
  assert (thumbprintEq (Some t) (targetExecutableSignerThumbprint c) = true) as Ht
    by (destruct (entry_subjectCn e); bool_hyps; done).
  apply thumbprintEq_spec in Ht as (a & b & [= <-] & Hb & He & Hre). eauto.
Qed.

Lemma normalize_entry_thumb el tp e :
  jstring (jget "thumbprint" el) = Some tp → trim tp ≠ "" → normalize_entry el = Some e →
  entry_thumb e = Some (toLowerCase (trim tp)).
Proof.
  intros Htp Hne He. unfold normalize_entry in He. rewrite Htp in He.
  assert (toLowerCase (trim tp) ≠ "") as Hne'.
  { intros E. apply Hne. destruct (trim tp); [done|]. by vm_compute in E. }
  destruct el; simplify_eq/=.
  apply String.eqb_neq in Hne'. rewrite Hne' in He. simpl in He.
  case_match; [done|]. destruct (toLowerCase (trim tp)) eqn:E; [done|].
  case_match; simplify_eq; done.
Qed.

(** A pinned thumbprint is never traded for a name.  If a rule pins a
    thumbprint without negating it, or a stored signer-group entry carries a
    (non-blank) thumbprint, then a candidate it matches carries a well-formed
    SHA-256 thumbprint equal to the pinned one up to letter case; a malformed
    stored pin matches nobody. *)
Theorem thumbprint_pins_are_exact :
  (∀ now r c sg pin, ruleMatches now r c sg = true → matchSignerThumbprint r = Some pin → pin ≠ "" →
     k_signerThumbprint ∉ default [] (matchNegate r) →
     ∃ b, targetExecutableSignerThumbprint c = Some b ∧ toLowerCase b = toLowerCase pin
       ∧ THUMBPRINT_RE (toLowerCase b) = true)
  ∧ (∀ el tp e c, jstring (jget "thumbprint" el) = Some tp → trim tp ≠ "" →
     normalize_entry el = Some e → signerEntryMatches e c = true →
     ∃ b, targetExecutableSignerThumbprint c = Some b ∧ toLowerCase b = toLowerCase (trim tp)
       ∧ THUMBPRINT_RE (toLowerCase b) = true).
Proof.
  split.
  - intros now r c sg pin H Hp Hne Hn. unfold ruleMatches in H. case_match; [done|]. bool_hyps.
    assert (set_ (matchSignerThumbprint r) = true) as Hs by (rewrite Hp; by destruct pin).
    open_criterion v Hv Hc.
    destruct (targetExecutableSignerThumbprint c) as [t|]; simpl in Hc; [|done].
    unfold satisfied in Hc. rewrite bool_decide_false in Hc by done. simpl in Hc.
    apply thumbprintEq_spec in Hc as (a & b & ? & ? & He & Hre). simplify_eq. eauto.
  - intros el tp e c Htp Hne He Hm. pose proof (normalize_entry_thumb _ _ _ Htp Hne He) as Ht.
    destruct (entry_thumb_pins _ _ _ Ht Hm) as (b & Hb & Heq & Hre).
    exists b. rewrite toLowerCase_idemp in Heq. done.
Qed.

(** Tool actions are governed only by tool-action rules.  The rule that
    decides an AI tool action carries a tool-name or risk-tier criterion, is one
    of the enabled rules given, and matches; so a candidate that names neither a
    tool nor a tier is decided by no rule. *)
Theorem tool_action_rules_only now rules c m (H : evaluatePamToolActionRules now rules c = Some m) :
  (∃ r, r ∈ rules ∧ enabled r = true ∧ m = match_of r ∧ hasToolActionCriterion r = true
     ∧ ruleMatches now r c None = true)
  ∧ (toolName c ≠ None ∨ riskTier c ≠ None).
Proof.
  pose proof (evaluate_cases now (List.filter hasToolActionCriterion rules) c None) as Hc.
  unfold evaluatePamToolActionRules in H. rewrite H in Hc. destruct Hc as (r & (Hin & He & Hm) & -> & _).
  apply list_elem_of_In, filter_In in Hin as [Hin%list_elem_of_In Ht].
  split; [by exists r|]. apply ruleMatches_criteria in Hm as [_ Hk].
  unfold hasToolActionCriterion in Ht. apply orb_true_iff in Ht as [Ht|Ht].
  - left. by apply (Hk k_toolName).
  - right. by apply (Hk k_riskTier).
Qed.
End engine.

(** ** Time windows *)

(** The minute of the day a floating instant shows. *)
Definition minute_of_day (w : Z) : Z := getUTCHours w * 60 + getUTCMinutes w.

Lemma parse_range s m : parse s = Some m → 0 ≤ m < 1440.
Proof.
  unfold parse. intros H. apply bind_Some in H as ([hs ms] & Hg & H). unfold parse_groups in Hg.
  assert (0 ≤ digits_val hs ∧ 0 ≤ digits_val ms) as [? ?].
  { repeat case_match; simplify_eq; unfold all_digits in *; split; apply digits_val_range; simpl in *; bool_hyps;
      unfold all_digits; simpl; rewrite ?andb_true_iff; done. }
  case_match; [done|]. simplify_eq. bool_hyps. lia.
Qed.

(** On the 24-hour clock, going forward from [s], [m] comes no later than [e]. *)
Definition in_window (s e m : Z) : Prop := (m - s) mod 1440 ≤ (e - s) mod 1440.

Lemma in_window_test s e m :
  0 ≤ s < 1440 → 0 ≤ e < 1440 → 0 ≤ m < 1440 →
  (if s <=? e then (s <=? m) && (m <=? e) else (s <=? m) || (m <=? e)) = true ↔ in_window s e m.
Proof.
  intros Hs He Hm. unfold in_window.
  assert (∀ x, 0 ≤ x < 1440 → (x - s) mod 1440 = if s <=? x then x - s else x - s + 1440) as Hmod.
  { intros x Hx. destruct (Z.leb_spec s x); Z.to_euclidean_division_equations; lia. }
  rewrite !Hmod by done.
  destruct (Z.leb_spec s e), (Z.leb_spec s m), (Z.leb_spec m e); simpl; split; done || lia.
Qed.

Lemma get_shown parts k v : shows parts k v → get parts k = v.
Proof. intros H%shows_find. unfold get. by rewrite H. Qed.

Lemma number_got parts k n : shows_number parts k n → js_Number (get parts k) = Some n.
Proof. intros (s & Hs%get_shown & Hn). rewrite Hs. by apply numeral_Number. Qed.

Lemma weekday_got parts w : shows_weekday parts w → day_index (get parts "weekday") = Some (getUTCDay w).
Proof.
  intros (s & Hs%get_shown & Hw). rewrite Hs.
  pose proof (weekday_cases (λ s d, bool_decide (day_index s = Some d)) w s) as H.
  eapply bool_decide_eq_true_1, H; [by vm_compute|done].
Qed.

Lemma listed_day {A} (ds : option (list Z)) d (a b : A) :
  (if match ds with Some (x :: l) => negb (existsb (Z.eqb d) (x :: l)) | _ => false end then a else b)
  = if bool_decide (default [] ds = [] ∨ d ∈ default [] ds) then b else a.
Proof.
  destruct ds as [[|x l]|]; try (rewrite bool_decide_true by (by left); done). cbn [default].
  destruct (existsb (Z.eqb d) (x :: l)) eqn:E; cbn [negb].
  - rewrite bool_decide_true; [done|]. right. apply existsb_exists in E as (y & Hy & ->%Z.eqb_eq). by apply list_elem_of_In.
  - rewrite bool_decide_false; [done|]. intros [?|Hin]; [done|]. apply not_true_iff_false in E. apply E, existsb_exists.
    exists d. split; [by apply list_elem_of_In|apply Z.eqb_refl].
Qed.

(** When a time window is open.  For any formatter that shows a zone's
    clock, a window is open at an instant exactly when both of its times parse,
    its zone (UTC when absent) is known, the weekday the clock shows is one of the
    listed days (any day when none is listed), and the minute the clock shows
    comes, going forward from the start on the 24-hour clock, no later than the
    end; so a window whose end is before its start runs over midnight, and a
    malformed window or zone is never open. *)
Theorem time_window_open formatToParts wall (Hfmt : ClockFormatter formatToParts wall) window at' :
  isWithinTimeWindow formatToParts window at' = true ↔
  ∃ s e w, parse (start window) = Some s ∧ parse (end_ window) = Some e
    ∧ wall (default "UTC" (timezone window)) at' = Some w
    ∧ (default [] (days window) = [] ∨ getUTCDay w ∈ default [] (days window))
    ∧ in_window s e (minute_of_day w).
Proof.
  unfold isWithinTimeWindow. destruct (parse (start window)) as [s|] eqn:Es; [|naive_solver].
  destruct (parse (end_ window)) as [e|] eqn:Ee; [|naive_solver].
  destruct (wall (default "UTC" (timezone window)) at') as [w|] eqn:Ew;
    [|rewrite (clock_unknown _ _ Ew); naive_solver].
  destruct (clock_parts _ _ _ Ew) as (parts & h & -> & Hwd & Hh & Hmod & Hm).
  rewrite (weekday_got _ _ Hwd), (number_got _ _ _ Hh), (number_got _ _ _ Hm), Hmod. fold (minute_of_day w).
  assert (0 ≤ minute_of_day w < 1440) as Hr by (unfold minute_of_day; pose proof (utc_field_bounds w); lia).
  pose proof (in_window_test s e _ (parse_range _ _ Es) (parse_range _ _ Ee) Hr) as Hwin.
  rewrite (listed_day (days window) (getUTCDay w)). split.
  - case_bool_decide; [|done]. intros Ht%Hwin. by exists s, e, w.
  - intros (s' & e' & w' & ? & ? & ? & Hd & Hin). simplify_eq. rewrite bool_decide_true by done. by apply Hwin.
Qed.

(** ** Witnesses *)

Definition ex_rule (i : string) (p : Z) (v : PamRuleVerdict) : PamRule :=
  mkRule i i true p (Some 0) None None None None (Some "C:\Tools\*.exe") None None None None None None
    None None v (Some 30).
Definition ex_tool_rule : PamRule :=
  mkRule "t" "t" true 1 None None None None None None None None None None (Some "Reboot") None
    None None require_approval None.
Definition ex_candidate : PamRuleCandidate :=
  mkCandidate (Some "c:/tools/a.exe") None None None "alice" None None None (Some "reboot") None None.
Definition ex_rules : list PamRule := [ex_rule "b" 5 auto_deny; ex_rule "a" 5 auto_approve].
Definition no_parts : string → Z → option (list (string * string)) := λ _ _, None.

Lemma time_window_open_witness :
  isWithinTimeWindow utc_parts (mkWindow "22:00" "06:00" (Some [3; 4]) None) 1740005400000 = true.
Proof. apply (time_window_open utc_parts utc_wall); [apply _|]. exists 1320, 360, 1740005400000. split_and!; [by vm_compute..|right; left|by vm_compute]. Defined.

Lemma rule_selection_witness :
  evaluatePamRules no_parts 0 ex_rules ex_candidate None = Some (match_of (ex_rule "a" 5 auto_approve)).
Proof.
  destruct (rule_selection no_parts 0 ex_rules ex_candidate None) as (_ & Hs & _);
    [by apply (bool_decide_eq_true_1 _); vm_compute|]. apply Hs.
  - split_and!; [unfold ex_rules; set_solver|done|by vm_compute].
  - intros r' (Hr & _). unfold ex_rules in Hr. rewrite !elem_of_cons, elem_of_nil in Hr.
    by destruct Hr as [-> |[-> |[]]]; vm_compute.
Defined.

Lemma rule_match_fails_closed_witness :
  candidate_has ex_candidate None (ex_rule "a" 5 auto_approve) k_pathGlob.
Proof.
  apply (rule_match_fails_closed no_parts 0 (ex_rule "a" 5 auto_approve) ex_candidate None);
    by vm_compute.
Defined.

Lemma tool_action_rules_only_witness : toolName ex_candidate ≠ None ∨ riskTier ex_candidate ≠ None.
Proof.
  apply (tool_action_rules_only no_parts 0 (ex_tool_rule :: ex_rules) ex_candidate (match_of ex_tool_rule)).
  by vm_compute.
Defined.
End RuleEngine.
