(* ===== verification/Contracts.v ===== *)
(** * Recurring contracts: billing periods, renewal and notice windows

    Models [apps/api/src/services/contractMath.ts], all of it.  Dates are the
    ISO strings the code passes around, compared as strings.  A function whose
    input is not three runs of digits answers [None] (the code computes with
    [NaN] there).  The two loops keep the code's runaway guard of 100000. *)
From S2P Require Import Prelude JsText JsDate IsoDate.
From stdpp Require Import base tactics list strings.
From Stdlib Require Import ZArith Lia.
Open Scope Z_scope.

Module Contracts.

Inductive BillingTiming := advance | arrears.

Record Period := mkPeriod { periodStart : string; periodEnd : string }.

Definition daysInMonth (year month1 : Z) : Z := getUTCDate (DateUTC year month1 0 0 0).

Definition add_months (t : date) (months : Z) : date :=
  let '(y, m, d) := t in
  let zeroBased := (m - 1) + months in
  let ny := y + zeroBased / 12 in
  let nm1 := Z.rem (Z.rem zeroBased 12 + 12) 12 + 1 in
  (ny, nm1, Z.min d (daysInMonth ny nm1)).

Definition addMonthsClamped (s : string) (months : Z) : option string :=
  t ← parts s; Some (iso (add_months t months)).

Definition computePeriod (startDate : string) (intervalMonths periodIndex : Z) : option Period :=
  s ← addMonthsClamped startDate (intervalMonths * periodIndex);
  e ← addMonthsClamped startDate (intervalMonths * (periodIndex + 1));
  Some (mkPeriod s e).

Definition runaway : Z := 100000.

Fixpoint period_walk (fuel : nat) (startDate : string) (intervalMonths : Z) (asOf : string) (idx : Z)
    : option Z :=
  match fuel with
  | O => Some idx
  | S fuel' =>
      p ← computePeriod startDate intervalMonths (idx + 1);
      if String.leb (periodStart p) asOf then
        if runaway <? idx + 1 then Some (idx + 1)
        else period_walk fuel' startDate intervalMonths asOf (idx + 1)
      else Some idx
  end.

(** The guard leaves the loop after at most [runaway + 1] rounds. *)
Definition walk_fuel : nat := Z.to_nat (runaway + 1).

Definition periodIndexFor (startDate : string) (intervalMonths : Z) (asOf : string) : option Z :=
  period_walk walk_fuel startDate intervalMonths asOf 0.

Definition nextBillingDate (startDate : string) (intervalMonths : Z) (billingTiming : BillingTiming)
    (periodIndex : Z) : option string :=
  p ← computePeriod startDate intervalMonths periodIndex;
  Some (match billingTiming with advance => periodStart p | arrears => periodEnd p end).

Definition isExpired (endDate : option string) (periodStart : string) : bool :=
  match endDate with None => false | Some e => String.leb e periodStart end.

Definition addDaysISO (s : string) (days : Z) : option string :=
  '(y, m, d) ← parts s;
  let dt := DateUTC y (m - 1) (d + days) 0 0 in
  Some (fmt (getUTCFullYear dt) (getUTCMonth dt + 1) (getUTCDate dt)).

Definition duePeriodStartFor (billingTiming : BillingTiming) (nextBillingAt : string)
    (intervalMonths : Z) : option string :=
  match billingTiming with
  | advance => Some nextBillingAt
  | arrears => addMonthsClamped nextBillingAt (- intervalMonths)
  end.

Definition isWithinNoticeWindow (asOf endDate : string) (noticeDays : Z) : option bool :=
  windowStart ← addDaysISO endDate (- noticeDays);
  Some (String.leb windowStart asOf && String.ltb asOf endDate).

Fixpoint extend_walk (fuel : nat) (endDate duePeriodStart : string) (termMonths guard : Z)
    (renewed : bool) : option (string * bool) :=
  match fuel with
  | O => Some (endDate, renewed)
  | S fuel' =>
      if isExpired (Some endDate) duePeriodStart then
        e ← addMonthsClamped endDate termMonths;
        if runaway <? guard + 1 then Some (e, true)
        else extend_walk fuel' e duePeriodStart termMonths (guard + 1) true
      else Some (endDate, renewed)
  end.

Definition extendTermPastDue (endDate duePeriodStart : string) (termMonths : Z)
    : option (string * bool) :=
  extend_walk walk_fuel endDate duePeriodStart termMonths 0 false.

Lemma walk_fuel_eq : Z.of_nat walk_fuel = runaway + 1.
Proof. unfold walk_fuel. by rewrite Z2Nat.id. Qed.
#[local] Opaque walk_fuel.

(** ** Adding months *)

(** The month a date is in, counted from year 0. *)
Definition month_index (t : date) : Z := let '(y, m, _) := t in 12 * y + (m - 1).

Lemma daysInMonth_len y m1 : 100 ≤ y → 1 ≤ m1 ≤ 12 → daysInMonth y m1 = month_len (leap y) (m1 - 1).
Proof.
  intros Hy Hm. unfold daysInMonth, getUTCDate, Day, DateUTC, fullYear, msPerDay.
  destruct (Z.leb_spec y 99); [lia|]. rewrite andb_false_r, !Z.add_0_r, Z.div_mul by lia.
  rewrite MakeDay_last by done.
  apply civil_of_MakeDay; [lia|]. pose proof (month_len_range (leap y) (m1 - 1)). lia.
Qed.

(** What [add_months] does, in terms of month indices. *)
Lemma add_months_spec t k :
  valid_date t → 12000 ≤ month_index t + k < 120000 →
  let t' := add_months t k in
  valid_date t' ∧ month_index t' = month_index t + k
  ∧ t'.2 = Z.min t.2 (month_len (leap t'.1.1) (t'.1.2 - 1)).
Proof.
  destruct t as [[y m] d]. intros (Hy & Hm & Hd) Hk. unfold add_months, month_index in *.
  set (z := m - 1 + k) in *. set (ny := y + z / 12). set (nm := Z.rem (Z.rem z 12 + 12) 12 + 1).
  assert (Hnm : nm = z mod 12 + 1) by (unfold nm; Z.to_euclidean_division_equations; lia).
  assert (1 ≤ nm ≤ 12) by (rewrite Hnm; Z.to_euclidean_division_equations; lia).
  assert (1000 ≤ ny ≤ 9999) by (unfold ny; Z.to_euclidean_division_equations; lia).
  rewrite daysInMonth_len by lia. pose proof (month_len_range (leap ny) (nm - 1)).
  split_and!; [|unfold ny; rewrite Hnm; Z.to_euclidean_division_equations; lia|done].
  unfold valid_date. lia.
Qed.

Lemma addMonthsClamped_iso t k : valid_date t → addMonthsClamped (iso t) k = Some (iso (add_months t k)).
Proof. intros H. unfold addMonthsClamped. by rewrite parts_iso. Qed.

Lemma month_index_lt t t' : valid_date t → valid_date t' → month_index t < month_index t' → date_lt t t'.
Proof.
  destruct t as [[y m] d], t' as [[y' m'] d']. intros (Hy & Hm & Hd) (Hy' & Hm' & Hd').
  unfold month_index. simpl. lia.
Qed.

Lemma month_index_le t t' : valid_date t → valid_date t' → ¬ date_lt t' t → month_index t ≤ month_index t'.
Proof.
  intros Ht Ht' H. destruct (Z.lt_ge_cases (month_index t') (month_index t)); [|lia].
  by apply month_index_lt in H0.
Qed.

Lemma add_months_lt t j k :
  valid_date t → 12000 ≤ month_index t + j → month_index t + k < 120000 → j < k →
  date_lt (add_months t j) (add_months t k).
Proof.
  intros Ht Hj Hk Hlt. destruct (add_months_spec t j Ht) as (V1 & M1 & _); [lia|].
  destruct (add_months_spec t k Ht) as (V2 & M2 & _); [lia|]. apply month_index_lt; [done..|lia].
Qed.

Lemma month_index_range t : valid_date t → 12000 ≤ month_index t < 120000.
Proof. destruct t as [[y m] d]. intros (Hy & Hm & Hd). unfold month_index. lia. Qed.

Lemma date_lt_irrefl t : ¬ date_lt t t.
Proof. destruct t as [[y m] d]. simpl. lia. Qed.
Lemma date_lt_trans t u v : date_lt t u → date_lt u v → date_lt t v.
Proof. destruct t as [[y m] d], u as [[y' m'] d'], v as [[y'' m''] d'']. simpl. lia. Qed.
Lemma date_le_lt_trans t u v : ¬ date_lt u t → date_lt u v → date_lt t v.
Proof. destruct t as [[y m] d], u as [[y' m'] d'], v as [[y'' m''] d'']. simpl. lia. Qed.
Lemma date_lt_le_trans t u v : date_lt t u → ¬ date_lt v u → date_lt t v.
Proof. destruct t as [[y m] d], u as [[y' m'] d'], v as [[y'' m''] d'']. simpl. lia. Qed.

(** ** Billing periods *)

(** Period [i] of a contract that starts on [t], as dates. *)
Definition period (t : date) (n i : Z) : date * date :=
  (add_months t (n * i), add_months t (n * (i + 1))).

Lemma computePeriod_iso t n i :
  valid_date t →
  computePeriod (iso t) n i = Some (mkPeriod (iso (period t n i).1) (iso (period t n i).2)).
Proof. intros H. unfold computePeriod. by rewrite !addMonthsClamped_iso. Qed.

(** [asOf] is on or after the start of period [i]. *)
Definition started (t a : date) (n i : Z) : Prop :=
  month_index t + n * i ≤ month_index a ∧ ¬ date_lt a (add_months t (n * i)).

Lemma started_of_leb t a n i :
  valid_date t → valid_date a → 0 ≤ n * i → month_index t + n * i < 120000 →
  String.leb (iso (add_months t (n * i))) (iso a) = true → started t a n i.
Proof.
  intros Ht Ha H0 Hr Hle. pose proof (month_index_range t Ht).
  destruct (add_months_spec t (n * i) Ht) as (V & M & _); [lia|].
  apply iso_leb in Hle; [|done..]. split; [|done].
  apply month_index_le in Hle; [|done..]. by rewrite M in Hle.
Qed.

Lemma period_walk_spec fuel t n a i :
  valid_date t → valid_date a → 1 ≤ n → month_index t + n < 120000 → month_index a + n < 120000 →
  month_index a - month_index t ≤ runaway → 0 ≤ i → (i = 0 ∨ started t a n i) →
  runaway + 1 ≤ Z.of_nat fuel + i →
  ∃ j, period_walk fuel (iso t) n (iso a) i = Some j ∧ i ≤ j
    ∧ (j = 0 ∨ started t a n j) ∧ date_lt a (add_months t (n * (j + 1))).
Proof.
  intros Ht Ha Hn Hrt Hra Hg. pose proof (month_index_range t Ht).
  assert (Hmax : ∀ k, 0 ≤ k → k = 0 ∨ started t a n k → k ≤ runaway).
  { intros k Hk [->|[Hk' _]]; [by unfold runaway|nia]. }
  revert i. induction fuel as [|fuel IH]; intros i Hi Hc Hf.
  { apply Hmax in Hc; [|done]. lia. }
  cbn [period_walk]. rewrite computePeriod_iso by done. unfold period. cbn [fst snd periodStart mbind option_bind].
  assert (Hi' : month_index t + n * (i + 1) < 120000) by (destruct Hc as [->|[Hc _]]; lia).
  destruct (String.leb _ (iso a)) eqn:E.
  - apply started_of_leb in E; [|done|done|nia|done].
    destruct (Z.ltb_spec runaway (i + 1)) as [Hlt|_].
    { assert (i + 1 ≤ runaway) by (apply Hmax; [lia|by right]). lia. }
    destruct (IH (i + 1)) as (j & Hj & ? & ?); [lia|by right|lia|]. exists j. split_and!; [done|lia|naive_solver..].
  - exists i. split_and!; [done|lia|done|].
    destruct (add_months_spec t (n * (i + 1)) Ht) as (V & _); [nia|].
    destruct (date_lt_trichotomy a (add_months t (n * (i + 1)))) as [?|Hle]; [done|exfalso].
    apply not_true_iff_false in E. apply E, iso_leb; [done..|].
    intros Hlt. destruct Hle as [->|Hgt]; [by apply date_lt_irrefl in Hlt|].
    by apply (date_lt_irrefl a), (date_lt_trans _ _ _ Hlt).
Qed.

Lemma add_months_0 t : valid_date t → add_months t 0 = t.
Proof.
  intros H. pose proof (month_index_range t H). destruct (add_months_spec t 0 H) as (V & M & D); [lia|].
  destruct (add_months t 0) as [[y' m'] d'], t as [[y m] d]. unfold valid_date, month_index in *. simpl in *.
  assert (y' = y ∧ m' = m) as [-> ->] by lia. f_equal. lia.
Qed.

Section periods.
Context (t a : date) (n : Z) (Ht : valid_date t) (Ha : valid_date a) (Hn : 1 ≤ n).

Lemma start_valid i : 0 ≤ i → month_index t + n * i < 120000 → valid_date (add_months t (n * i)).
Proof. intros. pose proof (month_index_range t Ht). apply add_months_spec; [done|nia]. Qed.

Lemma starts_le i k :
  0 ≤ i ≤ k → month_index t + n * k < 120000 → ¬ date_lt (add_months t (n * k)) (add_months t (n * i)).
Proof.
  intros Hik Hr Hlt. pose proof (month_index_range t Ht).
  destruct (Z.eq_dec i k) as [->|]; [by apply date_lt_irrefl in Hlt|].
  apply (date_lt_irrefl (add_months t (n * k))), (date_lt_trans _ _ _ Hlt).
  apply add_months_lt; [done|nia|lia|nia].
Qed.

(** The boolean test that period [i] holds the date. *)
Lemma holds_spec i :
  0 ≤ i → month_index t + n * (i + 1) < 120000 →
  String.leb (iso (add_months t (n * i))) (iso a) && String.ltb (iso a) (iso (add_months t (n * (i + 1)))) = true
  ↔ ¬ date_lt a (add_months t (n * i)) ∧ date_lt a (add_months t (n * (i + 1))).
Proof.
  intros Hi Hr. rewrite andb_true_iff, iso_leb, iso_ltb by (done || apply start_valid; nia). done.
Qed.

Lemma holds_unique i j :
  0 ≤ i → 0 ≤ j → month_index t + n * (i + 1) < 120000 → month_index t + n * (j + 1) < 120000 →
  ¬ date_lt a (add_months t (n * i)) → date_lt a (add_months t (n * (i + 1))) →
  ¬ date_lt a (add_months t (n * j)) → date_lt a (add_months t (n * (j + 1))) → i = j.
Proof.
  intros Hi Hj Ri Rj Si Ei Sj Ej.
  destruct (Z.lt_total i j) as [Hlt|[?|Hgt]]; [|done|]; exfalso.
  - apply Sj. eapply date_lt_le_trans; [exact Ei|]. apply starts_le; nia.
  - apply Si. eapply date_lt_le_trans; [exact Ej|]. apply starts_le; nia.
Qed.
End periods.

(** C38: Billing periods tile the calendar and [periodIndexFor] finds the one
    that holds a date.  Each period ends where the next starts and starts
    strictly before it ends; for a date on or after the contract's start the
    walk returns, within its guard, the index of a period that contains the
    date, and no other index does; a date before the start gives 0.  (Dates of
    years 1000 to 9999, less than 100000 months apart.) *)
Theorem periods_tile t a n (Ht : valid_date t) (Ha : valid_date a) (Hn : 1 ≤ n)
    (Ht' : month_index t + n < 120000) (Ha' : month_index a + n < 120000)
    (Hg : month_index a - month_index t ≤ runaway) :
  let starts i := periodStart <$> computePeriod (iso t) n i in
  let ends i := periodEnd <$> computePeriod (iso t) n i in
  (∀ i, ends i = starts (i + 1))
  ∧ (∀ i p, 0 ≤ i → month_index t + n * (i + 1) < 120000 → computePeriod (iso t) n i = Some p →
       String.ltb (periodStart p) (periodEnd p) = true)
  ∧ ∃ j, periodIndexFor (iso t) n (iso a) = Some j ∧ 0 ≤ j
    ∧ (String.ltb (iso a) (iso t) = true → j = 0)
    ∧ (String.leb (iso t) (iso a) = true →
         ∀ i p, 0 ≤ i → month_index t + n * (i + 1) < 120000 → computePeriod (iso t) n i = Some p →
           (String.leb (periodStart p) (iso a) && String.ltb (iso a) (periodEnd p) = true ↔ i = j)).
Proof.
  pose proof (month_index_range t Ht). intros starts ends. split_and!.
  - intros i. unfold starts, ends. by rewrite !computePeriod_iso.
  - intros i p Hi Hr Hp. rewrite computePeriod_iso in Hp by done. simplify_eq/=.
    apply iso_ltb; [apply start_valid; done || nia..|]. apply add_months_lt; [done|nia..].
  - assert (Ht0 : add_months t (n * 0) = t) by (rewrite Z.mul_0_r; by apply add_months_0).
    destruct (period_walk_spec walk_fuel t n a 0 Ht Ha Hn Ht' Ha' Hg) as (j & Hj & H0 & Hs & He);
      [lia|by left|by rewrite walk_fuel_eq, Z.add_0_r|].
    assert (Hr : month_index t + n * (j + 1) < 120000) by (destruct Hs as [->|[Hs _]]; lia).
    exists j. split_and!; [done..| |].
    + intros Hlt%iso_ltb; [|done..]. destruct Hs as [?|[_ Hs]]; [done|]. destruct Hs.
      eapply date_lt_le_trans; [exact Hlt|]. rewrite <-Ht0 at 2. apply starts_le; done || nia.
    + intros Hle%iso_leb; [|done..]. intros i p Hi Hri Hp.
      rewrite computePeriod_iso in Hp by done. simplify_eq/=. rewrite holds_spec by done.
      assert (Hsj : ¬ date_lt a (add_months t (n * j))) by (destruct Hs as [->|[_ Hs]]; [by rewrite Ht0|done]).
      split; [intros [Hsi Hei]; eapply (holds_unique t a n); done|by intros ->].
Qed.

(** ** Renewal *)

(** The end date after [k] more terms. *)
Definition end_after (e : string) (term : Z) (k : nat) : option string :=
  Nat.iter k (λ o, o ≫= λ s, addMonthsClamped s term) (Some e).

Lemma end_after_shift e e' term k :
  addMonthsClamped e term = Some e' → end_after e term (S k) = end_after e' term k.
Proof. intros H. unfold end_after. rewrite Nat.iter_succ_r. simpl. by rewrite H. Qed.

Definition expired_at (e due : string) (term : Z) (j : nat) : Prop :=
  ∃ s, end_after e term j = Some s ∧ isExpired (Some s) due = true.

Lemma expired_month e due :
  valid_date e → valid_date due → isExpired (Some (iso e)) (iso due) = true → month_index e ≤ month_index due.
Proof. intros He Hd H%iso_leb; [|done..]. by apply month_index_le. Qed.

Lemma not_expired e due :
  valid_date e → valid_date due → month_index due < month_index e →
  isExpired (Some (iso e)) (iso due) = false.
Proof.
  intros He Hd Hlt. apply not_true_is_false. intros H%expired_month; [lia|done..].
Qed.

Lemma extend_walk_spec fuel e due term guard renewed :
  valid_date e → valid_date due → 1 ≤ term → month_index due + term < 120000 →
  month_index due - month_index e ≤ runaway - guard → runaway + 1 ≤ Z.of_nat fuel + guard →
  ∃ k s, extend_walk fuel (iso e) (iso due) term guard renewed = Some (s, renewed || bool_decide (0 < k)%nat)
    ∧ end_after (iso e) term k = Some s ∧ isExpired (Some s) (iso due) = false
    ∧ ∀ j, (j < k)%nat → expired_at (iso e) (iso due) term j.
Proof.
  intros He Hd Hterm Hr. revert e guard renewed He.
  induction fuel as [|fuel IH]; intros e guard renewed He Hg Hf; cbn [extend_walk].
  { exists 0%nat, (iso e). rewrite orb_false_r. split_and!; [done..| |lia].
    apply not_expired; [done..|lia]. }
  destruct (isExpired _ _) eqn:E.
  2: { exists 0%nat, (iso e). rewrite orb_false_r. split_and!; [done..|lia]. }
  pose proof (expired_month _ _ He Hd E) as Hm. pose proof (month_index_range e He).
  destruct (add_months_spec e term He) as (V & M & _); [lia|].
  assert (Hadd := addMonthsClamped_iso e term He). rewrite Hadd. cbn [mbind option_bind].
  assert (Hex : ∀ j k, (j < S k)%nat → (∀ j, (j < k)%nat → expired_at (iso (add_months e term)) (iso due) term j) →
    expired_at (iso e) (iso due) term j).
  { intros [|j] k Hj Hall; [by exists (iso e)|]. destruct (Hall j) as (s & Hs & Hx); [lia|].
    exists s. by rewrite (end_after_shift _ _ _ _ Hadd). }
  destruct (Z.ltb_spec runaway (guard + 1)) as [Hlt|Hge].
  - exists 1%nat, (iso (add_months e term)). split_and!.
    + by rewrite orb_true_r.
    + by rewrite (end_after_shift _ _ _ _ Hadd).
    + apply not_expired; [done..|lia].
    + intros j Hj. apply (Hex j 0%nat); [lia|]. intros; lia.
  - destruct (IH (add_months e term) (guard + 1) true) as (k & s & Hw & Hs & Hx & Hall); [done|lia|lia|].
    exists (S k), s. split_and!; [|by rewrite (end_after_shift _ _ _ _ Hadd)|done|].
    + rewrite Hw. by rewrite orb_true_r.
    + intros j Hj. by apply (Hex j k).
Qed.

(** Renewal past a due period.  Rolling the end date forward ends, within
    the guard, at the end date after the least number [k] of whole terms that is
    past the due period; the contract is reported as renewed exactly when [k] is
    not zero. *)
Theorem renewal_past_due e due term (He : valid_date e) (Hd : valid_date due) (Hterm : 1 ≤ term)
    (Hr : month_index due + term < 120000) (Hg : month_index due - month_index e ≤ runaway) :
  ∃ k s, extendTermPastDue (iso e) (iso due) term = Some (s, bool_decide (0 < k)%nat)
    ∧ end_after (iso e) term k = Some s ∧ isExpired (Some s) (iso due) = false
    ∧ ∀ j, (j < k)%nat → expired_at (iso e) (iso due) term j.
Proof.
  apply (extend_walk_spec walk_fuel e due term 0 false He Hd Hterm Hr); [lia|].
  by rewrite walk_fuel_eq, Z.add_0_r.
Qed.

(** ** Notice windows *)

Lemma addDaysISO_iso t k : valid_date t → addDaysISO (iso t) k = Some (iso (date_of (day_of t + k))).
Proof.
  intros Ht. unfold addDaysISO. rewrite parts_iso by done. destruct t as [[y m] d].
  destruct Ht as (Hy & Hm & Hd). cbn [mbind option_bind]. unfold getUTCFullYear, getUTCMonth, getUTCDate, Day, DateUTC.
  assert (fullYear y = y) as -> by (unfold fullYear; destruct (Z.leb_spec y 99); [lia|by rewrite andb_false_r]).
  rewrite !Z.add_0_r, Z.div_mul by done. unfold iso, date_of, day_of, MakeDay.
  do 2 f_equal; repeat f_equal; lia.
Qed.

(** Day arithmetic and the notice window.  Adding days to an ISO date is
    addition of days on the calendar (so it composes and can be undone), and a
    date is in the notice window exactly when the end date is at least one and
    at most [noticeDays] days later. *)
Theorem notice_window t a b k (Ht : valid_date t) (Ha : valid_date a)
    (Hk : valid_date (date_of (day_of t + k))) (Hk' : valid_date (date_of (day_of t - b))) :
  (s ← addDaysISO (iso t) k; addDaysISO s b) = addDaysISO (iso t) (k + b)
  ∧ (s ← addDaysISO (iso t) k; addDaysISO s (- k)) = Some (iso t)
  ∧ isWithinNoticeWindow (iso a) (iso t) b = Some (bool_decide (1 ≤ day_of t - day_of a ≤ b)).
Proof.
  rewrite !addDaysISO_iso by done. cbn [mbind option_bind].
  rewrite !addDaysISO_iso by done. rewrite !day_of_date_of. split_and!.
  - by rewrite Z.add_assoc.
  - replace (day_of t + k + - k) with (day_of t) by lia. by rewrite date_of_day_of.
  - unfold isWithinNoticeWindow. rewrite addDaysISO_iso by done. cbn [mbind option_bind].
    replace (day_of t + - b) with (day_of t - b) by lia. f_equal. apply eq_bool_prop_intro.
    rewrite !Is_true_true, andb_true_iff, bool_decide_eq_true, iso_leb, iso_ltb by done.
    rewrite !day_of_lt, day_of_date_of by done. lia.
Qed.

(** ** The period a sweep bills *)

(** For a contract anchored on a day from 1 to 28, the start of the period
    the sweep is about to bill, as derived from the next billing date alone, is
    the start of the period that date was computed from, for both timings. *)
Theorem due_period_start t n i bt (Ht : valid_date t) (H28 : t.2 ≤ 28)
    (Hr : 12000 ≤ month_index t + n * i < 120000)
    (Hr' : 12000 ≤ month_index t + n * (i + 1) < 120000) :
  (nb ← nextBillingDate (iso t) n bt i; duePeriodStartFor bt nb n)
  = periodStart <$> computePeriod (iso t) n i.
Proof.
  unfold nextBillingDate. rewrite computePeriod_iso by done. cbn. destruct bt; [done|].
  destruct (add_months_spec t (n * i) Ht Hr) as (V & M & D).
  destruct (add_months_spec t (n * (i + 1)) Ht Hr') as (V' & M' & D'). unfold duePeriodStartFor.
  rewrite addMonthsClamped_iso by done. f_equal.
  destruct (add_months_spec (add_months t (n * (i + 1))) (- n) V') as (V2 & M2 & D2); [lia|].
  assert (month_index (add_months (add_months t (n * (i + 1))) (- n)) = month_index (add_months t (n * i))) as Hm
    by lia.
  f_equal. revert V V' V2 D D' D2 Hm.
  destruct (add_months t (n * i)) as [[y1 m1] d1].
  destruct (add_months (add_months t (n * (i + 1))) (- n)) as [[y2 m2] d2].
  destruct (add_months t (n * (i + 1))) as [[y3 m3] d3]. unfold valid_date, month_index. simpl.
  intros. pose proof (month_len_range (leap y1) (m1 - 1)). pose proof (month_len_range (leap y2) (m2 - 1)).
  pose proof (month_len_range (leap y3) (m3 - 1)).
  assert (y2 = y1 ∧ m2 = m1) as [-> ->] by lia. f_equal. lia.
Qed.

(** The bound 28 is needed: a monthly contract billed in arrears that starts on
    31 January is billed on 28 February, and the start derived from that date is
    28 January, not the period's own 31 January. *)
Example due_period_start_month_end :
  nextBillingDate "2025-01-31" 1 arrears 0 = Some "2025-02-28"
  ∧ duePeriodStartFor arrears "2025-02-28" 1 = Some "2025-01-28"
  ∧ (periodStart <$> computePeriod "2025-01-31" 1 0) = Some "2025-01-31".
Proof. by vm_compute. Qed.

(** ** Witnesses *)

Lemma periods_tile_witness :
  ∃ j, periodIndexFor (iso (2024, 1, 31)) 1 (iso (2024, 3, 1)) = Some j ∧ 0 ≤ j.
Proof.
  destruct (periods_tile (2024, 1, 31) (2024, 3, 1) 1) as (_ & _ & j & Hj & H0 & _);
    [by vm_compute..|]. exists j. split; [exact Hj|exact H0].
Defined.

Lemma renewal_past_due_witness :
  ∃ k s, extendTermPastDue (iso (2024, 1, 31)) (iso (2025, 2, 1)) 12 = Some (s, bool_decide (0 < k)%nat)
    ∧ isExpired (Some s) (iso (2025, 2, 1)) = false.
Proof.
  destruct (renewal_past_due (2024, 1, 31) (2025, 2, 1) 12) as (k & s & Hk & _ & Hs & _);
    [by vm_compute..|]. exists k, s. split; [exact Hk|exact Hs].
Defined.

Lemma notice_window_witness :
  isWithinNoticeWindow (iso (2024, 2, 1)) (iso (2024, 3, 1)) 30
  = Some (bool_decide (1 ≤ day_of (2024, 3, 1) - day_of (2024, 2, 1) ≤ 30)).
Proof. apply (notice_window (2024, 3, 1) (2024, 2, 1) 30 5); by vm_compute. Defined.

Lemma due_period_start_witness :
  (nb ← nextBillingDate (iso (2024, 1, 28)) 1 arrears 0; duePeriodStartFor arrears nb 1)
  = periodStart <$> computePeriod (iso (2024, 1, 28)) 1 0.
Proof. apply (due_period_start (2024, 1, 28) 1 0 arrears); by vm_compute. Defined.
End Contracts.
