(* ===== verification/Cron.v ===== *)
(** * Cron expressions: validation, next occurrence, due check

    Models [packages/shared/src/utils/cron.ts] (validation, field expansion,
    five-field parsing, next occurrence on a wall clock) and
    [apps/api/src/services/cronDue.ts] (the zone-aware due check of the
    schedulers) with the backward walk of
    [apps/api/src/services/aiAgents/sweepOccurrence.ts].

    Sets of numbers are lists read by membership.  What
    [Intl.DateTimeFormat(...).formatToParts] yields for an instant in a zone is
    the parameter [formatToParts] ([None]: an unknown zone throws), with the laws
    of [ZoneClock] where a theorem needs them. *)
From S2P Require Import Prelude JsText JsDate ZoneClock.
From stdpp Require Import base tactics list list_numbers strings pretty.
From Stdlib Require Import ZArith Lia Ascii.
Open Scope Z_scope.

Module Cron.

(** ** Splitting *)

(** [s.trim().split(/\s+/)]. *)
Fixpoint ws_split (cur : list ascii) (in_space : bool) (l : list ascii) : list (list ascii) :=
  match l with
  | [] => [reverse cur]
  | c :: l' =>
      if is_space c then
        if in_space then ws_split cur true l' else reverse cur :: ws_split [] true l'
      else ws_split (c :: cur) false l'
  end.

Definition cron_fields (s : string) : list string := of_chars <$> ws_split [] false (chars (trim s)).

(** [/^\d+$/] and [/^[1-9]\d*$/]. *)
Definition is_number (s : string) : bool :=
  negb (String.eqb s "") && all_digits (chars s).
Definition is_step (s : string) : bool :=
  match chars s with
  | c :: l => is_digit c && negb (Ascii.eqb c "0"%char) && all_digits l
  | [] => false
  end.

(** ** [cron.ts] *)

Inductive Names := NO_NAMES | MONTH_NAMES | DAY_NAMES.

Definition names_list (n : Names) : list string :=
  match n with
  | NO_NAMES => []
  | MONTH_NAMES =>
      ["jan"; "feb"; "mar"; "apr"; "may"; "jun"; "jul"; "aug"; "sep"; "oct"; "nov"; "dec"]
  | DAY_NAMES => ["sun"; "mon"; "tue"; "wed"; "thu"; "fri"; "sat"]
  end.

Definition named_value (n : Names) (token : string) : option Z :=
  i ← fst <$> list_find (toLowerCase token =.) (names_list n);
  Some (match n with MONTH_NAMES => Z.of_nat i + 1 | _ => Z.of_nat i end).

(** The closure [readValue] of both field functions. *)
Definition readValue (min max : Z) (n : Names) (token : string) : option Z :=
  match named_value n token with
  | Some v => Some v
  | None =>
      if negb (is_number token) then None
      else let value := digits_val (chars token) in
           if (min <=? value) && (value <=? max) then Some value else None
  end.

Definition CRON_FIELD_RANGES : list (Z * Z) := [(0, 59); (0, 23); (1, 31); (1, 12); (0, 7)].
Definition field_names (index : nat) : Names :=
  match index with 3%nat => MONTH_NAMES | 4%nat => DAY_NAMES | _ => NO_NAMES end.

Definition isValidItem (min max : Z) (n : Names) (listItem : string) : bool :=
  if String.eqb listItem "" then false else
  match js_split "/"%char listItem with
  | [] | _ :: _ :: _ :: _ => false
  | rangePart :: rest =>
      if match rest with stepPart :: _ => negb (is_step stepPart) | [] => false end then false
      else if String.eqb rangePart "*" then true
      else
        match readValue min max n <$> js_split "-"%char rangePart with
        | [Some _] => true
        | [Some a; Some b] => negb (b <? a)
        | _ => false
        end
  end.

Definition isValidCronField (field : string) (index : nat) : bool :=
  match CRON_FIELD_RANGES !! index with
  | Some (min, max) => forallb (isValidItem min max (field_names index)) (js_split ","%char field)
  | None => false
  end.

Fixpoint valid_fields (index : nat) (fields : list string) : bool :=
  match fields with
  | [] => true
  | f :: fs => isValidCronField f index && valid_fields (S index) fs
  end.

Definition isStructurallyValidCron (pattern : string) : bool :=
  match cron_fields pattern with
  | [_; _; _; _; _] as fields => valid_fields 0 fields
  | [sec; _; _; _; _; _] as fields => isValidCronField sec 0 && valid_fields 0 (tail fields)
  | _ => false
  end.

(** [for (value = from; value <= to; value += step) values.add(value)]; [fuel]
    rounds, of which [to - from + 1] are enough. *)
Fixpoint stepped (fuel : nat) (value to step : Z) : list Z :=
  match fuel with
  | O => []
  | S fuel' => if value <=? to then value :: stepped fuel' (value + step) to step else []
  end.

Definition values_between (from to step : Z) : list Z :=
  stepped (Z.to_nat (to - from + 1)) from to step.

Definition expandItem (min max : Z) (n : Names) (listItem : string) : option (list Z) :=
  if String.eqb listItem "" then None else
  match js_split "/"%char listItem with
  | [] | _ :: _ :: _ :: _ => None
  | rangePart :: rest =>
      if match rest with stepPart :: _ => negb (is_step stepPart) | [] => false end then None
      else
        let step := match rest with stepPart :: _ => digits_val (chars stepPart) | [] => 1 end in
        if String.eqb rangePart "*" then Some (values_between min max step)
        else
          match readValue min max n <$> js_split "-"%char rangePart with
          | [Some from] =>
              let to := match rest with [] => from | _ => max end in
              if to <? from then None else Some (values_between from to step)
          | [Some from; Some to] =>
              if to <? from then None else Some (values_between from to step)
          | _ => None
          end
  end.

Fixpoint expandItems (min max : Z) (n : Names) (items : list string) : option (list Z) :=
  match items with
  | [] => Some []
  | i :: is_ => vs ← expandItem min max n i; ws ← expandItems min max n is_; Some (vs ++ ws)
  end.

Definition expandCronField (field : string) (min max : Z) (n : Names) : option (list Z) :=
  values ← expandItems min max n (js_split ","%char field);
  match values with [] => None | _ => Some values end.

Record CronFields := mkCronFields {
  minutes : list Z; hours : list Z; daysOfMonth : list Z; months : list Z; daysOfWeek : list Z;
  domRestricted : bool; dowRestricted : bool }.

Definition parseFiveFieldCron (cron : string) : option CronFields :=
  match cron_fields cron with
  | [f0; f1; f2; f3; f4] =>
      minutes ← expandCronField f0 0 59 NO_NAMES;
      hours ← expandCronField f1 0 23 NO_NAMES;
      daysOfMonth ← expandCronField f2 1 31 NO_NAMES;
      months ← expandCronField f3 1 12 MONTH_NAMES;
      rawDaysOfWeek ← expandCronField f4 0 7 DAY_NAMES;
      Some (mkCronFields minutes hours daysOfMonth months
              ((λ day, if day =? 7 then 0 else day) <$> rawDaysOfWeek)
              (negb (String.eqb f2 "*")) (negb (String.eqb f4 "*")))
  | _ => None
  end.

Definition has (v : Z) (l : list Z) : bool := existsb (Z.eqb v) l.

(** ** Next occurrence *)

Definition day_hit (f : CronFields) (cursor : Z) : bool :=
  let domHit := has (getUTCDate cursor) (daysOfMonth f) in
  let dowHit := has (getUTCDay cursor) (daysOfWeek f) in
  if domRestricted f && dowRestricted f then domHit || dowHit else domHit && dowHit.

(** The loops over minutes and hours of one day: the first match from
    [minute] on, and from [hour] on. *)
Fixpoint scan_minutes (fuel : nat) (f : CronFields) (minute : Z) : option Z :=
  match fuel with
  | O => None
  | S fuel' => if has minute (minutes f) then Some minute else scan_minutes fuel' f (minute + 1)
  end.

Fixpoint scan_hours (fuel : nat) (f : CronFields) (fromMinute hour : Z) : option (Z * Z) :=
  match fuel with
  | O => None
  | S fuel' =>
      if has hour (hours f) then
        match scan_minutes (Z.to_nat (60 - fromMinute)) f fromMinute with
        | Some minute => Some (hour, minute)
        | None => scan_hours fuel' f 0 (hour + 1)
        end
      else scan_hours fuel' f 0 (hour + 1)
  end.

Definition scan_day (f : CronFields) (cursor : Z) : option Z :=
  if has (getUTCMonth cursor + 1) (months f) && day_hit f cursor then
    '(hour, minute) ← scan_hours (Z.to_nat (24 - getUTCHours cursor)) f (getUTCMinutes cursor)
                        (getUTCHours cursor);
    Some (DateUTC (getUTCFullYear cursor) (getUTCMonth cursor) (getUTCDate cursor) hour minute)
  else None.

(** [setUTCDate(getUTCDate() + 1); setUTCHours(0, 0, 0, 0)]. *)
Definition next_midnight (cursor : Z) : Z :=
  MakeDay (getUTCFullYear cursor) (getUTCMonth cursor) (getUTCDate cursor + 1) * msPerDay.

Fixpoint scan_days (days : nat) (f : CronFields) (cursor : Z) : option Z :=
  match days with
  | O => None
  | S days' =>
      match scan_day f cursor with
      | Some t => Some t
      | None => scan_days days' f (next_midnight cursor)
      end
  end.

Definition nextCronOccurrence (f : CronFields) (fromMs : Z) : option Z :=
  scan_days 400 f (fromMs / 60000 * 60000 + 60000).

(** ** [cronDue.ts] *)

(** The bounds of a segment's base; [None]: the segment is skipped. *)
Definition segment_range (base : string) (min max : Z) : option (Z * Z) :=
  if String.eqb base "*" then Some (min, max)
  else if includes base "-" then
    match js_split "-"%char base with
    | startRaw :: endRaw :: _ => a ← parseInt startRaw; b ← parseInt endRaw; Some (a, b)
    | _ => None
    end
  else a ← parseInt base; Some (a, a).

Definition segment_matches (segment : string) (value min max : Z) : bool :=
  let valueMatch := trim segment in
  if String.eqb valueMatch "" then false else
  match js_split "/"%char valueMatch with
  | [] => false
  | base :: rest =>
      let step := match truthy (head rest) with Some s => parseInt s | None => None end in
      match segment_range base min max with
      | None => false
      | Some (rangeStart, rangeEnd) =>
          if (value <? rangeStart) || (rangeEnd <? value) then false
          else match step with
               | None => true
               | Some step => if step <=? 0 then true else Z.rem (value - rangeStart) step =? 0
               end
      end
  end.

Definition matchesCronField (field : string) (value min max : Z) : bool :=
  let normalized := trim field in
  if String.eqb normalized "*" then true
  else existsb (λ segment, segment_matches segment value min max) (js_split ","%char normalized).

Record ZonedParts := mkZoned { zp_minute : Z; zp_hour : Z; zp_dayOfMonth : Z; zp_month : Z; zp_dayOfWeek : Z }.

Definition weekdayMap : list (string * Z) :=
  [("Sun", 0); ("Mon", 1); ("Tue", 2); ("Wed", 3); ("Thu", 4); ("Fri", 5); ("Sat", 6)].

Section due.
Context (formatToParts : string → Z → option (list (string * string))).

(** [new Map(parts).get(k)]: the last part of a type wins. *)
Definition part (k : string) (parts : list (string * string)) : option string :=
  snd <$> List.find (λ p, String.eqb p.1 k) (reverse parts).

(** [None] when the zone is unknown (the formatter throws) or a part is not a
    numeral, which the formatter never yields. *)
Definition getZonedDateParts (at' : Z) (timeZone : string) : option ZonedParts :=
  parts ← formatToParts timeZone at';
  minute ← parseInt (default "0" (part "minute" parts));
  hour ← parseInt (default "0" (part "hour" parts));
  dayOfMonth ← parseInt (default "1" (part "day" parts));
  month ← parseInt (default "1" (part "month" parts));
  let weekday := default "Sun" (part "weekday" parts) in
  Some (mkZoned minute hour dayOfMonth month
          (default 0 (snd <$> List.find (λ p, String.eqb p.1 weekday) weekdayMap))).

Definition due_fields (f0 f1 f2 f3 f4 : string) (z : ZonedParts) : bool :=
  let minuteMatches := matchesCronField f0 (zp_minute z) 0 59 in
  let hourMatches := matchesCronField f1 (zp_hour z) 0 23 in
  let monthMatches := matchesCronField f3 (zp_month z) 1 12 in
  let dayOfMonthMatches := matchesCronField f2 (zp_dayOfMonth z) 1 31 in
  let normalizedDowValue := if zp_dayOfWeek z =? 0 then 7 else zp_dayOfWeek z in
  let dayOfWeekMatches := matchesCronField f4 (zp_dayOfWeek z) 0 7
                          || matchesCronField f4 normalizedDowValue 1 7 in
  let dayMatches :=
    if String.eqb f2 "*" || String.eqb f4 "*" then dayOfMonthMatches && dayOfWeekMatches
    else dayOfMonthMatches || dayOfWeekMatches in
  minuteMatches && hourMatches && monthMatches && dayMatches.

Definition isCronDue (cronExpression timeZone : string) (at' : Z) : option bool :=
  match cron_fields cronExpression with
  | [f0; f1; f2; f3; f4] => z ← getZonedDateParts at' timeZone; Some (due_fields f0 f1 f2 f3 f4 z)
  | _ => Some false
  end.

(** ** [latestCronOccurrence]: the walk back one minute at a time *)

Fixpoint walk_back (fuel : nat) (cron timeZone : string) (at' : Z) : option (option Z) :=
  match fuel with
  | O => Some None
  | S fuel' =>
      due ← isCronDue cron timeZone at';
      if due : bool then Some (Some at') else walk_back fuel' cron timeZone (at' - 60000)
  end.

Definition latestCronOccurrence (cron timeZone : string) (now : Z) (lookbackMinutes : nat)
    : option (option Z) :=
  walk_back (S lookbackMinutes) cron timeZone (now / 60000 * 60000).
End due.

(** ** Times of day *)

(** Whether the wall-clock minute [t] is one the fields select. *)
Definition cron_matches (f : CronFields) (t : Z) : bool :=
  has (getUTCMonth t + 1) (months f) && day_hit f t
  && has (getUTCHours t) (hours f) && has (getUTCMinutes t) (minutes f).

(** The minute [h:m] of day [d]. *)
Definition at_time (d h m : Z) : Z := d * msPerDay + h * 3600000 + m * 60000.

Definition day_ok (f : CronFields) (d : Z) : bool :=
  has (MonthFromDay d + 1) (months f)
  && (let domHit := has (DateFromDay d) (daysOfMonth f) in
      let dowHit := has (WeekDay d) (daysOfWeek f) in
      if domRestricted f && dowRestricted f then domHit || dowHit else domHit && dowHit).

Lemma at_time_parts d h m :
  0 ≤ h < 24 → 0 ≤ m < 60 →
  Day (at_time d h m) = d ∧ getUTCHours (at_time d h m) = h ∧ getUTCMinutes (at_time d h m) = m.
Proof.
  intros Hh Hm. unfold Day, getUTCHours, getUTCMinutes, at_time, msPerDay.
  split_and!; Z.to_euclidean_division_equations; lia.
Qed.

Lemma at_time_of t :
  t mod 60000 = 0 → t = at_time (Day t) (getUTCHours t) (getUTCMinutes t)
  ∧ 0 ≤ getUTCHours t < 24 ∧ 0 ≤ getUTCMinutes t < 60.
Proof.
  intros H. unfold Day, getUTCHours, getUTCMinutes, at_time, msPerDay.
  split_and!; Z.to_euclidean_division_equations; lia.
Qed.

Lemma at_time_lt d h m d' h' m' :
  0 ≤ h < 24 → 0 ≤ m < 60 → 0 ≤ h' < 24 → 0 ≤ m' < 60 →
  at_time d h m < at_time d' h' m' ↔ d < d' ∨ (d = d' ∧ (h < h' ∨ (h = h' ∧ m < m'))).
Proof. unfold at_time, msPerDay. lia. Qed.

Lemma at_time_aligned d h m : at_time d h m mod 60000 = 0.
Proof. unfold at_time, msPerDay. Z.to_euclidean_division_equations. lia. Qed.

Lemma cron_matches_at f d h m :
  0 ≤ h < 24 → 0 ≤ m < 60 →
  cron_matches f (at_time d h m) = day_ok f d && has h (hours f) && has m (minutes f).
Proof.
  intros Hh Hm. destruct (at_time_parts d h m Hh Hm) as (Hd & E1 & E2).
  unfold cron_matches, day_hit, day_ok, getUTCMonth, getUTCDate, getUTCDay. by rewrite Hd, E1, E2.
Qed.

(** ** The scan of one day *)

Lemma scan_minutes_spec n f m :
  match scan_minutes n f m with
  | Some k => m ≤ k < m + Z.of_nat n ∧ has k (minutes f) = true ∧ ∀ j, m ≤ j < k → has j (minutes f) = false
  | None => ∀ j, m ≤ j < m + Z.of_nat n → has j (minutes f) = false
  end.
Proof.
  revert m. induction n as [|n IH]; intros m; cbn [scan_minutes]; [intros; lia|].
  destruct (has m (minutes f)) eqn:E; [split_and!; [lia|lia|done|intros; lia]|].
  specialize (IH (m + 1)). destruct (scan_minutes n f (m + 1)) as [k|].
  - destruct IH as (Hk & Hh & Hj). split_and!; [lia|lia|done|]. intros j Hj'.
    destruct (Z.eq_dec j m) as [->|]; [done|]. apply Hj; lia.
  - intros j Hj. destruct (Z.eq_dec j m) as [->|]; [done|]. apply IH; lia.
Qed.

(** [h:m] is not before [h0:m0], and selected. *)
Definition candidate (f : CronFields) (h0 m0 h m : Z) : Prop :=
  (h0 < h ∨ (h0 = h ∧ m0 ≤ m)) ∧ 0 ≤ m < 60 ∧ has h (hours f) = true ∧ has m (minutes f) = true.

Lemma scan_hours_spec n f m0 h0 :
  0 ≤ m0 < 60 →
  match scan_hours n f m0 h0 with
  | Some (h, m) => candidate f h0 m0 h m ∧ h < h0 + Z.of_nat n
      ∧ ∀ h' m', candidate f h0 m0 h' m' → h < h' ∨ (h = h' ∧ m ≤ m')
  | None => ∀ h' m', candidate f h0 m0 h' m' → h0 + Z.of_nat n ≤ h'
  end.
Proof.
  revert m0 h0. induction n as [|n IH]; intros m0 h0 Hm0; cbn [scan_hours].
  { intros h' m' ([?|[? _]] & _); lia. }
  (* nothing in this hour: the rest of the scan, from the next hour *)
  assert (Hnext : (∀ m', m0 ≤ m' < 60 → has h0 (hours f) && has m' (minutes f) = false) →
    match scan_hours n f 0 (h0 + 1) with
    | Some (h, m) => candidate f h0 m0 h m ∧ h < h0 + Z.of_nat (S n)
        ∧ ∀ h' m', candidate f h0 m0 h' m' → h < h' ∨ (h = h' ∧ m ≤ m')
    | None => ∀ h' m', candidate f h0 m0 h' m' → h0 + Z.of_nat (S n) ≤ h'
    end).
  { intros Hno. specialize (IH 0 (h0 + 1) ltac:(lia)).
    assert (Hshift : ∀ h' m', candidate f h0 m0 h' m' → candidate f (h0 + 1) 0 h' m').
    { intros h' m' ([Hlt|[<- Hle]] & Hm & Hh & Hmm); [split_and!; [lia|lia|lia|done..]|].
      specialize (Hno m' ltac:(lia)). by rewrite Hh, Hmm in Hno. }
    destruct (scan_hours n f 0 (h0 + 1)) as [[h m]|].
    - destruct IH as ((Hge & Hc) & Hlt & Hmin). split_and!; [split; [lia|done]|lia|].
      intros h' m' Hc'. apply Hmin, Hshift, Hc'.
    - intros h' m' Hc'. apply Hshift, IH in Hc'. lia. }
  destruct (has h0 (hours f)) eqn:Eh; [|apply Hnext; done].
  pose proof (scan_minutes_spec (Z.to_nat (60 - m0)) f m0) as Hs.
  rewrite Z2Nat.id in Hs by lia. destruct (scan_minutes _ f m0) as [k|].
  - destruct Hs as (Hk & Hhas & Hfirst). split_and!; [split_and!; [right; lia|lia|lia|done..]|lia|].
    intros h' m' ([?|[<- Hle]] & Hm' & _ & Hmm); [by left|right]. split; [done|].
    destruct (Z.lt_ge_cases m' k); [|done]. rewrite Hfirst in Hmm by lia. done.
  - apply Hnext. intros m' Hm'. rewrite (Hs m') by lia. done.
Qed.

Lemma YearFromDay_1970 d : 0 ≤ d → 1970 ≤ YearFromDay d.
Proof.
  intros Hd. destruct (Z.lt_ge_cases (YearFromDay d) 1970) as [Hlt|]; [exfalso|done].
  pose proof (YearFromDay_spec d) as [_ H]. assert (DayFromYear 1970 = 0) as H0 by by vm_compute.
  destruct (Z.eq_dec (YearFromDay d + 1) 1970) as [E|]; [rewrite E in H; lia|].
  pose proof (DayFromYear_mono (YearFromDay d + 1) 1970). lia.
Qed.

Lemma DateUTC_of_day d h m :
  0 ≤ d → DateUTC (YearFromDay d) (MonthFromDay d) (DateFromDay d) h m = at_time d h m.
Proof.
  intros Hd. unfold DateUTC, fullYear, at_time. pose proof (YearFromDay_1970 d Hd).
  destruct (Z.leb_spec (YearFromDay d) 99); [lia|]. by rewrite andb_false_r, MakeDay_of_civil.
Qed.

Lemma next_midnight_eq c : next_midnight c = at_time (Day c + 1) 0 0.
Proof.
  unfold next_midnight, at_time, getUTCFullYear, getUTCMonth, getUTCDate.
  pose proof (MakeDay_of_civil (Day c)) as H. unfold MakeDay in *. lia.
Qed.

Lemma scan_day_spec f d h0 m0 :
  0 ≤ d → 0 ≤ h0 < 24 → 0 ≤ m0 < 60 →
  match scan_day f (at_time d h0 m0) with
  | Some r => ∃ h m, r = at_time d h m ∧ 0 ≤ h < 24 ∧ 0 ≤ m < 60 ∧ at_time d h0 m0 ≤ r
      ∧ cron_matches f r = true
      ∧ ∀ h' m', 0 ≤ h' < 24 → 0 ≤ m' < 60 → at_time d h0 m0 ≤ at_time d h' m' < r →
          cron_matches f (at_time d h' m') = false
  | None => ∀ h' m', 0 ≤ h' < 24 → 0 ≤ m' < 60 → at_time d h0 m0 ≤ at_time d h' m' →
      cron_matches f (at_time d h' m') = false
  end.
Proof.
  intros Hd Hh0 Hm0. destruct (at_time_parts d h0 m0 Hh0 Hm0) as (Ed & Eh & Em).
  unfold scan_day. rewrite Eh, Em.
  assert (has (getUTCMonth (at_time d h0 m0) + 1) (months f) && day_hit f (at_time d h0 m0) = day_ok f d) as ->
    by (unfold day_hit, day_ok, getUTCMonth, getUTCDate, getUTCDay; by rewrite Ed).
  destruct (day_ok f d) eqn:Eok.
  2: { intros h' m' ?? _. rewrite cron_matches_at, Eok by done. done. }
  assert (Hcand : ∀ h' m', 0 ≤ h' < 24 → 0 ≤ m' < 60 → at_time d h0 m0 ≤ at_time d h' m' →
    cron_matches f (at_time d h' m') = true → candidate f h0 m0 h' m').
  { intros h' m' Hh' Hm' Hle Hc. rewrite cron_matches_at in Hc by done. bool_hyps.
    unfold at_time, msPerDay in Hle. split_and!; [lia|lia|lia|done..]. }
  pose proof (scan_hours_spec (Z.to_nat (24 - h0)) f m0 h0 Hm0) as Hs. rewrite Z2Nat.id in Hs by lia.
  destruct (scan_hours _ f m0 h0) as [[h m]|]; cbn [mbind option_bind].
  - destruct Hs as ((Hge & Hm & Hh & Hmm) & Hlt & Hmin). exists h, m.
    unfold getUTCFullYear, getUTCMonth, getUTCDate. rewrite Ed, DateUTC_of_day by done.
    split_and!; [done|lia..| | |].
    + unfold at_time, msPerDay. lia.
    + rewrite cron_matches_at by lia. by rewrite Eok, Hh, Hmm.
    + intros h' m' Hh' Hm' [Hle Hlt']. apply not_true_is_false. intros Hc.
      apply Hcand, Hmin in Hc; [|done..]. unfold at_time, msPerDay in Hlt'. lia.
  - intros h' m' Hh' Hm' Hle. apply not_true_is_false. intros Hc. apply Hcand, Hs in Hc; [lia|done..].
Qed.

Lemma minute_of_day t d :
  t mod 60000 = 0 → at_time d 0 0 ≤ t < at_time (d + 1) 0 0 →
  ∃ h m, 0 ≤ h < 24 ∧ 0 ≤ m < 60 ∧ t = at_time d h m.
Proof.
  intros Ht Hr. destruct (at_time_of t Ht) as (Et & Hh & Hm).
  exists (getUTCHours t), (getUTCMinutes t). split_and!; [lia..|].
  assert (Day t = d) as <-; [|done]. unfold at_time, msPerDay in *. lia.
Qed.

Lemma scan_days_spec n f d h0 m0 :
  0 ≤ d → 0 ≤ h0 < 24 → 0 ≤ m0 < 60 →
  match scan_days n f (at_time d h0 m0) with
  | Some r => at_time d h0 m0 ≤ r ∧ r mod 60000 = 0 ∧ cron_matches f r = true
      ∧ ∀ t, t mod 60000 = 0 → at_time d h0 m0 ≤ t < r → cron_matches f t = false
  | None => ∀ t, t mod 60000 = 0 → at_time d h0 m0 ≤ t < at_time (d + Z.of_nat n) 0 0 →
      cron_matches f t = false
  end.
Proof.
  revert d h0 m0. induction n as [|n IH]; intros d h0 m0 Hd Hh Hm; cbn [scan_days].
  { intros t _ Ht. unfold at_time, msPerDay in Ht. lia. }
  pose proof (scan_day_spec f d h0 m0 Hd Hh Hm) as Hday.
  destruct (scan_day f (at_time d h0 m0)) as [r|].
  - destruct Hday as (h & m & -> & Hh' & Hm' & Hle & Hc & Hmin).
    split_and!; [done|apply at_time_aligned|done|]. intros t Ht Hr.
    destruct (minute_of_day t d Ht) as (h' & m' & Hth & Htm & ->); [unfold at_time, msPerDay in *; lia|].
    by apply Hmin.
  - rewrite next_midnight_eq. destruct (at_time_parts d h0 m0 Hh Hm) as (-> & _ & _).
    assert (Htoday : ∀ t, t mod 60000 = 0 → at_time d h0 m0 ≤ t < at_time (d + 1) 0 0 → cron_matches f t = false).
    { intros t Ht Hr.
      destruct (minute_of_day t d Ht) as (h' & m' & Hth & Htm & ->); [unfold at_time, msPerDay in *; lia|].
      apply Hday; [done..|lia]. }
    assert (at_time d h0 m0 < at_time (d + 1) 0 0) by (unfold at_time, msPerDay; lia).
    specialize (IH (d + 1) 0 0 ltac:(lia) ltac:(lia) ltac:(lia)).
    destruct (scan_days n f (at_time (d + 1) 0 0)) as [r|].
    + destruct IH as (Hle & Ha & Hc & Hmin). split_and!; [lia|done..|]. intros t Ht Hr.
      destruct (Z.lt_ge_cases t (at_time (d + 1) 0 0)); [apply Htoday|apply Hmin]; done || lia.
    + intros t Ht Hr. replace (d + Z.of_nat (S n)) with (d + 1 + Z.of_nat n) in Hr by lia.
      destruct (Z.lt_ge_cases t (at_time (d + 1) 0 0)); [apply Htoday|apply IH]; done || lia.
Qed.

(** C36: The next occurrence is the first one.  From any instant after 1970 the
    search answers the earliest whole minute strictly later that the fields
    select (month, the Vixie day rule, hour and minute); when it answers nothing,
    no minute of the 400 days searched is selected. *)
Theorem next_occurrence_is_first f fromMs (H : 0 ≤ fromMs) :
  match nextCronOccurrence f fromMs with
  | Some r => fromMs < r ∧ r mod 60000 = 0 ∧ cron_matches f r = true
      ∧ ∀ t, t mod 60000 = 0 → fromMs < t < r → cron_matches f t = false
  | None => ∀ t, t mod 60000 = 0 → fromMs < t < (Day (fromMs + 60000) + 400) * msPerDay →
      cron_matches f t = false
  end.
Proof.
  unfold nextCronOccurrence. set (c := fromMs / 60000 * 60000 + 60000).
  assert (Hc : c mod 60000 = 0) by (unfold c; Z.to_euclidean_division_equations; lia).
  assert (Hlt : fromMs < c ≤ fromMs + 60000) by (unfold c; Z.to_euclidean_division_equations; lia).
  assert (Hal : ∀ t, t mod 60000 = 0 → fromMs < t → c ≤ t)
    by (unfold c; intros; Z.to_euclidean_division_equations; lia).
  destruct (at_time_of c Hc) as (Et & Hh & Hm).
  assert (Hd : 0 ≤ Day c) by (unfold Day, msPerDay; Z.to_euclidean_division_equations; lia).
  pose proof (scan_days_spec 400 f (Day c) _ _ Hd Hh Hm) as Hs. rewrite <-Et in Hs.
  destruct (scan_days 400 f c) as [r|].
  - destruct Hs as (Hle & Ha & Hr & Hmin). split_and!; [lia|done..|].
    intros t Ht [Hf Hr']. apply Hmin; [done|]. auto.
  - intros t Ht [Hf Hr']. apply Hs; [done|]. split; [auto|].
    assert (Day (fromMs + 60000) = Day c) as <-; [|unfold at_time; lia].
    unfold Day, msPerDay, c. Z.to_euclidean_division_equations. lia.
Qed.

(** ** Validation accepts what parsing accepts *)

Lemma named_value_range n token v :
  named_value n token = Some v →
  match n with NO_NAMES => False | MONTH_NAMES => 1 ≤ v ≤ 12 | DAY_NAMES => 0 ≤ v ≤ 6 end.
Proof.
  unfold named_value. intros H. apply bind_Some in H as (i & Hi & [= <-]).
  apply fmap_Some in Hi as ([j x] & Hf & ->). apply list_find_Some in Hf as (Hl & _).
  apply lookup_lt_Some in Hl. destruct n; simpl in *; lia.
Qed.

(** The range of a field admits its names. *)
Definition names_fit (min max : Z) (n : Names) : Prop :=
  match n with NO_NAMES => True | MONTH_NAMES => min ≤ 1 ∧ 12 ≤ max | DAY_NAMES => min ≤ 0 ∧ 6 ≤ max end.

Lemma readValue_range min max n token v :
  names_fit min max n → readValue min max n token = Some v → min ≤ v ≤ max.
Proof.
  unfold readValue. intros Hf H. destruct (named_value n token) as [w|] eqn:E.
  - simplify_eq. apply named_value_range in E. destruct n; simpl in *; lia.
  - case_match; [done|]. case_match; [|done]. bool_hyps. simplify_eq. lia.
Qed.

Lemma values_between_nonempty from to step : from ≤ to → values_between from to step ≠ [].
Proof.
  intros H. unfold values_between. destruct (Z.to_nat (to - from + 1)) eqn:E; [lia|]. simpl.
  destruct (Z.leb_spec from to); [done|lia].
Qed.

Definition expands {A} (o : option A) : bool := match o with Some _ => true | None => false end.

Lemma item_valid_expands min max n item :
  min ≤ max → names_fit min max n →
  isValidItem min max n item = expands (expandItem min max n item).
Proof.
  intros Hmm Hf. unfold isValidItem, expandItem. case_match; [done|].
  destruct (js_split "/"%char item) as [|rp [|st [|]]]; [done| | |done];
    [|destruct (is_step st); [|done]]; cbn [negb];
    destruct (String.eqb rp "*"); try done;
    destruct (readValue min max n <$> js_split "-"%char rp) as [|[a|] [|[b|] [|]]] eqn:Ep; try done.
  - destruct (Z.ltb_spec a a); [lia|done].
  - by destruct (Z.ltb_spec b a).
  - destruct (js_split "-"%char rp) as [|x [|]]; try done. injection Ep as Ep.
    apply readValue_range in Ep; [|done].
    destruct (Z.ltb_spec max a); [lia|done].
  - by destruct (Z.ltb_spec b a).
Qed.

Lemma expandItem_nonempty min max n item vs :
  min ≤ max → expandItem min max n item = Some vs → vs ≠ [].
Proof.
  intros Hmm. unfold expandItem. case_match; [done|].
  destruct (js_split "/"%char item) as [|rp [|st [|]]]; [done| | |done];
    [|destruct (is_step st); [|done]]; cbn [negb];
    (destruct (String.eqb rp "*"); [intros [= <-]; by apply values_between_nonempty|]);
    destruct (readValue min max n <$> js_split "-"%char rp) as [|[a|] [|[b|] [|]]]; try done;
    (case_match; [done|]); intros [= <-]; bool_hyps; apply values_between_nonempty; lia.
Qed.

Lemma items_valid_expand min max n items :
  min ≤ max → names_fit min max n →
  forallb (isValidItem min max n) items = expands (expandItems min max n items).
Proof.
  intros Hmm Hf. induction items as [|i items IH]; simpl; [done|].
  rewrite item_valid_expands, IH by done. destruct (expandItem min max n i); [|done].
  by destruct (expandItems min max n items).
Qed.

Lemma js_split_cons sep s : ∃ x l, js_split sep s = x :: l.
Proof.
  unfold js_split. assert (H : ∀ l cur, ∃ x r, split_on sep cur l = x :: r).
  { induction l as [|c l IH]; intros cur; simpl; [eauto|]. case_match; eauto. }
  destruct (H (chars s) []) as (x & r & ->). eauto.
Qed.

Lemma field_valid_expands field index min max :
  CRON_FIELD_RANGES !! index = Some (min, max) → min ≤ max → names_fit min max (field_names index) →
  isValidCronField field index = expands (expandCronField field min max (field_names index)).
Proof.
  intros Hr Hmm Hf. unfold isValidCronField, expandCronField. rewrite Hr, items_valid_expand by done.
  destruct (js_split_cons ","%char field) as (x & l & ->). simpl.
  destruct (expandItem _ _ _ x) as [vs|] eqn:E; [|done]. simpl.
  destruct (expandItems _ _ _ l) as [ws|]; [|done]. simpl.
  apply expandItem_nonempty in E; [|done]. by destruct vs.
Qed.

(** A five-field pattern is structurally valid exactly when it parses, so
    every pattern the validator accepts has a next-occurrence evaluation and no
    other has one. *)
Theorem valid_iff_parses pattern :
  length (cron_fields pattern) = 5%nat →
  isStructurallyValidCron pattern = expands (parseFiveFieldCron pattern).
Proof.
  intros Hl. unfold isStructurallyValidCron, parseFiveFieldCron.
  destruct (cron_fields pattern) as [|f0 [|f1 [|f2 [|f3 [|f4 [|]]]]]]; try done. cbn [valid_fields].
  rewrite (field_valid_expands f0 0 0 59), (field_valid_expands f1 1 0 23), (field_valid_expands f2 2 1 31),
    (field_valid_expands f3 3 1 12), (field_valid_expands f4 4 0 7) by (done || simpl; lia).
  cbn [field_names].
  destruct (expandCronField f0 0 59 NO_NAMES); [|done]. destruct (expandCronField f1 0 23 NO_NAMES); [|done].
  destruct (expandCronField f2 1 31 NO_NAMES); [|done]. destruct (expandCronField f3 1 12 MONTH_NAMES); [|done].
  by destruct (expandCronField f4 0 7 DAY_NAMES).
Qed.

Lemma valid_iff_parses_witness : isStructurallyValidCron "0 9 * * mon" = true.
Proof. rewrite (valid_iff_parses "0 9 * * mon"); by vm_compute. Defined.

(** ** The due check and the occurrence search agree on portable patterns *)

Definition plain_char (c : ascii) : bool :=
  is_digit c || Ascii.eqb c "*" || Ascii.eqb c "-" || Ascii.eqb c "/".

(** An item both evaluators read alike: digits and operators only (no names), a
    step only after [*] or a range, and in the day-of-week field ([dow]) only
    after a range. *)
Definition portable_item (dow : bool) (item : string) : bool :=
  forallb plain_char (chars item)
  && match js_split "/"%char item with
     | [] => false
     | [_] => true
     | rp :: _ => if String.eqb rp "*" then negb dow else includes rp "-"
     end.

Definition portable_field (dow : bool) (field : string) : bool :=
  forallb (λ c, plain_char c || Ascii.eqb c ",") (chars field)
  && forallb (portable_item dow) (js_split ","%char field).

Definition portable_cron (cron : string) : bool :=
  match cron_fields cron with
  | [f0; f1; f2; f3; f4] =>
      portable_field false f0 && portable_field false f1 && portable_field false f2
      && portable_field false f3 && portable_field true f4
  | _ => false
  end.

Lemma plain_not_space c : plain_char c = true → is_space c = false.
Proof. destruct c as [[] [] [] [] [] [] [] []]; by vm_compute. Qed.
Lemma plain_lower c : plain_char c = true → lower_char c = c.
Proof. destruct c as [[] [] [] [] [] [] [] []]; by vm_compute. Qed.
Lemma digit_not_space c : is_digit c = true → is_space c = false.
Proof. destruct c as [[] [] [] [] [] [] [] []]; by vm_compute. Qed.

(** *** Trimming and splitting *)

Lemma trim_start_id l : forallb (λ c, negb (is_space c)) l = true → trim_start l = l.
Proof. destruct l as [|c l]; [done|]. simpl. intros. bool_hyps. by rewrite H. Qed.

Lemma trim_id s : forallb (λ c, negb (is_space c)) (chars s) = true → trim s = s.
Proof.
  intros H. unfold trim. rewrite (trim_start_id (chars s)) by done.
  rewrite trim_start_id; [by rewrite reverse_involutive, of_chars_chars|].
  rewrite forallb_forall in *. intros c Hc. apply H. apply list_elem_of_In, elem_of_reverse. by apply list_elem_of_In.
Qed.

Lemma split_on_forall (P : ascii → bool) sep cur l :
  forallb P cur = true → forallb P l = true → Forall (λ x, forallb P x = true) (split_on sep cur l).
Proof.
  assert (Hrev : ∀ k, forallb P k = true → forallb P (reverse k) = true).
  { intros k. rewrite !forallb_forall. intros Hk c Hc. apply Hk, list_elem_of_In, elem_of_reverse.
    by apply list_elem_of_In. }
  revert cur. induction l as [|c l IH]; intros cur Hc Hl; simpl.
  - repeat constructor. auto.
  - simpl in Hl. bool_hyps. case_match.
    + constructor; [auto|]. by apply IH.
    + apply IH; simpl; [by rewrite H|done].
Qed.

Lemma js_split_forall (P : ascii → bool) sep s :
  forallb P (chars s) = true → Forall (λ x, forallb P (chars x) = true) (js_split sep s).
Proof.
  intros H. unfold js_split. rewrite Forall_fmap. eapply Forall_impl; [by apply (split_on_forall P sep [])|].
  intros x Hx. simpl. by rewrite chars_of_chars.
Qed.

(** A split in one piece: no separator, and the piece is the string. *)
Lemma split_on_one sep cur l x :
  split_on sep cur l = [x] ↔ sep ∉ l ∧ x = reverse cur ++ l.
Proof.
  revert cur. induction l as [|c l IH]; intros cur; simpl.
  { rewrite app_nil_r. split; [|intros [_ ->]]; [intros [= <-]; split; [by apply not_elem_of_nil|done]|done]. }
  rewrite not_elem_of_cons. destruct (Ascii.eqb_spec c sep) as [->|Hne].
  - split; [|naive_solver]. intros H. exfalso.
    assert (∀ k m, split_on sep k m ≠ []) as Hn by (intros k m; revert k; induction m; intros k; simpl; [done|by case_match]).
    injection H as _ H. by apply Hn in H.
  - rewrite IH, reverse_cons, <-(assoc (++)). naive_solver.
Qed.

Lemma js_split_one sep s x : js_split sep s = [x] ↔ sep ∉ chars s ∧ x = s.
Proof.
  unfold js_split. split.
  - destruct (split_on sep [] (chars s)) as [|y [|]] eqn:E; simpl; try done.
    intros [= <-]. apply split_on_one in E as [Hn ->]. split; [done|]. apply of_chars_chars.
  - intros [Hn ->]. rewrite (proj2 (split_on_one sep [] (chars s) (chars s))) by done.
    simpl. by rewrite of_chars_chars.
Qed.

Lemma includes_char s c : includes s (of_chars [c]) = true ↔ c ∈ chars s.
Proof.
  unfold includes. rewrite chars_of_chars. generalize (chars s). intros l.
  induction l as [|d l IH]; simpl; [split; [done|by intros ?%elem_of_nil]|].
  rewrite andb_true_r, orb_true_iff, IH, elem_of_cons, Ascii.eqb_eq. done.
Qed.

(** *** Numerals *)

Lemma digit_prefix_id l : all_digits l = true → digit_prefix l = l.
Proof. induction l as [|c l IH]; simpl; [done|]. intros. bool_hyps. rewrite H. by f_equal; auto. Qed.

Lemma parseInt_digits s :
  chars s ≠ [] → all_digits (chars s) = true → parseInt s = Some (digits_val (chars s)).
Proof.
  unfold parseInt. destruct (chars s) as [|c l]; [done|]. intros _ H.
  assert (Hc : is_digit c = true) by (simpl in H; by bool_hyps).
  cbn [trim_start]. rewrite digit_not_space by done.
  assert (parse_unsigned (c :: l) = Some (digits_val (c :: l))) as E
    by (unfold parse_unsigned; by rewrite digit_prefix_id).
  destruct c as [[] [] [] [] [] [] [] []]; try exact E; by vm_compute in Hc.
Qed.

Lemma is_number_digits s : is_number s = true → chars s ≠ [] ∧ all_digits (chars s) = true.
Proof.
  unfold is_number. intros. bool_hyps. split; [|done]. intros E.
  apply String.eqb_neq in H. apply H, chars_inj. by rewrite E.
Qed.

Lemma is_step_digits s :
  is_step s = true → chars s ≠ [] ∧ all_digits (chars s) = true ∧ 0 < digits_val (chars s).
Proof.
  unfold is_step. destruct (chars s) as [|c l] eqn:E; [done|]. intros. bool_hyps.
  split_and!; [done|simpl; by rewrite H|]. rewrite digits_val_cons.
  apply Ascii.eqb_neq in H1. pose proof (digit_val_range c H).
  assert (digit_val c ≠ 0).
  { intros E0. apply H1, code_inj. unfold digit_val in E0. change (code "0"%char) with 48. lia. }
  pose proof (digits_val_range l ltac:(done)). nia.
Qed.

Lemma plain_not_named n token : forallb plain_char (chars token) = true → named_value n token = None.
Proof.
  intros H. unfold named_value. destruct (list_find _ _) as [[i x]|] eqn:E; [|done]. exfalso.
  apply list_find_Some in E as (Hl & Hx & _).
  assert (toLowerCase token = token) as Et.
  { unfold toLowerCase. rewrite <-(of_chars_chars token) at 2. f_equal.
    rewrite <-(list_fmap_id (chars token)) at 2. apply list_fmap_ext. intros k c Hc.
    apply plain_lower. rewrite forallb_forall in H. apply H, list_elem_of_In. by eapply list_elem_of_lookup_2. }
  rewrite Et in Hx. subst x.
  assert (Forall (λ y, forallb plain_char (chars y) = false) (names_list n)) as Hall
    by (destruct n; repeat constructor).
  rewrite Forall_lookup in Hall. apply Hall in Hl. congruence.
Qed.

Lemma readValue_plain min max n token v :
  forallb plain_char (chars token) = true → readValue min max n token = Some v →
  parseInt token = Some v ∧ min ≤ v ≤ max.
Proof.
  intros Hp. unfold readValue. rewrite plain_not_named by done.
  destruct (is_number token) eqn:En; [|done]. simpl. case_match; [|done]. intros [= <-]. bool_hyps.
  apply is_number_digits in En as [??]. split; [by apply parseInt_digits|lia].
Qed.

(** *** Sets of values *)

Lemma stepped_spec n v to step x :
  0 < step → to < v + Z.of_nat n * step →
  x ∈ stepped n v to step ↔ v ≤ x ≤ to ∧ (x - v) mod step = 0.
Proof.
  intros Hs. revert v. induction n as [|n IH]; intros v Hf; cbn [stepped].
  - rewrite elem_of_nil. split; [done|lia].
  - destruct (Z.leb_spec v to); [|rewrite elem_of_nil; split; [done|lia]].
    rewrite elem_of_cons, IH by nia. split.
    + intros [->|[Hx Hm]]; [rewrite Z.sub_diag, Z.mod_0_l by lia; lia|]. split; [lia|].
      replace (x - v) with (x - (v + step) + 1 * step) by lia. by rewrite Z.mod_add by lia.
    + intros [Hx Hm]. destruct (Z.eq_dec x v) as [|Hne]; [by left|right].
      assert (v + step ≤ x).
      { apply Z.mod_divide in Hm as [k Hk]; [|lia]. assert (0 < k) by nia. nia. }
      split; [lia|]. replace (x - (v + step)) with (x - v + (-1) * step) by lia.
      by rewrite Z.mod_add by lia.
Qed.

Lemma has_elem v l : has v l = true ↔ v ∈ l.
Proof.
  unfold has. rewrite existsb_exists. setoid_rewrite <-list_elem_of_In. setoid_rewrite Z.eqb_eq. naive_solver.
Qed.

Lemma has_between v from to step :
  0 < step → has v (values_between from to step) = true ↔ from ≤ v ≤ to ∧ (v - from) mod step = 0.
Proof.
  intros Hs. rewrite has_elem. unfold values_between. destruct (Z.lt_ge_cases to from).
  - replace (Z.to_nat (to - from + 1)) with O by lia. simpl. rewrite elem_of_nil. split; [done|lia].
  - apply stepped_spec; [done|]. rewrite Z2Nat.id by lia. nia.
Qed.

(** The verdict of a segment whose bounds are [a] and [b]. *)
Definition in_segment (v a b : Z) (step : option Z) : bool :=
  if (v <? a) || (b <? v) then false
  else match step with
       | None => true
       | Some step => if step <=? 0 then true else Z.rem (v - a) step =? 0
       end.

Lemma in_segment_between v a b step :
  match step with Some k => 0 < k | None => True end →
  in_segment v a b step = has v (values_between a b (default 1 step)).
Proof.
  intros Hs. apply eq_bool_prop_intro. rewrite !Is_true_true.
  rewrite has_between by (destruct step; simpl in *; lia). unfold in_segment.
  destruct (Z.ltb_spec v a), (Z.ltb_spec b v); simpl; try (split; [done|lia]).
  destruct step as [k|]; simpl in *.
  - destruct (Z.leb_spec k 0); [lia|]. rewrite Z.eqb_eq, Z.rem_mod_nonneg by lia. lia.
  - rewrite Z.mod_1_r. lia.
Qed.

(** The bounds both evaluators read off a range part. *)
Lemma segment_range_agrees min min' max n rp vals :
  forallb plain_char (chars rp) = true → String.eqb rp "*" = false →
  readValue min max n <$> js_split "-"%char rp = vals →
  match vals with
  | [Some a] => segment_range rp min' max = Some (a, a) ∧ includes rp "-" = false
  | [Some a; Some b] => segment_range rp min' max = Some (a, b)
  | _ => True
  end.
Proof.
  intros Hp Hstar Hv. unfold segment_range. rewrite Hstar.
  pose proof (js_split_forall plain_char "-"%char rp Hp) as Hf.
  pose proof (includes_char rp "-"%char) as Hi. change (of_chars ["-"%char]) with "-" in Hi.
  destruct (js_split "-"%char rp) as [|x [|y [|]]] eqn:E; simplify_eq/=; try done;
    rewrite ?Forall_cons in Hf.
  - destruct (readValue min max n x) as [a|] eqn:Ea; [|done].
    apply readValue_plain in Ea as [Ea _]; [|by apply Hf]. apply js_split_one in E as [Hn ->].
    assert (includes rp "-" = false) as -> by (apply not_true_is_false; naive_solver).
    by rewrite Ea.
  - destruct (readValue min max n x) as [a|] eqn:Ea; [|done].
    destruct (readValue min max n y) as [b|] eqn:Eb; [|done].
    apply readValue_plain in Ea as [Ea _], Eb as [Eb _]; [|by apply Hf..].
    assert (includes rp "-" = true) as ->; [|by rewrite Ea, Eb].
    apply Hi. destruct (decide ("-"%char ∈ chars rp)) as [|Hn]; [done|exfalso].
    assert (js_split "-"%char rp = [rp]) by (by apply js_split_one). congruence.
  - case_match; [|done]. case_match; [|done]. done.
Qed.

Lemma item_agrees dow min min' max n item vs v :
  portable_item dow item = true → expandItem min max n item = Some vs →
  min ≤ min' → min' ≤ v ≤ max → (dow = true ∨ min' = min) →
  segment_matches item v min' max = has v vs.
Proof.
  unfold portable_item. intros [Hp Hshape]%andb_true_iff He Hmin Hv Hdow.
  assert (Ht : trim item = item).
  { apply trim_id. rewrite forallb_forall in *. intros c Hc. rewrite plain_not_space; [done|auto]. }
  unfold segment_matches. unfold expandItem in He. rewrite Ht.
  destruct (String.eqb item ""); [done|].
  pose proof (js_split_forall plain_char "/"%char item Hp) as Hf.
  destruct (js_split "/"%char item) as [|rp [|st [|]]]; [done| | |done]; rewrite !Forall_cons in Hf.
  - cbn [head truthy]. destruct (String.eqb rp "*") eqn:Estar.
    + unfold segment_range. rewrite Estar. simplify_eq. fold (in_segment v min' max None).
      rewrite in_segment_between by done. apply eq_bool_prop_intro. rewrite !Is_true_true, !has_between by (simpl; lia).
      simpl. rewrite !Z.mod_1_r. lia.
    + pose proof (segment_range_agrees min min' max n rp _ (proj1 Hf) Estar eq_refl) as Hr.
      destruct (readValue min max n <$> js_split "-"%char rp) as [|[a|] [|[b|] [|]]]; try done.
      * destruct Hr as [-> _]. case_match; [done|]. simplify_eq.
        fold (in_segment v a a None). by rewrite in_segment_between.
      * rewrite Hr. case_match; [done|]. simplify_eq.
        fold (in_segment v a b None). by rewrite in_segment_between.
  - destruct (is_step st) eqn:Est; [|done]. cbn [negb] in He.
    apply is_step_digits in Est as (Hne & Hd & Hpos).
    assert (truthy (head [st]) = Some st) as -> by (by destruct st).
    rewrite parseInt_digits by done. set (k := digits_val (chars st)) in *.
    destruct (String.eqb rp "*") eqn:Estar.
    + assert (min' = min) as -> by (destruct dow; [done|naive_solver]).
      unfold segment_range. rewrite Estar. simplify_eq. fold (in_segment v min max (Some k)).
      by rewrite in_segment_between.
    + pose proof (segment_range_agrees min min' max n rp _ (proj1 Hf) Estar eq_refl) as Hr.
      destruct (readValue min max n <$> js_split "-"%char rp) as [|[a|] [|[b|] [|]]]; try done.
      * destruct Hr as [_ Hr]. congruence.
      * rewrite Hr. case_match; [done|]. simplify_eq.
        fold (in_segment v a b (Some k)). by rewrite in_segment_between.
Qed.

Lemma has_app v l k : has v (l ++ k) = has v l || has v k.
Proof. apply existsb_app. Qed.

Lemma items_agree dow min min' max n items vs v :
  forallb (portable_item dow) items = true → expandItems min max n items = Some vs →
  min ≤ min' → min' ≤ v ≤ max → (dow = true ∨ min' = min) →
  existsb (λ i, segment_matches i v min' max) items = has v vs.
Proof.
  intros Hp He Hmin Hv Hdow. revert vs Hp He.
  induction items as [|i items IH]; simpl; intros vs Hp He; [by simplify_eq|]. bool_hyps.
  apply bind_Some in He as (a & Ha & He). apply bind_Some in He as (b & Hb & [= <-]).
  rewrite has_app. f_equal; [by eapply item_agrees|by apply IH].
Qed.

Lemma field_agrees dow min min' max n field vs v :
  portable_field dow field = true → expandCronField field min max n = Some vs →
  min ≤ min' → min' ≤ v ≤ max → (dow = true ∨ min' = min) →
  matchesCronField field v min' max = has v vs.
Proof.
  unfold portable_field, expandCronField, matchesCronField.
  intros [Hc Hp]%andb_true_iff He Hmin Hv Hdow. apply bind_Some in He as (ws & He & Hne).
  assert (vs = ws) as -> by (destruct ws; by simplify_eq).
  assert (trim field = field) as ->.
  { apply trim_id. rewrite forallb_forall in *. intros c Hin. apply Hc in Hin.
    apply orb_true_iff in Hin as [?%plain_not_space| ->%Ascii.eqb_eq]; [by rewrite H|done]. }
  rewrite <-(items_agree dow min min' max n _ _ v Hp He) by done.
  destruct (String.eqb_spec field "*") as [->|]; [|done].
  change (js_split ","%char "*") with ["*"]. cbn [existsb]. unfold segment_matches. simpl.
  destruct (Z.ltb_spec v min'), (Z.ltb_spec max v); done || lia.
Qed.

(** The day-of-week check, which tries Sunday as 0 and as 7. *)
Lemma dow_agrees field raw v :
  portable_field true field = true → expandCronField field 0 7 DAY_NAMES = Some raw → 0 ≤ v ≤ 6 →
  matchesCronField field v 0 7 || matchesCronField field (if v =? 0 then 7 else v) 1 7
  = has v ((λ day, if day =? 7 then 0 else day) <$> raw).
Proof.
  intros Hp He Hv.
  rewrite (field_agrees true 0 0 7 DAY_NAMES field raw v), (field_agrees true 0 1 7 DAY_NAMES field raw)
    by (done || (by left) || (case_match; bool_hyps; lia) || lia).
  apply eq_bool_prop_intro. rewrite !Is_true_true, orb_true_iff, !has_elem, list_elem_of_fmap. split.
  - intros [H|H].
    + exists v. destruct (Z.eqb_spec v 7); [lia|done].
    + destruct (Z.eqb_spec v 0) as [->|]; [by exists 7|]. exists v. destruct (Z.eqb_spec v 7); [lia|done].
  - intros (d & Ev & Hd). destruct (Z.eqb_spec d 7) as [E7|]; simplify_eq; [by right|by left].
Qed.

(** ** Reading a zone's clock *)

Lemma part_shown parts k v : shows parts k v → part k parts = Some v.
Proof. intros H%shows_reverse%shows_find. unfold part. by rewrite H. Qed.

Lemma numeral_parseInt n s : numeral_text n s → parseInt s = Some n.
Proof.
  intros H. eapply bool_decide_eq_true_1, (numeral_cases (λ n s, bool_decide (parseInt s = Some n)) n s); [|done].
  by vm_compute.
Qed.

Lemma number_shown parts k n d : shows_number parts k n → parseInt (default d (part k parts)) = Some n.
Proof. intros (s & Hs%part_shown & Hn). rewrite Hs. by apply numeral_parseInt. Qed.

Lemma weekday_shown parts w :
  shows_weekday parts w →
  default 0 (snd <$> List.find (λ p, String.eqb p.1 (default "Sun" (part "weekday" parts))) weekdayMap)
  = getUTCDay w.
Proof.
  intros (s & Hs%part_shown & Hw). rewrite Hs. apply Z.eqb_eq.
  apply (weekday_cases (λ s d, default 0 (snd <$> List.find (λ p, String.eqb p.1 s) weekdayMap) =? d) w s); [by vm_compute|done].
Qed.

(** The due check sees the fields of the wall clock. *)
Lemma getZonedDateParts_wall formatToParts wall `{!DateFormatter formatToParts wall} at' timeZone :
  getZonedDateParts formatToParts at' timeZone =
    (λ w, mkZoned (getUTCMinutes w) (getUTCHours w) (getUTCDate w) (getUTCMonth w + 1) (getUTCDay w))
      <$> wall timeZone at'.
Proof.
  unfold getZonedDateParts. destruct (wall timeZone at') as [w|] eqn:Ew; [|by rewrite date_unknown].
  destruct (date_parts timeZone at' w Ew) as (parts & -> & Hwd & Hmo & Hd & Hh & Hm). cbn [mbind option_bind].
  rewrite (number_shown _ _ _ _ Hm), (number_shown _ _ _ _ Hh), (number_shown _ _ _ _ Hd), (number_shown _ _ _ _ Hmo).
  cbn [mbind option_bind]. by rewrite (weekday_shown _ _ Hwd).
Qed.

(** On portable patterns (no names, a step only after [*] or a range, and
    not after [*] in the day-of-week field), and for any formatter that shows a
    zone's clock, the scheduler's due check at an instant says exactly whether
    the occurrence search selects the minute that clock shows at that instant;
    it throws exactly when the zone is unknown. *)
Theorem cron_evaluators_agree formatToParts wall cron f timeZone at'
    (Hfmt : DateFormatter formatToParts wall)
    (Hp : portable_cron cron = true) (Hf : parseFiveFieldCron cron = Some f) :
  isCronDue formatToParts cron timeZone at' = cron_matches f <$> wall timeZone at'.
Proof.
  unfold portable_cron in Hp. unfold parseFiveFieldCron in Hf. unfold isCronDue.
  destruct (cron_fields cron) as [|f0 [|f1 [|f2 [|f3 [|f4 [|]]]]]]; try done.
  rewrite (getZonedDateParts_wall formatToParts wall). destruct (wall timeZone at') as [t|]; [|done]. bool_hyps.
  repeat (apply bind_Some in Hf as (? & ? & Hf)). simplify_eq. cbn [fmap option_fmap option_map mbind option_bind]. f_equal.
  unfold due_fields, cron_matches, day_hit. cbn [zp_minute zp_hour zp_dayOfMonth zp_month zp_dayOfWeek].
  cbn [months daysOfMonth daysOfWeek hours minutes domRestricted dowRestricted].
  destruct (utc_field_bounds t) as (? & ? & ? & ? & ?).
  erewrite (dow_agrees f4) by done.
  erewrite (field_agrees false 0 0 59 _ f0), (field_agrees false 0 0 23 _ f1), (field_agrees false 1 1 31 _ f2),
    (field_agrees false 1 1 12 _ f3) by (eassumption || lia || by right).
  destruct (String.eqb f2 "*"), (String.eqb f4 "*"); cbn [negb andb orb];
    repeat match goal with |- context [has ?v ?l] => generalize (has v l); intros [] end; done.
Qed.

(** Outside the portable patterns the two disagree: a pattern may be valid
    and have a next occurrence, and yet the due check never fires for it (names)
    or fires at other times (a step after a single value; a step after [*] in the
    day-of-week field, which the due check takes for every day). *)
Theorem cron_evaluators_diverge :
  (isStructurallyValidCron "0 9 * * mon" = true
   ∧ (f ← parseFiveFieldCron "0 9 * * mon"; nextCronOccurrence f 1740000000000) = Some 1740387600000
   ∧ ∀ formatToParts timeZone at', isCronDue formatToParts "0 9 * * mon" timeZone at' ≠ Some true)
  ∧ (isStructurallyValidCron "0 5/6 * * *" = true
     ∧ (hours <$> parseFiveFieldCron "0 5/6 * * *") = Some [5; 11; 17; 23]
     ∧ ∀ z, zp_hour z ≠ 5 → due_fields "0" "5/6" "*" "*" "*" z = false)
  ∧ (isStructurallyValidCron "0 9 * * */2" = true
     ∧ (daysOfWeek <$> parseFiveFieldCron "0 9 * * */2") = Some [0; 2; 4; 6]
     ∧ ∀ d, 0 ≤ d ≤ 6 → due_fields "0" "9" "*" "*" "*/2" (mkZoned 0 9 1 1 d) = true).
Proof.
  split_and!; try by vm_compute.
  - intros ftp tz at' H. unfold isCronDue in H.
    change (cron_fields "0 9 * * mon") with ["0"; "9"; "*"; "*"; "mon"] in H. cbn iota in H.
    apply bind_Some in H as (z & _ & [= H]). unfold due_fields in H. bool_hyps.
    change (matchesCronField "*" (zp_dayOfMonth z) 1 31) with true in *. simpl in *. done.
  - intros z Hz. unfold due_fields.
    assert (matchesCronField "5/6" (zp_hour z) 0 23 = false) as ->; [|by rewrite andb_false_r].
    change (in_segment (zp_hour z) 5 5 (Some 6) || false = false). unfold in_segment.
    destruct (Z.ltb_spec (zp_hour z) 5), (Z.ltb_spec 5 (zp_hour z)); done || lia.
  - intros d Hd. assert (d = 0 ∨ d = 1 ∨ d = 2 ∨ d = 3 ∨ d = 4 ∨ d = 5 ∨ d = 6) as Hc by lia.
    repeat destruct Hc as [->|Hc]; [by vm_compute..|]. subst. by vm_compute.
Qed.

(** A pattern that only a leap day matches has no occurrence within the 400 days
    searched from 1 March 2025, although it selects 29 February 2028. *)
Example leap_day_not_found :
  (f ← parseFiveFieldCron "0 0 29 2 *"; nextCronOccurrence f 1740787200000) = None
  ∧ (f ← parseFiveFieldCron "0 0 29 2 *"; Some (cron_matches f (DateUTC 2028 1 29 0 0))) = Some true.
Proof. by vm_compute. Qed.

(** ** The sweeper's walk back *)

(** The walk back of the sweeper answers the latest due minute at or before
    now within its lookback: the minute it answers is due, no later one is, and
    when it answers nothing no minute of the lookback is due. *)
Theorem latest_occurrence_is_last formatToParts cron timeZone now n r
    (H : latestCronOccurrence formatToParts cron timeZone now n = Some r) :
  let base := now / 60000 * 60000 in
  match r with
  | Some t => base - Z.of_nat n * 60000 ≤ t ≤ base ∧ isCronDue formatToParts cron timeZone t = Some true
      ∧ ∀ k, 0 ≤ k → t < base - k * 60000 →
          isCronDue formatToParts cron timeZone (base - k * 60000) = Some false
  | None => ∀ k, 0 ≤ k ≤ Z.of_nat n → isCronDue formatToParts cron timeZone (base - k * 60000) = Some false
  end.
Proof.
  unfold latestCronOccurrence in H. cbv zeta. remember (now / 60000 * 60000) as base eqn:E. clear E.
  enough (Hw : ∀ fuel t0, walk_back formatToParts fuel cron timeZone t0 = Some r →
    match r with
    | Some t => t0 - (Z.of_nat fuel - 1) * 60000 ≤ t ≤ t0 ∧ isCronDue formatToParts cron timeZone t = Some true
        ∧ ∀ k, 0 ≤ k → t < t0 - k * 60000 → isCronDue formatToParts cron timeZone (t0 - k * 60000) = Some false
    | None => ∀ k, 0 ≤ k < Z.of_nat fuel → isCronDue formatToParts cron timeZone (t0 - k * 60000) = Some false
    end).
  { apply Hw in H. destruct r; [|intros k Hk; apply H; lia]. destruct H as (? & ? & ?). split_and!; done || lia. }
  clear H. induction fuel as [|fuel IH]; intros t0 H; cbn [walk_back] in H; [simplify_eq; intros; lia|].
  apply bind_Some in H as ([] & Hd & H).
  { simplify_eq. split_and!; [lia|lia|done|]. intros; lia. }
  apply IH in H. destruct r as [t|].
  - destruct H as (Hr & Ht & Hno). split_and!; [lia|lia|done|]. intros k Hk Hlt.
    destruct (Z.eq_dec k 0) as [->|]; [by rewrite Z.mul_0_l, Z.sub_0_r|].
    replace (t0 - k * 60000) with (t0 - 60000 - (k - 1) * 60000) by lia. apply Hno; lia.
  - intros k Hk. destruct (Z.eq_dec k 0) as [->|]; [by rewrite Z.mul_0_l, Z.sub_0_r|].
    replace (t0 - k * 60000) with (t0 - 60000 - (k - 1) * 60000) by lia. apply H; lia.
Qed.

(** ** Witnesses *)

Definition ex_fields : CronFields := mkCronFields [30] [2] (seqZ 1 31) (seqZ 1 12) [1] false true.

Lemma next_occurrence_is_first_witness :
  1740000000000 < 1740364200000 ∧ cron_matches ex_fields 1740364200000 = true.
Proof.
  pose proof (next_occurrence_is_first ex_fields 1740000000000 ltac:(lia)) as H.
  assert (nextCronOccurrence ex_fields 1740000000000 = Some 1740364200000) as E
    by (vm_compute; reflexivity).
  rewrite E in H. destruct H as (H1 & _ & H2 & _). exact (conj H1 H2).
Defined.

Lemma cron_evaluators_agree_witness :
  ∃ f, parseFiveFieldCron "*/5 9-17/2 * 1,7 1-5" = Some f
    ∧ isCronDue utc_parts "*/5 9-17/2 * 1,7 1-5" "UTC" 1740000000000
      = Some (cron_matches f 1740000000000).
Proof.
  destruct (parseFiveFieldCron "*/5 9-17/2 * 1,7 1-5") as [f|] eqn:E; [|by vm_compute in E].
  exists f. split; [done|].
  apply (cron_evaluators_agree utc_parts utc_wall "*/5 9-17/2 * 1,7 1-5" f "UTC"); [apply _|by vm_compute|done].
Defined.

Lemma latest_occurrence_is_last_witness :
  isCronDue utc_parts "0 9 * * *" "UTC" 1739955600000 = Some true.
Proof.
  destruct (latest_occurrence_is_last utc_parts "0 9 * * *" "UTC" 1740000000000 1440 (Some 1739955600000))
    as (_ & H & _); [by vm_compute|exact H].
Defined.
End Cron.
