(* ===== verification/Commands.v ===== *)
(** * Device commands: which rows still accept an agent's result

    Models [apps/api/src/services/commandResultAcceptance.ts] (the SQL predicate
    and its in-memory twin), the writers of a command's terminal state that it
    governs ([buildStoredCommandResult] and the terminal compare-and-set of
    [apps/api/src/routes/agentWs.ts], [waitForCommandResult]'s timeout of
    [services/commandQueue.ts], the stale reaper of
    [jobs/staleCommandReaper.ts], [markCommandResultProcessingFailed] of
    [services/commandResultProcessingFailure.ts]), and histories of them.

    A row holds the columns these writers read or write, less the payload (which
    they only erase).  Secret redaction of output text is the parameter
    [redact].  An SQL condition is an [option bool] ([None]: unknown); a WHERE
    keeps a row when it is [Some true]. *)
From S2P Require Import Prelude JsText JsDate IsoDate.
From stdpp Require Import base tactics list strings pretty relations.
From Stdlib Require Import ZArith Lia.
Open Scope Z_scope.

Module Commands.

(** ** Rows and markers *)

Record CommandRow := mkCommand {
  c_id : string; c_deviceId : string; c_type : string; c_status : string; c_targetRole : string;
  c_executedAt : option Z; c_completedAt : option Z; c_result : option json }.

Definition NETWORK_DIAGNOSTIC : string := "network_diagnostic".
Definition QUEUED_BACKUP_WORKLOAD_COMMAND_TYPES : list string := ["mssql_backup"; "hyperv_backup"].
Definition TIMEOUT_REOPEN_EXCLUDED_COMMAND_TYPES : list string := [NETWORK_DIAGNOSTIC].
Definition ACCEPTED_COMMAND_RESULT_STATUSES : list string := ["pending"; "sent"].
Definition SERVER_TIMEOUT_RESULT_STATUS : string := "timeout".
Definition BACKUP_QUEUE_ACK_RESULT_STATUS : string := "queue_ack".
Definition RESULT_PROCESSING_FAILED_RESULT_STATUS : string := "result_processing_failed".
Definition RESULT_PROCESSING_FAILED_REOPEN_EXCLUDED_COMMAND_TYPES : list string :=
  TIMEOUT_REOPEN_EXCLUDED_COMMAND_TYPES ++ ["pam_apply_v2"; "pam_cleanup_v2"].
Definition RESULT_PROCESSING_FAILED_MESSAGE : string :=
  "The agent reported a result, but the server could not record it. Run the command again.".

Definition member (s : string) (l : list string) : bool := existsb (String.eqb s) l.

(** ** SQL conditions *)

Definition sql_and (a b : option bool) : option bool :=
  match a, b with
  | Some false, _ | _, Some false => Some false
  | Some true, Some true => Some true
  | _, _ => None
  end.
Definition sql_or (a b : option bool) : option bool :=
  match a, b with
  | Some true, _ | _, Some true => Some true
  | Some false, Some false => Some false
  | _, _ => None
  end.
Definition sql_holds (a : option bool) : bool := match a with Some true => true | _ => false end.

(** [result->>k = word]: unknown when the key is missing or null; a number, a
    boolean, an array or an object never prints as one of the words compared. *)
Definition text_is (result : option json) (k word : string) : option bool :=
  match result ≫= jget k with
  | None | Some JNull => None
  | Some (JStr s) => Some (String.eqb s word)
  | Some _ => Some false
  end.
(** [result->>k IS NOT NULL]. *)
Definition text_not_null (result : option json) (k : string) : bool :=
  match result ≫= jget k with None | Some JNull => false | Some _ => true end.

Definition commandAcceptsAgentResultCondition (r : CommandRow) : option bool :=
  sql_or (Some (member (c_status r) ACCEPTED_COMMAND_RESULT_STATUSES))
  (sql_or
    (sql_and (Some (String.eqb (c_status r) "failed"))
    (sql_and (Some (negb (member (c_type r) TIMEOUT_REOPEN_EXCLUDED_COMMAND_TYPES)))
    (sql_and (text_is (c_result r) "status" SERVER_TIMEOUT_RESULT_STATUS)
             (Some (text_not_null (c_result r) "timedOutBy")))))
  (sql_or
    (sql_and (Some (String.eqb (c_status r) "completed"))
    (sql_and (Some (member (c_type r) QUEUED_BACKUP_WORKLOAD_COMMAND_TYPES))
             (text_is (c_result r) "status" BACKUP_QUEUE_ACK_RESULT_STATUS)))
    (sql_and (Some (String.eqb (c_status r) "failed"))
    (sql_and (Some (negb (member (c_type r) RESULT_PROCESSING_FAILED_REOPEN_EXCLUDED_COMMAND_TYPES)))
    (sql_and (text_is (c_result r) "status" RESULT_PROCESSING_FAILED_RESULT_STATUS)
             (Some (text_not_null (c_result r) "processingFailedAt"))))))).

(** ** The in-memory twin *)

Definition status_is (result : option json) (word : string) : bool :=
  match result ≫= jget "status" with Some (JStr s) => String.eqb s word | _ => false end.

Definition commandAcceptsAgentResult (status : option string) (result : option json)
    (type : option string) : bool :=
  match truthy status with
  | None => true
  | Some status =>
      if member status ACCEPTED_COMMAND_RESULT_STATUSES then true
      else if String.eqb status "failed" && status_is result SERVER_TIMEOUT_RESULT_STATUS
              && text_not_null result "timedOutBy"
              && negb (member (default "" type) TIMEOUT_REOPEN_EXCLUDED_COMMAND_TYPES) then true
      else if String.eqb status "completed" && status_is result BACKUP_QUEUE_ACK_RESULT_STATUS
              && match truthy type with
                 | Some t => member t QUEUED_BACKUP_WORKLOAD_COMMAND_TYPES
                 | None => false
                 end then true
      else if String.eqb status "failed" && status_is result RESULT_PROCESSING_FAILED_RESULT_STATUS
              && text_not_null result "processingFailedAt"
              && negb (member (default "" type) RESULT_PROCESSING_FAILED_REOPEN_EXCLUDED_COMMAND_TYPES)
           then true
      else false
  end.

(** ** What an agent's frame stores *)

Inductive AgentStatus := completed | failed | timeout.

Record AgentCommandResult := mkFrame {
  fr_status : AgentStatus; fr_exitCode : option Z; fr_stdout : option string;
  fr_stderr : option string; fr_durationMs : option Z; fr_error : option string }.

Definition collapseAgentReportedTimeoutStatus (s : AgentStatus) : string :=
  match s with completed => "completed" | failed | timeout => "failed" end.

Definition field {A} (k : string) (f : A → json) (o : option A) : list (string * json) :=
  match o with Some a => [(k, f a)] | None => [] end.

Section writers.
Context (redact : string → string) (isRawStdoutArtifactCommand : string → bool).

(** The stored object; a field whose value is [undefined] is not stored. *)
Definition buildStoredCommandResult (commandType : string) (result : AgentCommandResult)
    : list (string * json) :=
  let skip := isRawStdoutArtifactCommand commandType in
  [("status", JStr (collapseAgentReportedTimeoutStatus (fr_status result)))]
  ++ field "exitCode" JNum (fr_exitCode result)
  ++ field "stdout" JStr ((λ s, if skip then s else redact s) <$> fr_stdout result)
  ++ field "stderr" JStr (redact <$> fr_stderr result)
  ++ field "durationMs" JNum (fr_durationMs result)
  ++ field "error" JStr
       (match fr_error result with
        | Some e => Some (redact e)
        | None => match fr_status result with timeout => Some "Agent reported a timeout" | _ => None end
        end).

(** [{ ...obj, k: v }]. *)
Definition with_key (k : string) (v : json) (obj : list (string * json)) : list (string * json) :=
  (k, v) :: List.filter (λ p, negb (String.eqb p.1 k)) obj.

(** The terminal compare-and-set of the ingest path, on the row the frame names.
    [ack]: the frame parses as a queue-admission ack, which counts only for the
    queued backup workloads. *)
Definition result_cas (now : Z) (frame : AgentCommandResult) (ack : bool) (r : CommandRow)
    : option CommandRow :=
  let isBackupAck := member (c_type r) QUEUED_BACKUP_WORKLOAD_COMMAND_TYPES && ack in
  let stored := buildStoredCommandResult (c_type r) frame in
  if String.eqb (c_targetRole r) "agent" && sql_holds (commandAcceptsAgentResultCondition r) then
    Some (mkCommand (c_id r) (c_deviceId r) (c_type r)
            (match fr_status frame with completed => "completed" | _ => "failed" end)
            (c_targetRole r) (c_executedAt r) (Some now)
            (Some (JObj (if isBackupAck then with_key "status" (JStr BACKUP_QUEUE_ACK_RESULT_STATUS) stored
                         else stored))))
  else None.

(** The timeout of [waitForCommandResult]. *)
Definition wait_timeout (now timeoutMs : Z) (r : CommandRow) : option CommandRow :=
  if member (c_status r) ["pending"; "sent"] then
    Some (mkCommand (c_id r) (c_deviceId r) (c_type r) "failed" (c_targetRole r) (c_executedAt r) (Some now)
            (Some (JObj [("status", JStr "timeout");
                         ("error", JStr ("Command timed out after " +:+ pretty timeoutMs +:+ "ms"));
                         ("timedOutBy", JStr "server")])))
  else None.

(** The reaper's write, guarded by the state it observed. *)
Definition reap (now : Z) (observedStatus : string) (observedExecutedAt : option Z)
    (extra : list (string * json)) (errorMsg : string) (r : CommandRow) : option CommandRow :=
  let observedGuard :=
    if String.eqb observedStatus "sent" then
      String.eqb (c_status r) "sent" && bool_decide (c_executedAt r = observedExecutedAt)
    else String.eqb (c_status r) "pending" in
  if observedGuard then
    Some (mkCommand (c_id r) (c_deviceId r) (c_type r) "failed" (c_targetRole r) (c_executedAt r) (Some now)
            (Some (JObj ([("status", JStr SERVER_TIMEOUT_RESULT_STATUS)] ++ extra
                         ++ [("error", JStr errorMsg); ("timedOutBy", JStr "server")]))))
  else None.

(** [reason] and [clock] of the two kinds of reaping. *)
Inductive ReapKind := Expired (reason : string) | TimedOut (deliveryDeferred : bool).
Definition reap_extra (k : ReapKind) : list (string * json) :=
  match k with
  | Expired reason => [("reason", JStr reason); ("clock", JStr "delivery")]
  | TimedOut true => [("reason", JStr "delivery_deferred")]
  | TimedOut false => []
  end.

Definition nonempty_error (stored : list (string * json)) : json :=
  match jget "error" (JObj stored) with
  | Some (JStr e) => if String.eqb e "" then JStr RESULT_PROCESSING_FAILED_MESSAGE else JStr e
  | _ => JStr RESULT_PROCESSING_FAILED_MESSAGE
  end.

Definition markCommandResultProcessingFailed (failedAt : Z) (targetRole : string)
    (stored : list (string * json)) (r : CommandRow) : option CommandRow :=
  if String.eqb (c_targetRole r) targetRole && sql_holds (commandAcceptsAgentResultCondition r) then
    Some (mkCommand (c_id r) (c_deviceId r) (c_type r) "failed" (c_targetRole r) (c_executedAt r) (Some failedAt)
            (Some (JObj (
              with_key "error" (nonempty_error stored)
              (with_key "processingError" (JStr RESULT_PROCESSING_FAILED_MESSAGE)
              (with_key "processingFailedAt" (JStr (toISOString failedAt))
              (with_key "agentStatus" (default JNull (jget "status" (JObj stored)))
              (with_key "status" (JStr RESULT_PROCESSING_FAILED_RESULT_STATUS) stored))))))))
  else None.

(** ** Histories of one row *)

Inductive step : CommandRow → CommandRow → Prop :=
| s_result now frame ack r r' : result_cas now frame ack r = Some r' → step r r'
| s_wait now ms r r' : wait_timeout now ms r = Some r' → step r r'
| s_reap now st ex k msg r r' : reap now st ex (reap_extra k) msg r = Some r' → step r r'
| s_park now role frame r r' :
    markCommandResultProcessingFailed now role (buildStoredCommandResult (c_type r) frame) r = Some r' →
    step r r'.

Definition accepts (r : CommandRow) : bool := sql_holds (commandAcceptsAgentResultCondition r).

(** ** Reading stored results *)

Lemma stored_status t frame :
  jget "status" (JObj (buildStoredCommandResult t frame))
  = Some (JStr (collapseAgentReportedTimeoutStatus (fr_status frame))).
Proof. done. Qed.

Lemma collapse_not_marker s :
  collapseAgentReportedTimeoutStatus s ≠ SERVER_TIMEOUT_RESULT_STATUS
  ∧ collapseAgentReportedTimeoutStatus s ≠ BACKUP_QUEUE_ACK_RESULT_STATUS
  ∧ collapseAgentReportedTimeoutStatus s ≠ RESULT_PROCESSING_FAILED_RESULT_STATUS.
Proof. by destruct s. Qed.

Lemma sql_holds_or a b : sql_holds (sql_or a b) = sql_holds a || sql_holds b.
Proof. by destruct a as [[]|], b as [[]|]. Qed.
Lemma sql_holds_and a b : sql_holds (sql_and a b) = sql_holds a && sql_holds b.
Proof. by destruct a as [[]|], b as [[]|]. Qed.
Lemma sql_holds_status res w : sql_holds (text_is res "status" w) = status_is res w.
Proof.
  unfold text_is, status_is. destruct (res ≫= jget "status") as [[]|]; try done. simpl.
  by destruct (String.eqb _ _).
Qed.
Lemma sql_holds_Some b : sql_holds (Some b) = b.
Proof. by destruct b. Qed.

Lemma accepts_eq r :
  accepts r =
  member (c_status r) ACCEPTED_COMMAND_RESULT_STATUSES
  || (String.eqb (c_status r) "failed" && (negb (member (c_type r) TIMEOUT_REOPEN_EXCLUDED_COMMAND_TYPES)
      && (status_is (c_result r) SERVER_TIMEOUT_RESULT_STATUS && text_not_null (c_result r) "timedOutBy")))
  || (String.eqb (c_status r) "completed" && (member (c_type r) QUEUED_BACKUP_WORKLOAD_COMMAND_TYPES
      && status_is (c_result r) BACKUP_QUEUE_ACK_RESULT_STATUS))
  || (String.eqb (c_status r) "failed"
      && (negb (member (c_type r) RESULT_PROCESSING_FAILED_REOPEN_EXCLUDED_COMMAND_TYPES)
      && (status_is (c_result r) RESULT_PROCESSING_FAILED_RESULT_STATUS
          && text_not_null (c_result r) "processingFailedAt"))).
Proof.
  unfold accepts, commandAcceptsAgentResultCondition.
  by rewrite ?sql_holds_or, ?sql_holds_and, ?sql_holds_or, ?sql_holds_and, !sql_holds_status, !sql_holds_Some, !orb_assoc.
Qed.

(** The SQL predicate and its in-memory twin accept the same rows, on every
    row with a non-empty status (three-valued logic on missing and null keys
    included). *)
Theorem acceptance_twins r (H : c_status r ≠ "") :
  commandAcceptsAgentResult (Some (c_status r)) (c_result r) (Some (c_type r)) = accepts r.
Proof.
  rewrite accepts_eq. unfold commandAcceptsAgentResult.
  assert (truthy (Some (c_status r)) = Some (c_status r)) as -> by (by destruct (c_status r)).
  change (default "" (Some (c_type r))) with (c_type r).
  assert (match truthy (Some (c_type r)) with
          | Some t => member t QUEUED_BACKUP_WORKLOAD_COMMAND_TYPES | None => false end
          = member (c_type r) QUEUED_BACKUP_WORKLOAD_COMMAND_TYPES) as -> by (by destruct (c_type r)).
  repeat match goal with |- context [String.eqb (c_status r) ?x] => destruct (String.eqb (c_status r) x) end;
    repeat match goal with
    | |- context [member ?x ?y] => destruct (member x y)
    | |- context [status_is ?x ?y] => destruct (status_is x y)
    | |- context [text_not_null ?x ?y] => destruct (text_not_null x y)
    end; done.
Qed.

(** A stored result never reopens its row, unless it is the ack of a queued
    backup workload. *)
Lemma result_cas_closes now frame ack r r' :
  result_cas now frame ack r = Some r' →
  accepts r' = true → c_type r ∈ QUEUED_BACKUP_WORKLOAD_COMMAND_TYPES ∧ ack = true
                      ∧ fr_status frame = completed.
Proof.
  unfold result_cas. intros H Ha. case_match; [|done]. simplify_eq.
  set (q := member (c_type r) QUEUED_BACKUP_WORKLOAD_COMMAND_TYPES) in *.
  assert (Hq : q = true → c_type r ∈ QUEUED_BACKUP_WORKLOAD_COMMAND_TYPES).
  { unfold q, member. rewrite existsb_exists. intros (x & Hx & Hx'). apply String.eqb_eq in Hx' as ->.
    by apply list_elem_of_In. }
  rewrite accepts_eq in Ha. cbn [c_status c_type c_result] in Ha. fold q in Ha.
  set (res := Some (JObj _)) in Ha.
  assert (Hst : ∀ w, status_is res w
    = String.eqb (if q && ack then BACKUP_QUEUE_ACK_RESULT_STATUS
                  else collapseAgentReportedTimeoutStatus (fr_status frame)) w)
    by (intros w; unfold res, status_is; by destruct (q && ack)).
  rewrite !Hst in Ha. clearbody res.
  destruct q, ack, (fr_status frame); simpl in Ha; rewrite ?andb_false_r in Ha; simpl in Ha; try done.
  split_and!; auto.
Qed.

Lemma member_elem x l : member x l = true ↔ x ∈ l.
Proof.
  unfold member. rewrite existsb_exists. setoid_rewrite String.eqb_eq. setoid_rewrite <-list_elem_of_In.
  naive_solver.
Qed.

Lemma not_accepting_not_live r :
  accepts r = false → member (c_status r) ["pending"; "sent"] = false.
Proof. rewrite accepts_eq. intros H. apply orb_false_iff in H as [H _]. by do 2 (apply orb_false_iff in H as [H _]). Qed.

(** No writer touches a row that accepts no result. *)
Lemma final_no_step r r' : accepts r = false → ¬ step r r'.
Proof.
  intros Ha Hs. pose proof (not_accepting_not_live r Ha) as Hl. unfold accepts in Ha. destruct Hs.
  - unfold result_cas in H. by rewrite Ha, andb_false_r in H.
  - unfold wait_timeout in H. by rewrite Hl in H.
  - unfold reap in H. simpl in Hl. bool_hyps. rewrite H0, H1 in H.
    by destruct (String.eqb st "sent").
  - unfold markCommandResultProcessingFailed in H. by rewrite Ha, andb_false_r in H.
Qed.

Lemma final_history r r' : accepts r = false → rtc step r r' → r' = r.
Proof. intros Ha Hs. destruct Hs as [|x y z Hxy _]; [done|]. by apply final_no_step in Hxy. Qed.

(** C30: A recorded result is final.  Once an agent's result has been stored,
    and it was not the queue-admission ack of a queued backup workload, no
    history of result frames, wait deadlines, reaper passes and failure parkings
    changes the row again, and every further frame (a duplicate delivery, or an
    agent that reported its own timeout and tries again) is refused. *)
Theorem recorded_result_is_final now frame ack r r' r''
    (H : result_cas now frame ack r = Some r')
    (Hack : c_type r ∈ QUEUED_BACKUP_WORKLOAD_COMMAND_TYPES → ack = true → fr_status frame ≠ completed)
    (Hs : rtc step r' r'') :
  r'' = r' ∧ ∀ now2 frame2 ack2, result_cas now2 frame2 ack2 r'' = None.
Proof.
  assert (Ha : accepts r' = false).
  { apply not_true_is_false. intros Ha. destruct (result_cas_closes _ _ _ _ _ H Ha) as (Hq & -> & Hc).
    by apply Hack. }
  rewrite (final_history r' r'' Ha Hs). split; [done|]. intros now2 frame2 ack2. unfold result_cas.
  unfold accepts in Ha. by rewrite Ha, andb_false_r.
Qed.

(** A row with the server's timeout marker, as both timeout writers leave it. *)
Definition timed_out (r r' : CommandRow) : Prop :=
  (∃ now ms, wait_timeout now ms r = Some r')
  ∨ (∃ now st ex k msg, reap now st ex (reap_extra k) msg r = Some r').

Lemma timed_out_shape r r' :
  timed_out r r' →
  c_type r' = c_type r ∧ c_targetRole r' = c_targetRole r ∧ c_status r' = "failed"
  ∧ status_is (c_result r') SERVER_TIMEOUT_RESULT_STATUS = true
  ∧ text_not_null (c_result r') "timedOutBy" = true.
Proof.
  intros [(now & ms & H)|(now & st & ex & k & msg & H)].
  - unfold wait_timeout in H. case_match; simplify_eq. done.
  - unfold reap in H. repeat (case_match; simplify_eq); by destruct k as [|[]].
Qed.

Lemma parked_shape now role frame r r' :
  markCommandResultProcessingFailed now role (buildStoredCommandResult (c_type r) frame) r = Some r' →
  c_type r' = c_type r ∧ c_targetRole r' = c_targetRole r ∧ c_status r' = "failed"
  ∧ status_is (c_result r') RESULT_PROCESSING_FAILED_RESULT_STATUS = true
  ∧ text_not_null (c_result r') "processingFailedAt" = true.
Proof.
  unfold markCommandResultProcessingFailed. intros H. case_match; [|done]. simplify_eq.
  split_and!; done.
Qed.

Lemma status_is_unique res v w : v ≠ w → status_is res v = true → status_is res w = false.
Proof.
  unfold status_is. destruct (res ≫= jget "status") as [[]|]; try done.
  intros Hne ->%String.eqb_eq. by apply String.eqb_neq.
Qed.

Lemma cas_of_accepts now frame ack r :
  c_targetRole r = "agent" → accepts r = true → ∃ r', result_cas now frame ack r = Some r'.
Proof. intros Hr Ha. unfold result_cas, accepts in *. rewrite Hr, Ha. eauto. Qed.

Lemma cas_refused now frame ack r : accepts r = false → result_cas now frame ack r = None.
Proof. intros Ha. unfold result_cas, accepts in *. by rewrite Ha, andb_false_r. Qed.

Lemma member_decide x l : member x l = bool_decide (x ∈ l).
Proof. apply eq_bool_prop_intro. by rewrite !Is_true_true, member_elem, bool_decide_eq_true. Qed.

Lemma accepts_failed r :
  c_status r = "failed" →
  accepts r =
  (negb (member (c_type r) TIMEOUT_REOPEN_EXCLUDED_COMMAND_TYPES)
   && (status_is (c_result r) SERVER_TIMEOUT_RESULT_STATUS && text_not_null (c_result r) "timedOutBy"))
  || (negb (member (c_type r) RESULT_PROCESSING_FAILED_REOPEN_EXCLUDED_COMMAND_TYPES)
      && (status_is (c_result r) RESULT_PROCESSING_FAILED_RESULT_STATUS
          && text_not_null (c_result r) "processingFailedAt")).
Proof. intros H. rewrite accepts_eq, H. simpl. by rewrite orb_false_r. Qed.

(** Provisional outcomes are provisional, and only for the types meant.
    After a server-side timeout the agent's late result is still recorded, except
    for a network diagnostic, for which every late frame is refused; after a
    failed persistence a resubmission is recorded, except for the network
    diagnostic and the two PAM actuation types, whose rows stay final. *)
Theorem late_result_recorded r r' (Hrole : c_targetRole r = "agent") :
  (timed_out r r' →
     if bool_decide (c_type r ∈ TIMEOUT_REOPEN_EXCLUDED_COMMAND_TYPES)
     then ∀ now frame ack, result_cas now frame ack r' = None
     else ∀ now frame ack, ∃ r'', result_cas now frame ack r' = Some r'')
  ∧ (∀ at' role frame0,
     markCommandResultProcessingFailed at' role (buildStoredCommandResult (c_type r) frame0) r = Some r' →
     if bool_decide (c_type r ∈ RESULT_PROCESSING_FAILED_REOPEN_EXCLUDED_COMMAND_TYPES)
     then ∀ now frame ack, result_cas now frame ack r' = None
     else ∀ now frame ack, ∃ r'', result_cas now frame ack r' = Some r'').
Proof.
  split.
  - intros (Ht & Hr & Hf & Hst & Hby)%timed_out_shape.
    assert (Ha : accepts r' = negb (bool_decide (c_type r ∈ TIMEOUT_REOPEN_EXCLUDED_COMMAND_TYPES))).
    { rewrite accepts_failed, Ht, Hst, Hby by done.
      rewrite (status_is_unique _ SERVER_TIMEOUT_RESULT_STATUS RESULT_PROCESSING_FAILED_RESULT_STATUS) by done.
      by rewrite !andb_false_r, orb_false_r, andb_true_r, member_decide. }
    case_bool_decide; intros; [by apply cas_refused|apply cas_of_accepts; [by rewrite Hr|done]].
  - intros at' role frame0 (Ht & Hr & Hf & Hst & Hby)%parked_shape.
    assert (Ha : accepts r' = negb (bool_decide (c_type r ∈ RESULT_PROCESSING_FAILED_REOPEN_EXCLUDED_COMMAND_TYPES))).
    { rewrite accepts_failed, Ht, Hst, Hby by done.
      rewrite (status_is_unique _ RESULT_PROCESSING_FAILED_RESULT_STATUS SERVER_TIMEOUT_RESULT_STATUS) by done.
      by rewrite andb_false_r, orb_false_l, andb_true_r, member_decide. }
    case_bool_decide; intros; [by apply cas_refused|apply cas_of_accepts; [by rewrite Hr|done]].
Qed.
End writers.

(** ** Witnesses *)

Definition ex_row : CommandRow :=
  mkCommand "c" "d" "run_script" "sent" "agent" (Some 5) None None.
Definition ex_frame : AgentCommandResult := mkFrame timeout (Some 1) (Some "out") None None None.
Definition id_text : string → string := λ s, s.
Definition never_raw : string → bool := λ _, false.

Lemma acceptance_twins_witness :
  commandAcceptsAgentResult (Some (c_status ex_row)) (c_result ex_row) (Some (c_type ex_row)) = accepts ex_row.
Proof. apply (acceptance_twins ex_row). done. Defined.

Lemma recorded_result_is_final_witness :
  ∃ r', result_cas id_text never_raw 9 ex_frame false ex_row = Some r'
    ∧ result_cas id_text never_raw 10 ex_frame false r' = None.
Proof.
  destruct (result_cas id_text never_raw 9 ex_frame false ex_row) as [r'|] eqn:E; [|by vm_compute in E].
  exists r'. split; [done|].
  apply (recorded_result_is_final id_text never_raw 9 ex_frame false ex_row r' r'); done.
Defined.

Lemma late_result_recorded_witness :
  ∃ r', wait_timeout 60 30000 ex_row = Some r'
    ∧ ∃ r'', result_cas id_text never_raw 61 ex_frame false r' = Some r''.
Proof.
  destruct (wait_timeout 60 30000 ex_row) as [r'|] eqn:E; [|by vm_compute in E].
  exists r'. split; [done|].
  destruct (late_result_recorded id_text never_raw ex_row r' eq_refl) as [H _].
  apply H. left. eauto.
Defined.
End Commands.
