(* ===== verification/IpAccess.v ===== *)
(** * IP matching and the partner allowlist

    Models [apps/api/src/services/ipMatch.ts] (IPv4/IPv6 parsing, CIDR matching,
    the /64 rate-limit prefix, entry validation) and, of
    [apps/api/src/services/ipAllowlist.ts], the decision
    [evaluateIpAllowlist], the cached read [readPartnerAllowlist] with
    [clearPartnerAllowlistCache], and [enforceIpAllowlist] with the audit events
    and warnings it writes.

    Addresses are integers as the code's [bigint]s are.  A read that nothing
    interleaves with is a function; for the staleness of the cache the read is
    split at its query, and reads, invalidations and changes of the table
    interleave as steps of a [World]. *)
From S2P Require Import Prelude JsText.
From stdpp Require Import base tactics list list_numbers strings gmap sets.
From Stdlib Require Import ZArith Lia Ascii.
Open Scope Z_scope.

Module IpMatch.

(** ** IPv4 *)

Definition octet (part : string) : option Z :=
  let l := chars part in
  if (1 <=? Z.of_nat (length l)) && (Z.of_nat (length l) <=? 3) && all_digits l then
    let n := digits_val l in if 255 <? n then None else Some n
  else None.

Fixpoint fold_octets (result : Z) (parts : list string) : option Z :=
  match parts with
  | [] => Some result
  | p :: ps => n ← octet p; fold_octets (Z.lor (Z.shiftl result 8) n) ps
  end.

Definition ipv4ToInt (ip : string) : option Z :=
  let parts := js_split "."%char ip in
  if negb (Z.of_nat (length parts) =? 4) then None else fold_octets 0 parts.

(** ** IPv6 *)

Definition hex_digit (n : Z) : ascii :=
  ascii_of_nat (Z.to_nat (if n <? 10 then 48 + n else 87 + n)).

(** [n.toString(16)] for [n] below 2^16. *)
Definition toString16 (n : Z) : string :=
  of_chars (match List.filter (λ p : bool * ascii, p.1)
                    [(4096 <=? n, hex_digit (n / 4096)); (256 <=? n, hex_digit (n / 256 mod 16));
                     (16 <=? n, hex_digit (n / 16 mod 16)); (true, hex_digit (n mod 16))]
            with l => snd <$> l end).

Definition hex_val (c : ascii) : option Z :=
  if is_digit c then Some (code c - 48)
  else if (97 <=? code c) && (code c <=? 102) then Some (code c - 87)
  else if (65 <=? code c) && (code c <=? 70) then Some (code c - 55)
  else None.

Fixpoint hex_digits (acc : Z) (l : list ascii) : option Z :=
  match l with [] => Some acc | c :: l' => v ← hex_val c; hex_digits (acc * 16 + v) l' end.

(** [/^[0-9a-fA-F]{1,4}$/], then [parseInt(g, 16)]. *)
Definition group_val (g : string) : option Z :=
  let l := chars g in
  if (1 <=? Z.of_nat (length l)) && (Z.of_nat (length l) <=? 4) then hex_digits 0 l else None.

(** [s.split('::')]. *)
Fixpoint split_dcolon (cur l : list ascii) : list (list ascii) :=
  match l with
  | [] => [reverse cur]
  | c :: l' =>
      match l' with
      | d :: l'' => if Ascii.eqb c ":" && Ascii.eqb d ":" then reverse cur :: split_dcolon [] l''
                    else split_dcolon (c :: cur) l'
      | [] => [reverse (c :: cur)]
      end
  end.

(** The text before the first [c], all of it if there is none. *)
Fixpoint before (c : ascii) (l : list ascii) : list ascii :=
  match l with [] => [] | d :: l' => if Ascii.eqb d c then [] else d :: before c l' end.

Fixpoint expand_parts (ps : list string) : option (list string) :=
  match ps with
  | [] => Some []
  | p :: ps' =>
      here ← (if includes p "." then
                v4 ← ipv4ToInt p;
                Some [toString16 (Z.land (Z.shiftr v4 16) 65535); toString16 (Z.land v4 65535)]
              else Some [p]);
      rest ← expand_parts ps';
      Some (here ++ rest)
  end.

Definition expand (segment : string) : option (list string) :=
  if String.eqb segment "" then Some [] else expand_parts (js_split ":"%char segment).

Fixpoint fold_groups (result : Z) (gs : list string) : option Z :=
  match gs with
  | [] => Some result
  | g :: gs' => v ← group_val g; fold_groups (Z.lor (Z.shiftl result 16) v) gs'
  end.

Definition ipv6ToInt (ip : string) : option Z :=
  let s := before "%"%char (chars ip) in
  match of_chars <$> split_dcolon [] s with
  | [h] =>
      groups ← expand h;
      if negb (Z.of_nat (length groups) =? 8) then None else fold_groups 0 groups
  | [h; t] =>
      head ← expand h;
      tail ← expand t;
      let missing := 8 - Z.of_nat (length head + length tail) in
      if missing <? 0 then None
      else fold_groups 0 (head ++ replicate (Z.to_nat missing) "0" ++ tail)
  | _ => None
  end.

(** ** Entries *)

Definition isV6 (s : string) : bool := includes s ":".

Definition to_int (v6 : bool) (s : string) : option Z := if v6 then ipv6ToInt s else ipv4ToInt s.
Definition width (v6 : bool) : Z := if v6 then 128 else 32.

(** What follows the first slash, if there is one. *)
Fixpoint after_slash (l : list ascii) : option (list ascii) :=
  match l with [] => None | c :: l' => if Ascii.eqb c "/" then Some l' else after_slash l' end.

Definition network_of (entry : string) : string := of_chars (before "/"%char (chars entry)).

(** The number of bits of a CIDR suffix. *)
Definition prefix_bits (maxBits : Z) (bitsRaw : list ascii) : option Z :=
  if negb (match bitsRaw with [] => false | _ => all_digits bitsRaw end) then None
  else let bits := digits_val bitsRaw in if maxBits <? bits then None else Some bits.

Definition mask_of (totalBits bits : Z) : Z :=
  if bits =? 0 then 0 else Z.shiftl (Z.shiftl 1 bits - 1) (totalBits - bits).

Definition matchOne (ip entry : string) : bool :=
  let network := network_of entry in
  let v6 := isV6 network in
  if negb (Bool.eqb v6 (isV6 ip)) then false
  else
    match to_int v6 ip, to_int v6 network with
    | Some ipNum, Some netNum =>
        match after_slash (chars entry) with
        | None => ipNum =? netNum
        | Some bitsRaw =>
            match prefix_bits (width v6) bitsRaw with
            | None => false
            | Some bits =>
                let mask := mask_of (width v6) bits in Z.land ipNum mask =? Z.land netNum mask
            end
        end
    | _, _ => false
    end.

Definition ipMatchesAny (ip : string) (entries : list string) : bool :=
  existsb (λ raw, let entry := trim raw in negb (String.eqb entry "") && matchOne ip entry) entries.

Definition isValidIpOrCidr (entry : string) : bool :=
  let trimmed := trim entry in
  if String.eqb trimmed "" then false
  else
    let network := network_of trimmed in
    let v6 := isV6 network in
    match to_int v6 network with
    | None => false
    | Some _ =>
        match after_slash (chars trimmed) with
        | None => true
        | Some bitsRaw => bool_decide (is_Some (prefix_bits (width v6) bitsRaw))
        end
    end.

(** ** The /64 prefix *)

(** Drop trailing zero groups, keeping at least one ([groups] is given last
    group first). *)
Fixpoint drop_zero_groups (rev_groups : list string) : list string :=
  match rev_groups with
  | [] => []
  | g :: rest =>
      match rest with
      | [] => [g]
      | _ :: _ => if String.eqb g "0" then drop_zero_groups rest else g :: rest
      end
  end.

Fixpoint join_colon (gs : list string) : string :=
  match gs with [] => "" | [g] => g | g :: gs' => g +:+ ":" +:+ join_colon gs' end.

Definition prefix_groups (n : Z) : list string :=
  (λ i, toString16 (Z.land (Z.shiftr n (64 + i * 16)) 65535)) <$> [3; 2; 1; 0].

Definition ipv6NetworkPrefix64 (ip : string) : option string :=
  if negb (isV6 ip) then None
  else
    n ← ipv6ToInt ip;
    if Z.shiftr n 64 =? 0 then None
    else Some (join_colon (reverse (drop_zero_groups (reverse (prefix_groups n)))) +:+ "::").

(** ** Bit arithmetic *)

Lemma lor_shiftl r k n : 0 ≤ k → 0 ≤ n < 2 ^ k → Z.lor (Z.shiftl r k) n = r * 2 ^ k + n.
Proof.
  intros Hk Hn. rewrite <-Z.shiftl_mul_pow2 by done.
  assert (Z.land (Z.shiftl r k) n = 0) as H0.
  { apply Z.bits_inj'. intros i Hi. rewrite Z.land_spec, Z.bits_0, Z.shiftl_spec by done.
    destruct (Z.lt_ge_cases i k); [by rewrite Z.testbit_neg_r by lia|].
    rewrite <-(Z.mod_small n (2 ^ k)) by done. rewrite Z.mod_pow2_bits_high by lia. apply andb_false_r. }
  by rewrite Z.add_nocarry_lxor, Z.lxor_lor.
Qed.

Lemma land_mask W bits a :
  0 ≤ bits ≤ W → 0 ≤ a < 2 ^ W →
  Z.land a (mask_of W bits) = a / 2 ^ (W - bits) * 2 ^ (W - bits).
Proof.
  intros Hb Ha. rewrite <-Z.shiftr_div_pow2, <-Z.shiftl_mul_pow2 by lia. unfold mask_of.
  destruct (Z.eqb_spec bits 0) as [->|Hne].
  - rewrite Z.land_0_r, Z.sub_0_r, Z.shiftr_div_pow2, Z.div_small by lia. by rewrite Z.shiftl_0_l.
  - apply Z.bits_inj'. intros i Hi. rewrite Z.land_spec, !Z.shiftl_spec by lia.
    destruct (Z.lt_ge_cases i (W - bits)).
    { rewrite !(Z.testbit_neg_r _ (i - (W - bits))) by lia. apply andb_false_r. }
    rewrite Z.shiftr_spec by lia. replace (i - (W - bits) + (W - bits)) with i by lia.
    replace (Z.shiftl 1 bits - 1) with (Z.ones bits) by (unfold Z.ones; lia).
    destruct (Z.lt_ge_cases i W); [by rewrite Z.ones_spec_low, andb_true_r by lia|].
    rewrite <-(Z.mod_small a (2 ^ W)), Z.mod_pow2_bits_high by lia. done.
Qed.

Lemma land_ffff a : 0 ≤ Z.land a 65535 < 65536.
Proof. change 65535 with (Z.ones 16). rewrite Z.land_ones by lia. apply Z.mod_pos_bound. lia. Qed.

(** ** Bounds of parsed addresses *)

Lemma octet_range p n : octet p = Some n → 0 ≤ n < 2 ^ 8.
Proof.
  unfold octet. intros H. case_match eqn:E; [|done]. case_match; simplify_eq. bool_hyps.
  pose proof (digits_val_range (chars p) ltac:(done)). change (2 ^ 8) with 256. lia.
Qed.

Lemma fold_octets_range ps r n :
  0 ≤ r → fold_octets r ps = Some n →
  r * 2 ^ (8 * Z.of_nat (length ps)) ≤ n < (r + 1) * 2 ^ (8 * Z.of_nat (length ps)).
Proof.
  revert r. induction ps as [|p ps IH]; intros r Hr H; simpl in H; [simplify_eq; simpl; lia|].
  apply bind_Some in H as (o & Ho & H). apply octet_range in Ho. rewrite lor_shiftl in H by lia.
  apply IH in H; [|lia]. cbn [length]. replace (8 * Z.of_nat (S (length ps))) with (8 + 8 * Z.of_nat (length ps)) by lia.
  rewrite Z.pow_add_r by lia. set (q := 2 ^ (8 * Z.of_nat (length ps))) in *.
  assert (0 < q) by (apply Z.pow_pos_nonneg; lia). nia.
Qed.

Lemma ipv4ToInt_range ip n : ipv4ToInt ip = Some n → 0 ≤ n < 2 ^ 32.
Proof.
  unfold ipv4ToInt. intros H. case_match; [done|]. bool_hyps.
  apply fold_octets_range in H; [|lia]. by replace (8 * Z.of_nat (length (js_split "." ip))) with 32 in H by lia.
Qed.

Lemma hex_val_range c v : hex_val c = Some v → 0 ≤ v < 16.
Proof. unfold hex_val, is_digit. intros H. repeat (case_match; simplify_eq); bool_hyps; lia. Qed.

Lemma hex_digits_range l acc v :
  0 ≤ acc → hex_digits acc l = Some v → 0 ≤ v < (acc + 1) * 16 ^ Z.of_nat (length l).
Proof.
  revert acc. induction l as [|c l IH]; intros acc Ha H; simpl in H; [simplify_eq; simpl; lia|].
  apply bind_Some in H as (d & Hd & H). apply hex_val_range in Hd. apply IH in H; [|lia].
  cbn [length]. rewrite Nat2Z.inj_succ, Z.pow_succ_r by lia.
  assert (0 < 16 ^ Z.of_nat (length l)) by (apply Z.pow_pos_nonneg; lia). nia.
Qed.

Lemma group_val_range g v : group_val g = Some v → 0 ≤ v < 2 ^ 16.
Proof.
  unfold group_val. intros H. case_match; [|done]. bool_hyps. apply hex_digits_range in H; [|lia].
  assert (16 ^ Z.of_nat (length (chars g)) ≤ 16 ^ 4) by (apply Z.pow_le_mono_r; lia).
  change (16 ^ 4) with 65536 in *. change (2 ^ 16) with 65536. lia.
Qed.

Lemma fold_groups_range gs r n :
  0 ≤ r → fold_groups r gs = Some n →
  r * 2 ^ (16 * Z.of_nat (length gs)) ≤ n < (r + 1) * 2 ^ (16 * Z.of_nat (length gs)).
Proof.
  revert r. induction gs as [|g gs IH]; intros r Hr H; simpl in H; [simplify_eq; simpl; lia|].
  apply bind_Some in H as (o & Ho & H). apply group_val_range in Ho. rewrite lor_shiftl in H by lia.
  apply IH in H; [|lia]. cbn [length]. replace (16 * Z.of_nat (S (length gs))) with (16 + 16 * Z.of_nat (length gs)) by lia.
  rewrite Z.pow_add_r by lia. set (q := 2 ^ (16 * Z.of_nat (length gs))) in *.
  assert (0 < q) by (apply Z.pow_pos_nonneg; lia). nia.
Qed.

Lemma ipv6ToInt_range ip n : ipv6ToInt ip = Some n → 0 ≤ n < 2 ^ 128.
Proof.
  unfold ipv6ToInt. destruct (of_chars <$> _) as [|h [|t [|]]]; try done; intros H.
  - apply bind_Some in H as (gs & _ & H). case_match; [done|]. bool_hyps.
    apply fold_groups_range in H; [|lia]. by replace (16 * Z.of_nat (length gs)) with 128 in H by lia.
  - apply bind_Some in H as (hd & _ & H). apply bind_Some in H as (tl & _ & H). case_match; [done|]. bool_hyps.
    apply fold_groups_range in H; [|lia]. rewrite !length_app, length_replicate in H.
    replace (16 * _) with 128 in H by lia. done.
Qed.

Lemma to_int_range v6 s n : to_int v6 s = Some n → 0 ≤ n < 2 ^ width v6.
Proof. destruct v6; [apply ipv6ToInt_range|apply ipv4ToInt_range]. Qed.

Lemma prefix_bits_range m l b : prefix_bits m l = Some b → 0 ≤ b ≤ m.
Proof.
  unfold prefix_bits. intros H. destruct l as [|c l]; [done|]. case_match; [done|]. bool_hyps.
  case_match; simplify_eq. bool_hyps. pose proof (digits_val_range (c :: l) ltac:(done)). lia.
Qed.

(** ** What an entry covers *)

(** The number of leading bits an entry fixes: all of them without a suffix. *)
Definition entry_bits (v6 : bool) (entry : string) : option Z :=
  match after_slash (chars entry) with
  | None => Some (width v6)
  | Some raw => prefix_bits (width v6) raw
  end.

(** [matchOne] read as a comparison of leading bits. *)
Definition entry_covers (ip entry : string) : Prop :=
  ∃ v6 a b bits, isV6 ip = v6 ∧ isV6 (network_of entry) = v6
    ∧ to_int v6 ip = Some a ∧ to_int v6 (network_of entry) = Some b ∧ entry_bits v6 entry = Some bits
    ∧ 0 ≤ a < 2 ^ width v6 ∧ 0 ≤ b < 2 ^ width v6 ∧ 0 ≤ bits ≤ width v6
    ∧ a / 2 ^ (width v6 - bits) = b / 2 ^ (width v6 - bits).

Lemma cidr_spec ip entry : matchOne ip entry = true ↔ entry_covers ip entry.
Proof.
  unfold matchOne, entry_covers, entry_bits. set (v6 := isV6 (network_of entry)). split.
  - destruct (Bool.eqb_spec v6 (isV6 ip)) as [Hf|]; [|done]. simpl.
    destruct (to_int v6 ip) as [a|] eqn:Ea; [|done]. destruct (to_int v6 (network_of entry)) as [b|] eqn:Eb; [|done].
    pose proof (to_int_range _ _ _ Ea). pose proof (to_int_range _ _ _ Eb).
    destruct (after_slash (chars entry)) as [raw|] eqn:Es.
    + destruct (prefix_bits (width v6) raw) as [bits|] eqn:Ep; [|done].
      pose proof (prefix_bits_range _ _ _ Ep). rewrite !land_mask by done. intros Hm%Z.eqb_eq.
      exists v6, a, b, bits. split_and!; try done; [lia..|].
      apply Z.mul_cancel_r in Hm; [done|]. assert (0 < 2 ^ (width v6 - bits)) by (apply Z.pow_pos_nonneg; lia). lia.
    + intros ->%Z.eqb_eq. assert (0 ≤ width v6) by (unfold width; case_match; lia).
      exists v6, b, b, (width v6). split_and!; try done; lia.
  - intros (w & a & b & bits & Hip & Hnet & Ha & Hb & Hbits & Ra & Rb & Rbits & Heq).
    change (isV6 (network_of entry)) with v6 in Hnet. rewrite Hip, Hnet, Bool.eqb_reflx. simpl. rewrite Ha, Hb.
    destruct (after_slash (chars entry)) as [raw|]; [|simplify_eq].
    + rewrite Hbits, !land_mask by done. apply Z.eqb_eq. by rewrite Heq.
    + rewrite Z.sub_diag, Z.pow_0_r, !Z.div_1_r in Heq. by apply Z.eqb_eq.
Qed.

(** ** The /64 prefix *)

Lemma hex_val_digit d : 0 ≤ d < 16 → hex_val (hex_digit d) = Some d.
Proof.
  assert (forallb (λ d, bool_decide (hex_val (hex_digit d) = Some d)) (seqZ 0 16) = true) as H by (by vm_compute).
  intros Hd. rewrite forallb_forall in H. eapply bool_decide_eq_true_1, H.
  rewrite <-list_elem_of_In, elem_of_seqZ. lia.
Qed.

Definition is_hex (c : ascii) : bool := match hex_val c with Some _ => true | None => false end.

(** A printed group reads back as its number. *)
Lemma toString16_spec n :
  0 ≤ n < 65536 →
  group_val (toString16 n) = Some n ∧ chars (toString16 n) ≠ [] ∧ forallb is_hex (chars (toString16 n)) = true.
Proof.
  intros Hn. unfold group_val, toString16. rewrite chars_of_chars.
  assert (R3 : 0 ≤ n / 4096 < 16) by (Z.to_euclidean_division_equations; lia).
  assert (R2 : 0 ≤ n / 256 mod 16 < 16) by (Z.to_euclidean_division_equations; lia).
  assert (R1 : 0 ≤ n / 16 mod 16 < 16) by (Z.to_euclidean_division_equations; lia).
  assert (R0 : 0 ≤ n mod 16 < 16) by (Z.to_euclidean_division_equations; lia).
  apply hex_val_digit in R3 as E3, R2 as E2, R1 as E1, R0 as E0.
  destruct (Z.leb_spec 4096 n), (Z.leb_spec 256 n), (Z.leb_spec 16 n); try lia; simpl; unfold is_hex;
    rewrite ?E3, ?E2, ?E1, ?E0; simpl; rewrite ?E3, ?E2, ?E1, ?E0; simpl; rewrite ?E1, ?E0; simpl; rewrite ?E0; simpl;
    split_and!; try done; f_equal; Z.to_euclidean_division_equations; lia.
Qed.

Lemma hex_not_special c : is_hex c = true → c ≠ ":"%char ∧ c ≠ "%"%char ∧ c ≠ "."%char.
Proof. intros H. split_and!; intros ->; by vm_compute in H. Qed.

(** A printed group: hexadecimal digits, at least one. *)
Definition hex_string (g : string) : Prop := chars g ≠ [] ∧ forallb is_hex (chars g) = true.

Lemma drop_zero_groups_spec l :
  l ≠ [] → ∃ k, l = replicate k "0" ++ drop_zero_groups l ∧ drop_zero_groups l ≠ [].
Proof.
  induction l as [|g [|g' l] IH]; intros Hne; [done|by exists O|].
  cbn [drop_zero_groups]. destruct (String.eqb_spec g "0") as [->|]; [|by exists O].
  destruct IH as (k & Hk & Hn); [done|]. exists (S k). split; [|done]. simpl. by f_equal.
Qed.

Lemma chars_join g g' gs :
  chars (join_colon (g :: g' :: gs)) = chars g ++ ":"%char :: chars (join_colon (g' :: gs)).
Proof. cbn [join_colon]. by rewrite !chars_app. Qed.

Lemma split_dcolon_skip h cur d rest :
  forallb is_hex h = true → split_dcolon cur (h ++ d :: rest) = split_dcolon (reverse h ++ cur) (d :: rest).
Proof.
  revert cur. induction h as [|c h IH]; intros cur Hh; [done|]. simpl in Hh. bool_hyps.
  assert (Ascii.eqb c ":" = false) as Hc by (apply Ascii.eqb_neq; by apply hex_not_special).
  rewrite reverse_cons, <-(assoc (++)). change ([c] ++ cur) with (c :: cur). rewrite <-IH by done.
  cbn [app split_dcolon]. destruct (h ++ d :: rest) as [|e r] eqn:E; [by destruct h|]. by rewrite Hc.
Qed.

Lemma split_dcolon_step cur c d l :
  d ≠ ":"%char → split_dcolon cur (c :: d :: l) = split_dcolon (c :: cur) (d :: l).
Proof.
  intros Hd. apply Ascii.eqb_neq in Hd. cbn [split_dcolon]. by rewrite Hd, andb_false_r.
Qed.

Lemma split_dcolon_join gs cur :
  gs ≠ [] → Forall hex_string gs →
  split_dcolon cur (chars (join_colon gs) ++ [":"; ":"]%char) = [reverse cur ++ chars (join_colon gs); []].
Proof.
  revert cur. induction gs as [|g [|g' gs] IH]; intros cur Hne Hg; [done| |].
  - inversion Hg as [|? ? [_ Hx] _]; subst. cbn [join_colon]. rewrite split_dcolon_skip by done. simpl.
    by rewrite reverse_app, reverse_involutive.
  - inversion Hg as [|? ? [_ Hx] Hg']; subst. rewrite chars_join, <-(assoc (++)), <-app_comm_cons.
    rewrite split_dcolon_skip by done.
    assert (∃ d r, chars (join_colon (g' :: gs)) ++ [":"; ":"]%char = d :: r ∧ d ≠ ":"%char) as (d & r & E & Hd).
    { inversion Hg' as [|? ? [Hc Hx'] _]; subst.
      assert (∃ u, chars (join_colon (g' :: gs)) = chars g' ++ u) as [u ->]
        by (destruct gs; [exists []; by rewrite app_nil_r|rewrite chars_join; eauto]).
      destruct (chars g') as [|d r]; [done|]. simpl in *. bool_hyps. do 2 eexists; split; [done|].
      by apply hex_not_special. }
    specialize (IH (":"%char :: reverse (chars g) ++ cur) ltac:(done) Hg'). rewrite E in *.
    rewrite split_dcolon_step, IH by done. f_equal.
    rewrite reverse_cons, reverse_app, reverse_involutive, <-!(assoc (++)). done.
Qed.

Lemma split_on_join gs :
  gs ≠ [] → Forall hex_string gs → of_chars <$> split_on ":"%char [] (chars (join_colon gs)) = gs.
Proof.
  intros Hne Hg. induction gs as [|g [|g' gs] IH]; [done| |].
  - inversion Hg as [|? ? [_ Hx] _]; subst. cbn [join_colon].
    rewrite split_on_end by (by apply (forallb_not_elem is_hex)). simpl. by rewrite of_chars_chars.
  - inversion Hg as [|? ? [_ Hx] Hg']; subst. rewrite chars_join, split_on_app by (by apply (forallb_not_elem is_hex)).
    simpl. rewrite of_chars_chars. f_equal. by apply IH.
Qed.

Lemma expand_parts_hex gs : Forall hex_string gs → expand_parts gs = Some gs.
Proof.
  induction 1 as [|g gs [_ Hx] _ IH]; [done|]. simpl.
  assert (includes g "." = false) as ->.
  { unfold includes. change (chars ".") with ["."%char]. induction (chars g) as [|c l IHl]; [done|].
    simpl in Hx. bool_hyps. cbn [infixb prefixb]. rewrite IHl by done.
    destruct (Ascii.eqb_spec "." c) as [<-|]; [by vm_compute in H|done]. }
  by rewrite IH.
Qed.

Lemma before_absent c l : c ∉ l → before c l = l.
Proof.
  induction l as [|d l IH]; [done|]. rewrite not_elem_of_cons. intros [Hc Hl]. simpl.
  destruct (Ascii.eqb_spec d c) as [->|]; [done|]. by rewrite IH.
Qed.

Lemma join_no_percent gs : Forall hex_string gs → "%"%char ∉ chars (join_colon gs).
Proof.
  induction 1 as [|g gs [_ Hx] Hg IH]; [by apply not_elem_of_nil|].
  assert (Hn : "%"%char ∉ chars g) by (by apply (forallb_not_elem is_hex)).
  destruct gs as [|g' gs]; [done|]. rewrite chars_join, not_elem_of_app, not_elem_of_cons. done.
Qed.

Lemma expand_join gs : gs ≠ [] → Forall hex_string gs → expand (join_colon gs) = Some gs.
Proof.
  intros Hne Hg. unfold expand.
  assert (String.eqb (join_colon gs) "" = false) as ->.
  { apply String.eqb_neq. intros E. destruct gs as [|g [|g' gs]]; [done| |].
    - inversion Hg as [|? ? [Hc _] _]; subst. apply Hc. simpl in E. by rewrite E.
    - apply (f_equal chars) in E. rewrite chars_join in E. by destruct (chars g). }
  unfold js_split. by rewrite split_on_join, expand_parts_hex.
Qed.

(** Groups followed by [::] parse as the groups padded with zeros. *)
Lemma ipv6ToInt_groups gs :
  gs ≠ [] → Forall hex_string gs → (length gs ≤ 8)%nat →
  ipv6ToInt (join_colon gs +:+ "::") = fold_groups 0 (gs ++ replicate (8 - length gs) "0").
Proof.
  intros Hne Hg Hl. unfold ipv6ToInt. rewrite chars_app. change (chars "::") with [":"; ":"]%char.
  rewrite before_absent by (apply not_elem_of_app; split;
    [by apply join_no_percent|by apply (forallb_not_elem (Ascii.eqb ":"))]).
  rewrite split_dcolon_join by done. change (reverse []) with (@nil ascii). cbn [app fmap list_fmap].
  rewrite of_chars_chars, expand_join by done. change (expand (of_chars [])) with (Some (@nil string)).
  cbn [mbind option_bind length]. destruct (Z.ltb_spec (8 - Z.of_nat (length gs + 0)) 0); [lia|].
  rewrite app_nil_r. do 3 f_equal. lia.
Qed.

Lemma fold_groups_app r gs hs : fold_groups r (gs ++ hs) = fold_groups r gs ≫= λ r', fold_groups r' hs.
Proof.
  revert r. induction gs as [|g gs IH]; intros r; [done|]. simpl. destruct (group_val g); [|done]. apply IH.
Qed.

Lemma fold_groups_values r vs :
  Forall (λ v, 0 ≤ v < 65536) vs → fold_groups r (toString16 <$> vs) = Some (foldl (λ a v, a * 65536 + v) r vs).
Proof.
  intros Hv. revert r. induction Hv as [|v vs Hv _ IH]; intros r; [done|]. simpl.
  destruct (toString16_spec v Hv) as (-> & _). simpl. rewrite lor_shiftl by (change (2 ^ 16) with 65536; lia).
  apply IH.
Qed.

Definition prefix_values (n : Z) : list Z := (λ i, Z.land (Z.shiftr n (64 + i * 16)) 65535) <$> [3; 2; 1; 0].

Lemma prefix_values_sum n :
  0 ≤ n < 2 ^ 128 → foldl (λ a v, a * 65536 + v) 0 (prefix_values n) = n / 2 ^ 64.
Proof.
  intros Hn. unfold prefix_values. cbn [fmap list_fmap foldl]. change 65535 with (Z.ones 16).
  rewrite !Z.land_ones, !Z.shiftr_div_pow2 by lia.
  change (64 + 3 * 16) with 112. change (64 + 2 * 16) with 96. change (64 + 1 * 16) with 80.
  change (64 + 0 * 16) with 64. change (2 ^ 16) with 65536. set (q := n / 2 ^ 64).
  replace (n / 2 ^ 112) with (q / 281474976710656) by (unfold q; rewrite Z.div_div by lia; done).
  replace (n / 2 ^ 96) with (q / 4294967296) by (unfold q; rewrite Z.div_div by lia; done).
  replace (n / 2 ^ 80) with (q / 65536) by (unfold q; rewrite Z.div_div by lia; done).
  assert (0 ≤ q < 18446744073709551616) by (unfold q; Z.to_euclidean_division_equations; lia).
  clearbody q. Z.to_euclidean_division_equations. lia.
Qed.

Definition prefix_text (n : Z) : string :=
  join_colon (reverse (drop_zero_groups (reverse (prefix_groups n)))) +:+ "::".

Lemma prefix_values_range n : Forall (λ v, 0 ≤ v < 65536) (prefix_values n).
Proof. unfold prefix_values. rewrite Forall_fmap. apply Forall_forall. intros i _. apply land_ffff. Qed.

Lemma prefix_text_parses n : 0 ≤ n < 2 ^ 128 → ipv6ToInt (prefix_text n) = Some (n / 2 ^ 64 * 2 ^ 64).
Proof.
  intros Hn. unfold prefix_text. change (prefix_groups n) with (toString16 <$> prefix_values n).
  pose proof (prefix_values_range n) as Hv. set (pg := toString16 <$> prefix_values n).
  assert (Hpg : Forall hex_string pg).
  { unfold pg. rewrite Forall_fmap. eapply Forall_impl; [exact Hv|]. intros v Hv'.
    by destruct (toString16_spec v Hv') as (_ & ? & ?). }
  destruct (drop_zero_groups_spec (reverse pg)) as (k & Hk & Hne); [done|].
  set (d := drop_zero_groups (reverse pg)) in *.
  assert (Hsplit : pg = reverse d ++ replicate k "0").
  { by rewrite <-(reverse_involutive pg), Hk, reverse_app, reverse_replicate. }
  assert (Hlen : (length (reverse d) + k = 4)%nat)
    by (rewrite <-(length_replicate k "0"), <-length_app, <-Hsplit; done).
  rewrite Hsplit, Forall_app in Hpg. rewrite ipv6ToInt_groups; [| |by apply Hpg|lia].
  2: { intros E. apply Hne. by rewrite <-(reverse_involutive d), E. }
  replace (8 - length (reverse d))%nat with (k + 4)%nat by lia.
  rewrite replicate_add, (assoc (++)), <-Hsplit, fold_groups_app. unfold pg. rewrite fold_groups_values by done.
  cbn [mbind option_bind]. rewrite prefix_values_sum by done.
  change (replicate 4 "0") with (toString16 <$> [0; 0; 0; 0]).
  rewrite fold_groups_values by (repeat constructor; lia). simpl. f_equal. lia.
Qed.

Lemma prefix64_text ip n p :
  ipv6ToInt ip = Some n → ipv6NetworkPrefix64 ip = Some p → p = prefix_text n ∧ n / 2 ^ 64 ≠ 0.
Proof.
  intros Hn. unfold ipv6NetworkPrefix64. rewrite Hn. case_match; [done|]. cbn [mbind option_bind].
  rewrite Z.shiftr_div_pow2 by lia. destruct (Z.eqb_spec (n / 2 ^ 64) 0) as [|Hnz]; [discriminate|].
  fold (prefix_text n). intros E. apply (inj Some) in E. split; [exact (eq_sym E)|exact Hnz].
Qed.

Lemma prefix_text_high a b : a / 2 ^ 64 = b / 2 ^ 64 → prefix_text a = prefix_text b.
Proof.
  intros E. unfold prefix_text. enough (prefix_groups a = prefix_groups b) as -> by done.
  assert (∀ n, prefix_groups n = (λ i, toString16 (Z.land (Z.shiftr (n / 2 ^ 64) (i * 16)) 65535)) <$> [3; 2; 1; 0]) as H.
  { intros n. unfold prefix_groups. cbn [fmap list_fmap]. rewrite <-Z.shiftr_div_pow2 by lia.
    by rewrite !Z.shiftr_shiftr by lia. }
  by rewrite !H, E.
Qed.

(** C40: The rate-limit bucket of an IPv6 address.  The prefix text reads back as
    the address with its low 64 bits cleared, so two addresses share a bucket
    exactly when their high 64 bits agree; addresses whose high 64 bits are zero
    (the IPv4-embedding ranges) get no prefix. *)
Theorem prefix64_is_the_network ip ip' a b p q
    (Ha : ipv6ToInt ip = Some a) (Hb : ipv6ToInt ip' = Some b)
    (Hp : ipv6NetworkPrefix64 ip = Some p) (Hq : ipv6NetworkPrefix64 ip' = Some q) :
  ipv6ToInt p = Some (a / 2 ^ 64 * 2 ^ 64) ∧ a / 2 ^ 64 ≠ 0 ∧ (p = q ↔ a / 2 ^ 64 = b / 2 ^ 64).
Proof.
  destruct (prefix64_text _ _ _ Ha Hp) as [-> Hnz]. destruct (prefix64_text _ _ _ Hb Hq) as [-> _].
  pose proof (prefix_text_parses a (ipv6ToInt_range _ _ Ha)) as Pa.
  pose proof (prefix_text_parses b (ipv6ToInt_range _ _ Hb)) as Pb.
  split; [exact Pa|]. split; [exact Hnz|]. split; [|apply prefix_text_high].
  intros E. rewrite E, Pb in Pa. apply (inj Some) in Pa. apply Z.mul_cancel_r in Pa; [|lia]. symmetry. exact Pa.
Qed.

Definition ex_addr : Z := 42540766411282592856903984951653826567.

Lemma prefix64_is_the_network_witness :
  ipv6ToInt "2001:db8::" = Some (ex_addr / 2 ^ 64 * 2 ^ 64).
Proof.
  refine (proj1 (prefix64_is_the_network "2001:db8::7" "2001:db8::7" ex_addr ex_addr "2001:db8::" "2001:db8::"
    _ _ _ _)); vm_compute; reflexivity.
Defined.
End IpMatch.

Module IpAllowlist.
Import IpMatch.

Inductive IpAllowlistMode := enforce | off.

Inductive IpAllowlistDecision :=
| allow
| deny_not_in_list | deny_untrusted_ip
| skip_mode_off | skip_empty_list | skip_platform_admin | skip_no_partner.

Definition isBlocked (d : IpAllowlistDecision) : bool :=
  match d with deny_not_in_list | deny_untrusted_ip => true | _ => false end.

Definition evaluateIpAllowlist (mode : IpAllowlistMode) (allowlist : option (list string))
    (clientIp : option string) (isPlatformAdmin : bool) : IpAllowlistDecision :=
  match mode with
  | off => skip_mode_off
  | enforce =>
      match allowlist with
      | None | Some [] => skip_empty_list
      | Some l =>
          if isPlatformAdmin then skip_platform_admin
          else match clientIp with
               | None => deny_untrusted_ip
               | Some ip => if ipMatchesAny ip l then allow else deny_not_in_list
               end
      end
  end.

(** ** The cached read *)

Definition CACHE_TTL_MS : Z := 30000.

Record Cached := mkCached { value : list string; expiresAt : Z }.

(** The strings of [settings.security.ipAllowlist]. *)
Definition asRecord (o : option json) : json :=
  match o with Some (JObj l) => JObj l | Some (JArr l) => JArr l | _ => JObj [] end.
Definition allowlist_of (settings : option json) : list string :=
  match jget "ipAllowlist" (asRecord (jget "security" (asRecord settings))) with
  | Some (JArr l) => omap (λ e, jstring (Some e)) l
  | _ => []
  end.

Inductive ReadError := partner_not_found.

(** The read's two halves, before and after its query; the clock is read once, at
    the start, and [partners] is the settings column by partner id. *)
Definition lookup_fresh (cache : gmap string Cached) (now : Z) (partnerId : string) : option (list string) :=
  hit ← cache !! partnerId; if now <? expiresAt hit then Some (value hit) else None.

Definition store_row (cache : gmap string Cached) (now : Z) (partnerId : string) (row : option (option json))
    : result ReadError (list string * gmap string Cached) :=
  match row with
  | None => Err partner_not_found
  | Some settings =>
      let v := allowlist_of settings in
      Ok (v, <[partnerId := mkCached v (now + CACHE_TTL_MS)]> cache)
  end.

(** A read that nothing interleaves with. *)
Definition readPartnerAllowlist (partners : gmap string (option json)) (cache : gmap string Cached)
    (now : Z) (partnerId : string) : result ReadError (list string * gmap string Cached) :=
  match lookup_fresh cache now partnerId with
  | Some v => Ok (v, cache)
  | None => store_row cache now partnerId (partners !! partnerId)
  end.

Definition clearPartnerAllowlistCache (cache : gmap string Cached) (partnerId : string)
    : gmap string Cached := delete partnerId cache.

(** ** A request *)

(** The two process-wide maps: the cache and the times of the last warnings. *)
Record Process := mkProcess { p_cache : gmap string Cached; p_warnedAt : gmap string Z }.

Inductive Effect :=
| warn_inactive (partnerId : string)
| audit_denied (partnerId : string) (clientIp : option string) (reason : IpAllowlistDecision)
| audit_bypass_platform_admin (partnerId : string) (clientIp : option string).

Definition INACTIVE_ALLOWLIST_WARN_INTERVAL_MS : Z := 60000.

Definition warnInactiveAllowlist (warnedAt : gmap string Z) (now : Z) (partnerId : string)
    : gmap string Z * list Effect :=
  if now - default 0 (warnedAt !! partnerId) <? INACTIVE_ALLOWLIST_WARN_INTERVAL_MS then (warnedAt, [])
  else (<[partnerId := now]> warnedAt, [warn_inactive partnerId]).

(** What is written on a decision: audit events, and the throttled warning. *)
Definition record_decision (warnedAt : gmap string Z) (now : Z) (pid : string) (clientIp : option string)
    (d : IpAllowlistDecision) : gmap string Z * list Effect :=
  if isBlocked d then
    let '(w, es) := match d with
                    | deny_untrusted_ip => warnInactiveAllowlist warnedAt now pid
                    | _ => (warnedAt, [])
                    end in
    (w, es ++ [audit_denied pid clientIp d])
  else match d with
       | skip_platform_admin => (warnedAt, [audit_bypass_platform_admin pid clientIp])
       | _ => (warnedAt, [])
       end.

(** The decision of a request, the state it leaves and what it writes. *)
Definition enforceIpAllowlist (partners : gmap string (option json)) (st : Process)
    (now : Z) (mode : IpAllowlistMode) (clientIp : option string) (partnerId : option string)
    (isPlatformAdmin : bool) : result ReadError (IpAllowlistDecision * Process * list Effect) :=
  match truthy partnerId with
  | None => Ok (skip_no_partner, st, [])
  | Some pid =>
      let read := match mode with
                  | off => Ok ([], p_cache st)
                  | enforce => readPartnerAllowlist partners (p_cache st) now pid
                  end in
      rmap (λ '(l, cache'),
              let d := evaluateIpAllowlist mode (Some l) clientIp isPlatformAdmin in
              let '(w, es) := record_decision (p_warnedAt st) now pid clientIp d in
              (d, mkProcess cache' w, es)) read
  end.

(** ** Properties *)

(** An entry that matches is one the settings validator accepts. *)
Lemma matchOne_valid ip raw :
  trim raw ≠ "" → matchOne ip (trim raw) = true → isValidIpOrCidr raw = true.
Proof.
  intros Hne (v6 & a & b & bits & _ & Hv & _ & Hb & Hbits & _)%cidr_spec.
  unfold isValidIpOrCidr. apply String.eqb_neq in Hne. rewrite Hne, Hv, Hb.
  unfold entry_bits in Hbits. destruct (after_slash _); [|done]. rewrite Hbits. by apply bool_decide_eq_true.
Qed.

Lemma ipMatchesAny_spec ip entries :
  ipMatchesAny ip entries = true ↔ ∃ raw, raw ∈ entries ∧ trim raw ≠ "" ∧ entry_covers ip (trim raw).
Proof.
  unfold ipMatchesAny. rewrite existsb_exists. setoid_rewrite andb_true_iff.
  setoid_rewrite negb_true_iff. setoid_rewrite String.eqb_neq. setoid_rewrite cidr_spec.
  by setoid_rewrite <-list_elem_of_In.
Qed.

(** An address matches the list exactly when some non-blank entry covers it:
    both are of the same family and parse, the prefix length is within the
    family's width, and the two numbers agree on their leading bits (on all of
    them for a bare address).  Every entry that can match is one the settings
    validator accepts. *)
Theorem allowlist_match ip entries :
  (ipMatchesAny ip entries = true ↔ ∃ raw, raw ∈ entries ∧ trim raw ≠ "" ∧ entry_covers ip (trim raw))
  ∧ ∀ raw, trim raw ≠ "" → entry_covers ip (trim raw) → isValidIpOrCidr raw = true.
Proof.
  split; [apply ipMatchesAny_spec|]. intros raw Hne Hc. eapply matchOne_valid; [done|]. by apply cidr_spec.
Qed.

(** Enforcement.  With enforcement on, a request of a partner is refused
    exactly when the list read is not empty, the caller is not a platform admin,
    and its address is unknown or covered by no entry of the list; each refusal
    writes one denial audit event and nothing else does; and the request errs,
    and so admits nobody, exactly when the list cannot be read. *)
Theorem enforcement_decision partners st now clientIp pid admin (Hpid : pid ≠ "") :
  match readPartnerAllowlist partners (p_cache st) now pid with
  | Err e => enforceIpAllowlist partners st now enforce clientIp (Some pid) admin = Err e
  | Ok (l, cache') =>
      ∃ d st' es, enforceIpAllowlist partners st now enforce clientIp (Some pid) admin = Ok (d, st', es)
        ∧ p_cache st' = cache'
        ∧ (isBlocked d = true ↔ l ≠ [] ∧ admin = false
             ∧ ∀ ip, clientIp = Some ip → ¬ ∃ raw, raw ∈ l ∧ trim raw ≠ "" ∧ entry_covers ip (trim raw))
        ∧ (isBlocked d = true ↔ ∃ r, audit_denied pid clientIp r ∈ es)
  end.
Proof.
  unfold enforceIpAllowlist. assert (truthy (Some pid) = Some pid) as -> by (by destruct pid).
  destruct (readPartnerAllowlist partners (p_cache st) now pid) as [[l cache']|e]; [|done]. cbn [rmap].
  set (d := evaluateIpAllowlist enforce (Some l) clientIp admin).
  destruct (record_decision (p_warnedAt st) now pid clientIp d) as [w es] eqn:Er.
  exists d, (mkProcess cache' w), es. split_and!; [done..| |].
  - clear Er. unfold d, evaluateIpAllowlist. destruct l as [|x l]; [by split; [|intros [? _]]|].
    destruct admin; [by split; [|intros (_ & ? & _)]|].
    destruct clientIp as [ip|]; [|by split].
    pose proof (ipMatchesAny_spec ip (x :: l)) as Hm. destruct (ipMatchesAny ip (x :: l)).
    + split; [done|]. intros (_ & _ & Hno). destruct (Hno ip eq_refl). by apply Hm.
    + split; [|done]. intros _. split_and!; [done..|]. intros ip' [= <-] Hex. by apply Hm in Hex.
  - clearbody d. unfold record_decision, warnInactiveAllowlist in Er.
    destruct d; simpl in Er; repeat case_match; simplify_eq/=; set_solver.
Qed.

(** ** Staleness of the cache, reads interleaving *)

(** A read in flight: when it began, and, once its query has run, when and what
    it found. *)
Record Read := mkRead { r_pid : string; r_began : Z; r_row : option (Z * option (option json)) }.

Record World := mkWorld {
  w_now : Z; w_since : string → Z; w_cache : gmap string Cached; w_reads : list Read }.

(** When the oldest row of the partner that a read in flight still holds was read. *)
Definition oldest_held (pid : string) (now : Z) (reads : list Read) : Z :=
  foldr (λ r m, match r_row r with
                | Some (t, _) => if String.eqb (r_pid r) pid then Z.min t m else m
                | None => m
                end) now reads.

Section interleaving.
(** [hist t]: the partners table at time [t]. *)
Context (hist : Z → gmap string (option json)).

(** A read of a partner's list that began at the time given answers: from the
    cache at once, from its row when the query has run. *)
Inductive returns : World → string → Z → list string → World → Prop :=
| ret_hit now since cache reads pid v :
    lookup_fresh cache now pid = Some v →
    returns (mkWorld now since cache reads) pid now v (mkWorld now since cache reads)
| ret_row now since cache pre pid began t row post v cache' :
    store_row cache began pid row = Ok (v, cache') →
    returns (mkWorld now since cache (pre ++ mkRead pid began (Some (t, row)) :: post)) pid began v
            (mkWorld now since cache' (pre ++ post)).

(** Steps of one process, the clock and the table; [w_since p] is the time since
    which every answer for [p] must have been read: an invalidation moves it to
    now, or to the oldest row a read in flight still holds. *)
Inductive wstep : World → World → Prop :=
| w_tick now now' since cache reads :
    now ≤ now' → wstep (mkWorld now since cache reads) (mkWorld now' since cache reads)
| w_begin now since cache reads pid :
    lookup_fresh cache now pid = None →
    wstep (mkWorld now since cache reads) (mkWorld now since cache (mkRead pid now None :: reads))
| w_query now since cache pre pid began post :
    wstep (mkWorld now since cache (pre ++ mkRead pid began None :: post))
      (mkWorld now since cache (pre ++ mkRead pid began (Some (now, hist now !! pid)) :: post))
| w_return w pid began v w' : returns w pid began v w' → wstep w w'
| w_fail now since cache pre pid began t post :
    wstep (mkWorld now since cache (pre ++ mkRead pid began (Some (t, None)) :: post))
      (mkWorld now since cache (pre ++ post))
| w_clear now since cache reads pid :
    wstep (mkWorld now since cache reads)
      (mkWorld now (λ p, if String.eqb p pid then oldest_held pid now reads else since p)
         (clearPartnerAllowlistCache cache pid) reads).

Definition initial (w : World) : Prop :=
  w_cache w = ∅ ∧ w_reads w = [] ∧ ∀ p, w_since w p ≤ w_now w.
Definition reachable (w : World) : Prop := ∃ w0, initial w0 ∧ rtc wstep w0 w.

(** An uninterrupted read is a run of these steps. *)
Lemma uninterrupted_read w pid v cache' :
  readPartnerAllowlist (hist (w_now w)) (w_cache w) (w_now w) pid = Ok (v, cache') →
  ∃ w', rtc wstep w w' ∧ returns w' pid (w_now w) v (mkWorld (w_now w) (w_since w) cache' (w_reads w)).
Proof.
  destruct w as [now since cache reads]. cbn [w_now w_since w_cache w_reads]. unfold readPartnerAllowlist.
  destruct (lookup_fresh cache now pid) as [l|] eqn:E; intros Hr.
  - simplify_eq. exists (mkWorld now since cache' reads). split; [done|]. by constructor.
  - exists (mkWorld now since cache ([] ++ mkRead pid now (Some (now, hist now !! pid)) :: reads)).
    split; [|exact (ret_row now since cache [] pid now now _ reads v cache' Hr)].
    eapply rtc_l; [by apply (w_begin _ _ _ _ pid)|]. apply rtc_once.
    exact (w_query now since cache [] pid now reads).
Qed.

(** [v] was the partner's list at time [t]. *)
Definition was_list (pid : string) (t : Z) (v : list string) : Prop :=
  ∃ settings, hist t !! pid = Some settings ∧ v = allowlist_of settings.

Definition cached_ok (now : Z) (since : string → Z) (pid : string) (c : Cached) : Prop :=
  ∃ t, since pid ≤ t ≤ now ∧ expiresAt c ≤ t + CACHE_TTL_MS ∧ was_list pid t (value c).

Definition read_ok (now : Z) (since : string → Z) (r : Read) : Prop :=
  r_began r ≤ now ∧
  match r_row r with
  | Some (t, row) => r_began r ≤ t ≤ now ∧ since (r_pid r) ≤ t ∧ row = hist t !! r_pid r
  | None => True
  end.

Definition world_ok (w : World) : Prop :=
  (∀ p, w_since w p ≤ w_now w)
  ∧ (∀ p c, w_cache w !! p = Some c → cached_ok (w_now w) (w_since w) p c)
  ∧ (∀ r, r ∈ w_reads w → read_ok (w_now w) (w_since w) r).

Lemma oldest_held_le pid now reads : oldest_held pid now reads ≤ now.
Proof. unfold oldest_held. induction reads as [|r l IH]; simpl; [done|]. repeat case_match; lia. Qed.

Lemma oldest_held_row r t row now reads :
  r ∈ reads → r_row r = Some (t, row) → oldest_held (r_pid r) now reads ≤ t.
Proof.
  unfold oldest_held. induction reads as [|r' l IH]; intros Hin Hr; [by auto with breeze|]. simpl.
  apply elem_of_cons in Hin as [->|Hin]; [rewrite Hr, String.eqb_refl; lia|].
  specialize (IH Hin Hr). repeat case_match; lia.
Qed.

(** One answer, and the state after it. *)
Lemma returns_ok w pid began v w' :
  world_ok w → returns w pid began v w' →
  world_ok w' ∧ ∃ t, began - CACHE_TTL_MS < t ≤ w_now w ∧ w_since w pid ≤ t ∧ was_list pid t v.
Proof.
  intros (Hs & Hc & Hr) Hret. destruct Hret as [now since cache reads pid v Hl
    |now since cache pre pid began t row post v cache' Hst]; cbn [w_now w_since w_cache w_reads] in *.
  - split; [by split_and!|]. unfold lookup_fresh in Hl. apply bind_Some in Hl as (c & Hk & Hl).
    destruct (Z.ltb_spec now (expiresAt c)); [|done]. simplify_eq.
    destruct (Hc pid c Hk) as (t & Ht & Hx & Hw). exists t. split_and!; done || lia.
  - destruct (Hr (mkRead pid began (Some (t, row)))) as (Hb & Ht & Hsi & Hrow); [set_solver|].
    cbn [r_pid r_row r_began] in *. destruct row as [settings|]; [|done]. unfold store_row in Hst. simplify_eq.
    assert (was_list pid t (allowlist_of settings)) as Hw by (by exists settings).
    assert (0 < CACHE_TTL_MS) by done. split; [split_and!|exists t; split_and!; done || lia];
      cbn [w_now w_since w_cache w_reads]; [done| |intros r' Hr'; apply Hr; set_solver].
    intros p c Hp. destruct (decide (p = pid)) as [->|]; [|rewrite lookup_insert_ne in Hp by done; by apply Hc].
    rewrite lookup_insert_eq in Hp. simplify_eq. exists t. cbn [expiresAt value]. split_and!; done || lia.
Qed.

Lemma world_ok_clear now since cache reads pid :
  world_ok (mkWorld now since cache reads) →
  world_ok (mkWorld now (λ p, if String.eqb p pid then oldest_held pid now reads else since p)
              (clearPartnerAllowlistCache cache pid) reads).
Proof.
  intros (Hs & Hc & Hr). cbn [w_now w_since w_cache w_reads] in *. split_and!; cbn [w_now w_since w_cache w_reads].
  - intros p. case_match; [apply oldest_held_le|apply Hs].
  - intros p c Hp. unfold clearPartnerAllowlistCache in Hp. apply lookup_delete_Some in Hp as [Hne Hp].
    destruct (Hc p c Hp) as (t & ? & ? & ?). exists t. destruct (String.eqb_spec p pid); [done|]. split_and!; done || lia.
  - intros r Hin. destruct (Hr r Hin) as [Hb Hrow]. split; [done|]. destruct (r_row r) as [[t row]|] eqn:E; [|done].
    destruct Hrow as (? & ? & ?). split_and!; try done; try lia.
    destruct (String.eqb_spec (r_pid r) pid) as [<-|]; [by eapply oldest_held_row|done].
Qed.

Lemma read_step_ok w w' : wstep w w' → world_ok w → world_ok w'.
Proof.
  intros Hst. destruct Hst as [now now' since cache reads Hle|now since cache reads pid _
    |now since cache pre pid began post|w pid began v w' Hret|now since cache pre pid began t post
    |now since cache reads pid]; intros Hw.
  - destruct Hw as (Hs & Hc & Hr). cbn [w_now w_since w_cache w_reads] in *. split_and!; cbn [w_now w_since w_cache w_reads].
    + intros p. pose proof (Hs p). lia.
    + intros p c Hp. destruct (Hc p c Hp) as (t & ? & ? & ?). exists t. split_and!; done || lia.
    + intros r Hin. destruct (Hr r Hin) as [Hb Hrow]. split; [lia|]. destruct (r_row r) as [[t row]|]; [|done].
      destruct Hrow as (? & ? & ?). split_and!; done || lia.
  - destruct Hw as (Hs & Hc & Hr). split_and!; [done..|]. intros r [->|Hin]%elem_of_cons; [split; simpl; [lia|done]|].
    by apply Hr.
  - destruct Hw as (Hs & Hc & Hr). split_and!; [done..|]. cbn [w_now w_since w_cache w_reads] in *.
    intros r Hin. apply elem_of_app in Hin as [Hin|[->|Hin]%elem_of_cons]; [apply Hr; set_solver| |apply Hr; set_solver].
    destruct (Hr (mkRead pid began None)) as [Hb _]; [set_solver|]. simpl in Hb. pose proof (Hs pid).
    split; simpl; [done|]. split_and!; done || lia.
  - by eapply returns_ok.
  - destruct Hw as (Hs & Hc & Hr). split_and!; [done..|]. intros r Hin. apply Hr. cbn [w_reads] in *. set_solver.
  - by apply world_ok_clear.
Qed.

Lemma reads_reachable_ok w : reachable w → world_ok w.
Proof.
  intros (w0 & (Hc & Hcalls & Hs) & Hr).
  assert (world_ok w0) as H0.
  { split_and!; [done| |]; rewrite ?Hc, ?Hcalls.
    - intros p c Hp. by auto with breeze.
    - intros r Hin. by auto with breeze. }
  by apply (rtc_invariant wstep world_ok w0 w read_step_ok).
Qed.

(** How stale a list can be, under every interleaving.  Let reads of one
    process interleave at their query with each other, with invalidations and
    with changes of the table.  Whatever a read answers is the list the partner's
    settings held at some moment less than 30 seconds before the read began; and
    not before the last invalidation of that partner by the process, unless a
    read was then in flight with an older row, in which case not before the
    oldest such row was read. *)
Theorem allowlist_staleness w pid began v w' (Hw : reachable w) (Hr : returns w pid began v w') :
  ∃ t, began - 30000 < t ≤ w_now w ∧ w_since w pid ≤ t ∧ was_list pid t v.
Proof. by eapply returns_ok; [apply reads_reachable_ok|]. Qed.
End interleaving.

(** ** Witnesses *)

Definition ex_settings : option json :=
  Some (JObj [("security", JObj [("ipAllowlist", JArr [JStr "10.0.0.0/8"; JNum 3])])]).
Definition ex_partners : gmap string (option json) := {["p" := ex_settings]}.

Lemma enforcement_decision_witness :
  ∃ d st es, enforceIpAllowlist ex_partners (mkProcess ∅ ∅) 5 enforce (Some "11.0.0.1") (Some "p") false
             = Ok (d, st, es) ∧ isBlocked d = true.
Proof.
  pose proof (enforcement_decision ex_partners (mkProcess ∅ ∅) 5 (Some "11.0.0.1") "p" false ltac:(done)) as H.
  cbn [p_cache] in H.
  destruct (readPartnerAllowlist ex_partners ∅ 5 "p") as [[l c]|] eqn:E; [|by vm_compute in E].
  destruct H as (d & st & es & Hd & _). exists d, st, es. split; [exact Hd|]. vm_compute in Hd. by simplify_eq.
Defined.

(** A cold read at 7 is a run: it begins, queries and answers. *)
Definition ex_world (reads : list Read) : World := mkWorld 7 (λ _, 7) ∅ reads.

Lemma ex_read_reachable : reachable (λ _, ex_partners) (ex_world [mkRead "p" 7 (Some (7, Some ex_settings))]).
Proof.
  exists (ex_world []). split; [by split_and!|].
  eapply rtc_l; [by apply (w_begin (λ _, ex_partners) 7 (λ _, 7) ∅ [] "p")|].
  apply rtc_once. exact (w_query (λ _, ex_partners) 7 (λ _, 7) ∅ [] "p" 7 []).
Qed.

Lemma allowlist_staleness_witness :
  ∃ t, 7 - 30000 < t ≤ 7 ∧ was_list (λ _, ex_partners) "p" t ["10.0.0.0/8"].
Proof.
  destruct (allowlist_staleness (λ _, ex_partners) (ex_world [mkRead "p" 7 (Some (7, Some ex_settings))]) "p" 7
              ["10.0.0.0/8"] (mkWorld 7 (λ _, 7) {["p" := mkCached ["10.0.0.0/8"] 30007]} [])) as (t & Ht & _ & Hw);
    [apply ex_read_reachable|exact (ret_row 7 (λ _, 7) ∅ [] "p" 7 7 (Some ex_settings) [] ["10.0.0.0/8"] _ eq_refl)|].
  by exists t.
Defined.

(** The race the theorem's last clause allows: a read that queried the settings
    before an administrator saved a new list, and finishes after the save has
    invalidated the cache, puts the old list back, and later reads answer it. *)
Definition race_hist (t : Z) : gmap string (option json) :=
  {["p" := if t <? 10 then ex_settings else Some (JObj [])]}.

Example stale_list_reinstalled :
  ∃ w0 w1 w2 cache', initial w0 ∧ rtc (wstep race_hist) w0 w1 ∧ w_now w1 = 10
    ∧ wstep race_hist w1 (mkWorld 10 (w_since w2) (clearPartnerAllowlistCache (w_cache w1) "p") (w_reads w1))
    ∧ wstep race_hist (mkWorld 10 (w_since w2) (clearPartnerAllowlistCache (w_cache w1) "p") (w_reads w1)) w2
    ∧ returns w2 "p" 10 ["10.0.0.0/8"] (mkWorld 10 (w_since w2) cache' [])
    ∧ allowlist_of (Some (JObj [])) = [].
Proof.
  set (r := mkRead "p" 7 (Some (7, Some ex_settings))).
  set (since := λ p, if String.eqb p "p" then oldest_held "p" 10 [r] else 7).
  set (cache' := {["p" := mkCached ["10.0.0.0/8"] 30007]} : gmap string Cached).
  exists (ex_world []), (mkWorld 10 (λ _, 7) ∅ [r]), (mkWorld 10 since cache' []), cache'.
  split_and!; [done..| |done| | | |done].
  - eapply rtc_l; [by apply (w_begin race_hist 7 (λ _, 7) ∅ [] "p")|].
    eapply rtc_l; [exact (w_query race_hist 7 (λ _, 7) ∅ [] "p" 7 [])|].
    apply rtc_once. apply (w_tick race_hist 7 10); lia.
  - exact (w_clear race_hist 10 (λ _, 7) ∅ [r] "p").
  - eapply (w_return race_hist _ "p" 7 ["10.0.0.0/8"]).
    exact (ret_row 10 since ∅ [] "p" 7 7 (Some ex_settings) [] ["10.0.0.0/8"] _ eq_refl).
  - by apply ret_hit.
Qed.
End IpAllowlist.
