(* ===== verification/Authority.v ===== *)
(** * Permissions: grants, resolution with its cache, delegation ceiling

    Models [apps/api/src/services/permissionMatching.ts],
    [apps/api/src/services/permissions.ts] (matching, resolution of a user's
    permissions, the versioned cache and its invalidation, org and site access),
    [apps/api/src/services/siteAllowlist.ts] and
    [apps/api/src/services/delegationCeiling.ts].

    The tables the resolver reads are a [Db]; the reads are keyed by the caller's
    own ids and run in a context that sees the row, so they are lookups.  Redis is
    [None] when it is absent or a read of it fails.  Its counters are integers
    (the code compares their decimal texts).  [resolve] is a resolution whose
    reads see one state of the tables; a call in a [World] is split at every
    [await]: its reading of Redis, its cache lookup, each of its table reads (the
    membership of an axis, then the permissions of its role) and its store. *)
From S2P Require Import Prelude JsText.
From stdpp Require Import base tactics list sorting strings gmap.
From Stdlib Require Import ZArith Lia Ascii.
Open Scope Z_scope.

Module Permissions.

Record Permission := mkPerm { resource : string; action : string }.

Definition permissionGrantMatches (grant : Permission) (res act : string) : bool :=
  (String.eqb (resource grant) res || String.eqb (resource grant) "*")
  && (String.eqb (action grant) act || String.eqb (action grant) "*").

Inductive Scope := system | partner | organization.
Inductive OrgAccess := oa_all | oa_selected | oa_none.

(** A value of [allowedSiteIds]; [s_null] is [null], and stands for any other
    value that is not an array where the code accepts [unknown]. *)
Inductive SiteIds := s_undefined | s_null | s_array (l : list string).

Record UserPermissions := mkUserPermissions {
  permissions : list Permission; partnerId : option string; orgId : option string;
  roleId : string; scope : Scope; orgAccess : option OrgAccess;
  allowedOrgIds : option (list string); allowedSiteIds : SiteIds }.

Definition hasPermission (p : UserPermissions) (res act : string) : bool :=
  existsb (λ g, permissionGrantMatches g res act) (permissions p).

Definition canAccessOrg (p : UserPermissions) (org : string) : bool :=
  match scope p with
  | organization => bool_decide (orgId p = Some org)
  | partner =>
      match orgAccess p with
      | Some oa_all => true
      | Some oa_none => false
      | Some oa_selected =>
          match allowedOrgIds p with Some l => existsb (String.eqb org) l | None => false end
      | None => true
      end
  | system => true
  end.

(** [None] is unrestricted. *)
Definition normalizeSiteAllowlist (raw : SiteIds) : option (list string) :=
  match raw with s_undefined => None | s_array l => Some l | s_null => Some [] end.

Definition canAccessSite (p : UserPermissions) (site : string) : bool :=
  match normalizeSiteAllowlist (allowedSiteIds p) with
  | None => true
  | Some l => existsb (String.eqb site) l
  end.

(** ** The tables *)

Record OrgMember := mkOrgMember { om_roleId : option string; om_siteIds : option (list string) }.
Record PartnerMember := mkPartnerMember {
  pm_roleId : option string; pm_orgAccess : OrgAccess; pm_orgIds : option (list string) }.

Record Db := mkDb {
  users_isPlatformAdmin : gmap string bool;
  organizationUsers : gmap (string * string) OrgMember;
  partnerUsers : gmap (string * string) PartnerMember;
  rolePermissions : gmap string (list Permission) }.

Record Context := mkContext {
  ctx_partnerId : option string; ctx_orgId : option string; ctx_scope : option Scope }.

Definition PLATFORM_ADMIN_ROLE_ID : string := "platform-admin".
Definition PLATFORM_ADMIN_GRANTS : list Permission := [mkPerm "*" "*"].

Definition resolveSystemScopePermissions (db : Db) (userId : string) : option UserPermissions :=
  if default false (users_isPlatformAdmin db !! userId) then
    Some (mkUserPermissions PLATFORM_ADMIN_GRANTS None None PLATFORM_ADMIN_ROLE_ID system None None s_undefined)
  else None.

(** ** Resolution without the cache *)

Definition buildPerms (db : Db) (ctx : Context) (role : string) (sc : Scope) (oa : option OrgAccess)
    (orgs : option (list string)) (sites : SiteIds) : UserPermissions :=
  mkUserPermissions (default [] (rolePermissions db !! role)) (truthy (ctx_partnerId ctx))
    (truthy (ctx_orgId ctx)) role sc oa orgs sites.

Definition resolveOrgAxis (db : Db) (ctx : Context) (userId org : string) : option UserPermissions :=
  m ← organizationUsers db !! (userId, org);
  role ← truthy (om_roleId m);
  Some (buildPerms db ctx role organization None None
          (match om_siteIds m with Some l => s_array l | None => s_undefined end)).

Definition resolvePartnerAxis (db : Db) (ctx : Context) (userId partner_ : string) : option UserPermissions :=
  m ← partnerUsers db !! (userId, partner_);
  role ← truthy (pm_roleId m);
  Some (buildPerms db ctx role partner (Some (pm_orgAccess m)) (pm_orgIds m) s_undefined).

Definition resolve (db : Db) (userId : string) (ctx : Context) : option UserPermissions :=
  match truthy (ctx_orgId ctx) ≫= resolveOrgAxis db ctx userId with
  | Some p => Some p
  | None => truthy (ctx_partnerId ctx) ≫= resolvePartnerAxis db ctx userId
  end.

(** *** The reads one by one *)

(** What a resolution in progress reads next, or its answer. *)
Inductive Reading :=
| want_org_member (org : string)
| want_org_role (role : string) (sites : SiteIds)
| want_partner_member (partner_ : string)
| want_partner_role (role : string) (m : PartnerMember)
| answered (r : option UserPermissions).

Definition partner_read (ctx : Context) : Reading :=
  match truthy (ctx_partnerId ctx) with Some p => want_partner_member p | None => answered None end.
Definition first_read (ctx : Context) : Reading :=
  match truthy (ctx_orgId ctx) with Some o => want_org_member o | None => partner_read ctx end.

Definition read_next (db : Db) (userId : string) (ctx : Context) (s : Reading) : Reading :=
  match s with
  | want_org_member o =>
      match organizationUsers db !! (userId, o) with
      | Some m => match truthy (om_roleId m) with
                  | Some role => want_org_role role (match om_siteIds m with Some l => s_array l | None => s_undefined end)
                  | None => partner_read ctx
                  end
      | None => partner_read ctx
      end
  | want_org_role role sites => answered (Some (buildPerms db ctx role organization None None sites))
  | want_partner_member p =>
      match partnerUsers db !! (userId, p) with
      | Some m => match truthy (pm_roleId m) with Some role => want_partner_role role m | None => answered None end
      | None => answered None
      end
  | want_partner_role role m => answered (Some (buildPerms db ctx role partner (Some (pm_orgAccess m)) (pm_orgIds m) s_undefined))
  | answered r => answered r
  end.

(** The reads made at the times [ts], when the tables at time [t] are [hist t]. *)
Definition resolve_reads (hist : Z → Db) (userId : string) (ctx : Context) (ts : list Z) : Reading :=
  foldl (λ s t, read_next (hist t) userId ctx s) (first_read ctx) ts.

(** ** The versioned cache *)

Definition CACHE_TTL : Z := 5 * 60 * 1000.
Definition GLOBAL_VERSION_KEY : string := "permission-cache:version".
Definition userPermissionVersionKey (userId : string) : string := "permission-cache:user-version:" +:+ userId.

Record Versions := mkVersions { globalVersion : Z; userVersion : Z }.
#[export] Instance Versions_eq_dec : EqDecision Versions.
Proof. solve_decision. Defined.

Record CacheEntry := mkEntry { userPerms : UserPermissions; expiresAt : Z; versions : option Versions }.

Definition getPermissionCacheVersions (redis : option (gmap string Z)) (userId : string) : option Versions :=
  (λ kv : gmap string Z, mkVersions (default 0 (kv !! GLOBAL_VERSION_KEY))
     (default 0 (kv !! userPermissionVersionKey userId))) <$> redis.

Definition cacheVersionsMatch (cached current : option Versions) : bool :=
  match cached, current with
  | Some a, Some b => (globalVersion a =? globalVersion b) && (userVersion a =? userVersion b)
  | None, None => true
  | _, _ => false
  end.

Definition cacheKey (userId : string) (ctx : Context) : string :=
  userId +:+ ":" +:+ default "" (ctx_partnerId ctx) +:+ ":" +:+ default "" (ctx_orgId ctx).

Definition is_system_shape (ctx : Context) : bool :=
  match ctx_scope ctx, truthy (ctx_partnerId ctx), truthy (ctx_orgId ctx) with
  | Some system, None, None => true
  | _, _, _ => false
  end.

(** The call's phases, one per stretch between two [await]s: the versions are
    read from Redis ([getPermissionCacheVersions]), then the cache is looked up
    against those versions, then the tables are read ([resolve]), then the answer
    is stored under those same versions. *)
Definition lookup_cached (vs : option Versions) (cache : gmap string CacheEntry) (now : Z)
    (userId : string) (ctx : Context) (bypassCache : bool) : option UserPermissions :=
  c ← cache !! cacheKey userId ctx;
  if negb bypassCache && (now <? expiresAt c) && cacheVersionsMatch (versions c) vs
  then Some (userPerms c) else None.

Definition store_resolved (vs : option Versions) (cache : gmap string CacheEntry) (now : Z)
    (userId : string) (ctx : Context) (bypassCache : bool) (r : option UserPermissions)
    : gmap string CacheEntry :=
  match r with
  | Some p => if bypassCache then cache else <[cacheKey userId ctx := mkEntry p (now + CACHE_TTL) vs]> cache
  | None => cache
  end.

(** A call that nothing interleaves with. *)
Definition getUserPermissions (db : Db) (redis : option (gmap string Z)) (cache : gmap string CacheEntry)
    (now : Z) (userId : string) (ctx : Context) (bypassCache : bool)
    : option UserPermissions * gmap string CacheEntry :=
  if is_system_shape ctx then (resolveSystemScopePermissions db userId, cache)
  else
    let vs := getPermissionCacheVersions redis userId in
    match lookup_cached vs cache now userId ctx bypassCache with
    | Some p => (Some p, cache)
    | None => let r := resolve db userId ctx in
              (r, store_resolved vs cache now userId ctx bypassCache r)
    end.

(** [redis.incr(key)]. *)
Definition bumpSharedPermissionCacheVersion (redis : option (gmap string Z)) (userId : option string)
    : option (gmap string Z) :=
  let key := match truthy userId with Some u => userPermissionVersionKey u | None => GLOBAL_VERSION_KEY end in
  (λ kv : gmap string Z, <[key := default 0 (kv !! key) + 1]> kv) <$> redis.

Definition clear_local (cache : gmap string CacheEntry) (userId : option string) : gmap string CacheEntry :=
  match truthy userId with
  | Some u => filter (λ kc, startsWith kc.1 (u +:+ ":") = false) cache
  | None => ∅
  end.

Definition clearPermissionCache (redis : option (gmap string Z)) (cache : gmap string CacheEntry)
    (userId : option string) : option (gmap string Z) * gmap string CacheEntry :=
  (bumpSharedPermissionCacheVersion redis userId, clear_local cache userId).

(** ** Cache keys *)

Definition colon_free (userId : string) (ctx : Context) : Prop :=
  ":"%char ∉ chars userId ∧ ":"%char ∉ chars (default "" (ctx_partnerId ctx)).

(** What precedes the first colon, and what follows it, are determined. *)
Lemma colon_split a b x y :
  ":"%char ∉ chars a → ":"%char ∉ chars b → a +:+ ":" +:+ x = b +:+ ":" +:+ y → a = b ∧ x = y.
Proof.
  intros Ha Hb E%(f_equal chars). rewrite !chars_app in E. change (chars ":") with [":"%char] in E.
  assert (∀ l k u v, ":"%char ∉ l → ":"%char ∉ k → l ++ [":"%char] ++ u = k ++ [":"%char] ++ v → l = k ∧ u = v) as H.
  { induction l as [|c l IH]; intros [|d k] u v Hl Hk; simpl; rewrite ?not_elem_of_cons in *; intros; simplify_eq;
      [done|naive_solver..|]. destruct (IH k u v) as [-> ->]; naive_solver. }
  destruct (H _ _ _ _ Ha Hb E) as [E1 E2]. by split; apply chars_inj.
Qed.

Lemma cacheKey_inj u ctx u' ctx' :
  colon_free u ctx → colon_free u' ctx' → cacheKey u ctx = cacheKey u' ctx' →
  u = u' ∧ default "" (ctx_partnerId ctx) = default "" (ctx_partnerId ctx')
  ∧ default "" (ctx_orgId ctx) = default "" (ctx_orgId ctx').
Proof.
  intros [Hu Hp] [Hu' Hp'] E. unfold cacheKey in E.
  apply colon_split in E as [-> E]; [|done..]. by apply colon_split in E as [E1 E2]; [|done..].
Qed.

Lemma truthy_default o o' : default "" o = default "" o' → truthy o = truthy o'.
Proof. destruct o as [[]|], o' as [[]|]; simpl; intros; simplify_eq; done. Qed.

Lemma reads_key hist u ctx ctx' ts :
  default "" (ctx_partnerId ctx) = default "" (ctx_partnerId ctx') →
  default "" (ctx_orgId ctx) = default "" (ctx_orgId ctx') → resolve_reads hist u ctx ts = resolve_reads hist u ctx' ts.
Proof.
  intros Hp%truthy_default Ho%truthy_default. unfold resolve_reads. assert (first_read ctx = first_read ctx') as ->
    by (unfold first_read, partner_read; by rewrite Hp, Ho).
  generalize (first_read ctx'). induction ts as [|t ts IH]; intros s; [done|]. cbn [foldl]. rewrite IH. f_equal.
  destruct s; cbn [read_next]; unfold partner_read, buildPerms; by rewrite ?Hp, ?Ho.
Qed.

(** ** Reads of unchanged tables *)

(** What a resolution in progress comes to if the tables stay as they are. *)
Definition finish (db : Db) (u : string) (ctx : Context) (s : Reading) : option UserPermissions :=
  let by_partner := truthy (ctx_partnerId ctx) ≫= resolvePartnerAxis db ctx u in
  match s with
  | want_org_member o => match resolveOrgAxis db ctx u o with Some p => Some p | None => by_partner end
  | want_org_role role sites => Some (buildPerms db ctx role organization None None sites)
  | want_partner_member p => resolvePartnerAxis db ctx u p
  | want_partner_role role m => Some (buildPerms db ctx role partner (Some (pm_orgAccess m)) (pm_orgIds m) s_undefined)
  | answered r => r
  end.

Lemma finish_partner db u ctx : finish db u ctx (partner_read ctx) = truthy (ctx_partnerId ctx) ≫= resolvePartnerAxis db ctx u.
Proof. unfold partner_read. by destruct (truthy (ctx_partnerId ctx)). Qed.

Lemma finish_first db u ctx : finish db u ctx (first_read ctx) = resolve db u ctx.
Proof. unfold first_read, resolve. destruct (truthy (ctx_orgId ctx)); [done|]. apply finish_partner. Qed.

Lemma finish_read db u ctx s : finish db u ctx (read_next db u ctx s) = finish db u ctx s.
Proof.
  destruct s as [o|role sites|p|role m|r]; cbn [read_next]; [|done| |done|done].
  - cbn [finish]. unfold resolveOrgAxis. destruct (organizationUsers db !! (u, o)) as [m|]; cbn [mbind option_bind]; [|apply finish_partner].
    destruct (truthy (om_roleId m)); [done|apply finish_partner].
  - cbn [finish]. unfold resolvePartnerAxis. destruct (partnerUsers db !! (u, p)) as [m|]; cbn [mbind option_bind]; [|done].
    by destruct (truthy (pm_roleId m)).
Qed.

(** Reads that all see the same tables answer what [resolve] does. *)
Lemma reads_steady hist u ctx ts db r :
  (∀ t, t ∈ ts → hist t = db) → resolve_reads hist u ctx ts = answered r → r = resolve db u ctx.
Proof.
  intros Hts Hr. rewrite <- finish_first. change r with (finish db u ctx (answered r)). rewrite <- Hr. unfold resolve_reads. clear Hr.
  generalize (first_read ctx). induction ts as [|t ts IH]; intros s; [done|]. cbn [foldl].
  rewrite (IH ltac:(intros; apply Hts; by right)), (Hts t ltac:(by left)). apply finish_read.
Qed.

Lemma user_key_inj u w : userPermissionVersionKey u = userPermissionVersionKey w → u = w.
Proof. unfold userPermissionVersionKey. intros E. by simplify_eq/=. Qed.

Lemma user_key_not_global u : userPermissionVersionKey u ≠ GLOBAL_VERSION_KEY.
Proof. unfold userPermissionVersionKey, GLOBAL_VERSION_KEY. intros E. by simplify_eq/=. Qed.

(** ** Interleaved calls, Redis being up *)

(** A call in flight: the versions it read, and when; [c_floor] is the time of
    the last invalidation of its user before that. *)
Inductive Stage :=
| looking                             (* about to look the cache up *)
| reading (ts : list Z) (s : Reading). (* missed; has read the tables at [ts] *)

Record Call := mkCall {
  c_user : string; c_ctx : Context; c_bypass : bool;
  c_versions : option Versions; c_began : Z; c_floor : Z; c_stage : Stage }.

Definition with_stage (s : Stage) (c : Call) : Call :=
  mkCall (c_user c) (c_ctx c) (c_bypass c) (c_versions c) (c_began c) (c_floor c) s.

(** The time of the last invalidation that reaches a user. *)
Definition cleared (now : Z) (who : option string) (since : string → Z) (u : string) : Z :=
  match truthy who with Some w => if String.eqb w u then now else since u | None => now end.

Record World := mkWorld {
  w_now : Z; w_since : string → Z; w_redis : gmap string Z;
  w_cache : gmap string CacheEntry; w_calls : list Call }.

Section interleaving.
(** [hist t]: the tables at time [t]; [latency] bounds the time between a call's
    first reading of the tables and its storing of the answer. *)
Context (hist : Z → Db) (latency : Z).

(** What a call that is in flight answers at this moment, if it answers now. *)
Definition answers (w : World) (c : Call) (r : option UserPermissions) : Prop :=
  match c_stage c with
  | looking => is_Some r ∧ lookup_cached (c_versions c) (w_cache w) (w_now w) (c_user c) (c_ctx c) (c_bypass c) = r
  | reading ts (answered r') => r = r' ∧ ∀ t, t ∈ ts → w_now w ≤ t + latency
  | reading _ _ => False
  end.

(** Steps of one API process, of the clock and of the other processes.
    [clearPermissionCache] is two steps, its deletions and its [incr]; another
    process's call is its [incr] alone. *)
Inductive wstep : World → World → Prop :=
| w_tick now now' since kv cache calls :
    now ≤ now' → wstep (mkWorld now since kv cache calls) (mkWorld now' since kv cache calls)
| w_begin now since kv cache calls u ctx bypass :
    colon_free u ctx → is_system_shape ctx = false →
    wstep (mkWorld now since kv cache calls)
      (mkWorld now since kv cache
         (mkCall u ctx bypass (getPermissionCacheVersions (Some kv) u) now (since u) looking :: calls))
| w_miss now since kv cache pre c post :
    c_stage c = looking →
    lookup_cached (c_versions c) cache now (c_user c) (c_ctx c) (c_bypass c) = None →
    wstep (mkWorld now since kv cache (pre ++ c :: post))
      (mkWorld now since kv cache (pre ++ with_stage (reading [] (first_read (c_ctx c))) c :: post))
| w_read now since kv cache pre c post ts s :
    c_stage c = reading ts s → (∀ r, s ≠ answered r) →
    wstep (mkWorld now since kv cache (pre ++ c :: post))
      (mkWorld now since kv cache
         (pre ++ with_stage (reading (ts ++ [now]) (read_next (hist now) (c_user c) (c_ctx c) s)) c :: post))
| w_return now since kv cache pre c post r cache' :
    answers (mkWorld now since kv cache (pre ++ c :: post)) c r →
    cache' = (match c_stage c with
              | reading _ _ => store_resolved (c_versions c) cache now (c_user c) (c_ctx c) (c_bypass c) r
              | looking => cache
              end) →
    wstep (mkWorld now since kv cache (pre ++ c :: post)) (mkWorld now since kv cache' (pre ++ post))
| w_clear_local now since kv cache calls who :
    wstep (mkWorld now since kv cache calls) (mkWorld now since kv (clear_local cache who) calls)
| w_bump now since kv cache calls who kv' :
    bumpSharedPermissionCacheVersion (Some kv) who = Some kv' →
    wstep (mkWorld now since kv cache calls) (mkWorld now (cleared now who since) kv' cache calls).

Definition initial (w : World) : Prop :=
  w_cache w = ∅ ∧ w_calls w = [] ∧ ∀ u, w_since w u ≤ w_now w.

Definition reachable (w : World) : Prop := ∃ w0, initial w0 ∧ rtc wstep w0 w.

(** Reads still to be made at most. *)
Definition reads_left (s : Reading) : nat :=
  match s with want_org_member _ => 3 | want_partner_member _ => 2 | want_org_role _ _ | want_partner_role _ _ => 1 | answered _ => 0 end.

Lemma left_read db u ctx s : (∀ r, s ≠ answered r) → (reads_left (read_next db u ctx s) < reads_left s)%nat.
Proof.
  intros Hs. destruct s as [o|role sites|p|role m|r]; [| | | |by destruct (Hs r)]; cbn; [| lia| |lia].
  - unfold partner_read. destruct (organizationUsers db !! (u, o)) as [m|]; [destruct (truthy (om_roleId m)); [cbn; lia|]|];
      destruct (truthy (ctx_partnerId ctx)); cbn; lia.
  - destruct (partnerUsers db !! (u, p)) as [m|]; [destruct (truthy (pm_roleId m))|]; cbn; lia.
Qed.

(** The reads of a call that nothing comes between. *)
Lemma read_through now since kv cache calls c n : ∀ ts s,
  (reads_left s ≤ n)%nat → (∀ t, t ∈ ts → t = now) →
  ∃ ts', (∀ t, t ∈ ts' → t = now)
    ∧ rtc wstep (mkWorld now since kv cache (with_stage (reading ts s) c :: calls))
        (mkWorld now since kv cache (with_stage (reading ts' (answered (finish (hist now) (c_user c) (c_ctx c) s))) c :: calls)).
Proof.
  induction n as [|n IH]; intros ts s Hn Hts.
  { destruct s; cbn in Hn; try lia. by exists ts. }
  destruct (decide (reads_left s = 0)%nat) as [E|E]; [apply IH; [lia|done]|].
  assert (∀ r, s ≠ answered r) as Hs by (intros r ->; done).
  pose proof (left_read (hist now) (c_user c) (c_ctx c) s Hs) as Hlt.
  destruct (IH (ts ++ [now]) (read_next (hist now) (c_user c) (c_ctx c) s)) as (ts' & Hts' & Hr); [lia| |].
  { intros t [?|E1%list_elem_of_singleton]%elem_of_app; auto. }
  rewrite finish_read in Hr. exists ts'. split; [done|]. eapply rtc_l; [|exact Hr].
  exact (w_read now since kv cache [] (with_stage (reading ts s) c) calls ts s eq_refl Hs).
Qed.

(** An uninterrupted call is a run of these steps. *)
Lemma uninterrupted_call w u ctx bypass r cache' :
  0 ≤ latency → colon_free u ctx → is_system_shape ctx = false →
  getUserPermissions (hist (w_now w)) (Some (w_redis w)) (w_cache w) (w_now w) u ctx bypass = (r, cache') →
  ∃ w' c, rtc wstep w w' ∧ answers w' c r ∧ c ∈ w_calls w'
    ∧ wstep w' (mkWorld (w_now w) (w_since w) (w_redis w) cache' (w_calls w)).
Proof.
  intros Hl Hcf Hsys Hg. destruct w as [now since kv cache calls]. cbn [w_now w_since w_redis w_cache w_calls] in *.
  unfold getUserPermissions in Hg. rewrite Hsys in Hg.
  set (c := mkCall u ctx bypass (getPermissionCacheVersions (Some kv) u) now (since u) looking).
  pose proof (w_begin now since kv cache calls u ctx bypass Hcf Hsys) as Hb. fold c in Hb.
  destruct (lookup_cached (getPermissionCacheVersions (Some kv) u) cache now u ctx bypass) as [p|] eqn:El.
  - simplify_eq. exists (mkWorld now since kv cache' (c :: calls)), c.
    assert (answers (mkWorld now since kv cache' (c :: calls)) c (Some p)) as Ha by (by split; [eexists|]).
    split_and!; [by apply rtc_once|done|left|]. exact (w_return now since kv cache' [] c calls _ _ Ha eq_refl).
  - destruct (read_through now since kv cache calls c _ [] (first_read ctx) (Nat.le_refl _)) as (ts & Hts & Hr).
    { by intros t ?%not_elem_of_nil. }
    cbn [c_user c_ctx c] in Hr. rewrite finish_first in Hr. set (c' := with_stage _ c) in Hr at 2.
    assert (answers (mkWorld now since kv cache (c' :: calls)) c' r) as Ha.
    { simplify_eq. split; [done|]. intros t Ht%Hts. cbn. lia. }
    exists (mkWorld now since kv cache (c' :: calls)), c'. split_and!; [|done|left|].
    + eapply rtc_l; [exact Hb|]. eapply rtc_l; [exact (w_miss now since kv cache [] c calls eq_refl El)|exact Hr].
    + apply (w_return now since kv cache [] c' calls r cache' Ha). by simplify_eq.
Qed.

(** ** The invariant *)

Definition version (kv : gmap string Z) (key : string) : Z := default 0 (kv !! key).

(** The versions of a user now, and the order in which they come. *)
Definition current (kv : gmap string Z) (u : string) : Versions :=
  mkVersions (version kv GLOBAL_VERSION_KEY) (version kv (userPermissionVersionKey u)).
Definition vle (v v' : Versions) : Prop := globalVersion v ≤ globalVersion v' ∧ userVersion v ≤ userVersion v'.

(** [from u v]: the time from which [v] was the current version of [u].  An
    entry was resolved since the time its versions became current. *)
Definition entry_ok (from : string → Versions → Z) (now : Z) (kv : gmap string Z)
    (k : string) (e : CacheEntry) : Prop :=
  ∃ u ctx ts v, colon_free u ctx ∧ k = cacheKey u ctx ∧ versions e = Some v ∧ vle v (current kv u)
    ∧ StronglySorted Z.le ts ∧ resolve_reads hist u ctx ts = answered (Some (userPerms e))
    ∧ ∀ t, t ∈ ts → t ≤ now ∧ expiresAt e ≤ t + latency + CACHE_TTL ∧ from u v ≤ t.

Definition call_ok (from : string → Versions → Z) (now : Z) (kv : gmap string Z) (c : Call) : Prop :=
  colon_free (c_user c) (c_ctx c)
  ∧ (∃ v, c_versions c = Some v ∧ vle v (current kv (c_user c)) ∧ from (c_user c) v = c_floor c)
  ∧ c_floor c ≤ c_began c ≤ now
  ∧ match c_stage c with
    | reading ts s => StronglySorted Z.le ts ∧ s = resolve_reads hist (c_user c) (c_ctx c) ts ∧ ∀ t, t ∈ ts → c_began c ≤ t ≤ now
    | looking => True
    end.

Definition world_ok (w : World) : Prop :=
  (∀ u, w_since w u ≤ w_now w) ∧
  ∃ from, (∀ u, from u (current (w_redis w) u) = w_since w u)
    ∧ (∀ k e, w_cache w !! k = Some e → entry_ok from (w_now w) (w_redis w) k e)
    ∧ (∀ c, c ∈ w_calls w → call_ok from (w_now w) (w_redis w) c).

Lemma bump_version kv who kv' key :
  bumpSharedPermissionCacheVersion (Some kv) who = Some kv' →
  version kv' key = version kv key
    + (if bool_decide (key = match truthy who with Some u => userPermissionVersionKey u
                             | None => GLOBAL_VERSION_KEY end) then 1 else 0).
Proof.
  unfold bumpSharedPermissionCacheVersion, version. intros E.
  set (k := match truthy who with Some u => userPermissionVersionKey u | None => GLOBAL_VERSION_KEY end) in *.
  simpl in E. apply (inj Some) in E. rewrite <-E.
  case_bool_decide as Hk; [subst key; by rewrite lookup_insert_eq|rewrite lookup_insert_ne by done; lia].
Qed.

(** An invalidation moves every version it reaches past all earlier ones. *)
Lemma bump_current kv who kv' u :
  bumpSharedPermissionCacheVersion (Some kv) who = Some kv' →
  (∀ v, vle v (current kv u) → vle v (current kv' u))
  ∧ ∀ now since, (current kv' u = current kv u ∧ cleared now who since u = since u)
                 ∨ ∀ v, vle v (current kv u) → v ≠ current kv' u.
Proof.
  intros Hb. unfold vle, current, cleared. cbn [globalVersion userVersion]. rewrite !(bump_version _ _ _ _ Hb).
  destruct (truthy who) as [w|].
  - rewrite (bool_decide_false (GLOBAL_VERSION_KEY = _)) by (intros E; by apply (user_key_not_global w)).
    destruct (String.eqb_spec w u) as [->|Hne].
    + rewrite bool_decide_true by done. split; [lia|]. intros now since. right. intros v Hv ->. simpl in Hv. lia.
    + rewrite bool_decide_false by (intros E%user_key_inj; congruence). split; [lia|]. left. by rewrite !Z.add_0_r.
  - rewrite bool_decide_true by done. split; [case_bool_decide; lia|].
    intros now since. right. intros v Hv ->. simpl in Hv. lia.
Qed.

Lemma cleared_le now who since u : since u ≤ now → cleared now who since u ≤ now.
Proof. unfold cleared. repeat case_match; lia. Qed.

(** What an answer rests on: reads in order, recent, and since the last invalidation that
    preceded the call. *)
Definition read_at (w : World) (c : Call) (ts : list Z) (r : option UserPermissions) : Prop :=
  StronglySorted Z.le ts ∧ resolve_reads hist (c_user c) (c_ctx c) ts = answered r
  ∧ ∀ t, t ∈ ts → w_now w - (CACHE_TTL + latency) < t ≤ w_now w ∧ c_floor c ≤ t ∧ (c_bypass c = true → c_began c ≤ t).

Lemma hit_ok w c p :
  world_ok w → c ∈ w_calls w →
  lookup_cached (c_versions c) (w_cache w) (w_now w) (c_user c) (c_ctx c) (c_bypass c) = Some p →
  ∃ ts, read_at w c ts (Some p).
Proof.
  intros (_ & from & _ & He & Hc) Hin Hl. destruct (Hc c Hin) as (Hcf & (v & Hv & _ & Hf) & _).
  unfold lookup_cached in Hl. apply bind_Some in Hl as (e & Hk & Hl). case_match eqn:Et; [|done].
  apply (inj Some) in Hl as <-. rewrite Hv in Et. bool_hyps.
  destruct (He _ _ Hk) as (u & ctx & ts & v' & Hcf' & Ek & Hv' & _ & Hs & Hr & Hts).
  apply cacheKey_inj in Ek as (<- & Hp & Ho); [|done..].
  match goal with H : cacheVersionsMatch _ _ = true |- _ => rewrite Hv' in H; simpl in H end. bool_hyps.
  assert (v' = v) as -> by (destruct v, v'; simpl in *; congruence).
  exists ts. split_and!; [done|by rewrite (reads_key _ _ (c_ctx c) ctx)|]. intros t (? & ? & ?)%Hts.
  split_and!; [lia|done|lia|congruence].
Qed.

Lemma answer_ok w c r :
  0 ≤ latency → world_ok w → c ∈ w_calls w → answers w c r → ∃ ts, read_at w c ts r.
Proof.
  intros Hlat Hw Hin Ha. unfold answers in Ha. destruct (c_stage c) as [|ts s] eqn:Es.
  - destruct Ha as [[p ->] Hl]. by eapply hit_ok.
  - destruct Hw as (_ & from & _ & _ & Hc). destruct (Hc c Hin) as (_ & _ & Hf & Hs). rewrite Es in Hs.
    destruct Hs as (Hso & Hr & Hts). destruct s as [| | | |r']; [done..|]. destruct Ha as [-> Ha]. assert (0 < CACHE_TTL) by done.
    exists ts. split_and!; [done..|]. intros t Ht. specialize (Hts t Ht). specialize (Ha t Ht). split_and!; lia.
Qed.

Lemma entry_ok_tick from now now' kv k e : now ≤ now' → entry_ok from now kv k e → entry_ok from now' kv k e.
Proof.
  intros Hle (u & ctx & ts & v & ? & ? & ? & ? & ? & ? & Hts). exists u, ctx, ts, v. split_and!; try done.
  intros t (? & ? & ?)%Hts. split_and!; done || lia.
Qed.

Lemma call_ok_tick from now now' kv c : now ≤ now' → call_ok from now kv c → call_ok from now' kv c.
Proof.
  intros Hle (Hcf & Hv & Hb & Hs). split_and!; [done|done|lia|lia|].
  destruct (c_stage c); [done..|]. destruct Hs as (? & ? & Hts). split_and!; [done..|]. intros t ?%Hts. lia.
Qed.

Lemma world_ok_bump now since kv cache calls who kv' :
  bumpSharedPermissionCacheVersion (Some kv) who = Some kv' →
  world_ok (mkWorld now since kv cache calls) → world_ok (mkWorld now (cleared now who since) kv' cache calls).
Proof.
  intros Hb (Hs & from & Hfrom & He & Hc). simpl in *. split; [intros u; apply cleared_le, Hs|]. simpl.
  exists (λ u v, if decide (v = current kv' u) then cleared now who since u else from u v).
  assert (Hkeep : ∀ u v, vle v (current kv u) →
    (if decide (v = current kv' u) then cleared now who since u else from u v) = from u v).
  { intros u v Hv. destruct (decide _) as [->|]; [|done].
    destruct (bump_current kv who kv' u Hb) as [_ H]. destruct (H now since) as [[E ->]|H']; [|by destruct (H' _ Hv)].
    by rewrite E, Hfrom. }
  assert (Hup : ∀ u v, vle v (current kv u) → vle v (current kv' u)).
  { intros u. exact (proj1 (bump_current kv who kv' u Hb)). }
  split_and!.
  - intros u. by rewrite decide_True.
  - intros k e Hk. destruct (He k e Hk) as (u & ctx & ts & v & ? & ? & ? & Hv & ? & ? & ?).
    exists u, ctx, ts, v. rewrite Hkeep by done. split_and!; try done. by apply Hup.
  - intros c Hin. destruct (Hc c Hin) as (? & (v & ? & Hv & ?) & ? & ?). split_and!; try done; try lia.
    exists v. rewrite Hkeep by done. split_and!; [done|by apply Hup|done].
Qed.

Lemma world_ok_return now since kv cache pre c post r cache' :
  world_ok (mkWorld now since kv cache (pre ++ c :: post)) →
  answers (mkWorld now since kv cache (pre ++ c :: post)) c r →
  cache' = (match c_stage c with
            | reading _ _ => store_resolved (c_versions c) cache now (c_user c) (c_ctx c) (c_bypass c) r
            | looking => cache
            end) →
  world_ok (mkWorld now since kv cache' (pre ++ post)).
Proof.
  intros (Hs & from & Hfrom & He & Hc) Ha ->. cbn [w_now w_since w_redis w_cache w_calls] in *.
  split; [done|]. exists from. split_and!; [done| |intros d Hd; apply Hc; set_solver].
  destruct (Hc c) as (Hcf & (v & Hv & Hle & Hf) & Hb & Hst); [set_solver|]. cbn [w_cache w_now w_redis].
  unfold answers in Ha. destruct (c_stage c) as [|ts s]; [done|].
  destruct Hst as (Hso & Hr & Hts). destruct s as [| | | |r']; [done..|]. destruct Ha as [-> Hlat]. simpl in Hlat. unfold store_resolved.
  destruct r' as [p|]; [|done]. destruct (c_bypass c); [done|].
  intros k e. destruct (decide (k = cacheKey (c_user c) (c_ctx c))) as [->|];
    [rewrite lookup_insert_eq|rewrite lookup_insert_ne by done; apply He].
  intros [= <-]. exists (c_user c), (c_ctx c), ts, v. cbn [versions expiresAt userPerms]. split_and!; try done.
  intros t Ht. specialize (Hts t Ht). specialize (Hlat t Ht). split_and!; lia.
Qed.

(** A call that moves on to its next stage. *)
Lemma world_ok_stage now since kv cache pre c post s :
  world_ok (mkWorld now since kv cache (pre ++ c :: post)) →
  (s = reading [] (first_read (c_ctx c))
   ∨ ∃ ts x, c_stage c = reading ts x ∧ s = reading (ts ++ [now]) (read_next (hist now) (c_user c) (c_ctx c) x)) →
  world_ok (mkWorld now since kv cache (pre ++ with_stage s c :: post)).
Proof.
  intros (Hs & from & Hfrom & He & Hc) Hst. split; [done|]. exists from. cbn [w_now w_since w_redis w_cache w_calls] in *.
  split_and!; [done..|]. intros d Hd. apply elem_of_app in Hd as [Hd|[->|Hd]%elem_of_cons];
    [apply Hc; set_solver| |apply Hc; set_solver].
  destruct (Hc c) as (? & ? & [? ?] & Hcs); [set_solver|]. split_and!; try done. cbn [c_stage with_stage c_user c_ctx c_began].
  destruct Hst as [-> |(ts & x & Es & ->)].
  - split_and!; [constructor|done|]. by intros t ?%not_elem_of_nil.
  - rewrite Es in Hcs. destruct Hcs as (Hso & -> & Hts). split_and!.
    + apply StronglySorted_app. split_and!; [|done|repeat constructor]. intros t y Ht Hy%list_elem_of_singleton. subst y. by apply Hts.
    + unfold resolve_reads. by rewrite foldl_snoc.
    + intros t [Ht|Ht%list_elem_of_singleton]%elem_of_app; [by apply Hts|lia].
Qed.

Lemma wstep_ok w w' : wstep w w' → world_ok w → world_ok w'.
Proof.
  intros Hst. destruct Hst as [now now' since kv cache calls Hle|now since kv cache calls u ctx bypass Hcf _
    |now since kv cache pre c post _ _|now since kv cache pre c post ts s Es _|now since kv cache pre c post r cache' Ha E
    |now since kv cache calls who|now since kv cache calls who kv' Hb]; intros Hw.
  - destruct Hw as (Hs & from & Hfrom & He & Hc). split; [intros u; pose proof (Hs u); simpl in *; lia|].
    exists from. split_and!; [done| |]; intros; [eapply entry_ok_tick|eapply call_ok_tick]; eauto.
  - destruct Hw as (Hs & from & Hfrom & He & Hc). split; [done|]. exists from. split_and!; [done..|].
    intros c [->|Hin]%elem_of_cons; [|by apply Hc]. split_and!; [done| |apply Hs|simpl; lia|done].
    exists (current kv u). split_and!; [done|split; simpl; lia|apply Hfrom].
  - by apply world_ok_stage; [|left].
  - apply world_ok_stage; [done|]. right. eauto.
  - by eapply world_ok_return.
  - destruct Hw as (Hs & from & Hfrom & He & Hc). split; [done|]. exists from. split_and!; [done| |done].
    intros k e Hk. apply He. cbn [w_cache] in *. unfold clear_local in Hk.
    destruct (truthy who); [|by auto with breeze]. by apply map_lookup_filter_Some in Hk as [Hk _].
  - by eapply world_ok_bump.
Qed.

Lemma reachable_ok w : reachable w → world_ok w.
Proof.
  intros (w0 & (Hc & Hcalls & Hs) & Hr).
  assert (world_ok w0) as H0.
  { split; [done|]. exists (λ u _, w_since w0 u). rewrite Hc, Hcalls. split_and!; [done| |].
    - intros k e Hk. by auto with breeze.
    - intros c Hin. by auto with breeze. }
  by apply (rtc_invariant wstep world_ok w0 w wstep_ok).
Qed.

(** C31: Permission changes take effect, under every interleaving.  While Redis
    is up, let calls of [getUserPermissions] interleave at each [await] (of Redis
    and of every table read) with each other, with invalidations by this or any
    other process, and with changes of the tables.  Whatever a call answers comes
    from reads made in order, each of the tables as they were at its own time: less
    than five minutes (and the latency of one resolution) ago, and not before the
    last invalidation of that user (or of everyone) that preceded the call: an
    answer computed from older tables is stored under versions no later call
    accepts.  Reads of a call that bypasses the cache are made since it began.
    Where the tables did not change between the reads, the answer is what they give
    as a whole. *)
Theorem permission_staleness w c r
    (Hlat : 0 ≤ latency) (Hw : reachable w) (Hin : c ∈ w_calls w) (Ha : answers w c r) :
  ∃ ts, StronglySorted Z.le ts ∧ resolve_reads hist (c_user c) (c_ctx c) ts = answered r
    ∧ (∀ t, t ∈ ts → w_now w - (5 * 60 * 1000 + latency) < t ≤ w_now w ∧ c_floor c ≤ t
                      ∧ (c_bypass c = true → c_began c ≤ t))
    ∧ ∀ t0, (∀ t, t ∈ ts → hist t = hist t0) → r = resolve (hist t0) (c_user c) (c_ctx c).
Proof.
  destruct (answer_ok w c r) as (ts & Hs & Hr & Hts); [done|by apply reachable_ok|done..|].
  exists ts. split_and!; [done..|]. intros t0 Hsame. by eapply reads_steady.
Qed.
End interleaving.

(** A partner-scope permission set without an [orgAccess] setting, which the
    resolver never builds, is let into every organization. *)
Example partner_without_orgAccess p org :
  scope p = partner → orgAccess p = None → canAccessOrg p org = true.
Proof. intros Hs Ho. unfold canAccessOrg. by rewrite Hs, Ho. Qed.

(** ** Witness *)

Definition ex_db : Db :=
  mkDb ∅ {[("u", "o") := mkOrgMember (Some "r") None]} ∅ {["r" := [mkPerm "devices" "*"]]}.
Definition ex_ctx : Context := mkContext None (Some "o") (Some organization).

(** A call that finds nothing cached and reads the membership and its role at 9. *)
Definition ex_call (stage : Stage) : Call :=
  mkCall "u" ex_ctx false (getPermissionCacheVersions (Some ∅) "u") 9 9 stage.
Definition ex_done : Stage := reading [9; 9] (answered (resolve ex_db "u" ex_ctx)).
Definition ex_world (calls : list Call) : World := mkWorld 9 (λ _, 9) ∅ ∅ calls.

Lemma ex_reachable : reachable (λ _, ex_db) 1000 (ex_world [ex_call ex_done]).
Proof.
  exists (ex_world []). split; [by split_and!|].
  eapply rtc_l; [apply (w_begin _ _ 9 (λ _, 9) ∅ ∅ [] "u" ex_ctx false);
                 [split; by apply (bool_decide_eq_true_1 _); vm_compute|done]|].
  eapply rtc_l; [apply (w_miss _ _ 9 (λ _, 9) ∅ ∅ [] _ []); done|].
  eapply rtc_l; [apply (w_read (λ _, ex_db) 1000 9 (λ _, 9) ∅ ∅ [] (ex_call (reading [] (want_org_member "o"))) [] [] (want_org_member "o")); done|].
  apply rtc_once.
  exact (w_read (λ _, ex_db) 1000 9 (λ _, 9) ∅ ∅ [] (ex_call (reading [9] (want_org_role "r" s_undefined))) [] [9] (want_org_role "r" s_undefined)
           eq_refl ltac:(done)).
Qed.

Lemma permission_staleness_witness :
  ∃ ts r, resolve_reads (λ _, ex_db) "u" ex_ctx ts = answered (Some r) ∧ (∀ t, t ∈ ts → 9 ≤ t ≤ 9)
    ∧ Some r = resolve ex_db "u" ex_ctx ∧ hasPermission r "devices" "read" = true.
Proof.
  destruct (resolve ex_db "u" ex_ctx) as [r|] eqn:E; [|by vm_compute in E].
  destruct (permission_staleness (λ _, ex_db) 1000 (ex_world [ex_call ex_done]) (ex_call ex_done) (Some r)) as (ts & _ & Hr & Hts & Hst);
    [lia|apply ex_reachable|left| |].
  { split; [by rewrite E|]. intros t. rewrite !elem_of_cons. intros [->|[->|?%not_elem_of_nil]]; [cbn; lia..|done]. }
  exists ts, r. split_and!; [exact Hr| |done|].
  - intros t Ht. destruct (Hts t Ht) as ([_ H1] & H2 & _). cbn in H1, H2. lia.
  - vm_compute in E. by simplify_eq.
Defined.

(** An answer that no single state of the tables gives: the user is moved from the
    partner to the organization between the two reads, and is found in neither. *)
Definition ex_moved (t : Z) : Db :=
  if t <? 10 then mkDb ∅ ∅ {[("u", "p") := mkPartnerMember (Some "r") oa_all None]} {["r" := [mkPerm "devices" "*"]]} else ex_db.
Example moved_between_reads :
  let ctx := mkContext (Some "p") (Some "o") None in
  resolve_reads ex_moved "u" ctx [9; 11] = answered None ∧ ∀ t, resolve (ex_moved t) "u" ctx ≠ None.
Proof. split; [vm_compute; reflexivity|]. intros t. unfold ex_moved. by destruct (t <? 10). Qed.
End Permissions.

Module Delegation.
Import Permissions.

(** ** [delegationCeiling.ts] *)

Record CredentialAuthority := mkAuthority {
  ca_scope : Scope; ca_permissions : option (list Permission); ca_allowedSiteIds : SiteIds }.

Inductive DelegationCeilingViolation := v_scope | v_permission | v_site.

Definition SCOPE_RANK (s : Scope) : Z := match s with organization => 0 | partner => 1 | system => 2 end.

Definition scopeCoversScope (callerScope credentialScope : Scope) : bool :=
  SCOPE_RANK credentialScope <=? SCOPE_RANK callerScope.

(** [undefined] and [null] are unrestricted on either side. *)
Definition siteAllowlistCovers (callerSiteIds credentialSiteIds : SiteIds) : bool :=
  match callerSiteIds with
  | s_undefined | s_null => true
  | s_array allowed =>
      match credentialSiteIds with
      | s_undefined | s_null => false
      | s_array ids => forallb (λ siteId, existsb (String.eqb siteId) allowed) ids
      end
  end.

Definition checkDelegationCeiling (callerScope : Scope) (callerSiteIds : SiteIds)
    (credential : CredentialAuthority) (holdsPermission : Permission → bool)
    : result DelegationCeilingViolation unit :=
  if negb (scopeCoversScope callerScope (ca_scope credential)) then Err v_scope
  else if negb (forallb holdsPermission (default [] (ca_permissions credential))) then Err v_permission
  else if negb (siteAllowlistCovers callerSiteIds (ca_allowedSiteIds credential)) then Err v_site
  else Ok ().

(** Holding a grant is holding all it grants, wildcards included. *)
Lemma grant_trans h g res act :
  permissionGrantMatches h (resource g) (action g) = true →
  permissionGrantMatches g res act = true → permissionGrantMatches h res act = true.
Proof.
  unfold permissionGrantMatches.
  rewrite !andb_true_iff, !orb_true_iff, !String.eqb_eq. intros [H1 H2] [H3 H4].
  split; [destruct H1 as [H1|H1]|destruct H2 as [H2|H2]]; rewrite H1 || rewrite H2; auto.
Qed.

Definition sites_within (callerSites credSites : SiteIds) : Prop :=
  ∀ allowed, callerSites = s_array allowed → ∃ ids, credSites = s_array ids ∧ ids ⊆ allowed.

Lemma siteAllowlistCovers_spec a b : siteAllowlistCovers a b = true ↔ sites_within a b.
Proof.
  unfold siteAllowlistCovers, sites_within.
  destruct a as [| |allowed]; [by split; [intros _ ? [=]|]..|].
  destruct b as [| |ids];
    [split; [done|]; intros H; by destruct (H allowed eq_refl) as (? & ? & _)..|].
  rewrite forallb_forall. setoid_rewrite existsb_exists. setoid_rewrite String.eqb_eq.
  setoid_rewrite <-list_elem_of_In. split.
  - intros H a [= <-]. exists ids. split; [done|]. intros x Hx. by destruct (H x Hx) as (y & Hy & ->).
  - intros H x Hx. destruct (H allowed eq_refl) as (ids' & [= <-] & Hsub). exists x. auto.
Qed.

(** The delegation ceiling.  A credential may be handed out exactly when its
    scope does not outrank the caller's, the caller holds each of its
    permissions, and its site list is within the caller's.  What the caller may
    then hand out grants no resource and action it does not itself hold, on any
    axis and through any wildcard, and (the caller's own site list being absent or
    an array, as the resolver builds it) opens no site closed to it. *)
Theorem delegation_ceiling (caller : UserPermissions) cred :
  let verdict := checkDelegationCeiling (scope caller) (allowedSiteIds caller) cred
                   (λ p, hasPermission caller (resource p) (action p)) in
  (verdict = Ok () ↔
     SCOPE_RANK (ca_scope cred) ≤ SCOPE_RANK (scope caller)
     ∧ (∀ p, p ∈ default [] (ca_permissions cred) → hasPermission caller (resource p) (action p) = true)
     ∧ sites_within (allowedSiteIds caller) (ca_allowedSiteIds cred))
  ∧ (verdict = Ok () →
     (∀ res act, existsb (λ g, permissionGrantMatches g res act) (default [] (ca_permissions cred)) = true →
        hasPermission caller res act = true)
     ∧ (allowedSiteIds caller ≠ s_null → ∀ site,
          match ca_allowedSiteIds cred with s_array ids => site ∈ ids | _ => True end →
          canAccessSite caller site = true)).
Proof.
  intros verdict.
  assert (Hiff : verdict = Ok () ↔
     SCOPE_RANK (ca_scope cred) ≤ SCOPE_RANK (scope caller)
     ∧ (∀ p, p ∈ default [] (ca_permissions cred) → hasPermission caller (resource p) (action p) = true)
     ∧ sites_within (allowedSiteIds caller) (ca_allowedSiteIds cred)).
  { rewrite <-siteAllowlistCovers_spec. setoid_rewrite list_elem_of_In. rewrite <-forallb_forall, <-Z.leb_le.
    fold (scopeCoversScope (scope caller) (ca_scope cred)). unfold verdict, checkDelegationCeiling.
    destruct (scopeCoversScope _ _), (forallb _ _), (siteAllowlistCovers _ _); naive_solver. }
  split; [exact Hiff|]. intros (_ & Hp & Hs)%Hiff. split.
  - intros res act (g & Hg & Hm)%existsb_exists. apply list_elem_of_In, Hp, existsb_exists in Hg as (h & Hh & Hhm).
    apply existsb_exists. exists h. split; [done|]. by eapply grant_trans.
  - intros Hnull site Hin. unfold canAccessSite. destruct (allowedSiteIds caller) as [| |allowed]; [done..|].
    destruct (Hs allowed eq_refl) as (ids & Hids & Hsub). rewrite Hids in Hin.
    apply existsb_exists. exists site. rewrite String.eqb_refl. split; [|done]. apply list_elem_of_In, Hsub, Hin.
Qed.

(** A [null] site list is read as unrestricted here and as no site at all by the
    access check, so such a caller could hand out sites it cannot itself reach. *)
Example null_site_list_reads_apart p cred site :
  allowedSiteIds p = s_null →
  siteAllowlistCovers (allowedSiteIds p) cred = true ∧ canAccessSite p site = false.
Proof. intros H. unfold canAccessSite. by rewrite H. Qed.
End Delegation.
