(* ===== verification/Patches.v ===== *)
(** * Patch approval: which patches a job may install on a device

    Models [apps/api/src/services/patchApprovalEvaluator.ts] (category and source
    filters, version comparison, per-app block and pin rules, the deferral rule,
    the parsing of a ring's auto-approve setting, the prioritised decision) and,
    of [apps/api/src/services/patchEligibility.ts], the gate
    [evaluatePatchInstallEligibility] with the queries it makes, its job-executor
    adapter, and the coercion of stored category rules.

    The tables are a [Db]; a query is a filter of its rows, in their order.
    [new Date(text)] of a text that need not be an ISO date is left to the engine
    by the language, so it is the parameter [Date_parse] ([None]: an invalid date).
    Console output and exception reports are not modelled. *)
From S2P Require Import Prelude JsText JsDate IsoDate.
From stdpp Require Import base tactics list strings gmap.
From Stdlib Require Import ZArith Lia Ascii.
Open Scope Z_scope.

Module PatchApproval.

(** ** Types *)

Record CategoryRule := mkCategoryRule {
  cr_category : string;
  cr_autoApprove : bool;
  cr_autoApproveSeverities : option (list string);
  cr_severityFilter : option (list string);
  cr_autoApproveUnrated : option bool;
  cr_deferralDaysOverride : option Z }.

Record PolicyAutoApproveConfig := mkPolicyAutoApprove {
  pa_enabled : bool; pa_severities : list string; pa_deferralDays : Z }.

Inductive PolicyAppRule :=
| rule_block (source packageId : string)
| rule_pin (source packageId pinnedVersion : string).

Inductive AppRuleVerdict := allowed | blocked | held.

(** Optional and nullable fields are options; [autoApprove] is an unknown JSON
    value, [None] for [undefined]. *)
Record ApprovalEvaluationConfig := mkConfig {
  ringId : option string;
  ringPartnerId : option string;
  categoryRules : list CategoryRule;
  autoApprove : option json;
  deferralDays : Z;
  categories : option (list string);
  excludeCategories : option (list string);
  sources : option (list string);
  policyAutoApprove : option PolicyAutoApproveConfig;
  apps : option (list PolicyAppRule) }.

Inductive ApprovalReason :=
| manual | category_rule | ring_auto_approve | legacy_auto_approve | policy_auto_approve.
#[export] Instance ApprovalReason_eq_dec : EqDecision ApprovalReason.
Proof. solve_decision. Defined.

Inductive PatchIneligibleReason :=
| not_outstanding | superseded | blocked_by_source | held_by_deferral | blocked_by_category
| blocked_by_app_rule | awaiting_manual_approval | no_ring_resolved | device_not_in_org.

(** ** Categories and sources *)

Definition canonicalizePatchCategory (category : string) : string :=
  let c := toLowerCase category in
  if String.eqb c "definition" then "definitions" else c.

(** The set, as a list read by membership. *)
Definition normalizeCategorySet (l : option (list string)) : list string :=
  omap (λ c, if String.eqb (trim c) "" then None else Some (canonicalizePatchCategory (trim c))) (default [] l).

Definition has (x : string) (l : list string) : bool := existsb (String.eqb x) l.

Definition isCategoryAllowed (category : option string) (categories excludeCategories : option (list string)) : bool :=
  let include := normalizeCategorySet categories in
  let exclude := normalizeCategorySet excludeCategories in
  if bool_decide (include = []) && bool_decide (exclude = []) then true
  else
    match canonicalizePatchCategory <$> truthy category with
    | Some canon =>
        if has canon exclude then false
        else if bool_decide (include = []) then true else has canon include
    | None => bool_decide (include = [])
    end.

Definition OS_PATCH_SOURCES : list string := ["microsoft"; "apple"; "linux"].
Definition THIRD_PARTY_PATCH_SOURCES : list string := ["third_party"; "custom"].

Definition expand_source (source : string) : list string :=
  if String.eqb source "os" then OS_PATCH_SOURCES
  else if String.eqb source "third_party" then THIRD_PARTY_PATCH_SOURCES
  else if has source ["microsoft"; "apple"; "linux"; "custom"] then [source]
  else [].

Definition buildAllowedPatchSources (sources : option (list string)) : option (list string) :=
  match sources with
  | None | Some [] => None
  | Some l => Some (concat (expand_source <$> l))
  end.

Definition isThirdPartyPatchSource (source : option string) : bool :=
  has (default "" source) THIRD_PARTY_PATCH_SOURCES.

Definition isUnratedSeverity (severity : option string) : bool :=
  match truthy severity with Some s => String.eqb s "unknown" | None => true end.

(** ** Version comparison *)

(** [s.split(/[.\-+_]/)]. *)
Definition version_sep (c : ascii) : bool :=
  Ascii.eqb c "." || Ascii.eqb c "-" || Ascii.eqb c "+" || Ascii.eqb c "_".

Fixpoint split_version (cur : list ascii) (l : list ascii) : list (list ascii) :=
  match l with
  | [] => [reverse cur]
  | c :: l' => if version_sep c then reverse cur :: split_version [] l' else split_version (c :: cur) l'
  end.

(** [/^\d+$/]. *)
Definition numeric (x : list ascii) : bool := negb (bool_decide (x = [])) && all_digits x.

(** One round of the loop, [Eq] for [continue].  [parseInt] is exact: numbers of
    versions are below 2^53. *)
Definition compare_segment (x y : list ascii) : comparison :=
  if numeric x && numeric y then digits_val x ?= digits_val y
  else scmp x y.

Fixpoint compare_segments (len : nat) (a b : list (list ascii)) : comparison :=
  match len with
  | O => Eq
  | S len' =>
      match compare_segment (default ["0"%char] (head a)) (default ["0"%char] (head b)) with
      | Eq => compare_segments len' (tail a) (tail b)
      | r => r
      end
  end.

Definition comparePatchVersions (a b : option string) : option comparison :=
  let av := trim (default "" a) in
  let bv := trim (default "" b) in
  if String.eqb av "" || String.eqb bv "" then None
  else
    let asg := split_version [] (chars av) in
    let bsg := split_version [] (chars bv) in
    Some (compare_segments (Nat.max (length asg) (length bsg)) asg bsg).

(** ** Per-app rules *)

Definition appRuleKey (source packageId : string) : string :=
  let bucket := if isThirdPartyPatchSource (Some source) then "third_party" else source in
  bucket +:+ "|" +:+ toLowerCase packageId.

Definition rule_key (rule : PolicyAppRule) : string :=
  match rule with rule_block s p | rule_pin s p _ => appRuleKey s p end.

Definition buildAppRuleMap (apps : option (list PolicyAppRule)) : gmap string PolicyAppRule :=
  foldl (λ m rule, <[rule_key rule := rule]> m) ∅ (default [] apps).

Definition evaluateAppRule (source : string) (packageId version : option string)
    (rules : gmap string PolicyAppRule) : AppRuleVerdict :=
  match truthy packageId with
  | None => allowed
  | Some pkg =>
      match rules !! appRuleKey source pkg with
      | None => allowed
      | Some (rule_block _ _) => blocked
      | Some (rule_pin _ _ pinnedVersion) =>
          match comparePatchVersions version (Some pinnedVersion) with
          | None | Some Gt => held
          | Some _ => allowed
          end
      end
  end.
(** ** Deferral *)

(** [Date | string | null]; a [Date] holds a time value, [None] when invalid. *)
Inductive FirstSeen := seen_date (t : option Z) | seen_text (s : string).

Record PatchCandidate := mkCandidate {
  patchId : string;
  category : option string;
  severity : option string;
  releaseDate : option string;
  source : string;
  packageId : option string;
  version : option string;
  firstSeenAt : option FirstSeen }.

(** [new Date(n)]: a time value beyond 8.64e15 is invalid. *)
Definition TimeClip (t : Z) : option Z := if Z.abs t <=? 8640000000000000 then Some t else None.

Section decision.
Context (Date_parse : string → option Z).

(** [firstSeenAt] where it is truthy, as [new Date(firstSeenAt)]. *)
Definition first_seen (o : option FirstSeen) : option (option Z) :=
  match o with
  | Some (seen_date t) => Some t
  | Some (seen_text s) => Date_parse <$> truthy (Some s)
  | None => None
  end.

(** [None]: no anchor at all; [Some None]: one that is an invalid date. *)
Definition ageAnchor (patch : PatchCandidate) : option (option Z) :=
  match truthy (releaseDate patch) with
  | Some s => Some (Date_parse s)
  | None => if isThirdPartyPatchSource (Some (source patch)) then first_seen (firstSeenAt patch) else None
  end.

Definition isHeldByDeferral (patch : PatchCandidate) (deferralDays now : Z) : bool :=
  if deferralDays <=? 0 then false
  else match ageAnchor patch with
       | Some (Some t) =>
           match TimeClip (t + deferralDays * 24 * 60 * 60 * 1000) with
           | Some deferralEnd => now <? deferralEnd
           | None => false
           end
       | _ => true
       end.

(** ** A ring's auto-approve setting *)

Record RingAutoApproveConfig := mkRingAutoApprove {
  ra_enabled : bool;
  ra_severities : list string;
  ra_deferralDays : Z;
  ra_thirdPartyApps : bool;
  ra_thirdPartyDeferralDays : option Z;
  ra_autoApproveUnrated : bool }.

Definition RECOGNIZED_RING_SEVERITIES : list string := ["critical"; "important"; "moderate"; "low"].

Definition DISABLED_RING_AUTO_APPROVE : RingAutoApproveConfig := mkRingAutoApprove false [] 0 false None false.

Definition is_true_ (o : option json) : bool := match o with Some (JBool b) => b | _ => false end.

(** A present hold must be an integer within its bounds. *)
Definition read_days (lo_hi : Z → bool) (o : option json) : option Z :=
  match o with Some (JNum n) => if lo_hi n then Some n else None | _ => None end.

(** The two holds, [None] when malformed; a null or absent third-party hold
    inherits. *)
Definition read_deferralDays (raw : option json) : option Z :=
  match raw with None => Some 0 | _ => read_days (λ n, 0 <=? n) raw end.
Definition read_thirdPartyDeferralDays (raw : option json) : option (option Z) :=
  match raw with
  | None | Some JNull => Some None
  | _ => Some <$> read_days (λ n, (0 <=? n) && (n <=? 365)) raw
  end.

Definition parseRingAutoApprove (autoApprove : option json) : RingAutoApproveConfig :=
  match autoApprove with
  | Some (JBool true) => mkRingAutoApprove true [] 0 false None false
  | Some (JObj l) =>
      let config := JObj l in
      if negb (is_true_ (jget "enabled" config)) then DISABLED_RING_AUTO_APPROVE
      else
        let severities :=
          match jget "severities" config with
          | Some (JArr ss) => List.filter (λ s, has s RECOGNIZED_RING_SEVERITIES) (omap (λ s, jstring (Some s)) ss)
          | _ => []
          end in
        match read_deferralDays (jget "deferralDays" config) with
        | None => DISABLED_RING_AUTO_APPROVE
        | Some deferralDays =>
            let thirdPartyApps :=
              match jget "thirdPartyApps" config with
              | Some v => is_true_ (Some v)
              | None => negb (bool_decide (severities = []))
              end in
            match read_thirdPartyDeferralDays (jget "thirdPartyDeferralDays" config) with
            | None => DISABLED_RING_AUTO_APPROVE
            | Some thirdPartyDeferralDays =>
                mkRingAutoApprove true severities deferralDays thirdPartyApps thirdPartyDeferralDays
                  (is_true_ (jget "autoApproveUnrated" config))
            end
        end
  | _ => DISABLED_RING_AUTO_APPROVE
  end.

(** ** The decision *)

Inductive PatchApprovalDecision := approved (r : ApprovalReason) | denied (r : PatchIneligibleReason).

(** [rule.autoApproveSeverities ?? rule.severityFilter]. *)
Definition severityAllowlist (rule : CategoryRule) : option (list string) :=
  match cr_autoApproveSeverities rule with Some l => Some l | None => cr_severityFilter rule end.

(** A severity that is not unrated is a non-empty string. *)
Definition severity_listed (severity : option string) (l : list string) : bool := has (default "" severity) l.

Definition decide_by_rule (patch : PatchCandidate) (ringConfig : ApprovalEvaluationConfig)
    (ringAutoApprove : RingAutoApproveConfig) (now : Z) (rule : CategoryRule) : PatchApprovalDecision :=
  let MANUAL := denied awaiting_manual_approval in
  if negb (cr_autoApprove rule) then MANUAL
  else if isThirdPartyPatchSource (Some (source patch))
          && (negb (has "third_party" (default [] (sources ringConfig))) || negb (ra_thirdPartyApps ringAutoApprove))
  then MANUAL
  else if match severityAllowlist rule with
          | Some (s :: ss) =>
              if isUnratedSeverity (severity patch) then negb (default false (cr_autoApproveUnrated rule))
              else negb (severity_listed (severity patch) (s :: ss))
          | _ => false
          end
  then MANUAL
  else if isHeldByDeferral patch (default (deferralDays ringConfig) (cr_deferralDaysOverride rule)) now
  then denied held_by_deferral
  else approved category_rule.

Definition decide_by_ring (patch : PatchCandidate) (ringConfig : ApprovalEvaluationConfig)
    (ringAutoApprove : RingAutoApproveConfig) (now : Z) : PatchApprovalDecision :=
  let MANUAL := denied awaiting_manual_approval in
  if isThirdPartyPatchSource (Some (source patch)) then
    if negb (has "third_party" (default [] (sources ringConfig))) then MANUAL
    else if negb (ra_thirdPartyApps ringAutoApprove) then MANUAL
    else
      let hold := default (ra_deferralDays ringAutoApprove) (ra_thirdPartyDeferralDays ringAutoApprove) in
      if isHeldByDeferral patch hold now then denied held_by_deferral else approved ring_auto_approve
  else if bool_decide (ra_severities ringAutoApprove = []) then MANUAL
  else if (if isUnratedSeverity (severity patch) then negb (ra_autoApproveUnrated ringAutoApprove)
           else negb (severity_listed (severity patch) (ra_severities ringAutoApprove)))
  then MANUAL
  else if isHeldByDeferral patch (ra_deferralDays ringAutoApprove) now then denied held_by_deferral
  else approved ring_auto_approve.

Definition decidePatchApproval (patch : PatchCandidate) (ringConfig : ApprovalEvaluationConfig)
    (manualApprovalSet : list string) (categoryRuleMap : gmap string CategoryRule)
    (ringAutoApprove : RingAutoApproveConfig) (now : Z) : PatchApprovalDecision :=
  if has (patchId patch) manualApprovalSet then approved manual
  else match truthy (ringId ringConfig) with
  | None => denied no_ring_resolved
  | Some _ =>
      match truthy (category patch) ≫= λ c, categoryRuleMap !! canonicalizePatchCategory c with
      | Some rule => decide_by_rule patch ringConfig ringAutoApprove now rule
      | None =>
          if ra_enabled ringAutoApprove then decide_by_ring patch ringConfig ringAutoApprove now
          else denied awaiting_manual_approval
      end
  end.

Definition evaluatePatchApproval (patch : PatchCandidate) (ringConfig : ApprovalEvaluationConfig)
    (manualApprovalSet : list string) (categoryRuleMap : gmap string CategoryRule)
    (ringAutoApprove : RingAutoApproveConfig) (now : Z) : option ApprovalReason :=
  match decidePatchApproval patch ringConfig manualApprovalSet categoryRuleMap ringAutoApprove now with
  | approved r => Some r
  | denied _ => None
  end.
End decision.

(** ** Lemmas on versions *)

Lemma scmp_antisym x y : scmp x y = CompOpp (scmp y x).
Proof. unfold scmp. apply String.compare_antisym. Qed.

Lemma compare_segment_antisym x y : compare_segment x y = CompOpp (compare_segment y x).
Proof.
  unfold compare_segment. rewrite (andb_comm (numeric x)). case_match; [apply Z.compare_antisym|apply scmp_antisym].
Qed.

Lemma compare_segments_antisym n a b : compare_segments n a b = CompOpp (compare_segments n b a).
Proof.
  revert a b. induction n as [|n IH]; intros a b; [done|]. cbn [compare_segments].
  rewrite compare_segment_antisym, IH. by destruct (compare_segment _ _).
Qed.

Lemma compare_segments_refl n a : compare_segments n a a = Eq.
Proof.
  revert a. induction n as [|n IH]; intros a; [done|]. cbn [compare_segments].
  assert (∀ x, compare_segment x x = Eq) as ->; [|done].
  intros x. unfold compare_segment. case_match; [apply Z.compare_refl|apply scmp_refl].
Qed.

(** The number of a segment, 0 beyond the last one. *)
Definition segment_value (segs : list (list ascii)) (i : nat) : Z :=
  match segs !! i with Some x => digits_val x | None => 0 end.

(** The first place where two vectors of numbers differ decides. *)
Definition first_diff (f g : nat → Z) (c : comparison) : Prop :=
  match c with
  | Eq => ∀ i, f i = g i
  | _ => ∃ i, (∀ j, (j < i)%nat → f j = g j) ∧ (f i ?= g i) = c
  end.

Lemma segment_value_tail a i : segment_value (tail a) i = segment_value a (S i).
Proof. by destruct a. Qed.

Lemma first_diff_S f g c : f 0%nat = g 0%nat → first_diff (λ i, f (S i)) (λ i, g (S i)) c → first_diff f g c.
Proof.
  intros H0. assert (∀ c', c' ≠ Eq → (∃ i, (∀ j, (j < i)%nat → f (S j) = g (S j)) ∧ (f (S i) ?= g (S i)) = c') →
    ∃ i, (∀ j, (j < i)%nat → f j = g j) ∧ (f i ?= g i) = c') as H.
  { intros c' _ (i & Hi & Hc). exists (S i). split; [|done]. intros [|j] Hj; [done|]. apply Hi. lia. }
  destruct c; simpl; [|by apply H..]. intros Hall [|i]; [done|apply Hall].
Qed.

Lemma compare_segments_spec n a b :
  Forall (λ x, numeric x = true) a → Forall (λ x, numeric x = true) b →
  (length a ≤ n)%nat → (length b ≤ n)%nat →
  first_diff (segment_value a) (segment_value b) (compare_segments n a b).
Proof.
  revert a b. induction n as [|n IH]; intros a b Ha Hb Hla Hlb.
  { destruct a, b; simpl in *; lia || done. }
  cbn [compare_segments].
  assert (Hhd : ∀ l, Forall (λ x, numeric x = true) l → numeric (default ["0"%char] (head l)) = true
    ∧ digits_val (default ["0"%char] (head l)) = segment_value l 0) by (intros [|x l] Hl; [done|by inversion Hl]).
  destruct (Hhd a Ha) as [Hna Hva], (Hhd b Hb) as [Hnb Hvb].
  unfold compare_segment. rewrite Hna, Hnb, Hva, Hvb. cbn [andb].
  destruct (segment_value a 0 ?= segment_value b 0) eqn:E;
    [|exists 0%nat; split; [intros; lia|done]..].
  apply Z.compare_eq in E. apply first_diff_S; [done|].
  assert (Htl : ∀ l, Forall (λ x, numeric x = true) l → (length l ≤ S n)%nat →
    Forall (λ x, numeric x = true) (tail l) ∧ (length (tail l) ≤ n)%nat)
    by (intros [|x l] Hl Hlen; simpl in *; [split; [done|lia]|inversion Hl; split; [done|lia]]).
  destruct (Htl a Ha Hla), (Htl b Hb Hlb). specialize (IH (tail a) (tail b)).
  destruct (compare_segments n (tail a) (tail b)); simpl in *; [intros i|..].
  - rewrite <-!segment_value_tail. by apply IH.
  - destruct IH as (i & Hi & Hc); [done..|]. exists i. split; [intros j Hj|]; rewrite <-!segment_value_tail; auto.
  - destruct IH as (i & Hi & Hc); [done..|]. exists i. split; [intros j Hj|]; rewrite <-!segment_value_tail; auto.
Qed.

(** A version all of whose segments are numbers. *)
Definition numeric_version (v : string) : Prop :=
  trim v ≠ "" ∧ Forall (λ x, numeric x = true) (split_version [] (chars (trim v))).

Definition version_value (v : string) : nat → Z := segment_value (split_version [] (chars (trim v))).

Lemma comparePatchVersions_Some a b :
  trim a ≠ "" → trim b ≠ "" →
  ∃ n, (length (split_version [] (chars (trim a))) ≤ n)%nat ∧ (length (split_version [] (chars (trim b))) ≤ n)%nat ∧
  comparePatchVersions (Some a) (Some b)
  = Some (compare_segments n (split_version [] (chars (trim a))) (split_version [] (chars (trim b)))).
Proof.
  intros Ha Hb. unfold comparePatchVersions. change (default "" (Some a)) with a. change (default "" (Some b)) with b.
  rewrite (proj2 (String.eqb_neq _ _) Ha), (proj2 (String.eqb_neq _ _) Hb). cbn [orb].
  eexists. split_and!; [apply Nat.le_max_l|apply Nat.le_max_r|done].
Qed.

(** Version comparison.  It answers nothing exactly when a side is missing
    or blank, it is antisymmetric, and a version equals itself; and on versions
    whose segments are all numbers it is the lexicographic order of those numbers,
    a missing segment counting as 0. *)
Theorem version_comparison :
  (∀ a b, comparePatchVersions a b = None ↔ trim (default "" a) = "" ∨ trim (default "" b) = "")
  ∧ (∀ a b, comparePatchVersions a b = CompOpp <$> comparePatchVersions b a)
  ∧ (∀ a, trim a ≠ "" → comparePatchVersions (Some a) (Some a) = Some Eq)
  ∧ (∀ a b, numeric_version a → numeric_version b →
       ∃ c, comparePatchVersions (Some a) (Some b) = Some c ∧ first_diff (version_value a) (version_value b) c).
Proof.
  split_and!.
  - intros a b. unfold comparePatchVersions.
    destruct (String.eqb_spec (trim (default "" a)) ""), (String.eqb_spec (trim (default "" b)) ""); naive_solver.
  - intros a b. unfold comparePatchVersions. rewrite orb_comm. case_match; [done|]. simpl.
    by rewrite Nat.max_comm, compare_segments_antisym.
  - intros a Ha. destruct (comparePatchVersions_Some a a Ha Ha) as (n & _ & _ & ->). by rewrite compare_segments_refl.
  - intros a b [Ha Hna] [Hb Hnb]. destruct (comparePatchVersions_Some a b Ha Hb) as (n & Hla & Hlb & ->).
    eexists. split; [done|]. by apply compare_segments_spec.
Qed.

(** With segments that are not numbers the comparison is not transitive. *)
Example version_order_cycle :
  comparePatchVersions (Some "2") (Some "10") = Some Lt
  ∧ comparePatchVersions (Some "10") (Some "1a") = Some Lt
  ∧ comparePatchVersions (Some "1a") (Some "2") = Some Lt.
Proof. by vm_compute. Qed.

(** ** Lemmas on the decision *)

Lemma listed_elem x l : has x l = true ↔ x ∈ l.
Proof.
  unfold has. rewrite existsb_exists. split.
  - intros (y & Hy & ->%String.eqb_eq). by apply list_elem_of_In.
  - intros Hx. exists x. split; [by apply list_elem_of_In|apply String.eqb_refl].
Qed.

Section decision_facts.
Context (Date_parse : string → option Z).
Notation ageAnchor := (ageAnchor Date_parse).
Notation isHeldByDeferral := (isHeldByDeferral Date_parse).
Notation decidePatchApproval := (decidePatchApproval Date_parse).

(** The patch's age is known and the window has passed: [deferralDays] days after
    the anchor it is not later than now, or not a representable time at all. *)
Definition released (patch : PatchCandidate) (deferralDays now : Z) : Prop :=
  deferralDays ≤ 0 ∨ ∃ t, ageAnchor patch = Some (Some t)
    ∧ (t + deferralDays * 86400000 ≤ now ∨ 8640000000000000 < Z.abs (t + deferralDays * 86400000)).

Lemma not_held_released patch d now : isHeldByDeferral patch d now = false ↔ released patch d now.
Proof.
  unfold released, isHeldByDeferral. destruct (Z.leb_spec d 0); [split; [by left|done]|].
  destruct (ageAnchor patch) as [[t|]|]; [|split; [done|intros [?|(? & [=] & _)]; lia]..].
  replace (d * 24 * 60 * 60 * 1000) with (d * 86400000) by lia. unfold TimeClip.
  destruct (Z.leb_spec (Z.abs (t + d * 86400000)) 8640000000000000) as [Hr|Hr].
  - split.
    + intros Hlt%Z.ltb_ge. right. exists t. split; [done|by left].
    + intros [?|(? & [= <-] & [?|?])]; [lia|by apply Z.ltb_ge|lia].
  - split; [|done]. intros _. right. exists t. split; [done|by right].
Qed.

Lemma released_mono patch d now now' : now ≤ now' → released patch d now → released patch d now'.
Proof. intros Hle [?|(t & Ht & [?|?])]; [by left|right; exists t; split; [done|left; lia]|right; exists t; by split; [|right]]. Qed.

(** A severity gate: a rating on the list, or none and the opt-in. *)
Definition severity_admitted (sev : option string) (l : list string) (unrated_ok : bool) : Prop :=
  if isUnratedSeverity sev then unrated_ok = true else ∃ s, sev = Some s ∧ s ∈ l.

Lemma severity_gate sev l (u : bool) :
  (if isUnratedSeverity sev then negb u else negb (severity_listed sev l)) = false → severity_admitted sev l u.
Proof.
  unfold severity_admitted, severity_listed. destruct (isUnratedSeverity sev) eqn:E; intros H%negb_false_iff; [done|].
  destruct sev as [s|]; [|done]. exists s. split; [done|]. by apply listed_elem.
Qed.

(** Both consents to a third-party patch. *)
Definition consented (patch : PatchCandidate) (cfg : ApprovalEvaluationConfig) (ring : RingAutoApproveConfig) : Prop :=
  isThirdPartyPatchSource (Some (source patch)) = true →
  "third_party" ∈ default [] (sources cfg) ∧ ra_thirdPartyApps ring = true.

Definition rule_for (patch : PatchCandidate) (rules : gmap string CategoryRule) : option CategoryRule :=
  truthy (category patch) ≫= λ c, rules !! canonicalizePatchCategory c.

Lemma severity_gate_iff sev l (u : bool) :
  (if isUnratedSeverity sev then negb u else negb (severity_listed sev l)) = false ↔ severity_admitted sev l u.
Proof.
  split; [apply severity_gate|]. unfold severity_admitted, severity_listed. destruct (isUnratedSeverity sev).
  - by intros ->.
  - intros (s & -> & Hs). apply negb_false_iff. by apply listed_elem.
Qed.

Lemma consent_gate patch cfg ring :
  isThirdPartyPatchSource (Some (source patch))
  && (negb (has "third_party" (default [] (sources cfg))) || negb (ra_thirdPartyApps ring)) = false
  ↔ consented patch cfg ring.
Proof.
  unfold consented. rewrite <-listed_elem. destruct (isThirdPartyPatchSource _), (has _ _), (ra_thirdPartyApps ring); naive_solver.
Qed.

(** What a category rule approves, exactly. *)
Lemma decide_by_rule_approved patch cfg ring now rule r :
  decide_by_rule Date_parse patch cfg ring now rule = approved r ↔
  r = category_rule ∧ cr_autoApprove rule = true ∧ consented patch cfg ring
  ∧ (∀ l, severityAllowlist rule = Some l → l ≠ [] →
       severity_admitted (severity patch) l (default false (cr_autoApproveUnrated rule)))
  ∧ released patch (default (deferralDays cfg) (cr_deferralDaysOverride rule)) now.
Proof.
  unfold decide_by_rule. rewrite <-consent_gate, <-not_held_released.
  destruct (cr_autoApprove rule); cbn [negb]; [|naive_solver].
  destruct (_ && _); [naive_solver|].
  assert (match severityAllowlist rule with
          | Some (s :: ss) => if isUnratedSeverity (severity patch) then negb (default false (cr_autoApproveUnrated rule))
                              else negb (severity_listed (severity patch) (s :: ss))
          | _ => false end = false ↔
    (∀ l, severityAllowlist rule = Some l → l ≠ [] →
       severity_admitted (severity patch) l (default false (cr_autoApproveUnrated rule)))) as Hs.
  { destruct (severityAllowlist rule) as [[|s ss]|]; [naive_solver| |naive_solver].
    rewrite severity_gate_iff. naive_solver. }
  rewrite <-Hs. clear Hs. destruct (match severityAllowlist rule with Some _ => _ | None => _ end); [naive_solver|].
  destruct (isHeldByDeferral _ _ _); naive_solver.
Qed.

Definition ring_hold (patch : PatchCandidate) (ring : RingAutoApproveConfig) : Z :=
  if isThirdPartyPatchSource (Some (source patch))
  then default (ra_deferralDays ring) (ra_thirdPartyDeferralDays ring) else ra_deferralDays ring.

(** What a ring's setting approves, exactly. *)
Lemma decide_by_ring_approved patch cfg ring now r :
  decide_by_ring Date_parse patch cfg ring now = approved r ↔
  r = ring_auto_approve ∧ consented patch cfg ring
  ∧ (isThirdPartyPatchSource (Some (source patch)) = false →
       ra_severities ring ≠ [] ∧ severity_admitted (severity patch) (ra_severities ring) (ra_autoApproveUnrated ring))
  ∧ released patch (ring_hold patch ring) now.
Proof.
  unfold decide_by_ring, ring_hold. rewrite <-consent_gate, <-severity_gate_iff, <-not_held_released.
  destruct (isThirdPartyPatchSource (Some (source patch))); cbn [andb].
  - destruct (has _ _), (ra_thirdPartyApps ring); cbn [negb orb]; try naive_solver.
    destruct (isHeldByDeferral _ _ _); naive_solver.
  - case_bool_decide; [naive_solver|].
    destruct (if isUnratedSeverity (severity patch) then _ else _); [naive_solver|].
    destruct (isHeldByDeferral _ _ _); naive_solver.
Qed.

(** A patch on the manual list is approved as such; any other by a ring, as if
    the list were empty. *)
Lemma decide_cases patch cfg man rules ring now r :
  decidePatchApproval patch cfg man rules ring now = approved r →
  (patchId patch ∈ man ∧ r = manual)
  ∨ (r ≠ manual ∧ truthy (ringId cfg) ≠ None ∧ decidePatchApproval patch cfg [] rules ring now = approved r).
Proof.
  unfold PatchApproval.decidePatchApproval. destruct (has (patchId patch) man) eqn:Hm; intros H.
  { left. split; [by apply listed_elem|congruence]. }
  right. cbn [has existsb]. destruct (truthy (ringId cfg)); [|done]. split_and!; [|done..].
  destruct (truthy (category patch) ≫= _) as [rule|]; [by apply decide_by_rule_approved in H as [-> _]|].
  destruct (ra_enabled ring); [|done]. by apply decide_by_ring_approved in H as [-> _].
Qed.

(** Automatic approval fails closed.  A patch on the manual list is approved
    as such.  Any other is approved exactly when a ring is linked and either the
    rule of its category (which is then the only authority: a rule that does not
    approve ends the matter) or, without such a rule, the ring's setting approves
    it: with both consents for a third-party patch, with its severity on the list
    (an unrated one only by opt-in), and with an age that is known and past the
    deferral window.  So time alone never revokes an approval, and the policy's own
    auto-approve setting never grants one. *)
Theorem auto_approval_fails_closed patch cfg man rules ring now r :
  (patchId patch ∈ man → decidePatchApproval patch cfg man rules ring now = approved manual)
  ∧ (patchId patch ∉ man →
     decidePatchApproval patch cfg man rules ring now = approved r ↔
     truthy (ringId cfg) ≠ None ∧ consented patch cfg ring ∧
     match rule_for patch rules with
     | Some rule => r = category_rule ∧ cr_autoApprove rule = true
         ∧ (∀ l, severityAllowlist rule = Some l → l ≠ [] →
              severity_admitted (severity patch) l (default false (cr_autoApproveUnrated rule)))
         ∧ released patch (default (deferralDays cfg) (cr_deferralDaysOverride rule)) now
     | None => r = ring_auto_approve ∧ ra_enabled ring = true
         ∧ (isThirdPartyPatchSource (Some (source patch)) = false →
              ra_severities ring ≠ []
              ∧ severity_admitted (severity patch) (ra_severities ring) (ra_autoApproveUnrated ring))
         ∧ released patch (ring_hold patch ring) now
     end)
  ∧ (∀ now', now ≤ now' → decidePatchApproval patch cfg man rules ring now = approved r →
       decidePatchApproval patch cfg man rules ring now' = approved r).
Proof.
  assert (Hiff : ∀ now, patchId patch ∉ man →
     decidePatchApproval patch cfg man rules ring now = approved r ↔
     truthy (ringId cfg) ≠ None ∧
     match rule_for patch rules with
     | Some rule => decide_by_rule Date_parse patch cfg ring now rule = approved r
     | None => ra_enabled ring = true ∧ decide_by_ring Date_parse patch cfg ring now = approved r
     end).
  { intros t Hm. unfold decidePatchApproval. rewrite <-listed_elem in Hm. apply not_true_is_false in Hm. rewrite Hm.
    destruct (truthy (ringId cfg)); [|naive_solver]. fold (rule_for patch rules).
    destruct (rule_for patch rules); [naive_solver|]. destruct (ra_enabled ring); naive_solver. }
  split_and!.
  - intros Hm%listed_elem. unfold PatchApproval.decidePatchApproval. by rewrite Hm.
  - intros Hm. rewrite Hiff by done. destruct (rule_for patch rules); [rewrite decide_by_rule_approved|rewrite decide_by_ring_approved];
      naive_solver.
  - intros now' Hle. destruct (decide (patchId patch ∈ man)) as [Hm%listed_elem|Hm].
    { unfold PatchApproval.decidePatchApproval. by rewrite Hm. }
    rewrite !Hiff by done. destruct (rule_for patch rules);
      [rewrite !decide_by_rule_approved|rewrite !decide_by_ring_approved]; naive_solver eauto using released_mono.
Qed.
End decision_facts.
(** ** The ring's setting *)

(** A present hold is an integer within its bounds. *)
Definition hold_ok (hi : option Z) (o : option json) : Prop :=
  o = None ∨ ∃ n, o = Some (JNum n) ∧ 0 ≤ n ∧ ∀ h, hi = Some h → n ≤ h.

Lemma read_hold o :
  match read_deferralDays o with
  | Some d => hold_ok None o ∧ 0 ≤ d
  | None => ¬ hold_ok None o
  end.
Proof.
  unfold hold_ok. destruct o as [[]|]; simpl; try naive_solver lia.
  destruct (Z.leb_spec 0 n); naive_solver lia.
Qed.

Lemma read_third_party_hold o :
  match read_thirdPartyDeferralDays o with
  | Some d => (o = Some JNull ∨ hold_ok (Some 365) o) ∧ ∀ n, d = Some n → 0 ≤ n ≤ 365
  | None => ¬ (o = Some JNull ∨ hold_ok (Some 365) o)
  end.
Proof.
  unfold hold_ok. destruct o as [[]|]; simpl; try naive_solver lia.
  destruct (Z.leb_spec 0 n), (Z.leb_spec n 365); simpl; try naive_solver lia.
  all: intros [?|[?|(? & ? & ? & Hhi)]]; simplify_eq; try lia; specialize (Hhi 365 eq_refl); lia.
Qed.

(** The reading is off, for a setting that does not ask for more. *)
Lemma off_case (asks : Prop) (j : option json) :
  ¬ (j = Some (JBool true) ∨ asks) →
  (ra_enabled DISABLED_RING_AUTO_APPROVE = true ↔ j = Some (JBool true) ∨ asks)
  ∧ (ra_enabled DISABLED_RING_AUTO_APPROVE = false → DISABLED_RING_AUTO_APPROVE = DISABLED_RING_AUTO_APPROVE)
  ∧ (j = Some (JBool true) → ∀ Date_parse patch cfg now r,
       decide_by_ring Date_parse patch cfg DISABLED_RING_AUTO_APPROVE now ≠ approved r)
  ∧ (∀ s, s ∈ ra_severities DISABLED_RING_AUTO_APPROVE → s ∈ RECOGNIZED_RING_SEVERITIES)
  ∧ 0 ≤ ra_deferralDays DISABLED_RING_AUTO_APPROVE
  ∧ (∀ d, ra_thirdPartyDeferralDays DISABLED_RING_AUTO_APPROVE = Some d → 0 ≤ d ≤ 365).
Proof.
  intros Hno. split_and!; [by split|done| |intros ? ?; by auto with breeze|done|done].
  intros ->. by destruct Hno; left.
Qed.

(** A ring's stored setting is read fail-closed.  It enables auto-approval
    exactly when it is [true], which approves nothing, or an object that says so
    and whose holds, where present, are integers in range (a null third-party hold
    meaning none); otherwise everything is off.  What is read has only recognised
    severities and holds in range. *)
Theorem ring_setting_fails_closed j :
  let c := parseRingAutoApprove j in
  (ra_enabled c = true ↔
     j = Some (JBool true)
     ∨ ∃ l, j = Some (JObj l) ∧ jget "enabled" (JObj l) = Some (JBool true)
         ∧ hold_ok None (jget "deferralDays" (JObj l))
         ∧ (jget "thirdPartyDeferralDays" (JObj l) = Some JNull
            ∨ hold_ok (Some 365) (jget "thirdPartyDeferralDays" (JObj l))))
  ∧ (ra_enabled c = false → c = DISABLED_RING_AUTO_APPROVE)
  ∧ (j = Some (JBool true) → ∀ Date_parse patch cfg now r, decide_by_ring Date_parse patch cfg c now ≠ approved r)
  ∧ (∀ s, s ∈ ra_severities c → s ∈ RECOGNIZED_RING_SEVERITIES)
  ∧ 0 ≤ ra_deferralDays c ∧ (∀ d, ra_thirdPartyDeferralDays c = Some d → 0 ≤ d ≤ 365).
Proof.
  destruct j as [[| [] | | | | |l]|]; cbv zeta; cbn [parseRingAutoApprove];
    try (apply off_case; intros [?|(? & ? & _)]; done).
  { split_and!; [naive_solver|done| |intros ? ?; by auto with breeze|done|done].
    intros _ dp patch cfg now r. rewrite decide_by_ring_approved. intros (_ & Hc & Hs & _).
    destruct (isThirdPartyPatchSource (Some (source patch))) eqn:E; [by destruct (Hc E)|]. by destruct (Hs eq_refl). }
  set (config := JObj l). set (sev := match jget "severities" config with Some (JArr ss) => _ | _ => _ end).
  pose proof (read_hold (jget "deferralDays" config)) as Hd.
  pose proof (read_third_party_hold (jget "thirdPartyDeferralDays" config)) as Ht.
  assert (Hsev : ∀ s, s ∈ sev → s ∈ RECOGNIZED_RING_SEVERITIES).
  { intros s. subst sev. destruct (jget "severities" config) as [[]|]; try (intros; by auto with breeze).
    rewrite list_elem_of_In, filter_In. intros [_ Hs]. by apply listed_elem. }
  assert (Hen : is_true_ (jget "enabled" config) = true ↔ jget "enabled" config = Some (JBool true)).
  { unfold is_true_. destruct (jget "enabled" config) as [[| [] | | | | |]|]; naive_solver. }
  clearbody sev. revert Hd Ht.
  generalize (read_deferralDays (jget "deferralDays" config)), (read_thirdPartyDeferralDays (jget "thirdPartyDeferralDays" config)).
  intros od ot Hd Ht.
  destruct (is_true_ (jget "enabled" config)) eqn:E; cbn [negb].
  2: { apply off_case. intros [?|(l' & [= <-] & He & _)]; [done|]. apply Hen in He. congruence. }
  destruct od as [d|]; [|apply off_case; intros [?|(l' & [= <-] & _ & Hd' & _)]; [done|by apply Hd]].
  destruct ot as [dt|]; [|apply off_case; intros [?|(l' & [= <-] & _ & _ & Ht')]; [done|by apply Ht]].
  destruct Hd as [Hd Hd0], Ht as [Ht Ht0]. cbn. split_and!; [|done..].
  split; [|done]. intros _. right. exists l. split_and!; [done|by apply Hen|done..].
Qed.
End PatchApproval.

Module Eligibility.
Import PatchApproval.

(** ** The tables *)

Record Patch := mkPatch {
  p_source : string; p_externalId : string; p_packageId : option string; p_version : option string;
  p_title : string; p_severity : option string; p_category : option string;
  p_releaseDate : option string; p_supersededBy : option string; p_requiresReboot : bool }.

Record DevicePatch := mkDevicePatch {
  dp_id : string; dp_deviceId : string; dp_orgId : string; dp_patchId : string; dp_status : string;
  dp_availableVersion : option string; dp_reportedSeverity : option string;
  dp_reportedCategory : option string; dp_createdAt : Z }.

Record Approval := mkApproval {
  ap_partnerId : string; ap_patchId : string; ap_status : string; ap_ringId : option string }.

Record Db := mkDb {
  organizations : gmap string (option string);
  patches : gmap string Patch;
  devicePatches : list DevicePatch;
  patchApprovals : list Approval }.

Definition OUTSTANDING_DEVICE_PATCH_STATUSES : list string := ["pending"].
Definition isOutstanding (status : string) : bool := has status OUTSTANDING_DEVICE_PATCH_STATUSES.

(** [COALESCE(NULLIF(patches.severity, 'unknown'), reported_severity, 'unknown')]. *)
Definition EFFECTIVE_PATCH_SEVERITY_SQL (p : Patch) (d : DevicePatch) : option string :=
  match p_severity p with
  | Some s => if String.eqb s "unknown" then Some (default "unknown" (dp_reportedSeverity d)) else Some s
  | None => Some (default "unknown" (dp_reportedSeverity d))
  end.

(** [COALESCE(a, b)]. *)
Definition coalesce (a b : option string) : option string := match a with Some x => Some x | None => b end.

Definition EFFECTIVE_PATCH_CATEGORY_SQL (p : Patch) (d : DevicePatch) : option string :=
  coalesce (p_category p) (dp_reportedCategory d).

(** A row of the gate's query; [cand] holds the columns the evaluator reads. *)
Record Row := mkRow {
  devicePatchId : string; status : string; externalId : string; title : string;
  requiresReboot : bool; supersededBy : option string; cand : PatchCandidate }.
Definition row_id (r : Row) : string := patchId (cand r).

Definition join_row (d : DevicePatch) (p : Patch) : Row :=
  mkRow (dp_id d) (dp_status d) (p_externalId p) (p_title p) (p_requiresReboot p) (p_supersededBy p)
    (mkCandidate (dp_patchId d) (EFFECTIVE_PATCH_CATEGORY_SQL p d) (EFFECTIVE_PATCH_SEVERITY_SQL p d)
       (p_releaseDate p) (p_source p) (p_packageId p) (coalesce (dp_availableVersion d) (p_version p))
       (Some (seen_date (Some (dp_createdAt d))))).

Definition query_row (db : Db) (deviceId orgId : string) (requested : option (list string)) (d : DevicePatch)
    : option Row :=
  if String.eqb (dp_deviceId d) deviceId && String.eqb (dp_orgId d) orgId
     && match requested with
        | Some ids => has (dp_patchId d) ids
        | None => isOutstanding (dp_status d)
        end
  then join_row d <$> patches db !! dp_patchId d else None.

Definition query_rows (db : Db) (deviceId orgId : string) (requested : option (list string)) : list Row :=
  omap (query_row db deviceId orgId requested) (devicePatches db).

(** ** The gate *)

Record PatchEligibleEntry := mkEntry {
  e_patchId : string; e_devicePatchId : string; e_externalId : string; e_title : string;
  e_category : option string; e_severity : option string; e_requiresReboot : bool;
  e_approvalReason : ApprovalReason }.

Record PatchInstallEligibility := mkEligibility {
  eligible : list PatchEligibleEntry;
  ineligible : list (string * PatchIneligibleReason);
  el_ringId : option string;
  resolvedAt : string }.

(** [[...new Set(ids)]]: first occurrences. *)
Definition dedup (l : list string) : list string := reverse (remove_dups (reverse l)).

(** A filter that records what it drops. *)
Definition stage (reason : PatchIneligibleReason) (keep : Row → bool) (rows : list Row)
    : list Row * list (string * PatchIneligibleReason) :=
  (List.filter keep rows, (λ r, (row_id r, reason)) <$> List.filter (λ r, negb (keep r)) rows).

(** The row loop: the reason a row is denied, [None] when it stays pending. *)
Definition row_denial (requested : option (list string)) (excludeSuperseded : bool) (row : Row)
    : option PatchIneligibleReason :=
  if bool_decide (requested ≠ None) && negb (isOutstanding (status row)) then Some not_outstanding
  else if excludeSuperseded && bool_decide (truthy (supersededBy row) ≠ None) then Some superseded
  else None.

Definition deny_rows (denial : Row → option PatchIneligibleReason) (rows : list Row)
    : list (string * PatchIneligibleReason) :=
  omap (λ row, (λ reason, (row_id row, reason)) <$> denial row) rows.

Definition unseen (requested : option (list string)) (rows : list Row) : list (string * PatchIneligibleReason) :=
  (λ i, (i, not_outstanding)) <$> List.filter (λ i, negb (has i (row_id <$> rows))) (default [] requested).

Definition source_ok (config : ApprovalEvaluationConfig) (row : Row) : bool :=
  match buildAllowedPatchSources (sources config) with
  | Some allowedSources => has (source (cand row)) allowedSources
  | None => true
  end.

Definition category_ok (config : ApprovalEvaluationConfig) (row : Row) : bool :=
  let hasCategoryFilter := negb (bool_decide (default [] (categories config) = []))
                           || negb (bool_decide (default [] (excludeCategories config) = [])) in
  if hasCategoryFilter
  then isCategoryAllowed (category (cand row)) (categories config) (excludeCategories config)
  else true.

Definition app_ok (config : ApprovalEvaluationConfig) (row : Row) : bool :=
  let appRuleMap := buildAppRuleMap (apps config) in
  if bool_decide (appRuleMap = ∅) then true
  else if bool_decide (truthy (packageId (cand row)) = None) && isThirdPartyPatchSource (Some (source (cand row)))
  then true
  else match evaluateAppRule (source (cand row)) (packageId (cand row)) (version (cand row)) appRuleMap with
       | allowed => true
       | _ => false
       end.

(** The approved ids of the partner, partner-wide or for this ring. *)
Definition manual_approvals (db : Db) (partnerId : string) (ring : option string) (ids : list string) : list string :=
  omap (λ a,
    if String.eqb (ap_partnerId a) partnerId && has (ap_patchId a) ids && String.eqb (ap_status a) "approved"
       && (bool_decide (ap_ringId a = ring) || bool_decide (ap_ringId a = None))
    then Some (ap_patchId a) else None) (patchApprovals db).

(** Later rules win. *)
Definition category_rule_map (rules : list CategoryRule) : gmap string CategoryRule :=
  foldl (λ m rule, if String.eqb (cr_category rule) "" then m
                   else <[canonicalizePatchCategory (cr_category rule) := rule]> m) ∅ rules.

Definition with_ringId (r : option string) (c : ApprovalEvaluationConfig) : ApprovalEvaluationConfig :=
  mkConfig r (ringPartnerId c) (categoryRules c) (autoApprove c) (deferralDays c) (categories c)
    (excludeCategories c) (sources c) (policyAutoApprove c) (apps c).

(** A ring of another partner is no ring. *)
Definition guard_ring (partnerId : string) (c : ApprovalEvaluationConfig) : ApprovalEvaluationConfig :=
  match truthy (ringId c), truthy (ringPartnerId c) with
  | Some _, Some p => if String.eqb p partnerId then c else with_ringId None c
  | _, _ => c
  end.

Definition entry_of (row : Row) (r : ApprovalReason) : PatchEligibleEntry :=
  mkEntry (row_id row) (devicePatchId row) (externalId row) (title row) (category (cand row))
    (severity (cand row)) (requiresReboot row) r.

Section gate.
Context (Date_parse : string → option Z).

(** The early returns for an empty list of candidates answer what the remaining
    stages give for no candidate. *)
Definition evaluatePatchInstallEligibility (db : Db) (deviceId orgId : string)
    (config : ApprovalEvaluationConfig) (patchIds : option (list string)) (excludeSuperseded : bool)
    (now : Z) : PatchInstallEligibility :=
  let requested := dedup <$> patchIds in
  let resolvedAt := toISOString now in
  match truthy (default None (organizations db !! orgId)) with
  | None => mkEligibility [] ((λ i, (i, not_outstanding)) <$> default [] requested) None resolvedAt
  | Some partnerId =>
      let ringConfig := guard_ring partnerId config in
      let rows := query_rows db deviceId orgId requested in
      let denial := row_denial requested excludeSuperseded in
      let pendingPatches := List.filter (λ r, bool_decide (denial r = None)) rows in
      let (candidatePatches, bySource) := stage blocked_by_source (source_ok ringConfig) pendingPatches in
      let (categoryFiltered, byCategory) := stage blocked_by_category (category_ok ringConfig) candidatePatches in
      let (finalCandidates, byApp) := stage blocked_by_app_rule (app_ok ringConfig) categoryFiltered in
      let manualApprovalSet := manual_approvals db partnerId (ringId ringConfig) (row_id <$> finalCandidates) in
      let decision row := decidePatchApproval Date_parse (cand row) ringConfig manualApprovalSet
                            (category_rule_map (categoryRules ringConfig))
                            (parseRingAutoApprove (autoApprove ringConfig)) now in
      mkEligibility
        (omap (λ row, match decision row with approved r => Some (entry_of row r) | denied _ => None end)
           finalCandidates)
        (deny_rows denial rows ++ unseen requested rows ++ bySource ++ byCategory ++ byApp
           ++ deny_rows (λ row, match decision row with approved _ => None | denied r => Some r end) finalCandidates)
        (ringId ringConfig) resolvedAt
  end.

(** The job executor's entry point. *)
Definition resolveApprovedPatchesForDevice (db : Db) (deviceId orgId : string)
    (ringConfig : ApprovalEvaluationConfig) (now : Z) : list PatchEligibleEntry :=
  eligible (evaluatePatchInstallEligibility db deviceId orgId ringConfig None false now).
End gate.

(** ** Stored category rules *)

(** [safeParse] is the schema library's verdict on one stored entry. *)
Definition coerce_entry (safeParse : json → option CategoryRule) (entry : json) : option CategoryRule :=
  match safeParse entry with
  | Some rule => Some rule
  | None =>
      match jstring (jget "category" entry) with
      | Some c => if String.eqb c "" then None else Some (mkCategoryRule c false None None None None)
      | None => None
      end
  end.

Definition coerceCategoryRules (safeParse : json → option CategoryRule) (raw : list json) : list CategoryRule :=
  omap (coerce_entry safeParse) raw.

(** ** Lemmas *)

Definition verdict_ids (v : PatchInstallEligibility) : list string :=
  (e_patchId <$> eligible v) ++ (ineligible v).*1.

Lemma stage_perm reason keep rows :
  (row_id <$> (stage reason keep rows).1) ++ (stage reason keep rows).2.*1 ≡ₚ row_id <$> rows.
Proof.
  unfold stage. simpl. induction rows as [|r rows IH]; [done|]. simpl. destruct (keep r); simpl.
  - by rewrite IH.
  - rewrite <-Permutation_middle. by rewrite IH.
Qed.

Lemma deny_rows_perm denial rows :
  (row_id <$> List.filter (λ r, bool_decide (denial r = None)) rows) ++ (deny_rows denial rows).*1 ≡ₚ row_id <$> rows.
Proof.
  unfold deny_rows. induction rows as [|r rows IH]; [done|]. simpl. destruct (denial r) as [x|] eqn:E; simpl.
  - rewrite <-Permutation_middle. by rewrite IH.
  - by rewrite IH.
Qed.

Lemma decided_perm (decision : Row → PatchApprovalDecision) rows :
  (e_patchId <$> omap (λ row, match decision row with approved r => Some (entry_of row r) | denied _ => None end) rows)
  ++ (deny_rows (λ row, match decision row with approved _ => None | denied r => Some r end) rows).*1
  ≡ₚ row_id <$> rows.
Proof.
  unfold deny_rows. induction rows as [|r rows IH]; [done|]. simpl. destruct (decision r); simpl.
  - by rewrite IH.
  - rewrite <-Permutation_middle. by rewrite IH.
Qed.

Lemma elem_of_dedup x l : x ∈ dedup l ↔ x ∈ l.
Proof. unfold dedup. by rewrite elem_of_reverse, elem_of_remove_dups, elem_of_reverse. Qed.

Lemma NoDup_dedup l : NoDup (dedup l).
Proof. unfold dedup. rewrite reverse_Permutation. apply NoDup_remove_dups. Qed.

Lemma query_row_Some db dev org req d row :
  query_row db dev org req d = Some row ↔
  dp_deviceId d = dev ∧ dp_orgId d = org
  ∧ match req with Some ids => dp_patchId d ∈ ids | None => isOutstanding (dp_status d) = true end
  ∧ ∃ p, patches db !! dp_patchId d = Some p ∧ row = join_row d p.
Proof.
  unfold query_row.
  assert (match req with Some ids => has (dp_patchId d) ids | None => isOutstanding (dp_status d) end = true ↔
    match req with Some ids => dp_patchId d ∈ ids | None => isOutstanding (dp_status d) = true end) as <-
    by (destruct req; [apply listed_elem|done]).
  destruct (String.eqb_spec (dp_deviceId d) dev), (String.eqb_spec (dp_orgId d) org),
    (match req with Some ids => has (dp_patchId d) ids | None => _ end); cbn [andb]; try naive_solver.
  rewrite fmap_Some. naive_solver.
Qed.

Lemma row_id_join d p : row_id (join_row d p) = dp_patchId d.
Proof. done. Qed.

Definition unique_device_patches (db : Db) : Prop :=
  NoDup ((λ d, (dp_deviceId d, dp_patchId d)) <$> devicePatches db).

Lemma NoDup_query_rows db dev org req : unique_device_patches db → NoDup (row_id <$> query_rows db dev org req).
Proof.
  intros Hn. unfold query_rows. eapply NoDup_omap_keys; [|exact Hn]. cbv beta.
  intros d d' r r' (? & _ & _ & p & _ & ->)%query_row_Some (? & _ & _ & p' & _ & ->)%query_row_Some Hid.
  rewrite !row_id_join in Hid. congruence.
Qed.

Lemma denied_ids (reason : PatchIneligibleReason) (l : list string) : ((λ i, (i, reason)) <$> l).*1 = l.
Proof. induction l as [|i l IH]; [done|]. simpl. by f_equal. Qed.

Lemma unseen_ids requested rows i :
  i ∈ (unseen requested rows).*1 ↔ i ∈ default [] requested ∧ i ∉ row_id <$> rows.
Proof.
  unfold unseen. rewrite denied_ids, list_elem_of_In, filter_In, <-list_elem_of_In.
  rewrite negb_true_iff, <-not_true_iff_false, listed_elem. done.
Qed.

Section gate_facts.
Context (Date_parse : string → option Z) (db : Db) (deviceId orgId : string)
        (config : ApprovalEvaluationConfig) (excludeSuperseded : bool) (now : Z).
Notation gate ids := (evaluatePatchInstallEligibility Date_parse db deviceId orgId config ids excludeSuperseded now).

Lemma verdicts_perm ids partner :
  truthy (default None (organizations db !! orgId)) = Some partner →
  let rows := query_rows db deviceId orgId (dedup <$> ids) in
  verdict_ids (gate ids) ≡ₚ (row_id <$> rows) ++ (unseen (dedup <$> ids) rows).*1.
Proof.
  intros Hp rows. unfold evaluatePatchInstallEligibility, verdict_ids. rewrite Hp. fold rows.
  set (cfg := guard_ring partner config).
  set (pending := List.filter _ rows).
  pose proof (deny_rows_perm (row_denial (dedup <$> ids) excludeSuperseded) rows) as H1. fold pending in H1.
  pose proof (stage_perm blocked_by_source (source_ok cfg) pending) as H2.
  destruct (stage blocked_by_source (source_ok cfg) pending) as [r1 d1]. simpl in H2.
  pose proof (stage_perm blocked_by_category (category_ok cfg) r1) as H3.
  destruct (stage blocked_by_category (category_ok cfg) r1) as [r2 d2]. simpl in H3.
  pose proof (stage_perm blocked_by_app_rule (app_ok cfg) r2) as H4.
  destruct (stage blocked_by_app_rule (app_ok cfg) r2) as [r3 d3]. simpl in H4. cbn [eligible ineligible].
  pose proof (decided_perm (λ row, decidePatchApproval Date_parse (cand row) cfg
    (manual_approvals db partner (ringId cfg) (row_id <$> r3)) (category_rule_map (categoryRules cfg))
    (parseRingAutoApprove (autoApprove cfg)) now) r3) as H5.
  cbv beta in H5. rewrite !fmap_app. rewrite <-H1, <-H2, <-H3, <-H4, <-H5. solve_Permutation.
Qed.

(** Every patch asked about gets one verdict.  For a list of patch ids, with
    or without repetitions, each id of the list is either eligible or ineligible
    with a reason, once, and no other id is mentioned; [device_patches] being unique
    on device and patch. *)
Theorem every_patch_has_one_verdict ids (Hu : unique_device_patches db) :
  NoDup (verdict_ids (gate (Some ids))) ∧ ∀ i, i ∈ verdict_ids (gate (Some ids)) ↔ i ∈ ids.
Proof.
  destruct (truthy (default None (organizations db !! orgId))) as [partner|] eqn:Hp.
  - pose proof (verdicts_perm (Some ids) partner Hp) as Hv. cbv zeta in Hv. cbn [fmap option_fmap option_map] in Hv.
    set (rows := query_rows db deviceId orgId (Some (dedup ids))) in *.
    assert (Hin : ∀ i, i ∈ row_id <$> rows → i ∈ ids).
    { intros i (row & -> & (d & Hd & (_ & _ & Hi & p & _ & ->)%query_row_Some)%list_elem_of_omap)%list_elem_of_fmap.
      by apply elem_of_dedup. }
    rewrite Hv. split.
    + apply NoDup_app. split_and!; [by apply NoDup_query_rows|intros i Hi [_ Hn]%unseen_ids; done|].
      unfold unseen. rewrite denied_ids. apply NoDup_ListNoDup, List.NoDup_filter, NoDup_ListNoDup, NoDup_dedup.
    + intros i. rewrite Hv, elem_of_app, unseen_ids. change (default [] (Some (dedup ids))) with (dedup ids). rewrite elem_of_dedup.
      destruct (decide (i ∈ row_id <$> rows)); naive_solver.
  - unfold evaluatePatchInstallEligibility, verdict_ids. rewrite Hp. cbn [eligible ineligible fmap option_fmap option_map default].
    change (NoDup ((λ i, (i, not_outstanding)) <$> dedup ids).*1
            ∧ ∀ i, i ∈ ((λ i, (i, not_outstanding)) <$> dedup ids).*1 ↔ i ∈ ids).
    rewrite denied_ids. split; [apply NoDup_dedup|intros i; apply elem_of_dedup].
Qed.

(** The rule in effect for a key is the last one given for it. *)
Lemma appRuleMap_last l k :
  buildAppRuleMap (Some l) !! k = last (List.filter (λ r, String.eqb (rule_key r) k) l).
Proof.
  unfold buildAppRuleMap. change (default [] (Some l)) with l. induction l as [|r l IH] using rev_ind; [done|].
  rewrite foldl_app, List.filter_app. simpl. destruct (String.eqb_spec (rule_key r) k) as [<-|].
  - by rewrite lookup_insert_eq, last_snoc.
  - by rewrite lookup_insert_ne, app_nil_r.
Qed.

(** Whether the app rules let a row through: no rule in effect for its package is
    a block, and a pin is proven not to be exceeded. *)
Definition app_rules_pass (cfg : ApprovalEvaluationConfig) (c : PatchCandidate) : Prop :=
  ∀ pkg rule, truthy (packageId c) = Some pkg →
    last (List.filter (λ r, String.eqb (rule_key r) (appRuleKey (source c) pkg)) (default [] (apps cfg))) = Some rule →
    ∃ s p v, rule = rule_pin s p v
      ∧ (comparePatchVersions (version c) (Some v) = Some Lt ∨ comparePatchVersions (version c) (Some v) = Some Eq).

Lemma app_ok_pass cfg row : app_ok cfg row = true → app_rules_pass cfg (cand row).
Proof.
  unfold app_ok, app_rules_pass. intros H pkg rule Hpkg Hl. rewrite <-appRuleMap_last in Hl.
  change (buildAppRuleMap (apps cfg)) with (buildAppRuleMap (Some (default [] (apps cfg)))) in H.
  rewrite (bool_decide_false (buildAppRuleMap _ = ∅)) in H by (intros E; by rewrite E, lookup_empty in Hl).
  rewrite bool_decide_false in H by (by rewrite Hpkg). cbn [andb] in H.
  unfold evaluateAppRule in H. rewrite Hpkg, Hl in H. destruct rule as [|s p v]; [done|]. exists s, p, v. split; [done|].
  destruct (comparePatchVersions _ _) as [[]|]; [by right|by left|done..].
Qed.

Lemma stage_elem reason keep rows row : row ∈ (stage reason keep rows).1 ↔ row ∈ rows ∧ keep row = true.
Proof. unfold stage. cbn [fst]. by rewrite list_elem_of_In, filter_In, <-list_elem_of_In. Qed.

(** A manual approval of the partner, partner-wide or for the ring. *)
Definition manually_approved (partner : string) (ring : option string) (i : string) : Prop :=
  ∃ a, a ∈ patchApprovals db ∧ ap_partnerId a = partner ∧ ap_patchId a = i ∧ ap_status a = "approved"
    ∧ (ap_ringId a = ring ∨ ap_ringId a = None).

Lemma manual_approvals_elem partner ring ids i :
  i ∈ manual_approvals db partner ring ids ↔ i ∈ ids ∧ manually_approved partner ring i.
Proof.
  unfold manual_approvals, manually_approved. rewrite list_elem_of_omap. split.
  - intros (a & Ha & H). case_match eqn:E; [|done]. simplify_eq. bool_hyps.
    repeat match goal with H : String.eqb _ _ = true |- _ => apply String.eqb_eq in H end.
    match goal with H : has _ _ = true |- _ => apply listed_elem in H end.
    match goal with H : (_ || _) = true |- _ => apply orb_true_iff in H as [H|H]; apply bool_decide_eq_true in H end;
      naive_solver.
  - intros (Hi & a & Ha & <- & <- & Hs & Hr). exists a. split; [done|].
    rewrite Hs, !String.eqb_refl, (proj2 (listed_elem _ _) Hi). cbn [andb].
    destruct Hr as [Hr|Hr]; rewrite (bool_decide_true _ Hr), ?orb_true_r; done.
Qed.

Lemma guarded_ring partner :
  truthy (ringId (guard_ring partner config)) ≠ None →
  ∃ ring, truthy (ringId config) = Some ring
    ∧ (truthy (ringPartnerId config) = None ∨ ringPartnerId config = Some partner).
Proof.
  unfold guard_ring. destruct (truthy (ringId config)) as [ring|] eqn:Hr; [|by rewrite Hr].
  destruct (truthy (ringPartnerId config)) as [q|] eqn:Hq; [|intros _; exists ring; by split; [|left]].
  destruct (String.eqb_spec q partner) as [->|]; [|done]. intros _. exists ring. split; [done|right].
  by apply truthy_Some in Hq as [-> _].
Qed.

(** A row that stays pending is outstanding, and not superseded where asked. *)
Lemma pending_row ids d p :
  query_row db deviceId orgId ids d = Some (join_row d p) →
  row_denial ids excludeSuperseded (join_row d p) = None →
  isOutstanding (dp_status d) = true ∧ (excludeSuperseded = true → truthy (p_supersededBy p) = None).
Proof.
  intros (_ & _ & Hq & _)%query_row_Some Hd. unfold row_denial in Hd. cbn [status supersededBy join_row] in Hd.
  destruct (isOutstanding (dp_status d)) eqn:Ho; cbn [negb] in Hd.
  - rewrite andb_false_r in Hd. split; [done|]. intros ->. cbn [andb] in Hd. case_bool_decide as Hs; [done|].
    by destruct (truthy (p_supersededBy p)); [destruct Hs|].
  - destruct ids; [|congruence]. done.
Qed.

(** C34: What the gate lets through.  An eligible entry is an outstanding row of
    this device in this organization (not superseded where that is asked), whose
    source and category the policy admits and which no app rule blocks or holds,
    a manual approval notwithstanding; and it is approved either by a manual
    approval of the organization's own partner, partner-wide or for this ring, or
    by the rules of a ring that does not belong to another partner. *)
Theorem install_gate_safe ids e (He : e ∈ eligible (gate ids)) :
  ∃ partner d p, let cfg := guard_ring partner config in let row := join_row d p in
    truthy (default None (organizations db !! orgId)) = Some partner
    ∧ (d ∈ devicePatches db ∧ dp_deviceId d = deviceId ∧ dp_orgId d = orgId ∧ isOutstanding (dp_status d) = true
       ∧ patches db !! dp_patchId d = Some p ∧ (excludeSuperseded = true → truthy (p_supersededBy p) = None)
       ∧ (∀ l, ids = Some l → dp_patchId d ∈ l))
    ∧ (source_ok cfg row = true ∧ category_ok cfg row = true ∧ app_rules_pass config (cand row))
    ∧ e = entry_of row (e_approvalReason e)
    ∧ (if decide (e_approvalReason e = manual) then manually_approved partner (ringId cfg) (dp_patchId d)
       else (∃ ring, truthy (ringId config) = Some ring ∧ (truthy (ringPartnerId config) = None ∨ ringPartnerId config = Some partner))
            ∧ decidePatchApproval Date_parse (cand row) cfg [] (category_rule_map (categoryRules cfg))
                (parseRingAutoApprove (autoApprove cfg)) now = approved (e_approvalReason e)).
Proof.
  unfold evaluatePatchInstallEligibility in He.
  destruct (truthy (default None (organizations db !! orgId))) as [partner|] eqn:Hp; [|by auto with breeze].
  set (cfg := guard_ring partner config) in *. set (rows := query_rows db deviceId orgId (dedup <$> ids)) in *.
  set (pending := List.filter _ rows) in *.
  pose proof (stage_elem blocked_by_source (source_ok cfg) pending) as H1.
  destruct (stage blocked_by_source (source_ok cfg) pending) as [r1 d1].
  pose proof (stage_elem blocked_by_category (category_ok cfg) r1) as H2.
  destruct (stage blocked_by_category (category_ok cfg) r1) as [r2 d2].
  pose proof (stage_elem blocked_by_app_rule (app_ok cfg) r2) as H3.
  destruct (stage blocked_by_app_rule (app_ok cfg) r2) as [r3 d3]. cbn [fst eligible] in *.
  apply list_elem_of_omap in He as (row & Hrow & He). case_match eqn:Hdec; [|done]. simplify_eq.
  destruct (proj1 (H3 row) Hrow) as [[[Hin Hsrc]%H1 Hcat]%H2 Happ].
  subst pending. rewrite list_elem_of_In, filter_In, <-list_elem_of_In in Hin. destruct Hin as [Hin Hd].
  apply bool_decide_eq_true in Hd. apply list_elem_of_omap in Hin as (d & Hind & Hq).
  pose proof Hq as (Hdev & Horg & Hids & p & Hpat & ->)%query_row_Some.
  destruct (pending_row _ _ _ Hq Hd) as [Hout Hsup]. exists partner, d, p. cbv zeta. split_and!; try done.
  - intros l ->. by apply elem_of_dedup.
  - apply app_ok_pass in Happ. revert Happ. unfold cfg, guard_ring, with_ringId. by repeat case_match.
  - cbn [e_approvalReason entry_of]. apply decide_cases in Hdec as [[Hm ->]|(Hm & Hr & Hdec)].
    + rewrite decide_True by done. by apply manual_approvals_elem in Hm as [_ Hm].
    + rewrite decide_False by done. split; [apply guarded_ring, Hr|done].
Qed.
End gate_facts.
(** ** Stored category rules and the unrated opt-in *)

Section stored_rules.
(** The schema library keeps the declared keys of an object only, and
    [autoApproveUnrated] is not among those of the stored-rule schema. *)
Context (safeParse : json → option CategoryRule)
        (declared_keys : ∀ entry rule, safeParse entry = Some rule → cr_autoApproveUnrated rule = None).

(** So the opt-in of a stored rule reaches no decision: an unrated patch is never
    approved by a stored category rule that lists severities. *)
Lemma unrated_opt_in_is_lost Date_parse raw rule patch cfg ring now r :
  rule ∈ coerceCategoryRules safeParse raw →
  isUnratedSeverity (severity patch) = true → default [] (severityAllowlist rule) ≠ [] →
  decide_by_rule Date_parse patch cfg ring now rule ≠ approved r.
Proof.
  intros (entry & _ & Hc)%list_elem_of_omap Hu Hl (_ & Ha & _ & Hs & _)%decide_by_rule_approved.
  assert (cr_autoApproveUnrated rule = None) as Hn.
  { unfold coerce_entry in Hc. destruct (safeParse entry) eqn:E; [simplify_eq; by eapply declared_keys|].
    repeat case_match; by simplify_eq. }
  destruct (severityAllowlist rule) as [l|]; [|done]. specialize (Hs l eq_refl Hl). unfold severity_admitted in Hs.
  by rewrite Hu, Hn in Hs.
Qed.
End stored_rules.

(** A hold that ends beyond the last representable date holds nothing. *)
Example huge_deferral_is_no_hold :
  isHeldByDeferral (λ _, Some 1740000000000) (mkCandidate "p" None None (Some "2025-02-19") "microsoft" None None None)
    100000000 1740000000000 = false.
Proof. by vm_compute. Qed.

(** ** Witnesses *)

Definition ex_db : Db :=
  mkDb {["org" := Some "partner"]}
    {["kb1" := mkPatch "microsoft" "KB1" None None "Update" (Some "critical") (Some "security") (Some "2025-01-01") None true;
      "kb2" := mkPatch "third_party" "App" (Some "App.Id") (Some "2.0") "App" None None None None false]}
    [mkDevicePatch "d1" "dev" "org" "kb1" "pending" None None None 1740000000000;
     mkDevicePatch "d2" "dev" "org" "kb2" "pending" None None None 1740000000000]
    [mkApproval "partner" "kb2" "approved" None].
Definition ex_config : ApprovalEvaluationConfig :=
  mkConfig (Some "ring") (Some "partner") []
    (Some (JObj [("enabled", JBool true); ("severities", JArr [JStr "critical"]); ("deferralDays", JNum 7)]))
    0 None None (Some ["os"]) None None.
Definition ex_parse (s : string) : option Z := if String.eqb s "2025-01-01" then Some 1735689600000 else None.
Definition ex_gate : PatchInstallEligibility :=
  evaluatePatchInstallEligibility ex_parse ex_db "dev" "org" ex_config (Some ["kb2"; "kb1"; "kb3"; "kb1"]) true 1740000000000.

Example ex_gate_value :
  eligible ex_gate = [mkEntry "kb1" "d1" "KB1" "Update" (Some "security") (Some "critical") true ring_auto_approve]
  ∧ ineligible ex_gate = [("kb3", not_outstanding); ("kb2", blocked_by_source)].
Proof. by vm_compute. Qed.

Lemma every_patch_has_one_verdict_witness : NoDup (verdict_ids ex_gate).
Proof.
  apply (every_patch_has_one_verdict ex_parse ex_db "dev" "org" ex_config true 1740000000000 ["kb2"; "kb1"; "kb3"; "kb1"]).
  apply (bool_decide_eq_true_1 _). by vm_compute.
Defined.

Lemma install_gate_safe_witness :
  ∃ partner d, dp_patchId d = "kb1" ∧ truthy (default None (organizations ex_db !! "org")) = Some partner.
Proof.
  destruct (install_gate_safe ex_parse ex_db "dev" "org" ex_config true 1740000000000 (Some ["kb2"; "kb1"; "kb3"; "kb1"])
    (mkEntry "kb1" "d1" "KB1" "Update" (Some "security") (Some "critical") true ring_auto_approve))
    as (partner & d & p & Hp & _ & _ & He & _).
  - change (mkEntry "kb1" "d1" "KB1" "Update" (Some "security") (Some "critical") true ring_auto_approve ∈ eligible ex_gate).
    vm_compute. left.
  - exists partner, d. split; [|done]. by injection He.
Defined.
End Eligibility.
