(* ===== verification/Transaction.v ===== *)
(** * Transactions

    A callback given to [db.transaction]: a function on the tables that throws or
    answers with the tables it leaves.  What throws is rolled back ([run_tx]). *)
From S2P Require Import Prelude.
From stdpp Require Import base tactics.

Definition Transaction (S E A : Type) : Type := S → result E (A * S).

Section transaction.
Context {S E : Type}.

Definition ret {A} (a : A) : Transaction S E A := λ s, Ok (a, s).
Definition throw {A} (e : E) : Transaction S E A := λ _, Err e.
Definition bind {A B} (c : Transaction S E A) (k : A → Transaction S E B) : Transaction S E B :=
  λ s, match c s with Ok (a, s') => k a s' | Err e => Err e end.

(** A query, and a computation that may throw. *)
Definition query {A} (f : S → A) : Transaction S E A := λ s, Ok (f s, s).
Definition modify (f : S → S) : Transaction S E unit := λ s, Ok (tt, f s).
Definition lift {A} (r : result E A) : Transaction S E A :=
  λ s, match r with Ok a => Ok (a, s) | Err e => Err e end.

(** A throw leaves the tables as they were. *)
Definition run_tx {A} (c : Transaction S E A) (s : S) : result E A * S :=
  match c s with Ok (a, s') => (Ok a, s') | Err e => (Err e, s) end.

Lemma bind_Ok {A B} (c : Transaction S E A) (k : A → Transaction S E B) s b s' :
  bind c k s = Ok (b, s') → ∃ a s1, c s = Ok (a, s1) ∧ k a s1 = Ok (b, s').
Proof. unfold bind. destruct (c s) as [[a s1]|]; [|done]. eauto. Qed.

Lemma run_tx_Ok {A} (c : Transaction S E A) s a s' : run_tx c s = (Ok a, s') → c s = Ok (a, s').
Proof. unfold run_tx. by destruct (c s) as [[? ?]|]; intros; simplify_eq. Qed.

Lemma run_tx_answer {A} (c : Transaction S E A) s a : (run_tx c s).1 = Ok a → c s = Ok (a, (run_tx c s).2).
Proof. unfold run_tx. by destruct (c s) as [[? ?]|]; cbn; intros; simplify_eq. Qed.

Lemma run_tx_Err {A} (c : Transaction S E A) s e s' : run_tx c s = (Err e, s') → s' = s ∧ c s = Err e.
Proof. unfold run_tx. by destruct (c s) as [[? ?]|]; intros; simplify_eq. Qed.
End transaction.

Declare Scope tx_scope.
Delimit Scope tx_scope with tx.
Notation "'let*' x := c 'in' k" := (bind c (fun x => k))
  (at level 10, x pattern, k at level 200) : tx_scope.
Notation "'guard*' b 'or' e 'in' k" := (if b then k else throw e)
  (at level 10, b at level 9, e at level 9, k at level 200) : tx_scope.
Open Scope tx_scope.

(** Take a transaction that answered apart into its steps, in terms of the state it
    started from. *)
Ltac tx_done H := first [injection H as <- <- | injection H as <- | simplify_eq H; intros; subst].
Ltac tx_step :=
  match goal with
  | H : bind _ _ _ = Ok (_, _) |- _ =>
      let a := fresh "a" in let s := fresh "s" in let Ha := fresh "Ha" in
      apply bind_Ok in H; destruct H as (a & s & Ha & H)
  | H : lift ?r _ = Ok (_, _) |- _ =>
      let E := fresh "E" in unfold lift in H; destruct r eqn:E; [tx_done H|discriminate H]
  | H : query _ _ = Ok (_, _) |- _ => unfold query in H; tx_done H
  | H : modify _ _ = Ok (_, _) |- _ => unfold modify in H; tx_done H
  | H : ret _ _ = Ok (_, _) |- _ => unfold ret in H; tx_done H
  | H : throw _ _ = Ok (_, _) |- _ => discriminate H
  | H : (if ?b then _ else throw _) _ = Ok (_, _) |- _ =>
      let E := fresh "E" in destruct b eqn:E; [|discriminate H]
  end.
Ltac tx_inv := repeat tx_step.
