(* ===== verification/Redis.v ===== *)
(** * Redis, as its clients rely on it

    The services keep counters, windows and revocation marks in Redis.  Redis is
    not part of the sources: it is a type of stores with one operation per command,
    and the class [Redis] states the documented behaviour of the commands used, in
    terms of what a key holds at a time ([peek]): its value and when it expires.
    Clients are proved against the class; [memory] is an instance, for witnesses.
    Times are in milliseconds, of the server's clock. *)
From S2P Require Import Prelude JsText JsDate IsoDate.
From stdpp Require Import base tactics list strings gmap sorting.
From Stdlib Require Import ZArith Lia.
Open Scope Z_scope.

(** A string, a string that is the decimal text of an integer or the JSON text of a
    value, a sorted set, a list of JSON texts. *)
Inductive Value :=
| VStr (s : string)
| VDec (n : Z)
| VJson (j : json)
| VZset (members : gmap string Z)
| VList (l : list json).

(** What a key holds: the value, and the expiry if one is set. *)
Record Entry := mkEntry { e_value : Value; e_expires : option Z }.

Definition alive (t : Z) (e : Entry) : bool :=
  match e_expires e with Some x => t <? x | None => true end.

Definition entry_at (t : Z) (o : option Entry) : option Entry :=
  e ← o; if alive t e then Some e else None.

Inductive Cmd :=
| GET
| EXISTS
| TTL
| RPUSH (j : json)
| LTRIM_last (n : nat)
| LRANGE_all
| SETEX (seconds : Z) (v : Value)
| SET_EX_NX (seconds : Z) (v : Value)
| INCR
| DEL
| EXPIRE (seconds : Z)
| ZREMRANGEBYSCORE_upto (score : Z)
| ZADD (entries : list (string * Z))
| ZREM (members : list string)
| ZCARD
| ZRANGE_0_0_WITHSCORES.

Inductive Reply :=
| RNil
| ROk
| RInt (n : Z)
| RBulk (v : Value)
| RPairs (l : list (string * Z))
| RList (l : list json)
| RErr.

(** A sorted set that becomes empty is removed. *)
Definition zset_entry (x : option Z) (m : gmap string Z) : option Entry :=
  if decide (m = ∅) then None else Some (mkEntry (VZset m) x).

(** The elements by score, equal scores by member. *)
Definition pair_le (a b : string * Z) : bool :=
  (a.2 <? b.2) || (a.2 =? b.2) && match String.compare a.1 b.1 with Gt => false | _ => true end.
Definition by_score (m : gmap string Z) : list (string * Z) := js_sort pair_le (map_to_list m).

Definition add_all (entries : list (string * Z)) (m : gmap string Z) : gmap string Z :=
  foldl (λ m e, <[e.1 := e.2]> m) m entries.
Definition del_all (members : list string) (m : gmap string Z) : gmap string Z :=
  foldl (λ m x, delete x m) m members.
Definition drop_upto (score : Z) (m : gmap string Z) : gmap string Z :=
  filter (λ kv : string * Z, score < kv.2) m.

Definition zset_cmd (c : Cmd) (x : option Z) (m : gmap string Z) : option Entry * Reply :=
  match c with
  | ZREMRANGEBYSCORE_upto s =>
      (zset_entry x (drop_upto s m), RInt (Z.of_nat (size m) - Z.of_nat (size (drop_upto s m))))
  | ZADD es => (zset_entry x (add_all es m), RInt (Z.of_nat (size (add_all es m)) - Z.of_nat (size m)))
  | ZREM ms => (zset_entry x (del_all ms m), RInt (Z.of_nat (size m) - Z.of_nat (size (del_all ms m))))
  | ZCARD => (zset_entry x m, RInt (Z.of_nat (size m)))
  | ZRANGE_0_0_WITHSCORES => (zset_entry x m, RPairs (take 1 (by_score m)))
  | _ => (zset_entry x m, RErr)
  end.

(** A list that becomes empty is removed. *)
Definition list_entry (x : option Z) (l : list json) : option Entry :=
  match l with [] => None | _ => Some (mkEntry (VList l) x) end.

(** What a command at time [t] makes of the key it names, and its reply.  A command
    for another type of value is an error that changes nothing; a sorted-set
    command on an absent key starts from the empty set. *)
Definition run_cmd (t : Z) (c : Cmd) (o : option Entry) : option Entry * Reply :=
  match c, o with
  | GET, None => (None, RNil)
  | GET, Some e => (o, match e_value e with VZset _ | VList _ => RErr | v => RBulk v end)
  | EXISTS, _ => (o, RInt (match o with Some _ => 1 | None => 0 end))
  | TTL, None => (None, RInt (-2))
  | TTL, Some e => (o, RInt (match e_expires e with Some x => (x - t + 500) / 1000 | None => -1 end))
  | RPUSH j, None => (Some (mkEntry (VList [j]) None), RInt 1)
  | RPUSH j, Some e => match e_value e with
                       | VList l => (Some (mkEntry (VList (l ++ [j])) (e_expires e)), RInt (Z.of_nat (length l) + 1))
                       | _ => (o, RErr)
                       end
  | LTRIM_last _, None => (None, ROk)
  | LTRIM_last n, Some e => match e_value e with
                            | VList l => (list_entry (e_expires e) (drop (length l - n) l), ROk)
                            | _ => (o, RErr)
                            end
  | LRANGE_all, None => (None, RList [])
  | LRANGE_all, Some e => (o, match e_value e with VList l => RList l | _ => RErr end)
  | SETEX s v, _ => if 0 <? s then (Some (mkEntry v (Some (t + s * 1000))), ROk) else (o, RErr)
  | SET_EX_NX s v, None => if 0 <? s then (Some (mkEntry v (Some (t + s * 1000))), ROk) else (o, RErr)
  | SET_EX_NX s v, Some _ => (o, if 0 <? s then RNil else RErr)
  | INCR, None => (Some (mkEntry (VDec 1) None), RInt 1)
  | INCR, Some e => match e_value e with
                    | VDec n => (Some (mkEntry (VDec (n + 1)) (e_expires e)), RInt (n + 1))
                    | _ => (o, RErr)
                    end
  | DEL, _ => (None, RInt (match o with Some _ => 1 | None => 0 end))
  | EXPIRE _, None => (None, RInt 0)
  | EXPIRE s, Some e => (Some (mkEntry (e_value e) (Some (t + s * 1000))), RInt 1)
  | _, None => zset_cmd c None ∅
  | _, Some e => match e_value e with VZset m => zset_cmd c (e_expires e) m | _ => (o, RErr) end
  end.

(** A store, the commands on it, and what they are documented to do. *)
Class Redis (R : Type) := {
  peek : R → Z → string → option Entry;
  exec : R → Z → string → Cmd → R * Reply;
  (** Time only lets a key expire. *)
  peek_later r t t' k : t ≤ t' → peek r t' k = entry_at t' (peek r t k);
  (** A command acts on what its key holds then, and on no other key. *)
  peek_exec r t k c :
    peek (exec r t k c).1 t k = entry_at t (run_cmd t c (peek r t k)).1;
  peek_other r t t' k c k' : k ≠ k' → t ≤ t' → peek (exec r t k c).1 t' k' = peek r t' k';
  exec_reply r t k c : (exec r t k c).2 = (run_cmd t c (peek r t k)).2;
}.

(** [MULTI]/[EXEC]: the commands in order, at once. *)
Fixpoint multi {R} `{Redis R} (r : R) (t : Z) (k : string) (cs : list Cmd) : R * list Reply :=
  match cs with
  | [] => (r, [])
  | c :: cs' => let '(r1, a) := exec r t k c in
                let '(r2, as') := multi r1 t k cs' in (r2, a :: as')
  end.

(** What the commands of a transaction make of one key. *)
Fixpoint run_cmds (t : Z) (cs : list Cmd) (o : option Entry) : option Entry * list Reply :=
  match cs with
  | [] => (o, [])
  | c :: cs' => let '(o1, a) := run_cmd t c o in
                let '(o2, as') := run_cmds t cs' (entry_at t o1) in (o2, a :: as')
  end.

Section laws.
Context {R : Type} `{Redis R}.

Lemma peek_now r t k : entry_at t (peek r t k) = peek r t k.
Proof. symmetry. by apply peek_later. Qed.

Lemma multi_spec r t k cs r' replies :
  multi r t k cs = (r', replies) →
  peek r' t k = entry_at t (run_cmds t cs (peek r t k)).1
  ∧ replies = (run_cmds t cs (peek r t k)).2
  ∧ ∀ k' t', k ≠ k' → t ≤ t' → peek r' t' k' = peek r t' k'.
Proof.
  revert r r' replies. induction cs as [|c cs IH]; intros r r' replies Hm; simpl in Hm.
  { simplify_eq. simpl. by rewrite peek_now. }
  pose proof (peek_exec r t k c) as Hp. pose proof (exec_reply r t k c) as Hr.
  pose proof (λ k' t', peek_other r t t' k c k') as Ho.
  destruct (exec r t k c) as [r1 a]. simpl in *.
  destruct (multi r1 t k cs) as [r2 as'] eqn:E. simplify_eq.
  destruct (IH _ _ _ E) as (Hp2 & -> & Ho2). rewrite Hp in *.
  destruct (run_cmd t c (peek r t k)) as [o1 b] eqn:Ec. simpl in *.
  destruct (run_cmds t cs (entry_at t o1)) as [o2 bs] eqn:Es. simpl in *.
  split_and!; [done..|]. intros k' t' Hk Ht. by rewrite Ho2, Ho.
Qed.

End laws.

(** ** A store in memory *)

Definition memory_exec (r : gmap string Entry) (t : Z) (k : string) (c : Cmd)
    : gmap string Entry * Reply :=
  let '(o, a) := run_cmd t c (entry_at t (r !! k)) in
  (partial_alter (λ _, o) k r, a).

#[export] Program Instance memory : Redis (gmap string Entry) := {
  peek := λ r t k, entry_at t (r !! k);
  exec := memory_exec }.
Next Obligation.
  intros r t t' k Ht. unfold entry_at. destruct (r !! k) as [e|]; [|done]. simpl.
  unfold alive. destruct (e_expires e) as [x|] eqn:Ex; simpl.
  - destruct (Z.ltb_spec t x), (Z.ltb_spec t' x); simpl; rewrite ?Ex; try done; try lia.
    + destruct (Z.ltb_spec t' x); [done|lia].
    + destruct (Z.ltb_spec t' x); [lia|done].
  - by rewrite Ex.
Qed.
Next Obligation.
  intros r t k c. unfold memory_exec. simpl. destruct (run_cmd _ _ _) as [o a]. simpl.
  by rewrite lookup_partial_alter_eq.
Qed.
Next Obligation.
  intros r t t' k c k' Hk _. unfold memory_exec. simpl. destruct (run_cmd _ _ _) as [o a]. simpl.
  by rewrite lookup_partial_alter_ne.
Qed.
Next Obligation.
  intros r t k c. unfold memory_exec. simpl. by destruct (run_cmd _ _ _).
Qed.

(** ** Counting members of a sorted set *)

Lemma add_all_lookup_ne es m x : x ∉ es.*1 → add_all es m !! x = m !! x.
Proof.
  unfold add_all. revert m. induction es as [|[y s] es IH]; intros m Hx; simpl; [done|].
  rewrite fmap_cons, not_elem_of_cons in Hx. destruct Hx as [Hy Hx]. simpl in *.
  rewrite IH by done. by apply lookup_insert_ne.
Qed.

Lemma add_all_lookup es m x s :
  NoDup es.*1 → (x, s) ∈ es → add_all es m !! x = Some s.
Proof.
  revert m. induction es as [|[y s'] es IH]; intros m Hn Hx; [by auto with breeze|].
  rewrite fmap_cons, NoDup_cons in Hn. destruct Hn as [Hy Hn]. simpl in Hy.
  unfold add_all. simpl. fold (add_all es (<[y:=s']> m)).
  apply elem_of_cons in Hx as [[= -> ->]|Hx]; [|by apply IH].
  rewrite add_all_lookup_ne by done. apply lookup_insert_eq.
Qed.

(** Adding keeps what is there, and adding something leaves something. *)
Lemma add_all_is_Some es m x : is_Some (m !! x) → is_Some (add_all es m !! x).
Proof.
  unfold add_all. revert m. induction es as [|e es IH]; intros m Hm; simpl; [done|].
  apply IH, lookup_insert_is_Some. destruct (decide (e.1 = x)); auto.
Qed.

Lemma add_all_nonempty es m : es ≠ [] → add_all es m ≠ ∅.
Proof.
  destruct es as [|[x s] es]; [done|]. intros _ Hm.
  destruct (add_all_is_Some es (<[x:=s]> m) x) as [v Hv]; [by rewrite lookup_insert_eq|].
  change (add_all ((x, s) :: es) m !! x = Some v) in Hv. by rewrite Hm, lookup_empty in Hv.
Qed.

Lemma del_all_lookup_ne ms m x : x ∉ ms → del_all ms m !! x = m !! x.
Proof.
  unfold del_all. revert m. induction ms as [|y ms IH]; intros m Hx; simpl; [done|].
  apply not_elem_of_cons in Hx as [Hy Hx]. rewrite IH by done. by apply lookup_delete_ne.
Qed.

Lemma del_all_lookup_in ms m x : x ∈ ms → del_all ms m !! x = None.
Proof.
  unfold del_all. revert m. induction ms as [|y ms IH]; intros m Hx; simpl; [by auto with breeze|].
  destruct (decide (x ∈ ms)) as [Hin|Hno]; [by apply IH|].
  apply elem_of_cons in Hx as [->|Hx]; [|done]. fold (del_all ms (delete y m)).
  rewrite del_all_lookup_ne by done. apply lookup_delete_eq.
Qed.

Lemma drop_upto_lookup s m x v : drop_upto s m !! x = Some v ↔ m !! x = Some v ∧ s < v.
Proof. unfold drop_upto. apply map_lookup_filter_Some. Qed.

(** Distinct members that a set holds are no more than its size. *)
Lemma members_le_size (l : list (string * Z)) (m : gmap string Z) :
  NoDup l.*1 → (∀ x s, (x, s) ∈ l → m !! x = Some s) → (length l ≤ size m)%nat.
Proof.
  intros Hn Hl. rewrite <-length_map_to_list. apply submseteq_length.
  apply NoDup_submseteq; [by eapply NoDup_fmap_1|].
  intros [x s] Hx. by apply elem_of_map_to_list, Hl.
Qed.

(** Under an order that refines a weight, the head of a sort has the least weight. *)
Lemma js_sort_head {A} (le : A → A → bool) (w : A → Z) :
  (∀ a b, le a b = true → w a ≤ w b) → (∀ a b, le a b = false → w b ≤ w a) →
  ∀ l x rest, js_sort le l = x :: rest → ∀ y, y ∈ l → w x ≤ w y.
Proof.
  intros Ht Hf. induction l as [|a l IH]; intros x rest E y Hy; [done|]. simpl in E.
  fold (js_sort le l) in E. destruct (js_sort le l) as [|b l'] eqn:El.
  { apply js_sort_nil in El. subst. simpl in E. simplify_eq.
    apply elem_of_cons in Hy as [->|Hy]; [done|by auto with breeze]. }
  assert (∀ z, z ∈ l → w b ≤ w z) as Hb by (by eapply IH).
  simpl in E. destruct (le a b) eqn:Hab; simplify_eq.
  - apply Ht in Hab. apply elem_of_cons in Hy as [->|Hy]; [done|]. specialize (Hb y Hy). lia.
  - apply Hf in Hab. apply elem_of_cons in Hy as [->|Hy]; [done|auto].
Qed.

Lemma by_score_first m x s rest :
  by_score m = (x, s) :: rest → m !! x = Some s ∧ ∀ y v, m !! y = Some v → s ≤ v.
Proof.
  unfold by_score. intros E. split.
  - apply elem_of_map_to_list, (elem_of_js_sort pair_le). rewrite E. by left.
  - intros y v Hy. apply elem_of_map_to_list in Hy.
    apply (js_sort_head pair_le snd) with (y := (y, v)) in E; [done| | |done].
    + unfold pair_le. intros a b H. apply orb_true_iff in H as [H|H]; bool_hyps; lia.
    + unfold pair_le. intros a b H. bool_hyps. lia.
Qed.
