(* ===== verification/RateLimit.v ===== *)
(** * Rate limiting and account lockout

    [services/rate-limit.ts]: the sliding-window limiter that the authenticated and
    the anonymous routes share ([SlidingWindow]), and the per-account lockout of the
    password routes ([Lockout]).  Redis is the class of [Redis]; a client that is
    missing, a transaction that answers null and a command whose reply is lost,
    applied or not, are outcomes of the calls.  The limiter's call is one
    transaction and, when it refunds, one more command; these are the steps that
    interleave. *)
From S2P Require Import Prelude JsText JsDate IsoDate Redis.
From stdpp Require Import base tactics list strings gmap sorting.
From Stdlib Require Import ZArith QArith Qround Lia Ascii.
Open Scope Z_scope.

(** A command answers, or its reply is lost after or before it was applied. *)
Inductive Landed := replied | lost (applied : bool).

(** A setting of the environment that must not be negative. *)
Definition positiveIntFromEnv (env : gmap string string) (name : string) (fallback : Z) : Z :=
  match env !! name with
  | None => fallback
  | Some raw => match parseInt raw with
                | Some n => if n <? 0 then fallback else n
                | None => fallback
                end
  end.

Module SlidingWindow.

Record RateLimitResult := mkResult { allowed : bool; remaining : Z; resetAt : Z }.

Definition failClosed (now windowSeconds : Z) : RateLimitResult :=
  mkResult false 0 (now + windowSeconds * 1000).

(** How the transaction of a call went: answered, null, or thrown. *)
Inductive Exec := exec_ok | exec_null | exec_threw (applied : bool).
#[global] Instance Exec_eq : EqDecision Exec.
Proof. solve_decision. Defined.

(** One call: when its transaction runs in Redis, the clock it read before, the
    clock on a failure, its cost (none when not finite), its random suffixes, and
    the outcomes of its transaction and of its refund. *)
Record Call := mkCall {
  c_at : Z; c_now : Z; c_failed_at : Z; c_cost : option Q; c_random : nat → string;
  c_exec : Exec; c_refund : Landed }.

Definition safeCost (cost : option Q) : Z :=
  match cost with Some q => Z.max 1 (Qfloor q) | None => 1 end.

(** The members and scores of [zaddArgs]. *)
Definition zaddArgs (c : Call) : list (string * Z) :=
  (λ i, (js_String (c_now c) +:+ "-" +:+ js_String (Z.of_nat i) +:+ "-" +:+ c_random c i, c_now c))
    <$> seq 0 (Z.to_nat (safeCost (c_cost c))).

Definition window_cmds (c : Call) (windowSeconds : Z) : list Cmd :=
  [ZREMRANGEBYSCORE_upto (c_now c - windowSeconds * 1000); ZADD (zaddArgs c); ZCARD;
   ZRANGE_0_0_WITHSCORES; EXPIRE windowSeconds].

(** [results[2]?.[1]], 0 where there is none, and the score in [results[3]?.[1]]. *)
Definition count_of (results : list Reply) : Z :=
  match results !! 2%nat with Some (RInt n) => n | _ => 0 end.
Definition oldest_of (now : Z) (results : list Reply) : Z :=
  match results !! 3%nat with Some (RPairs ((_, s) :: _)) => s | _ => now end.

Section limiter.
Context {R : Type} `{Redis R} (key : string) (limit windowSeconds : Z).

(** The transaction, with the state it leaves whatever becomes of its reply. *)
Definition run_window (r : R) (c : Call) : R * list Reply :=
  let '(r1, results) := multi r (c_at c) key (window_cmds c windowSeconds) in
  (match c_exec c with exec_null | exec_threw false => r | _ => r1 end, results).

(** The decision, before any refund. *)
Definition decides (c : Call) (results : list Reply) : bool :=
  match c_exec c with exec_ok => count_of results <=? limit | _ => false end.

Definition refund (r : R) (t : Z) (c : Call) : R := (exec r t key (ZREM (zaddArgs c).*1)).1.

(** A call that nothing interleaves with. *)
Definition rateLimiter (redis : option R) (refundOnReject : bool) (c : Call)
    : option R * RateLimitResult :=
  match redis with
  | None => (None, failClosed (c_failed_at c) windowSeconds)
  | Some r =>
      let '(r1, results) := run_window r c in
      match c_exec c with
      | exec_ok =>
          let count := count_of results in
          let allowed := count <=? limit in
          let '(r2, refunded) :=
            if negb allowed && refundOnReject then
              match c_refund c with
              | replied => (refund r1 (c_at c) c, true)
              | lost applied => (if applied then refund r1 (c_at c) c else r1, false)
              end
            else (r1, false) in
          let effectiveCount := if refunded : bool then Z.max 0 (count - safeCost (c_cost c)) else count in
          (Some r2, mkResult allowed (Z.max 0 (limit - effectiveCount))
                      (oldest_of (c_now c) results + windowSeconds * 1000))
      | _ => (Some r1, failClosed (c_failed_at c) windowSeconds)
      end
  end.

(** ** Interleaved calls

    [delta] bounds how long before its transaction runs a call read the clock. *)
Context (delta : Z).

(** The time of Redis, its state, and the calls answered so far. *)
Record State := mkState { st_time : Z; st_redis : R; st_calls : list (Call * bool) }.

Definition members_of (h : list (Call * bool)) : list string :=
  concat ((λ cb : Call * bool, (zaddArgs cb.1).*1) <$> h).

(** A call whose members no earlier call on the key drew. *)
Definition fresh (h : list (Call * bool)) (c : Call) : Prop :=
  NoDup (zaddArgs c).*1 ∧ ∀ m, m ∈ (zaddArgs c).*1 → m ∉ members_of h.

(** Steps on one key: a transaction, the refund of a call that was refused, and
    anything that leaves the key alone, the passing of time included. *)
Inductive step : State → State → Prop :=
| s_other t t' r r' h :
    t ≤ t' → (∀ u, t' ≤ u → peek r' u key = peek r u key) →
    step (mkState t r h) (mkState t' r' h)
| s_call t r h c r' results :
    t ≤ c_at c → c_at c - delta ≤ c_now c ≤ c_at c → fresh h c →
    run_window r c = (r', results) →
    step (mkState t r h) (mkState (c_at c) r' (h ++ [(c, decides c results)]))
| s_refund t t' r h c :
    t ≤ t' → (c, false) ∈ h → step (mkState t r h) (mkState t' (refund r t' c) h).

(** The cost admitted among calls whose clock read was in [(lo, hi]]. *)
Definition in_span (lo hi : Z) (cb : Call * bool) : bool :=
  cb.2 && (lo <? c_now cb.1) && (c_now cb.1 <=? hi).
Definition admitted (lo hi : Z) (h : list (Call * bool)) : Z :=
  foldr (λ cb n, if in_span lo hi cb then safeCost (c_cost cb.1) + n else n) 0 h.

(** The key holds no value of another type. *)
Definition zset_or_none (o : option Entry) : Prop :=
  match o with Some (mkEntry (VZset _) _) | None => True | _ => False end.

Definition initial (s : State) : Prop :=
  st_calls s = [] ∧ zset_or_none (peek (st_redis s) (st_time s) key).
Definition reachable (s : State) : Prop := ∃ s0, initial s0 ∧ rtc step s0 s.

(** ** What one transaction does to the key *)

Definition zset_of (o : option Entry) : gmap string Z :=
  match o with Some (mkEntry (VZset m) _) => m | _ => ∅ end.

Definition window_set (c : Call) (o : option Entry) : gmap string Z :=
  add_all (zaddArgs c) (drop_upto (c_now c - windowSeconds * 1000) (zset_of o)).

Lemma safeCost_pos q : 1 ≤ safeCost q.
Proof. unfold safeCost. case_match; lia. Qed.

Lemma zaddArgs_length c : Z.of_nat (length (zaddArgs c)) = safeCost (c_cost c).
Proof. unfold zaddArgs. rewrite length_fmap, length_seq. pose proof (safeCost_pos (c_cost c)). lia. Qed.

Lemma zaddArgs_score c m s : (m, s) ∈ zaddArgs c → s = c_now c.
Proof. unfold zaddArgs. by intros (i & [= _ ->] & _)%list_elem_of_fmap. Qed.

Lemma window_set_nonempty c o : window_set c o ≠ ∅.
Proof.
  apply add_all_nonempty. intros E. pose proof (zaddArgs_length c) as Hl.
  pose proof (safeCost_pos (c_cost c)). rewrite E in Hl. simpl in Hl. lia.
Qed.

Lemma zset_entry_at t x m : alive t (mkEntry (VZset m) x) = true →
  entry_at t (zset_entry x m) = zset_entry x m ∧ zset_of (zset_entry x m) = m.
Proof.
  intros Ha. unfold zset_entry. destruct (decide (m = ∅)) as [->|]; [done|].
  split; [|done]. change (alive t (mkEntry (VZset m) x)) with (alive t (mkEntry (VZset m) x)) in Ha.
  simpl. by rewrite Ha.
Qed.

Lemma window_effect c o :
  zset_or_none o → entry_at (c_at c) o = o →
  ∃ a b, run_cmds (c_at c) (window_cmds c windowSeconds) o
    = (entry_at (c_at c) (Some (mkEntry (VZset (window_set c o)) (Some (c_at c + windowSeconds * 1000)))),
       [a; b; RInt (Z.of_nat (size (window_set c o))); RPairs (take 1 (by_score (window_set c o))); RInt 1]).
Proof.
  intros Hz Ho. pose proof (window_set_nonempty c o) as Hne.
  assert (∃ x m, zset_of o = m ∧ alive (c_at c) (mkEntry (VZset m) x) = true
    ∧ ∀ cmd, (∃ s, cmd = ZREMRANGEBYSCORE_upto s) → run_cmd (c_at c) cmd o = zset_cmd cmd x m) as (x & m & Hm & Hal & Hrun).
  { destruct o as [[v x]|]; [destruct v as [| | |m|]; try done; exists x, m|exists None, ∅]; split_and!; try done.
    - simpl in Ho. destruct (alive _ _) eqn:E; [|done]. done.
    - by intros cmd [s ->].
    - by intros cmd [s ->]. }
  unfold window_cmds. cbn [run_cmds]. rewrite Hrun by eauto. cbn [zset_cmd].
  assert (∀ m', alive (c_at c) (mkEntry (VZset m') x) = true) as Hal' by (intros m'; exact Hal).
  set (m1 := drop_upto _ m). destruct (zset_entry_at (c_at c) x m1 (Hal' m1)) as [-> Hm1].
  set (es := zaddArgs c). set (m2 := add_all es m1).
  assert (window_set c o = m2) as Hw by (unfold window_set; by rewrite Hm). rewrite Hw in *.
  assert (∃ x' b, run_cmd (c_at c) (ZADD es) (zset_entry x m1) = (zset_entry x' m2, b)
            ∧ alive (c_at c) (mkEntry (VZset m2) x') = true) as (x' & b & -> & Hx').
  { unfold zset_entry at 1. destruct (decide (m1 = ∅)) as [E1|]; cbn [run_cmd zset_cmd e_value e_expires].
    - exists None. eexists. split; [|done]. unfold m2. by rewrite E1.
    - exists x. eexists. split; [done|]. apply Hal'. }
  destruct (zset_entry_at (c_at c) x' m2 Hx') as [-> _].
  assert (zset_entry x' m2 = Some (mkEntry (VZset m2) x')) as Hz2 by (unfold zset_entry; by rewrite decide_False).
  rewrite Hz2. cbn [run_cmd zset_cmd e_value e_expires]. rewrite Hz2.
  assert (entry_at (c_at c) (Some (mkEntry (VZset m2) x')) = Some (mkEntry (VZset m2) x')) as He by (simpl; by rewrite Hx').
  rewrite He. cbn [run_cmd zset_cmd e_value e_expires]. rewrite Hz2, He.
  cbn [run_cmd zset_cmd e_value e_expires]. eauto.
Qed.
Lemma entry_at_twice t o : entry_at t (entry_at t o) = entry_at t o.
Proof. destruct o as [e|]; [|done]. simpl. destruct (alive t e) eqn:E; simpl; [by rewrite E|done]. Qed.

(** The replies of a transaction, and the key after it, whatever became of its
    reply. *)
Lemma run_window_spec r c r' results :
  zset_or_none (peek r (c_at c) key) → run_window r c = (r', results) →
  let m := window_set c (peek r (c_at c) key) in
  count_of results = Z.of_nat (size m)
  ∧ oldest_of (c_now c) results = default (c_now c) (snd <$> head (by_score m))
  ∧ ((c_exec c = exec_null ∨ c_exec c = exec_threw false) ∧ r' = r
     ∨ peek r' (c_at c) key
         = entry_at (c_at c) (Some (mkEntry (VZset m) (Some (c_at c + windowSeconds * 1000))))).
Proof.
  intros Hz Hr. unfold run_window in Hr. set (m := window_set c _).
  destruct (multi r (c_at c) key (window_cmds c windowSeconds)) as [r1 rs] eqn:E.
  destruct (multi_spec _ _ _ _ _ _ E) as (Hp & -> & _).
  destruct (window_effect c _ Hz (peek_now _ _ _)) as (a & b & Heff). rewrite Heff in Hp, Hr.
  fold m in Hp, Hr. cbn [fst snd] in Hp, Hr. rewrite entry_at_twice in Hp. simplify_eq. split_and!.
  - done.
  - unfold oldest_of. cbn [lookup list_lookup]. by destruct (by_score m) as [|[? ?] ?].
  - destruct (c_exec c) as [| |[]]; auto.
Qed.

(** ** The bound *)

Definition entries_of (h : list (Call * bool)) : list (string * Z) :=
  concat ((λ cb : Call * bool, if cb.2 then zaddArgs cb.1 else []) <$> h).

(** What is admitted and not yet out of the window is in the set; a key that
    expires takes only what is out of it. *)
Definition held (t : Z) (o : option Entry) (E : list (string * Z)) : Prop :=
  ∀ m s, (m, s) ∈ E → t - windowSeconds * 1000 < s → zset_of o !! m = Some s.
Definition expiry_ok (o : option Entry) (E : list (string * Z)) : Prop :=
  ∀ e x, o = Some e → e_expires e = Some x → ∀ m s, (m, s) ∈ E → s ≤ x - windowSeconds * 1000.

Record ok (st : State) : Prop := {
  ok_type : zset_or_none (peek (st_redis st) (st_time st) key);
  ok_nodup : NoDup (members_of (st_calls st));
  ok_past : ∀ m s, (m, s) ∈ entries_of (st_calls st) → s ≤ st_time st;
  ok_held : held (st_time st) (peek (st_redis st) (st_time st) key) (entries_of (st_calls st));
  ok_expiry : expiry_ok (peek (st_redis st) (st_time st) key) (entries_of (st_calls st));
  ok_bound : ∀ hi, admitted (hi - (windowSeconds * 1000 - delta)) hi (st_calls st) ≤ limit }.

Lemma zset_or_none_at t o : zset_or_none o → zset_or_none (entry_at t o).
Proof. destruct o as [[[] x]|]; try done. simpl. by case_match. Qed.

(** The three facts about the key survive the passing of time. *)
Lemma key_later t t' o E :
  t ≤ t' → zset_or_none o → held t o E → expiry_ok o E →
  zset_or_none (entry_at t' o) ∧ held t' (entry_at t' o) E ∧ expiry_ok (entry_at t' o) E.
Proof.
  intros Ht Hz Hh He. split; [by apply zset_or_none_at|].
  destruct o as [e|]; [|split; [intros m s Hin Hlt; apply (Hh m s Hin); lia|done]].
  simpl. destruct (alive t' e) eqn:Ea; simpl; [split; [intros m s Hin Hlt; apply (Hh m s Hin); lia|done]|].
  split; [|done]. intros m s Hin Hlt. unfold alive in Ea. destruct (e_expires e) as [x|] eqn:Ex; [|done].
  bool_hyps. specialize (He e x eq_refl Ex m s Hin). lia.
Qed.

Lemma entries_members h m s : (m, s) ∈ entries_of h → m ∈ members_of h.
Proof.
  unfold entries_of, members_of. induction h as [|[c []] h IH]; simpl; [by auto with breeze|..];
    rewrite ?elem_of_app; [|auto].
  intros [Hin|Hin]; [left|right; auto]. by apply (list_elem_of_fmap_2 fst) in Hin.
Qed.

Lemma entries_snoc h c b : entries_of (h ++ [(c, b)]) = entries_of h ++ (if b : bool then zaddArgs c else []).
Proof. unfold entries_of. rewrite fmap_app, concat_app. simpl. by rewrite app_nil_r. Qed.
Lemma members_snoc h c b : members_of (h ++ [(c, b)]) = members_of h ++ (zaddArgs c).*1.
Proof. unfold members_of. rewrite fmap_app, concat_app. simpl. by rewrite app_nil_r. Qed.

Lemma admitted_snoc lo hi h c b :
  admitted lo hi (h ++ [(c, b)]) = admitted lo hi h + (if in_span lo hi (c, b) then safeCost (c_cost c) else 0).
Proof.
  unfold admitted. induction h as [|cb h IH]; simpl; [|rewrite IH; destruct (in_span lo hi cb)];
    destruct (in_span lo hi (c, b)); lia.
Qed.

(** The admitted cost of a span is a number of distinct entries of it. *)
Definition span (lo hi : Z) (E : list (string * Z)) : list (string * Z) :=
  filter (λ e : string * Z, lo < e.2 ∧ e.2 ≤ hi) E.

Lemma span_zaddArgs lo hi c :
  span lo hi (zaddArgs c) = if (lo <? c_now c) && (c_now c <=? hi) then zaddArgs c else [].
Proof.
  unfold span. pose proof (zaddArgs_score c) as Hs. induction (zaddArgs c) as [|[m s] l IH]; [by case_match|].
  assert (s = c_now c) as -> by (apply (Hs m); by left). rewrite filter_cons. cbn [snd]. rewrite IH by (intros; eapply Hs; by right).
  destruct (Z.ltb_spec lo (c_now c)), (Z.leb_spec (c_now c) hi); cbn [andb]; case_decide; try done; exfalso; lia.
Qed.

Lemma admitted_entries lo hi h : admitted lo hi h = Z.of_nat (length (span lo hi (entries_of h))).
Proof.
  unfold span, admitted. induction h as [|[c []] h IH]; [done|..].
  - change (entries_of ((c, true) :: h)) with (zaddArgs c ++ entries_of h).
    rewrite filter_app, length_app. fold (span lo hi (zaddArgs c)). rewrite span_zaddArgs. simpl. rewrite IH.
    unfold in_span. simpl. case_match; simpl; rewrite <-?zaddArgs_length; lia.
  - change (entries_of ((c, false) :: h)) with (entries_of h). simpl. rewrite IH. done.
Qed.

Lemma NoDup_entries h : NoDup (members_of h) → NoDup (entries_of h).*1.
Proof.
  pose proof (entries_members h) as Hem. revert Hem. unfold entries_of, members_of.
  induction h as [|[c []] h IH]; simpl; intros Hem Hn; [constructor|..];
    apply NoDup_app in Hn as (H1 & H2 & H3); [|by apply IH; [apply entries_members|]].
  rewrite fmap_app. apply NoDup_app. split_and!; [done| |by apply IH; [apply entries_members|]].
  intros m Hm ([m' s] & -> & Hin)%list_elem_of_fmap. apply (H2 m' Hm). by eapply entries_members.
Qed.

Lemma NoDup_span lo hi h : NoDup (members_of h) → NoDup (span lo hi (entries_of h)).*1.
Proof.
  intros Hn%NoDup_entries. revert Hn. unfold span. generalize (entries_of h).
  induction l as [|[m s] l IH]; [done|]. rewrite fmap_cons, NoDup_cons. intros [Hm Hl].
  rewrite filter_cons. case_decide; [|by apply IH]. rewrite fmap_cons. constructor; [|by apply IH].
  intros ([m' s'] & ? & [_ Hin]%list_elem_of_filter)%list_elem_of_fmap. simplify_eq/=.
  apply Hm. by apply (list_elem_of_fmap_2 fst) in Hin.
Qed.

(** Every admitted entry still in the window is in the set of the next transaction. *)
Lemma window_holds h c o b m s :
  fresh h c → c_now c ≤ c_at c → held (c_at c) o (entries_of h) →
  (m, s) ∈ entries_of (h ++ [(c, b)]) → c_at c - windowSeconds * 1000 < s →
  window_set c o !! m = Some s.
Proof.
  intros [Hn Hf] Hnow Hh Hin Hlt. unfold window_set. rewrite entries_snoc, elem_of_app in Hin.
  destruct Hin as [Hin|Hin].
  - rewrite add_all_lookup_ne by (intros Hm; by apply (Hf m Hm), (entries_members _ _ s)).
    apply drop_upto_lookup. split; [by apply Hh|lia].
  - destruct b; [|by auto with breeze]. by apply add_all_lookup.
Qed.

Lemma snoc_past h c b t :
  (∀ m s, (m, s) ∈ entries_of h → s ≤ t) → t ≤ c_at c → c_now c ≤ c_at c →
  ∀ m s, (m, s) ∈ entries_of (h ++ [(c, b)]) → s ≤ c_at c.
Proof.
  intros Hp Ht Hc m s. rewrite entries_snoc, elem_of_app. intros [Hin|Hin].
  - specialize (Hp m s Hin). lia.
  - destruct b; [|by auto with breeze]. by rewrite (zaddArgs_score c m s).
Qed.

Lemma window_bound h c o b hi :
  fresh h c → NoDup (members_of (h ++ [(c, b)])) → c_at c - delta ≤ c_now c ≤ c_at c →
  held (c_at c) o (entries_of h) → (b = true → Z.of_nat (size (window_set c o)) ≤ limit) →
  admitted (hi - (windowSeconds * 1000 - delta)) hi h ≤ limit →
  admitted (hi - (windowSeconds * 1000 - delta)) hi (h ++ [(c, b)]) ≤ limit.
Proof.
  intros Hf Hn Hd Hh Hb Hold. set (lo := hi - (windowSeconds * 1000 - delta)) in *.
  destruct (in_span lo hi (c, b)) eqn:Hin; [|rewrite admitted_snoc, Hin; lia].
  unfold in_span in Hin. cbn [fst snd] in Hin. bool_hyps. subst b. specialize (Hb eq_refl).
  rewrite admitted_entries. etrans; [|exact Hb]. apply inj_le, members_le_size; [by apply NoDup_span|].
  intros m s [[Hlo Hhi] Hm]%list_elem_of_filter. cbn [snd] in *.
  eapply window_holds; [done|lia|done..|]. unfold lo in *. lia.
Qed.

Lemma call_ok t r h c r' results :
  ok (mkState t r h) → t ≤ c_at c → c_at c - delta ≤ c_now c ≤ c_at c → fresh h c →
  run_window r c = (r', results) → ok (mkState (c_at c) r' (h ++ [(c, decides c results)])).
Proof.
  intros [Hty Hn Hp Hh He Hb] Ht Hd Hf Hr. cbn [st_time st_redis st_calls] in *.
  assert (NoDup (members_of (h ++ [(c, decides c results)]))) as Hn'.
  { rewrite members_snoc. apply NoDup_app. destruct Hf. split_and!; [done| |done].
    intros m Hm Hm'. naive_solver. }
  destruct (key_later t (c_at c) _ _ Ht Hty Hh He) as (Hty1 & Hh1 & He1).
  rewrite <-(peek_later r t (c_at c) key Ht) in Hty1, Hh1, He1.
  destruct (run_window_spec r c r' results Hty1 Hr) as (Hcnt & _ & Hpk).
  assert (∀ m s, (m, s) ∈ entries_of (h ++ [(c, decides c results)]) → s ≤ c_at c) as Hp'
    by (eapply snoc_past; [exact Hp|exact Ht|lia]).
  assert (decides c results = true → Z.of_nat (size (window_set c (peek r (c_at c) key))) ≤ limit) as Hlim.
  { unfold decides. destruct (c_exec c); [|done..]. rewrite Hcnt. intros. by bool_hyps. }
  assert (∀ hi, admitted (hi - (windowSeconds * 1000 - delta)) hi (h ++ [(c, decides c results)]) ≤ limit) as Hb'
    by (intros hi; by eapply window_bound).
  destruct Hpk as [[Hx ->]|Hpk]; split; cbn [st_time st_redis st_calls]; try done.
  - assert (decides c results = false) as -> by (unfold decides; by destruct Hx as [->| ->]).
    by rewrite entries_snoc, app_nil_r.
  - assert (decides c results = false) as -> by (unfold decides; by destruct Hx as [->| ->]).
    by rewrite entries_snoc, app_nil_r.
  - rewrite Hpk. by apply zset_or_none_at.
  - rewrite Hpk. intros m s Hin Hlt. simpl. unfold alive; cbn [e_expires].
    destruct (Z.ltb_spec (c_at c) (c_at c + windowSeconds * 1000)).
    + simpl. by eapply window_holds; [..|exact Hin|]; try done; lia.
    + specialize (Hp' m s Hin). lia.
  - rewrite Hpk. intros e x Hex Hx m s Hin. simpl in Hex. case_match; [|done]. simplify_eq/=.
    specialize (Hp' m s Hin). lia.
Qed.

Lemma zrem_effect t ms o :
  zset_or_none o → entry_at t o = o →
  let o' := entry_at t (run_cmd t (ZREM ms) o).1 in
  zset_or_none o' ∧ zset_of o' = del_all ms (zset_of o)
  ∧ ∀ e, o' = Some e → ∃ e0, o = Some e0 ∧ e_expires e = e_expires e0.
Proof.
  intros Hz Ho. assert (∃ x m, zset_of o = m ∧ run_cmd t (ZREM ms) o = zset_cmd (ZREM ms) x m
    ∧ alive t (mkEntry (VZset m) x) = true
    ∧ (o = None ∧ m = ∅ ∨ ∃ e0, o = Some e0 ∧ e_expires e0 = x)) as (x & m & Hm & Hrun & Hal & Hc).
  { destruct o as [[v x]|]; [destruct v as [| | |m|]; try done; exists x, m|exists None, ∅]; split_and!; try done; eauto.
    simpl in Ho. by destruct (alive _ _). }
  rewrite Hm, Hrun. cbn [zset_cmd fst].
  destruct (zset_entry_at t x (del_all ms m)) as [He Hset]; [exact Hal|]. simpl. rewrite He, Hset.
  split_and!; [unfold zset_entry; by case_decide|done|]. intros e. unfold zset_entry. case_decide as Hd; [done|].
  intros [= <-]. destruct Hc as [[-> ->]|(e0 & He0 & Hx)]; [|exists e0; auto].
  destruct Hd. apply map_eq. intros k. rewrite lookup_empty. clear.
  destruct (decide (k ∈ ms)); [by apply del_all_lookup_in|]. by rewrite del_all_lookup_ne.
Qed.

Lemma refund_ok t t' r h c :
  ok (mkState t r h) → t ≤ t' → (c, false) ∈ h → ok (mkState t' (refund r t' c) h).
Proof.
  intros [Hty Hn Hp Hh He Hb] Ht Hc. cbn [st_time st_redis st_calls] in *.
  destruct (key_later t t' _ _ Ht Hty Hh He) as (Hty1 & Hh1 & He1).
  rewrite <-(peek_later r t t' key Ht) in Hty1, Hh1, He1.
  assert (∀ m s, (m, s) ∈ entries_of h → m ∉ (zaddArgs c).*1) as Hno.
  { intros m s Hin Hm. clear -Hn Hc Hin Hm. induction h as [|[d b] h IH]; [by auto with breeze|].
    unfold members_of in Hn. simpl in Hn. apply NoDup_app in Hn as (_ & Hdis & Hn).
    apply elem_of_cons in Hc as [Hc|Hc].
    - simplify_eq. apply (Hdis m Hm). by eapply entries_members.
    - unfold entries_of in Hin. simpl in Hin. apply elem_of_app in Hin as [Hin|Hin]; [|by apply IH].
      destruct b; [|by auto with breeze]. apply (list_elem_of_fmap_2 fst) in Hin. apply (Hdis m Hin).
      unfold members_of. apply list_elem_of_In, in_concat. exists (zaddArgs c).*1. rewrite <-!list_elem_of_In.
      split; [|done]. apply list_elem_of_fmap. by exists (c, false). }
  pose proof (peek_exec r t' key (ZREM (zaddArgs c).*1)) as Hpk. fold (refund r t' c) in Hpk.
  destruct (zrem_effect t' (zaddArgs c).*1 _ Hty1 (peek_now _ _ _)) as (Hz2 & Hset & Hex). rewrite <-Hpk in *.
  split; cbn [st_time st_redis st_calls]; try done.
  - intros m s Hin. specialize (Hp m s Hin). lia.
  - intros m s Hin Hlt. rewrite Hset, del_all_lookup_ne by eauto. by apply Hh1.
  - intros e x Hx Hxx m s Hin. destruct (Hex e Hx) as (e0 & He0 & Hee). rewrite Hee in Hxx. eauto.
Qed.

Lemma window_step_ok s s' : step s s' → ok s → ok s'.
Proof.
  intros Hst Hok. destruct Hst as [t t' r r' h Ht Hpk|t r h c r' results Ht Hd Hf Hr|t t' r h c Ht Hc].
  - destruct Hok as [Hty Hn Hp Hh He Hb]. cbn [st_time st_redis st_calls] in *.
    destruct (key_later t t' _ _ Ht Hty Hh He) as (Hty1 & Hh1 & He1).
    rewrite <-(peek_later r t t' key Ht) in Hty1, Hh1, He1. rewrite <-(Hpk t') in * by lia.
    split; cbn [st_time st_redis st_calls]; try done. intros m s Hin. specialize (Hp m s Hin). lia.
  - by eapply call_ok.
  - by eapply refund_ok.
Qed.

Lemma window_reachable_ok s : 0 ≤ limit → reachable s → ok s.
Proof.
  intros Hl (s0 & [Hc Hz] & Hr). apply (rtc_invariant step ok s0 s window_step_ok Hr).
  split; try done; rewrite Hc; [constructor|intros m x Hin; by auto with breeze..|by intros hi].
Qed.

(** C9: The limit holds under every interleaving.  Let calls for one key reach
    Redis in any order and number, with weighted costs, lost replies, refunds and
    the expiry of the key, each having read its clock at most [delta] milliseconds
    before its transaction ran and drawn members of its own.  Then in no span of
    the window's length less [delta] is the cost of the admitted calls above the
    limit. *)
Theorem rate_limit_bound s (Hl : 0 ≤ limit) (Hs : reachable s) :
  ∀ hi, admitted (hi - (windowSeconds * 1000 - delta)) hi (st_calls s) ≤ limit.
Proof. by apply ok_bound, window_reachable_ok. Qed.

(** ** Waiting as advertised *)

(** A call of cost 1 whose commands are answered at once. *)
Definition plain (c : Call) : Prop :=
  c_now c = c_at c ∧ c_cost c = Some 1%Q ∧ c_exec c = exec_ok ∧ c_refund c = replied.

(** Such calls with refunds, from an absent key; the time is that of the last. *)
Inductive refund_run : Z → R → Prop :=
| rr_start a r : peek r a key = None → refund_run a r
| rr_call a r c r' res :
    refund_run a r → a ≤ c_at c → plain c → rateLimiter (Some r) true c = (Some r', res) →
    refund_run (c_at c) r'.

Definition one_more (c : Call) (x : string) (o : option Entry) : gmap string Z :=
  <[x := c_now c]> (drop_upto (c_now c - windowSeconds * 1000) (zset_of o)).

Lemma zset_of_at t o : zset_of (entry_at t o) ⊆ zset_of o.
Proof. destruct o as [e|]; simpl; [case_match; [done|apply map_empty_subseteq]|done]. Qed.

Lemma plain_call r c r' res :
  plain c → zset_or_none (peek r (c_at c) key) → rateLimiter (Some r) true c = (r', res) →
  ∃ x r2, let m := one_more c x (peek r (c_at c) key) in
    r' = Some r2 ∧ allowed res = (Z.of_nat (size m) <=? limit)
    ∧ resetAt res = default (c_now c) (snd <$> head (by_score m)) + windowSeconds * 1000
    ∧ zset_or_none (peek r2 (c_at c) key)
    ∧ zset_of (peek r2 (c_at c) key) ⊆ (if allowed res then m else delete x m).
Proof.
  intros (Hnow & Hcost & Hex & Href) Hz Hr.
  assert (∃ x, zaddArgs c = [(x, c_now c)]) as [x Hx] by (unfold zaddArgs; rewrite Hcost; by eexists).
  cbn [rateLimiter] in Hr. destruct (run_window r c) as [r1 results] eqn:E. rewrite Hex, Href in Hr.
  destruct (run_window_spec r c r1 results Hz E) as (Hc & Ho & [[[?|?] _]|Hpk]); [congruence..|].
  unfold window_set in *. rewrite Hx in *. fold (one_more c x (peek r (c_at c) key)) in *.
  change (add_all [(x, c_now c)] ?m) with (<[x := c_now c]> m) in *.
  fold (one_more c x (peek r (c_at c) key)) in *. set (m := one_more c x (peek r (c_at c) key)) in *.
  rewrite Hc, Ho in Hr. exists x.
  assert (zset_or_none (peek r1 (c_at c) key)) as Hz1 by (rewrite Hpk; by apply zset_or_none_at).
  assert (zset_of (peek r1 (c_at c) key) ⊆ m) as Hm1 by (rewrite Hpk; etrans; [apply zset_of_at|done]).
  destruct (Z.of_nat (size m) <=? limit) eqn:Ha; cbn [negb andb] in Hr; simplify_eq; eexists;
    cbn [allowed resetAt]; (split_and!; [done..| |]).
  - done.
  - done.
  - unfold refund. rewrite peek_exec. by apply zrem_effect, peek_now.
  - unfold refund. rewrite peek_exec, Hx.
    destruct (zrem_effect (c_at c) [x] _ Hz1 (peek_now _ _ _)) as (_ & Hset & _).
    cbn [fmap list_fmap fst]. rewrite Hset. by apply delete_mono.
Qed.

Lemma size_insert_le (m : gmap string Z) k v : (size (<[k:=v]> m) ≤ S (size m))%nat.
Proof. rewrite map_size_insert. destruct (m !! k); cbn; lia. Qed.

(** In a bucket of refunded calls the set never holds more than the limit. *)
Lemma refund_run_ok a r :
  1 ≤ limit → refund_run a r →
  zset_or_none (peek r a key) ∧ Z.of_nat (size (zset_of (peek r a key))) ≤ limit
  ∧ ∀ y v, zset_of (peek r a key) !! y = Some v → v ≤ a.
Proof.
  intros Hl. induction 1 as [a r Hp|a r c r' res Hrun IH Ha Hc Hr].
  { rewrite Hp. split_and!; [done|simpl; rewrite map_size_empty; lia|]. intros y v Hy. by auto with breeze. }
  destruct IH as (Hz & Hs & Hv).
  assert (zset_or_none (peek r (c_at c) key)) as Hz' by (rewrite (peek_later r a) by done; by apply zset_or_none_at).
  destruct (plain_call r c _ res Hc Hz' Hr) as (x & r2 & ? & Hal & _ & Hz2 & Hsub). simplify_eq.
  set (m := one_more c x (peek r (c_at c) key)) in *.
  assert (∀ y v, m !! y = Some v → v ≤ c_at c) as Hmv.
  { intros y v. unfold m, one_more. rewrite lookup_insert_Some. intros [[_ <-]|[_ [Hy _]%drop_upto_lookup]].
    - by destruct Hc as [-> _].
    - rewrite (peek_later r a) in Hy by done.
      eapply lookup_weaken in Hy; [|apply zset_of_at]. specialize (Hv y v Hy). lia. }
  assert (size m ≤ S (size (zset_of (peek r a key))))%nat as Hms.
  { unfold m, one_more. etrans; [apply size_insert_le|]. apply le_n_S.
    apply map_subseteq_size. etrans; [apply map_filter_subseteq|]. rewrite (peek_later r a) by done. apply zset_of_at. }
  split_and!; [done| |].
  - apply map_subseteq_size in Hsub. symmetry in Hal. destruct (allowed res); [bool_hyps; lia|].
    assert (is_Some (m !! x)) as [v Hx] by (unfold m, one_more; by rewrite lookup_insert_eq).
    rewrite map_size_delete, Hx in Hsub. lia.
  - intros y v Hy. eapply lookup_weaken in Hy; [|exact Hsub]. destruct (allowed res); [by eapply Hmv|].
    apply lookup_delete_Some in Hy as [_ Hy]. by eapply Hmv.
Qed.

(** The advertised time is that of an entry the set already held. *)
Lemma oldest_was_held (S : gmap string Z) x now :
  S ≠ ∅ → (∀ y v, S !! y = Some v → v ≤ now) →
  ∃ y v, S !! y = Some v ∧ v ≤ default now (snd <$> head (by_score (<[x := now]> S))).
Proof.
  intros Hne Hv. destruct (map_choose S Hne) as (y0 & v0 & H0).
  destruct (by_score (<[x := now]> S)) as [|[z o] rest] eqn:E.
  { assert ((x, now) ∈ map_to_list (<[x := now]> S)) as Hin by (apply elem_of_map_to_list, lookup_insert_eq).
    apply (elem_of_js_sort pair_le) in Hin. unfold by_score in E. rewrite E in Hin. by auto with breeze. }
  apply by_score_first in E as [Hz Hmin]. simpl.
  apply lookup_insert_Some in Hz as [[-> ->]|[_ Hz]]; [|by exists z, o]. exists y0, v0. split; [done|]. by eapply Hv.
Qed.

(** Waiting as long as advertised works.  In a bucket whose refused calls are
    refunded, let a call be refused: the next call, made at the advertised reset
    time or later, is admitted, however many calls were refused before. *)
Theorem retry_after_honoured a r c r1 res d (Hl : 1 ≤ limit) (Hrun : refund_run a r)
    (Ha : a ≤ c_at c) (Hc : plain c) (Hr : rateLimiter (Some r) true c = (Some r1, res))
    (Hno : allowed res = false) (Hd : plain d) (Hcd : c_at c ≤ c_at d) (Hwait : resetAt res ≤ c_now d) :
  allowed (rateLimiter (Some r1) true d).2 = true.
Proof.
  destruct (refund_run_ok a r Hl Hrun) as (Hz & Hs & Hv).
  assert (zset_of (peek r (c_at c) key) ⊆ zset_of (peek r a key)) as Hsa by (rewrite (peek_later r a) by done; apply zset_of_at).
  assert (zset_or_none (peek r (c_at c) key)) as Hz' by (rewrite (peek_later r a) by done; by apply zset_or_none_at).
  destruct (plain_call r c _ res Hc Hz' Hr) as (x & r2 & ? & Hal & Hres & Hz2 & Hsub). simplify_eq.
  rewrite Hno in *. symmetry in Hal. bool_hyps.
  destruct (rateLimiter (Some r2) true d) as [r3 res3] eqn:E3.
  assert (zset_or_none (peek r2 (c_at d) key)) as Hz3 by (rewrite (peek_later r2 (c_at c)) by done; by apply zset_or_none_at).
  destruct (plain_call r2 d _ res3 Hd Hz3 E3) as (y & r4 & _ & Hal3 & _). simpl. rewrite Hal3. clear Hal3.
  unfold one_more in *. set (S0 := drop_upto (c_now c - windowSeconds * 1000) (zset_of (peek r (c_at c) key))) in *.
  assert (S0 ⊆ zset_of (peek r a key)) as HS0 by (etrans; [apply map_filter_subseteq|done]).
  apply map_subseteq_size in HS0 as HS0s. rewrite map_size_insert in Hal. 
  assert (S0 !! x = None) as Hx by (destruct (S0 !! x); [cbn in Hal; lia|done]). rewrite Hx in Hal.
  destruct (oldest_was_held S0 x (c_now c)) as (z & v & Hzv & Hold).
  { intros ->. rewrite map_size_empty in Hal. lia. }
  { intros z v Hzv. eapply lookup_weaken in Hzv; [|exact HS0]. specialize (Hv z v Hzv). destruct Hc as [-> _]. lia. }
  set (T := drop_upto (c_now d - windowSeconds * 1000) (zset_of (peek r2 (c_at d) key))).
  assert (T ⊆ delete z S0) as HT.
  { apply map_subseteq_spec. intros w u [Hw Hu]%drop_upto_lookup. rewrite (peek_later r2 (c_at c)) in Hw by done.
    eapply lookup_weaken in Hw; [|etrans; [apply zset_of_at|exact Hsub]]. rewrite delete_insert_id in Hw by done.
    apply lookup_delete_Some. split; [|done]. intros ->. rewrite Hzv in Hw. simplify_eq. lia. }
  apply map_subseteq_size in HT. rewrite map_size_delete, Hzv in HT.
  apply Z.leb_le. pose proof (size_insert_le T y (c_now d)). cbn in HT. lia.
Qed.

(** ** Errors *)

(** On a key of another type the window commands fail and only [EXPIRE] acts. *)
Lemma wrong_type_effect c e :
  ¬ zset_or_none (Some e) → alive (c_at c) e = true →
  (run_cmds (c_at c) (window_cmds c windowSeconds) (Some e)).2 = [RErr; RErr; RErr; RErr; RInt 1].
Proof.
  intros Hz Ha. destruct e as [v x]. unfold window_cmds.
  assert (entry_at (c_at c) (Some (mkEntry v x)) = Some (mkEntry v x)) as He by (simpl; by rewrite Ha).
  destruct v; [| | |by destruct Hz|];
    repeat (cbn [run_cmds run_cmd e_value e_expires]; rewrite ?He); done.
Qed.

(** C39: Errors.  Without a client, and when the transaction answers null or throws,
    applied or not, the call is refused for a whole window.  When it is answered,
    the call is admitted exactly when the entries in the window, its own included,
    are within the limit; but where the key holds a value of another type every
    call is admitted, the errors inside the transaction counting as zero. *)
Theorem limiter_errors redis refundOnReject c :
  let res := (rateLimiter redis refundOnReject c).2 in
  match redis with
  | None => res = failClosed (c_failed_at c) windowSeconds
  | Some r =>
      if decide (c_exec c = exec_ok) then
        (zset_or_none (peek r (c_at c) key) →
           allowed res = (Z.of_nat (size (window_set c (peek r (c_at c) key))) <=? limit)
           ∧ 0 ≤ remaining res ≤ Z.max 0 limit)
        ∧ (¬ zset_or_none (peek r (c_at c) key) → 0 ≤ limit →
           allowed res = true ∧ remaining res = limit)
      else res = failClosed (c_failed_at c) windowSeconds
  end.
Proof.
  destruct redis as [r|]; [|done]. cbn [rateLimiter]. destruct (run_window r c) as [r1 results] eqn:E.
  destruct (c_exec c) eqn:Hx; cbn [snd]; [|by rewrite decide_False..].
  rewrite decide_True by done. split; intros Hz.
  - destruct (run_window_spec r c r1 results Hz E) as (-> & _). set (n := Z.of_nat _).
    assert (0 ≤ n) by (unfold n; lia). pose proof (safeCost_pos (c_cost c)).
    repeat case_match; simplify_eq; cbn [snd allowed remaining]; split; done || lia.
  - intros Hl. assert (count_of results = 0) as ->.
    { unfold run_window in E. destruct (multi r (c_at c) key (window_cmds c windowSeconds)) as [r2 rs] eqn:Em.
      destruct (multi_spec _ _ _ _ _ _ Em) as (_ & -> & _). pose proof (peek_now r (c_at c) key) as Hn.
      destruct (peek r (c_at c) key) as [e|]; [|by destruct Hz]. simpl in Hn.
      destruct (alive (c_at c) e) eqn:Ha; [|done]. rewrite wrong_type_effect in E by done. by simplify_eq. }
    rewrite (proj2 (Z.leb_le 0 limit) Hl). cbn [negb andb snd allowed remaining]. split; [done|lia].
Qed.
End limiter.

(** ** Witnesses *)

Definition ex_call (t : Z) (tag : string) : Call :=
  mkCall t t t (Some 1%Q) (λ _, tag) exec_ok replied.
Definition ex_redis (cs : list Call) : gmap string Entry :=
  foldl (λ r c, (run_window "k" 60 r c).1) ∅ cs.

(** Two calls in a minute under a limit of one: the second is refused. *)
Lemma ex_window_reachable :
  reachable "k" 1 60 0 (mkState 2000 (ex_redis [ex_call 1000 "a"; ex_call 2000 "b"])
    [(ex_call 1000 "a", true); (ex_call 2000 "b", false)]).
Proof.
  exists (mkState 0 ∅ []). split; [done|].
  eapply rtc_l; [apply (s_call "k" 1 60 0 0 ∅ [] (ex_call 1000 "a")
    (ex_redis [ex_call 1000 "a"]) [RInt 0; RInt 1; RInt 1; RPairs [("1000-0-a", 1000)]; RInt 1]); simpl; try lia|].
  - split; [apply (bool_decide_unpack _); by vm_compute|]. intros m _. apply not_elem_of_nil.
  - by vm_compute.
  - apply rtc_once.
    apply (s_call "k" 1 60 0 1000 (ex_redis [ex_call 1000 "a"]) [(ex_call 1000 "a", true)] (ex_call 2000 "b")
      (ex_redis [ex_call 1000 "a"; ex_call 2000 "b"]) [RInt 0; RInt 1; RInt 2; RPairs [("1000-0-a", 1000)]; RInt 1]); simpl; try lia.
    + split; [apply (bool_decide_unpack _); by vm_compute|].
      intros m Hm Hm'. vm_compute in Hm, Hm'. set_solver.
    + by vm_compute.
Qed.

Lemma rate_limit_bound_witness :
  admitted 1000 61000 [(ex_call 1000 "a", true); (ex_call 2000 "b", false)] ≤ 1.
Proof.
  exact (rate_limit_bound "k" 1 60 0 _ ltac:(lia) ex_window_reachable 61000).
Defined.

(** The refused call at 2000 is told 61000, and a call then is admitted. *)
Lemma retry_after_honoured_witness :
  allowed (rateLimiter "k" 1 60 (rateLimiter "k" 1 60 (Some (ex_redis [ex_call 1000 "a"])) true (ex_call 2000 "b")).1
             true (ex_call 61000 "c")).2 = true.
Proof.
  destruct (rateLimiter "k" 1 60 (Some (ex_redis [ex_call 1000 "a"])) true (ex_call 2000 "b")) as [[r1|] res] eqn:E;
    [|by vm_compute in E].
  cbn [fst].
  refine (retry_after_honoured "k" 1 60 1000 (ex_redis [ex_call 1000 "a"]) (ex_call 2000 "b") r1 res
    (ex_call 61000 "c") _ _ _ _ E _ _ _ _).
  { lia. } 2: { simpl; lia. } 2: { by repeat split. } 3: { by repeat split. } 3: { simpl; lia. }
  - apply (rr_call "k" 1 60 0 ∅ (ex_call 1000 "a") (ex_redis [ex_call 1000 "a"])
      (mkResult true 0 61000)).
    + by apply rr_start.
    + simpl; lia.
    + by repeat split.
    + vm_compute. reflexivity.
  - apply (f_equal snd) in E. cbn [snd] in E. by rewrite <-E; vm_compute.
  - apply (f_equal snd) in E. cbn [snd] in E. by rewrite <-E; vm_compute.
Defined.

End SlidingWindow.

Module Lockout.

Definition getAccountLockoutMax (env : gmap string string) : Z :=
  positiveIntFromEnv env "LOGIN_ACCOUNT_LOCKOUT_MAX" 5.
Definition getAccountLockoutWindowSeconds (env : gmap string string) : Z :=
  positiveIntFromEnv env "LOGIN_ACCOUNT_LOCKOUT_WINDOW_SECONDS" (15 * 60).

Definition accountFailureKey (email : string) : string := "login:account-fail:" +:+ toLowerCase email.

Record AccountFailureResult := mkFailure { count : Z; locked : bool; newlyLocked : bool }.

Section lockout.
Context {R : Type} `{Redis R} (env : gmap string string) (email : string).
Let key := accountFailureKey email.
Let maxAttempts := getAccountLockoutMax env.
Let windowSeconds := getAccountLockoutWindowSeconds env.

(** The answer when the counter cannot be read or moved. *)
Definition failed_closed : AccountFailureResult := mkFailure maxAttempts true false.

(** A failed attempt at [t]: the outcomes of its [INCR] and of its [EXPIRE]. *)
Definition recordAccountFailure (redis : option R) (t : Z) (incr expire : Landed)
    : option R * AccountFailureResult :=
  if maxAttempts <=? 0 then (redis, mkFailure 0 false false)
  else match redis with
  | None => (None, failed_closed)
  | Some r =>
      let '(r1, reply) := exec r t key INCR in
      match incr, reply with
      | lost applied, _ => (Some (if applied then r1 else r), failed_closed)
      | replied, RInt n =>
          let answer := mkFailure n (maxAttempts <=? n) (n =? maxAttempts) in
          if n =? 1 then
            let r2 := (exec r1 t key (EXPIRE windowSeconds)).1 in
            match expire with
            | replied => (Some r2, answer)
            | lost applied => (Some (if applied then r2 else r1), failed_closed)
            end
          else (Some r1, answer)
      | replied, _ => (Some r1, failed_closed)
      end
  end.

Definition clearAccountFailures (redis : option R) (t : Z) (del : Landed) : option R :=
  match redis with
  | None => None
  | Some r => Some (match del with lost false => r | _ => (exec r t key DEL).1 end)
  end.

Definition isAccountLocked (redis : option R) (t : Z) (get : Landed) : bool :=
  if maxAttempts <=? 0 then false
  else match redis with
  | None => true
  | Some r =>
      match get, (exec r t key GET).2 with
      | lost _, _ => true
      | replied, RBulk (VDec n) => maxAttempts <=? n
      | replied, RBulk (VStr s) => match parseInt s with Some n => maxAttempts <=? n | None => false end
      | replied, RNil => false
      | replied, _ => true
      end
  end.

(** ** What the three calls promise together

    The specification remembers the first failure of the current window and how
    many there were; the calls are events at non-decreasing times, answered by
    Redis. *)
Inductive Event := failure | success | check.
Inductive Answer := Failed (res : AccountFailureResult) | Cleared | Checked (b : bool).

Definition Window : Type := option (Z * Z).
Definition open_at (s : Window) (t : Z) : Window :=
  '(t0, n) ← s; if t <? t0 + windowSeconds * 1000 then Some (t0, n) else None.

Definition spec_step (s : Window) (t : Z) (e : Event) : Window * Answer :=
  let s := open_at s t in
  match e with
  | failure =>
      let '(t0, n) := match s with Some (t0, n) => (t0, n + 1) | None => (t, 1) end in
      (Some (t0, n), Failed (mkFailure n (maxAttempts <=? n) (n =? maxAttempts)))
  | success => (None, Cleared)
  | check => (s, Checked match s with Some (_, n) => maxAttempts <=? n | None => false end)
  end.

Definition or_else (o : option R) (r : R) : R := match o with Some r' => r' | None => r end.
Definition call_step (r : R) (t : Z) (e : Event) : R * Answer :=
  match e with
  | failure => let '(o, res) := recordAccountFailure (Some r) t replied replied in (or_else o r, Failed res)
  | success => (or_else (clearAccountFailures (Some r) t replied) r, Cleared)
  | check => (r, Checked (isAccountLocked (Some r) t replied))
  end.

Fixpoint run {S} (stp : S → Z → Event → S * Answer) (s : S) (es : list (Z * Event)) : list Answer :=
  match es with
  | [] => []
  | (t, e) :: es' => let '(s', a) := stp s t e in a :: run stp s' es'
  end.

(** The key holds the window of the specification. *)
Definition key_of (s : Window) (t : Z) : option Entry :=
  '(t0, n) ← open_at s t; Some (mkEntry (VDec n) (Some (t0 + windowSeconds * 1000))).
Definition sim (t : Z) (r : R) (s : Window) : Prop :=
  peek r t key = key_of s t ∧ match s with Some (t0, n) => t0 ≤ t ∧ 1 ≤ n | None => True end.

Lemma sim_later t t' r s : t ≤ t' → sim t r s → sim t' r s.
Proof.
  intros Ht [Hp Hs]. split; [|destruct s as [[t0 n]|]; [lia|done]].
  rewrite (peek_later r t) by done. rewrite Hp. unfold key_of, open_at. destruct s as [[t0 n]|]; [|done]. cbn.
  destruct (Z.ltb_spec t (t0 + windowSeconds * 1000)), (Z.ltb_spec t' (t0 + windowSeconds * 1000)); cbn;
    unfold alive; cbn; try (destruct (Z.ltb_spec t' (t0 + windowSeconds * 1000))); done || lia.
Qed.

Lemma step_sim t r s e :
  0 < maxAttempts → sim t r s →
  (call_step r t e).2 = (spec_step s t e).2 ∧ sim t (call_step r t e).1 (spec_step s t e).1.
Proof.
  intros Hm [Hp Hs]. assert ((maxAttempts <=? 0) = false) as Hm' by (apply Z.leb_gt; lia).
  destruct e; unfold call_step, recordAccountFailure, clearAccountFailures, isAccountLocked, spec_step; rewrite ?Hm'.
  - pose proof (peek_exec r t key INCR) as He. pose proof (exec_reply r t key INCR) as Hr.
    destruct (exec r t key INCR) as [r1 rep]. cbn [fst snd] in *. rewrite Hp in He, Hr. unfold key_of in He, Hr.
    destruct (open_at s t) as [[t0 n]|] eqn:Eo; cbn [option_bind mbind run_cmd e_value e_expires fst snd] in He, Hr; subst rep.
    + unfold open_at in Eo. destruct s as [[t1 n1]|]; [|done]. cbn in Eo. case_match eqn:Hlt; simplify_eq.
      assert (n + 1 =? 1 = false) as -> by (apply Z.eqb_neq; lia). cbn [or_else fst snd].
      split; [done|]. split; [|lia]. rewrite He. unfold key_of, open_at. cbn. unfold alive. cbn. by rewrite Hlt.
    + change (1 =? 1) with true. cbn [or_else fst snd]. split; [done|]. split; [|lia].
      rewrite peek_exec, He. unfold key_of, open_at. cbn. unfold alive. cbn. by destruct (_ <? _).
  - cbn [or_else fst snd]. split; [done|]. split; [|done]. rewrite peek_exec. done.
  - cbn [fst snd]. rewrite exec_reply, Hp. unfold key_of.
    destruct (open_at s t) as [[t0 n]|] eqn:Eo; cbn; (split; [done|]); split; try done.
    + rewrite Hp. unfold key_of. rewrite Eo. unfold open_at in *. destruct s as [[t1 n1]|]; [|done]. cbn in *.
      case_match eqn:Hlt; simplify_eq. by rewrite Hlt.
    + unfold open_at in Eo. destruct s as [[t1 n1]|]; [|done]. cbn in Eo. by case_match; simplify_eq.
    + rewrite Hp. unfold key_of. by rewrite Eo.
Qed.

Lemma run_sim t0 r s es :
  0 < maxAttempts → StronglySorted (λ a b : Z * Event, a.1 ≤ b.1) ((t0, check) :: es) → sim t0 r s →
  run call_step r es = run spec_step s es.
Proof.
  intros Hmax. revert t0 r s. induction es as [|[t e] es IH]; intros t0 r s Hts Hsim; [done|].
  apply StronglySorted_inv in Hts as [Hts Hall]. apply Forall_inv in Hall as Ht. cbn [fst] in Ht. cbn [run].
  destruct (step_sim t r s e Hmax (sim_later t0 t r s Ht Hsim)) as [Ha Hs].
  destruct (call_step r t e) as [r' a], (spec_step s t e) as [s' b]. cbn [fst snd] in *. subst b. f_equal.
  apply (IH t); [|done]. apply StronglySorted_inv in Hts as [Hts' Hall']. by constructor.
Qed.

(** C33: The lockout does what its specification says.  While Redis answers, every
    sequence of failed attempts, successful logins and checks of one account gets
    the answers of a machine that counts the failures since the first of the
    current window: the account is locked from the attempt that makes the count
    reach the maximum until the window of that first failure ends or a login
    clears it, and that one attempt, no other, is reported as the new lock. *)
Theorem lockout_refines t0 r es (Hmax : 0 < maxAttempts) (Hnone : peek r t0 key = None)
    (Hts : StronglySorted (λ a b : Z * Event, a.1 ≤ b.1) ((t0, check) :: es)) :
  run call_step r es = run spec_step None es.
Proof. apply (run_sim t0); [done..|]. by split. Qed.

(** ** A counter without an expiry *)

Definition fail_all (r : R) (ts : list Z) : R :=
  foldl (λ r t, or_else (recordAccountFailure (Some r) t replied replied).1 r) r ts.

Lemma fail_persistent r t t' n :
  0 < maxAttempts → 1 ≤ n → t ≤ t' → peek r t key = Some (mkEntry (VDec n) None) →
  peek (or_else (recordAccountFailure (Some r) t' replied replied).1 r) t' key = Some (mkEntry (VDec (n + 1)) None).
Proof.
  intros Hm Hn Ht Hp. unfold recordAccountFailure. rewrite (proj2 (Z.leb_gt maxAttempts 0)) by lia.
  pose proof (peek_exec r t' key INCR) as He. pose proof (exec_reply r t' key INCR) as Hr.
  destruct (exec r t' key INCR) as [r1 rep]. cbn [fst snd] in *. rewrite (peek_later r t), Hp in He, Hr by done.
  cbn in He, Hr. subst rep. rewrite (proj2 (Z.eqb_neq (n + 1) 1)) by lia. exact He.
Qed.

Lemma fail_all_persistent ts t0 r n :
  0 < maxAttempts → 1 ≤ n → StronglySorted Z.le (t0 :: ts) → peek r t0 key = Some (mkEntry (VDec n) None) →
  ∃ u, u ∈ t0 :: ts ∧ peek (fail_all r ts) u key = Some (mkEntry (VDec (n + Z.of_nat (length ts))) None).
Proof.
  intros Hm. revert t0 r n. induction ts as [|t1 ts IH]; intros t0 r n Hn Hts Hp.
  { exists t0. split; [by left|]. simpl. by rewrite Z.add_0_r. }
  apply StronglySorted_inv in Hts as [Hts Hall]. apply Forall_inv in Hall as Ht.
  destruct (IH t1 (or_else (recordAccountFailure (Some r) t1 replied replied).1 r) (n + 1)) as (u & Hu & Hpu);
    [lia|done|by eapply fail_persistent|]. exists u. split; [by right|].
  change (fail_all r (t1 :: ts)) with (fail_all (or_else (recordAccountFailure (Some r) t1 replied replied).1 r) ts).
  rewrite Hpu. do 3 f_equal. simpl length. lia.
Qed.

(** A lost [EXPIRE] locks an account for good.  Let the first failure of an
    account increment the counter but lose its [EXPIRE].  Then, however far apart
    the following failures are, once there are as many as the maximum the account
    is locked at every later time, whatever the window: the counter has no expiry
    and only a successful login, which a locked account is refused, clears it. *)
Theorem lost_expire_locks_forever r t0 ts t (Hmax : 0 < maxAttempts) (Hnone : peek r t0 key = None)
    (Hts : StronglySorted Z.le (t0 :: ts)) (Hlast : ∀ u, u ∈ t0 :: ts → u ≤ t)
    (Hmany : maxAttempts ≤ 1 + Z.of_nat (length ts)) :
  let r1 := or_else (recordAccountFailure (Some r) t0 replied (lost false)).1 r in
  isAccountLocked (Some (fail_all r1 ts)) t replied = true.
Proof.
  intros r1. assert (peek r1 t0 key = Some (mkEntry (VDec 1) None)) as Hp1.
  { unfold r1, recordAccountFailure. rewrite (proj2 (Z.leb_gt maxAttempts 0)) by lia.
    pose proof (peek_exec r t0 key INCR) as He. pose proof (exec_reply r t0 key INCR) as Hr.
    destruct (exec r t0 key INCR) as [r2 rep]. cbn [fst snd] in *. rewrite Hnone in He, Hr. cbn in He, Hr.
    subst rep. exact He. }
  destruct (fail_all_persistent ts t0 r1 1 Hmax ltac:(lia) Hts Hp1) as (u & Hu & Hpu).
  unfold isAccountLocked. rewrite (proj2 (Z.leb_gt maxAttempts 0)), exec_reply by lia.
  rewrite (peek_later _ u), Hpu by auto. cbn. apply Z.leb_le. lia.
Qed.
End lockout.

(** ** Witnesses *)

Definition ex_env : gmap string string := {["LOGIN_ACCOUNT_LOCKOUT_MAX" := "2"]}.

(** Two failures lock; the window of 15 minutes unlocks. *)
Lemma lockout_refines_witness :
  run (call_step (R := gmap string Entry) ex_env "A@b.c") ∅
    [(10, failure); (20, failure); (30, check); (900010, check)]
  = [Failed (mkFailure 1 false false); Failed (mkFailure 2 true true); Checked true; Checked false].
Proof.
  rewrite (lockout_refines ex_env "A@b.c" 0 (∅ : gmap string Entry)); [by vm_compute..|].
  repeat constructor; simpl; lia.
Defined.

(** Two failures a day apart, the first without its expiry: locked ten years later. *)
Lemma lost_expire_locks_forever_witness :
  isAccountLocked ex_env "A@b.c"
    (Some (fail_all ex_env "A@b.c"
      (or_else (recordAccountFailure ex_env "A@b.c" (Some (∅ : gmap string Entry)) 0 replied (lost false)).1 ∅)
      [86400000])) 315360000000 replied = true.
Proof.
  apply (lost_expire_locks_forever ex_env "A@b.c" (∅ : gmap string Entry) 0 [86400000] 315360000000);
    [by vm_compute|by vm_compute| | |by vm_compute].
  - repeat constructor; lia.
  - intros u. rewrite !elem_of_cons. intros [->|[->|Hu]]; [lia..|]. by auto with breeze.
Defined.
End Lockout.
