(* ===== verification/AuthTransition.v ===== *)
(** * Browser authentication transitions

    [services/authBrowserTransition.ts]: the row that serialises, for one browser
    or native client, the issuing of sessions and the terminal logout.  A client
    presents a binding, a random payload with a keyed tag ([Binding]); its digest
    names the row.  Issuing takes a short lease on the row ([beginAuthIssuance]),
    and the transaction that writes the session re-checks and clears it
    ([finishAuthIssuance]); a logout retires the row or leaves it pending until
    its completion ticket comes back.

    The operations are transactions on one database: the rows of the three tables
    the login services share; [Sessions] has the operations on the other two.  The
    HMAC and the SHA-256 digest of the platform are parameters. *)
From S2P Require Import Prelude Transaction JsText JsDate IsoDate.
From stdpp Require Import base tactics list strings gmap.
From Stdlib Require Import ZArith Lia.
Open Scope Z_scope.

(** ** The tables *)

Inductive TransitionState := t_active | logout_pending | retired.
#[global] Instance TransitionState_eq : EqDecision TransitionState.
Proof. solve_decision. Defined.

Record Transition := mkTransition {
  t_id : string; t_bindingDigest : string; t_bindingKeyId : option string; t_generation : Z;
  t_state : TransitionState; activeOperationId : option string; activeOperationExpiresAt : option Z;
  currentUserId : option string; currentFamilyId : option string;
  t_logoutId : option string; completionNonceDigest : option string; logoutExpiresAt : option Z;
  retiredAt : option Z; updatedAt : Z }.

Record User := mkUser {
  u_active : bool; authEpoch : Z; mfaEpoch : Z; emailEpoch : Z; passwordResetEpoch : Z;
  u_email : string; mfaEnabled : bool; passwordChangedAt : option Z }.

Record Family := mkFamily {
  f_userId : string; absoluteExpiresAt : Z; revokedAt : option Z; revokedReason : option string;
  mobileDeviceId : option string; currentRefreshJtiDigest : option string; lastUsedAt : Z }.

Record Db := mkDb {
  transitions : gmap string Transition; users : gmap string User; families : gmap string Family }.

(** ** Transactions *)

Inductive BindingKind := browser | native.
Record AuthBindingSource := mkSource { kind : BindingKind; value : string }.
Inductive RotationReason := r_missing | r_invalid | r_expired | r_retired.
Inductive UnavailableReason := u_activeReason | u_logout_pending | u_missing.

Inductive AuthError :=
| AuthBindingRotationRequiredError (replacement : AuthBindingSource) (reason : RotationReason)
| AuthBindingUnavailableError (reason : UnavailableReason)
| AuthIssuanceConflictError
| AuthIssuanceCapabilityError
| RefreshTokenCurrentnessError
| UserSessionEpochMismatchError
| EpochAdvancePreconditionError
| GenericError.

(** A callback of [withAuthLifecycleSystemTransaction]. *)
Abbreviation Tx := (Transaction Db AuthError).

(** [SELECT ... WHERE id = ... FOR UPDATE], and an [UPDATE ... RETURNING] by id and
    a condition: whether a row was updated. *)
Definition lockTransitionById (id : string) : Tx (option Transition) :=
  λ db, Ok (transitions db !! id, db).
Definition put (t : Transition) (db : Db) : Db :=
  mkDb (<[t_id t := t]> (transitions db)) (users db) (families db).
Definition update_transition (id : string) (p : Transition → bool) (f : Transition → Transition) : Tx bool :=
  λ db, match transitions db !! id with
        | Some t => if p t then Ok (true, put (f t) db) else Ok (false, db)
        | None => Ok (false, db)
        end.

Definition opt_eqb (a b : option string) : bool := bool_decide (a = b).
Definition is_state (s : TransitionState) (t : Transition) : bool := bool_decide (t_state t = s).
Definition same_generation (g : Z) (t : Transition) : bool := t_generation t =? g.

(** The columns the updates set. *)
Definition set_operation (op : option (string * Z)) (now : Z) (t : Transition) : Transition :=
  mkTransition (t_id t) (t_bindingDigest t) (t_bindingKeyId t) (t_generation t) (t_state t)
    (fst <$> op) (snd <$> op) (currentUserId t) (currentFamilyId t)
    (t_logoutId t) (completionNonceDigest t) (logoutExpiresAt t) (retiredAt t) now.
Definition set_retired (now : Z) (t : Transition) : Transition :=
  mkTransition (t_id t) (t_bindingDigest t) (t_bindingKeyId t) (t_generation t) retired
    None None (currentUserId t) (currentFamilyId t)
    (t_logoutId t) (completionNonceDigest t) (logoutExpiresAt t) (Some now) now.
Definition set_pending (g : Z) (logoutId nonceDigest : string) (expiresAt now : Z) (t : Transition) : Transition :=
  mkTransition (t_id t) (t_bindingDigest t) (t_bindingKeyId t) g logout_pending
    None None (currentUserId t) (currentFamilyId t)
    (Some logoutId) (Some nonceDigest) (Some expiresAt) (retiredAt t) now.
Definition set_session (userId familyId : string) (now : Z) (t : Transition) : Transition :=
  mkTransition (t_id t) (t_bindingDigest t) (t_bindingKeyId t) (t_generation t) (t_state t)
    (activeOperationId t) (activeOperationExpiresAt t) (Some userId) (Some familyId)
    (t_logoutId t) (completionNonceDigest t) (logoutExpiresAt t) (retiredAt t) now.

Module Binding.

Record KeyMaterial := mkKey { keyId : option string; key : string }.
Record KeyMaterials := mkKeys { active : KeyMaterial; retained : list KeyMaterial }.
Record Candidate := mkCandidate { cand_key : KeyMaterial; cand_digest : string }.
Record Resolution := mkResolution { canonicalDigest : string; canonicalKeyId : option string; candidates : list Candidate }.

Definition slice_to (n : nat) (s : string) : string := of_chars (take n (chars s)).
Definition slice_from (n : nat) (s : string) : string := of_chars (drop n (chars s)).

(** [AUTH_BINDING_PATTERN]: 64 lower-case hexadecimal digits. *)
Definition AUTH_BINDING_PATTERN (s : string) : bool :=
  bool_decide (length (chars s) = 64%nat) && forallb is_lower_hex (chars s).

Definition kind_text (k : BindingKind) : string := match k with browser => "browser" | native => "native" end.

Definition selectAuthBindingSource (browserBinding nativeBinding : option string) (nativeRequest : bool)
    : AuthBindingSource :=
  match nativeBinding with
  | Some v => mkSource native v
  | None => if nativeRequest then mkSource native "" else mkSource browser (default "" browserBinding)
  end.

Section keys.
Context (hmac : string → string → string).

Definition bindingDigest (v key : string) : string := hmac key ("auth-browser-binding:v1:" +:+ v).

Definition bindingValueTag (k : BindingKind) (payload key : string) : string :=
  let audience := match k with native => "auth-native-binding-value:v1:" | browser => "auth-browser-binding-value:v1:" end in
  slice_to 32 (hmac key (audience +:+ kind_text k +:+ ":" +:+ payload)).

(** Both tags are hexadecimal text of the same length where this is asked. *)
Definition bindingTagMatches (s : AuthBindingSource) (m : KeyMaterial) : bool :=
  String.eqb (slice_from 32 (value s)) (bindingValueTag (kind s) (slice_to 32 (value s)) (key m)).

(** [payload] is the text of 16 random bytes. *)
Definition freshBinding (payload : string) (k : BindingKind) (ms : KeyMaterials) : AuthBindingSource :=
  mkSource k (payload +:+ bindingValueTag k payload (key (active ms))).

(** The candidates by digest, the first key of a digest being kept. *)
Fixpoint add_candidates (v : string) (seen : list string) (ms : list KeyMaterial) : list Candidate :=
  match ms with
  | [] => []
  | m :: ms' => let d := bindingDigest v (key m) in
                if bool_decide (d ∈ seen) then add_candidates v seen ms'
                else mkCandidate m d :: add_candidates v (d :: seen) ms'
  end.

Definition bindingResolution (payload : string) (s : AuthBindingSource) (ms : KeyMaterials)
    : result AuthError Resolution :=
  match filter (λ m, bindingTagMatches s m = true) (retained ms) with
  | [signer] => Ok (mkResolution (bindingDigest (value s) (key signer)) (keyId signer)
                      (add_candidates (value s) [] (retained ms)))
  | _ => Err (AuthBindingRotationRequiredError (freshBinding payload (kind s) ms) r_invalid)
  end.

Definition resolveAuthBinding (payload : string) (source : option AuthBindingSource) (ms : KeyMaterials)
    : result AuthError string :=
  match source with
  | None => Err (AuthBindingRotationRequiredError (freshBinding payload browser ms) r_missing)
  | Some s =>
      if AUTH_BINDING_PATTERN (value s) then rmap canonicalDigest (bindingResolution payload s ms)
      else Err (AuthBindingRotationRequiredError (freshBinding payload (kind s) ms) r_invalid)
  end.

Definition deterministicSuccessorBinding (k : BindingKind) (t : Transition) (matchedKey : KeyMaterial)
    : AuthBindingSource :=
  let payload := slice_to 32 (hmac (key matchedKey)
    ("auth-browser-binding-successor:v1:" +:+ kind_text k +:+ ":" +:+ t_id t +:+ ":" +:+ js_String (t_generation t))) in
  mkSource k (payload +:+ bindingValueTag k payload (key matchedKey)).
End keys.
End Binding.

Module Issuance.
Import Binding.

Definition AUTH_ISSUANCE_LEASE_MINUTES : Z := 2.

Record AuthIssuanceCapability := mkCapability {
  transitionId : string; generation : Z; operationId : string; expiresAt : Z }.

Definition isAfter (left : option Z) (right : Z) : bool :=
  match left with Some l => right <? l | None => false end.

(** What a call draws at random or reads from the environment: the time of its
    transaction, the keys, a payload, the id a row insert would get, and the ids of
    the operation. *)
Record Draw := mkDraw {
  d_now : Z; d_keys : KeyMaterials; d_payload : string; d_rowId : string; d_operationId : string }.

Section operations.
Context (hmac : string → string → string) (sha256 : string → string).

Definition lockTransitionByDigest (d : string) : Tx (option Transition) :=
  λ db, Ok (snd <$> head (filter (λ it : string * Transition, t_bindingDigest it.2 = d) (map_to_list (transitions db))), db).

Fixpoint match_candidates (found : option (Transition * KeyMaterial)) (cs : list Candidate)
    : Tx (option (Transition * KeyMaterial)) :=
  match cs with
  | [] => ret found
  | c :: cs' =>
      let* row := lockTransitionByDigest (cand_digest c) in
      match row with
      | None => match_candidates found cs'
      | Some t =>
          match found with
          | Some (t', _) => if String.eqb (t_id t') (t_id t) then match_candidates (Some (t, cand_key c)) cs'
                            else throw AuthIssuanceCapabilityError
          | None => match_candidates (Some (t, cand_key c)) cs'
          end
      end
  end.

Definition digest_le (a b : Candidate) : bool :=
  match String.compare (cand_digest a) (cand_digest b) with Gt => false | _ => true end.

Definition lockTransitionForResolution (r : Resolution) : Tx (option (Transition * KeyMaterial)) :=
  match_candidates None (js_sort digest_le (candidates r)).

(** [INSERT ... ON CONFLICT (binding_digest) DO NOTHING], the row with its defaults. *)
Definition insert_transition (rowId digest : string) (kid : option string) (now : Z) : Tx unit :=
  λ db,
    if bool_decide (Exists (λ it : string * Transition, t_bindingDigest it.2 = digest) (map_to_list (transitions db)))
    then Ok (tt, db)
    else match transitions db !! rowId with
         | Some _ => Err GenericError
         | None => Ok (tt, put (mkTransition rowId digest kid 1 t_active None None None None None None None None now) db)
         end.

Definition retireExpiredTransition (now : Z) (t : Transition) : Tx unit :=
  let* ok := update_transition (t_id t)
    (λ row, same_generation (t_generation t) row && is_state logout_pending row) (set_retired now) in
  guard* ok or AuthIssuanceCapabilityError in ret tt.

Definition ensureSuccessorTransition (d : Draw) (k : BindingKind) (predecessor : Transition) (matchedKey : KeyMaterial)
    : Tx AuthBindingSource :=
  let replacement := deterministicSuccessorBinding hmac k predecessor matchedKey in
  let* resolution := lift (bindingResolution hmac (d_payload d) replacement (d_keys d)) in
  let* found := lockTransitionForResolution resolution in
  let* successor :=
    match found with
    | Some s => ret (Some s)
    | None => let* _ := insert_transition (d_rowId d) (canonicalDigest resolution) (canonicalKeyId resolution) (d_now d) in
              lockTransitionForResolution resolution
    end in
  match successor with
  | Some (s, _) => if String.eqb (t_id s) (t_id predecessor) then throw AuthIssuanceCapabilityError else ret replacement
  | None => throw AuthIssuanceCapabilityError
  end.

(** The row of a logout whose ticket can no longer come back. *)
Definition logout_lapsed (now : Z) (t : Transition) : bool :=
  match logoutExpiresAt t with Some _ => negb (isAfter (logoutExpiresAt t) now) | None => false end.

Definition rotateExpiredBinding (d : Draw) (source : AuthBindingSource) (db : Db) : result AuthError AuthBindingSource * Db :=
  if AUTH_BINDING_PATTERN (value source) then
    match bindingResolution hmac (d_payload d) source (d_keys d) with
    | Err e => (Err e, db)
    | Ok resolution => run_tx (
        let* locked := lockTransitionForResolution resolution in
        match locked with
        | None => throw (AuthBindingUnavailableError u_missing)
        | Some (t, matchedKey) =>
            match t_state t with
            | retired => ensureSuccessorTransition d (kind source) t matchedKey
            | logout_pending =>
                if logout_lapsed (d_now d) t then
                  let* _ := retireExpiredTransition (d_now d) t in
                  ensureSuccessorTransition d (kind source) t matchedKey
                else throw (AuthBindingUnavailableError u_logout_pending)
            | t_active => throw (AuthBindingUnavailableError u_activeReason)
            end
        end) db
    end
  else (Err (AuthBindingRotationRequiredError (freshBinding hmac (d_payload d) (kind source) (d_keys d)) r_invalid), db).

(** An unexpired operation holds the row. *)
Definition operation_live (now : Z) (t : Transition) : bool :=
  bool_decide (activeOperationId t ≠ None) && isAfter (activeOperationExpiresAt t) now.

(** The lease: the row's operation becomes this call's, for two minutes. *)
Definition reserve (d : Draw) (t : Transition) : Tx AuthIssuanceCapability :=
  let until := d_now d + AUTH_ISSUANCE_LEASE_MINUTES * 60000 in
  let* ok := update_transition (t_id t) (λ row, same_generation (t_generation t) row && is_state t_active row)
    (set_operation (Some (d_operationId d, until)) (d_now d)) in
  guard* ok or AuthIssuanceCapabilityError in
  ret (mkCapability (t_id t) (t_generation t) (d_operationId d) until).

Inductive AdmissionResult :=
| Capability (c : AuthIssuanceCapability)
| Rotation (replacement : AuthBindingSource) (reason : RotationReason).

Definition admission (d : Draw) (source : AuthBindingSource) (resolution : Resolution) : Tx AdmissionResult :=
  let* first := lockTransitionForResolution resolution in
  let* locked :=
    match first with
    | Some l => ret l
    | None =>
        let* _ := insert_transition (d_rowId d) (canonicalDigest resolution) (canonicalKeyId resolution) (d_now d) in
        let* again := lockTransitionForResolution resolution in
        match again with Some l => ret l | None => throw AuthIssuanceCapabilityError end
    end in
  let '(t, matchedKey) := locked in
  match t_state t with
  | retired =>
      let* replacement := ensureSuccessorTransition d (kind source) t matchedKey in
      ret (Rotation replacement r_retired)
  | logout_pending =>
      if logout_lapsed (d_now d) t then
        let* _ := retireExpiredTransition (d_now d) t in
        let* replacement := ensureSuccessorTransition d (kind source) t matchedKey in
        ret (Rotation replacement r_expired)
      else throw (AuthBindingUnavailableError u_logout_pending)
  | t_active =>
      if operation_live (d_now d) t then throw AuthIssuanceConflictError
      else let* c := reserve d t in ret (Capability c)
  end.

(** A rotation commits what it wrote and is then reported as an error. *)
Definition beginAuthIssuance (d : Draw) (source : AuthBindingSource) (db : Db)
    : result AuthError AuthIssuanceCapability * Db :=
  if AUTH_BINDING_PATTERN (value source) then
    match bindingResolution hmac (d_payload d) source (d_keys d) with
    | Err e => (Err e, db)
    | Ok resolution =>
        match run_tx (admission d source resolution) db with
        | (Ok (Capability c), db') => (Ok c, db')
        | (Ok (Rotation replacement reason), db') => (Err (AuthBindingRotationRequiredError replacement reason), db')
        | (Err e, db') => (Err e, db')
        end
    end
  else (Err (AuthBindingRotationRequiredError (freshBinding hmac (d_payload d) (kind source) (d_keys d)) r_invalid), db).

(** The lease for a transition remembered before a redirect; [claim] runs under the
    row's lock. *)
Definition beginAuthIssuanceForStoredTransition {A} (d : Draw) (expectedId : string) (expectedGeneration : Z)
    (claim : Tx A) (db : Db) : result AuthError (AuthIssuanceCapability * A) * Db :=
  run_tx (
    let* row := lockTransitionById expectedId in
    match row with
    | None => throw (AuthBindingUnavailableError u_missing)
    | Some t =>
        match t_state t with
        | logout_pending => throw (AuthBindingUnavailableError u_logout_pending)
        | retired => throw AuthIssuanceCapabilityError
        | t_active =>
            guard* (t_generation t =? expectedGeneration) or AuthIssuanceCapabilityError in
            if operation_live (d_now d) t then throw AuthIssuanceConflictError
            else let* claimed := claim in
                 let* c := reserve d t in
                 ret (c, claimed)
        end
    end) db.

(** The row is active and its operation is the capability's, unexpired. *)
Definition holds_lease (now : Z) (c : AuthIssuanceCapability) (row : option Transition) : bool :=
  match row with
  | None => false
  | Some t => is_state t_active t && same_generation (generation c) t
              && opt_eqb (activeOperationId t) (Some (operationId c)) && isAfter (activeOperationExpiresAt t) now
  end.

Definition assertAuthIssuanceCapability (now : Z) (c : AuthIssuanceCapability) : Tx unit :=
  let* row := lockTransitionById (transitionId c) in
  guard* (holds_lease now c row) or AuthIssuanceCapabilityError in ret tt.

(** The condition of the updates that need the exact lease. *)
Definition owns (c : AuthIssuanceCapability) (t : Transition) : bool :=
  same_generation (generation c) t && is_state t_active t && opt_eqb (activeOperationId t) (Some (operationId c)).

Definition bindAuthIssuanceSession (now : Z) (c : AuthIssuanceCapability) (userId familyId : string) : Tx unit :=
  let* ok := update_transition (transitionId c) (owns c) (set_session userId familyId now) in
  guard* ok or AuthIssuanceCapabilityError in ret tt.

Definition cancelAuthIssuance (now : Z) (c : AuthIssuanceCapability) (db : Db) : Db :=
  (run_tx (update_transition (transitionId c) (owns c) (set_operation None now)) db).2.

Definition finishAuthIssuance {A} (now : Z) (c : AuthIssuanceCapability) (callback : Tx A) (db : Db)
    : result AuthError A * Db :=
  run_tx (
    let* row := lockTransitionById (transitionId c) in
    guard* (holds_lease now c row) or AuthIssuanceCapabilityError in
    let* a := callback in
    let* ok := update_transition (transitionId c) (owns c) (set_operation None now) in
    guard* ok or AuthIssuanceCapabilityError in ret a) db.

(** ** Terminal logout of the row *)

(** [withTerminalLogoutTransition]: the active row of the binding loses its
    operation, then the callback runs with it. *)
Definition withTerminalLogoutTransition {A} (d : Draw) (source : AuthBindingSource)
    (callback : Transition → KeyMaterial → Tx A) (db : Db) : result AuthError A * Db :=
  if AUTH_BINDING_PATTERN (value source) then
    match bindingResolution hmac (d_payload d) source (d_keys d) with
    | Err e => (Err e, db)
    | Ok resolution => run_tx (
        let* locked := lockTransitionForResolution resolution in
        match locked with
        | None => throw (AuthBindingUnavailableError u_missing)
        | Some (t, matchedKey) =>
            guard* (is_state t_active t) or AuthIssuanceCapabilityError in
            let* ok := update_transition (t_id t) (λ row, same_generation (t_generation t) row && is_state t_active row)
              (set_operation None (d_now d)) in
            guard* ok or AuthIssuanceCapabilityError in
            callback (set_operation None (d_now d) t) matchedKey
        end) db
    end
  else (Err (AuthBindingRotationRequiredError (freshBinding hmac (d_payload d) (kind source) (d_keys d)) r_invalid), db).

Definition retireWithSuccessor (d : Draw) (k : BindingKind) (t : Transition) (matchedKey : KeyMaterial) : Tx AuthBindingSource :=
  let* replacement := ensureSuccessorTransition d k t matchedKey in
  let* ok := update_transition (t_id t) (λ row, same_generation (t_generation t) row && is_state t_active row)
    (set_retired (d_now d)) in
  guard* ok or AuthIssuanceCapabilityError in ret replacement.

Definition markLogoutPending (now : Z) (t : Transition) (logoutId nonceDigest : string) (until : Z) : Tx Z :=
  let g := t_generation t + 1 in
  let* ok := update_transition (t_id t) (λ row, same_generation (t_generation t) row && is_state t_active row)
    (set_pending g logoutId nonceDigest until now) in
  guard* ok or AuthIssuanceCapabilityError in ret g.

Record LogoutTicket := mkTicket {
  k_transitionId : string; k_logoutId : string; k_generation : Z; k_nonce : string; k_signingKeyId : option string }.

Definition completionNonceMatches (nonce : string) (digest : option string) : bool :=
  match digest with
  | Some dg => AUTH_BINDING_PATTERN nonce && AUTH_BINDING_PATTERN dg && String.eqb (sha256 nonce) dg
  | None => false
  end.

Definition terminalTicketMatches (t : Transition) (k : LogoutTicket) : bool :=
  same_generation (k_generation k) t && opt_eqb (t_logoutId t) (Some (k_logoutId k))
  && completionNonceMatches (k_nonce k) (completionNonceDigest t).

Definition isTerminalLogoutPending (now : Z) (k : LogoutTicket) (db : Db) : bool :=
  match transitions db !! k_transitionId k with
  | Some t => is_state logout_pending t && terminalTicketMatches t k && isAfter (logoutExpiresAt t) now
  | None => false
  end.

Definition completionSigningKey (ms : KeyMaterials) (kid : option string) : option KeyMaterial :=
  match filter (λ m, keyId m = kid) (retained ms) with [m] => Some m | _ => None end.

Inductive LogoutResult := completed (replacement : AuthBindingSource) | replayed (replacement : AuthBindingSource) | invalid.

Definition complete_tx (d : Draw) (k : LogoutTicket) (matchedKey : KeyMaterial) : Tx LogoutResult :=
  let* row := lockTransitionById (k_transitionId k) in
  match row with
  | None => ret invalid
  | Some t =>
      if negb (terminalTicketMatches t k) then ret invalid
      else match t_state t with
      | retired =>
          let replacement := deterministicSuccessorBinding hmac browser t matchedKey in
          let* resolution := lift (bindingResolution hmac (d_payload d) replacement (d_keys d)) in
          let* existing := lockTransitionForResolution resolution in
          match existing with
          | Some (s, _) => ret (if String.eqb (t_id s) (t_id t) then invalid else replayed replacement)
          | None => ret invalid
          end
      | t_active => ret invalid
      | logout_pending =>
          if isAfter (logoutExpiresAt t) (d_now d) then
            let* replacement := ensureSuccessorTransition d browser t matchedKey in
            let* ok := update_transition (t_id t)
              (λ row, same_generation (k_generation k) row && is_state logout_pending row
                      && opt_eqb (t_logoutId row) (Some (k_logoutId k))
                      && opt_eqb (completionNonceDigest row) (completionNonceDigest t)) (set_retired (d_now d)) in
            if ok : bool then ret (completed replacement)
            else let* current := lockTransitionById (k_transitionId k) in
                 match current with
                 | Some cur => ret (if is_state retired cur && terminalTicketMatches cur k then replayed replacement else invalid)
                 | None => ret invalid
                 end
          else ret invalid
      end
  end.

Definition completeTerminalLogout (d : Draw) (k : LogoutTicket) (db : Db) : result AuthError LogoutResult * Db :=
  match completionSigningKey (d_keys d) (k_signingKeyId k) with
  | None => (Ok invalid, db)
  | Some matchedKey => run_tx (complete_tx d k matchedKey) db
  end.

(** The sweep over the ids its query picked. *)
Definition cleanupAuthBrowserTransitions (now : Z) (picked : list string) (db : Db) : Db :=
  foldl (λ db id, (run_tx (update_transition id (λ t, is_state logout_pending t && logout_lapsed now t) (set_retired now)) db).2)
    db picked.
End operations.
End Issuance.

(** ** What transactions preserve

    The check constraints of the tables hold as an invariant, and rows only move
    one way. *)
Module Soundness.
Import Binding Issuance.

(** The check constraints of [auth_browser_transitions]. *)
Definition row_ok (t : Transition) : Prop :=
  1 ≤ t_generation t
  ∧ (activeOperationId t = None ↔ activeOperationExpiresAt t = None)
  ∧ (currentUserId t = None ↔ currentFamilyId t = None)
  ∧ match t_state t with
    | t_active => t_logoutId t = None ∧ completionNonceDigest t = None ∧ logoutExpiresAt t = None ∧ retiredAt t = None
    | logout_pending => t_logoutId t ≠ None ∧ completionNonceDigest t ≠ None
                        ∧ (∃ x, logoutExpiresAt t = Some x ∧ updatedAt t < x) ∧ retiredAt t = None
    | retired => retiredAt t ≠ None ∧ activeOperationId t = None ∧ activeOperationExpiresAt t = None
    end.

(** The session a row names is a family of the user it names. *)
Definition fk_ok (db : Db) (t : Transition) : Prop :=
  ∀ u f, currentUserId t = Some u → currentFamilyId t = Some f →
    ∃ fam, families db !! f = Some fam ∧ f_userId fam = u.

Record inv (db : Db) : Prop := {
  inv_rows : ∀ id t, transitions db !! id = Some t → t_id t = id ∧ row_ok t ∧ fk_ok db t;
  inv_digest : ∀ id id' t t', transitions db !! id = Some t → transitions db !! id' = Some t' →
    t_bindingDigest t = t_bindingDigest t' → id = id' }.

(** ** One-way change *)

Definition map_le {A} (Rel : A → A → Prop) (m m' : gmap string A) : Prop :=
  ∀ k x, m !! k = Some x → ∃ y, m' !! k = Some y ∧ Rel x y.

Definition rank (s : TransitionState) : Z :=
  match s with t_active => 0 | logout_pending => 1 | retired => 2 end.

Definition row_le (t t' : Transition) : Prop :=
  t_id t' = t_id t ∧ t_bindingDigest t' = t_bindingDigest t
  ∧ t_generation t ≤ t_generation t' ∧ rank (t_state t) ≤ rank (t_state t').
Definition fam_le (f f' : Family) : Prop :=
  f_userId f' = f_userId f ∧ absoluteExpiresAt f' = absoluteExpiresAt f
  ∧ mobileDeviceId f' = mobileDeviceId f ∧ (revokedAt f ≠ None → revokedAt f' = revokedAt f).
Definition user_le (u u' : User) : Prop :=
  authEpoch u ≤ authEpoch u' ∧ mfaEpoch u ≤ mfaEpoch u' ∧ emailEpoch u ≤ emailEpoch u'
  ∧ passwordResetEpoch u ≤ passwordResetEpoch u'.

Definition evolves (db db' : Db) : Prop :=
  map_le row_le (transitions db) (transitions db')
  ∧ map_le fam_le (families db) (families db')
  ∧ map_le user_le (users db) (users db').

#[export] Instance map_le_preorder {A} (Rel : A → A → Prop) : PreOrder Rel → PreOrder (map_le Rel).
Proof.
  intros HR. split; [intros m k x Hx; exists x; split; [done|reflexivity]|].
  intros m1 m2 m3 H1 H2 k x Hx. destruct (H1 k x Hx) as (y & Hy & Hxy).
  destruct (H2 k y Hy) as (z & Hz & Hyz). exists z. split; [done|by etransitivity].
Qed.
#[export] Instance row_le_preorder : PreOrder row_le.
Proof. split; [intros t; unfold row_le; split_and!; done || lia|]. unfold row_le. intros a b c (?&?&?&?) (?&?&?&?). split_and!; congruence || lia. Qed.
#[export] Instance fam_le_preorder : PreOrder fam_le.
Proof.
  split; [by intros f|]. unfold fam_le. intros a b c (Ha&Hb&Hc&Hd) (Ha'&Hb'&Hc'&Hd').
  split_and!; try congruence. intros Hr. rewrite Hd'; [by apply Hd|by rewrite Hd].
Qed.
#[export] Instance user_le_preorder : PreOrder user_le.
Proof. split; [intros u; unfold user_le; lia|]. unfold user_le. intros a b c ? ?. lia. Qed.
#[export] Instance evolves_preorder : PreOrder evolves.
Proof.
  split; [intros db; split_and!; reflexivity|]. intros a b c (H1&H2&H3) (H1'&H2'&H3').
  split_and!; by etransitivity.
Qed.

Lemma map_le_insert {A} (Rel : A → A → Prop) (m : gmap string A) k x :
  PreOrder Rel → (∀ y, m !! k = Some y → Rel y x) → map_le Rel m (<[k := x]> m).
Proof.
  intros HR Hx j y Hj. destruct (decide (k = j)) as [<-|Hne].
  - exists x. rewrite lookup_insert_eq. auto.
  - exists y. rewrite lookup_insert_ne by done. split; [done|reflexivity].
Qed.

Create HintDb tx.
#[export] Hint Unfold lockTransitionById lockTransitionByDigest : tx.

(** What a client wants to know besides: a relation that rows installed by these
    transactions respect, the new operation ids being among [ok_op]. *)
Class Tolerant (Q : Db → Db → Prop) (ok_op : string → Prop) := {
  tol_pre : PreOrder Q;
  tol_put db t t' :
    transitions db !! t_id t = Some t → t_id t' = t_id t →
    (∀ op, activeOperationId t' = Some op → activeOperationId t = Some op ∨ ok_op op) → Q db (put t' db);
  tol_insert db t :
    transitions db !! t_id t = None → activeOperationId t = None → Q db (put t db) }.

Section combinators.
Context (Q : Db → Db → Prop) `{!PreOrder Q}.

(** The invariant is kept, rows change one way, and the client's relation holds. *)
Definition moves (db db' : Db) : Prop := inv db → inv db' ∧ evolves db db' ∧ Q db db'.

#[export] Instance moves_preorder : PreOrder moves.
Proof.
  split; [intros db Hi; split_and!; [done|reflexivity..]|].
  intros a b c H1 H2 Hi. destruct (H1 Hi) as (Hi1 & He1 & Hq1). destruct (H2 Hi1) as (Hi2 & He2 & Hq2).
  split_and!; [done|by etransitivity..].
Qed.

Definition sound {A} (c : Tx A) : Prop := ∀ db a db', c db = Ok (a, db') → moves db db'.

Lemma sound_ret {A} (a : A) : sound (ret a).
Proof. intros db x db' [= <- <-]. reflexivity. Qed.
Lemma sound_throw {A} e : sound (throw e : Tx A).
Proof. intros db x db' [=]. Qed.
Lemma sound_bind {A B} (c : Tx A) (k : A → Tx B) : sound c → (∀ a, sound (k a)) → sound (let* x := c in k x).
Proof.
  intros Hc Hk db b db' Hb. unfold bind in Hb. destruct (c db) as [[a db1]|e] eqn:E; [|done].
  etransitivity; [by eapply Hc|by eapply Hk].
Qed.
Lemma sound_guard {A} (b : bool) e (k : Tx A) : sound k → sound (guard* b or e in k).
Proof. intros Hk. destruct b; [done|apply sound_throw]. Qed.
Lemma sound_read {A} (f : Db → A) : sound (λ db, Ok (f db, db)).
Proof. intros db x db' [= <- <-]. reflexivity. Qed.
Lemma sound_lift {A} (r : result AuthError A) : sound (lift r).
Proof. intros db x db' H. unfold lift in H. destruct r; simplify_eq. reflexivity. Qed.

End combinators.

#[export] Hint Resolve sound_ret sound_throw sound_read sound_lift : tx.
#[export] Hint Extern 0 (PreOrder _) => apply _ : tx.

(** Take a transaction apart into its steps and close each from the hints. *)
Ltac solve_sound :=
  repeat match goal with
    | |- sound _ (bind _ _) => apply sound_bind; [apply _| |intros ?]
    | |- sound _ (if ?b then _ else throw _) => apply sound_guard
    | |- sound _ (if ?b then _ else _) => destruct b
    | |- sound _ (match ?x with _ => _ end) => destruct x
    | |- sound _ (let '(_, _) := ?x in _) => destruct x
    | |- sound _ _ => solve [eauto with tx]
    end.


Section operations.
Context (Q : Db → Db → Prop) (ok_op : string → Prop) `{HQ : !Tolerant Q ok_op}.
Context (hmac : string → string → string) (sha256 : string → string).
#[local] Instance tolerant_preorder : PreOrder Q := tol_pre (ok_op := ok_op).
Notation sound := (sound Q).
Notation moves := (moves Q).

(** Replacing a row by one with the same identity that comes after it. *)
Lemma moves_put db t t' :
  transitions db !! t_id t = Some t → row_le t t' → row_ok t' → fk_ok db t' →
  (∀ op, activeOperationId t' = Some op → activeOperationId t = Some op ∨ ok_op op) →
  moves db (put t' db).
Proof.
  intros Ht Hle Hok Hfk Hop [Hr Hd]. destruct Hle as (Hid & Hdg & Hg & Hrk). split_and!.
  - split; unfold put; cbn [transitions families].
    + intros id x. rewrite Hid. destruct (decide (t_id t = id)) as [<-|Hne].
      * rewrite lookup_insert_eq. intros [= <-]. by rewrite Hid.
      * rewrite lookup_insert_ne by done. intros Hx. by apply Hr.
    + rewrite Hid. intros id id' x x' Hx Hx' Heq.
      apply lookup_insert_Some in Hx as [[<- <-]|[_ Hx]]; apply lookup_insert_Some in Hx' as [[<- <-]|[_ Hx']]; try done.
      * eapply Hd; [exact Ht|exact Hx'|congruence].
      * eapply Hd; [exact Hx|exact Ht|congruence].
      * by eapply Hd.
  - split_and!; [|reflexivity..]. unfold put; cbn [transitions]. apply map_le_insert; [apply _|].
    rewrite Hid. intros y Hy. rewrite Ht in Hy. simplify_eq. done.
  - by eapply tol_put.
Qed.

Lemma sound_update id p f :
  (∀ t, p t = true → row_ok t → row_le t (f t) ∧ row_ok (f t)
     ∧ currentUserId (f t) = currentUserId t ∧ currentFamilyId (f t) = currentFamilyId t
     ∧ ∀ op, activeOperationId (f t) = Some op → activeOperationId t = Some op ∨ ok_op op) →
  sound (update_transition id p f).
Proof.
  intros Hf db a db' H Hi. unfold update_transition in H.
  destruct (transitions db !! id) as [t|] eqn:Et; [|simplify_eq; by split_and!; [done|reflexivity..]].
  destruct (p t) eqn:Ep; simplify_eq; [|by split_and!; [done|reflexivity..]].
  destruct (inv_rows db Hi id t Et) as (Hid & Hok & Hfk). destruct (Hf t Ep Hok) as (Hle & Hok' & Hu & Hfam & Hop).
  eapply moves_put; [by rewrite Hid|done..| |done|done]. unfold fk_ok. by rewrite Hu, Hfam.
Qed.

Lemma sound_set_operation id p op now :
  (∀ t, p t = true → t_state t = t_active) → (∀ o x, op = Some (o, x) → ok_op o) →
  sound (update_transition id p (set_operation op now)).
Proof.
  intros Hp Hop. apply sound_update. intros t Ht (Hg & Ho & Hc & Hs). specialize (Hp t Ht). rewrite Hp in Hs.
  destruct Hs as (?&?&?&?). unfold row_le, row_ok, set_operation; cbn. rewrite Hp.
  split_and!; try done; try lia; destruct op as [[o x]|]; try done. intros op' [= <-]. right. by eapply Hop.
Qed.

Lemma sound_set_retired id p now : sound (update_transition id p (set_retired now)).
Proof.
  apply sound_update. intros t _ (Hg & Ho & Hc & Hs). unfold row_le, row_ok, set_retired; cbn.
  split_and!; try done; destruct (t_state t); cbn; lia.
Qed.

Lemma sound_set_pending t p g l n x now :
  (∀ row, p row = true → t_state row = t_active ∧ t_generation row = t) → t ≤ g → now < x →
  ∀ id, sound (update_transition id p (set_pending g l n x now)).
Proof.
  intros Hp Hg Hx id. apply sound_update. intros row Hrow (Hg1 & Ho & Hc & Hs). destruct (Hp row Hrow) as [Hst Hgen].
  rewrite Hst in Hs. unfold row_le, row_ok, set_pending; cbn. rewrite Hst. cbn. destruct Hs as (_ & _ & _ & Hret).
  split_and!; try done; try lia. by exists x.
Qed.

Lemma sound_insert rowId d kid now : sound (insert_transition rowId d kid now).
Proof.
  intros db a db' H Hi. unfold insert_transition in H. case_bool_decide as Hex; [simplify_eq; by split_and!; [done|reflexivity..]|].
  destruct (transitions db !! rowId) eqn:Er; [done|]. simplify_eq.
  set (t := mkTransition _ _ _ _ _ _ _ _ _ _ _ _ _ _). destruct Hi as [Hr Hd]. split_and!.
  - assert (∀ id x, transitions db !! id = Some x → t_bindingDigest x ≠ d) as Hno.
    { intros id x Hx Heq. apply Hex. apply list.Exists_exists. exists (id, x). by rewrite elem_of_map_to_list. }
    split; unfold put; cbn [transitions families t_id t].
    + intros id x Hx. apply lookup_insert_Some in Hx as [[<- <-]|[_ Hx]]; [|by apply Hr].
      split; [done|]. split; [|by intros u f [=]]. unfold row_ok; cbn. split_and!; done || lia.
    + intros id id' x x' Hx Hx' Heq.
      apply lookup_insert_Some in Hx as [[<- <-]|[_ Hx]]; apply lookup_insert_Some in Hx' as [[<- <-]|[_ Hx']]; try done.
      * cbn in Heq. by destruct (Hno id' x').
      * cbn in Heq. by destruct (Hno id x).
      * by eapply Hd.
  - split_and!; [|reflexivity..]. unfold put; cbn [transitions t_id t]. apply map_le_insert; [apply _|].
    by rewrite Er.
  - by apply tol_insert.
Qed.

#[local] Hint Resolve sound_set_retired sound_insert : tx.

Lemma sound_match_candidates found cs : sound (match_candidates found cs).
Proof. revert found. induction cs as [|c cs IH]; intros found; cbn [match_candidates]; solve_sound. Qed.

Lemma sound_lockForResolution r : sound (lockTransitionForResolution r).
Proof. apply sound_match_candidates. Qed.
#[local] Hint Resolve sound_lockForResolution : tx.

Lemma sound_retireExpired now t : sound (retireExpiredTransition now t).
Proof. unfold retireExpiredTransition. solve_sound. Qed.

Lemma sound_ensureSuccessor d k t m : sound (ensureSuccessorTransition hmac d k t m).
Proof. unfold ensureSuccessorTransition. solve_sound. Qed.
#[local] Hint Resolve sound_retireExpired sound_ensureSuccessor : tx.

Lemma same_and_active g row : same_generation g row && is_state t_active row = true → t_state row = t_active ∧ t_generation row = g.
Proof. unfold same_generation, is_state. intros H. bool_hyps. auto. Qed.

Lemma owns_active c row : owns c row = true → t_state row = t_active.
Proof. unfold owns, is_state. intros H. bool_hyps. auto. Qed.

Lemma sound_reserve d t : ok_op (d_operationId d) → sound (reserve d t).
Proof.
  intros Hop. unfold reserve. solve_sound. apply sound_set_operation; [|by intros o x [= <- _]].
  intros row Hrow. by apply same_and_active in Hrow as [? _].
Qed.

Lemma sound_clear_owned now c : sound (update_transition (transitionId c) (owns c) (set_operation None now)).
Proof. apply sound_set_operation; [apply owns_active|done]. Qed.
#[local] Hint Resolve sound_reserve sound_clear_owned : tx.

Lemma sound_admission d s r : ok_op (d_operationId d) → sound (admission hmac d s r).
Proof. intros Hop. unfold admission. solve_sound. Qed.

Lemma sound_complete d k m : sound (complete_tx hmac sha256 d k m).
Proof. unfold complete_tx. solve_sound. Qed.

Lemma sound_retireWithSuccessor d k t m : sound (retireWithSuccessor hmac d k t m).
Proof. unfold retireWithSuccessor. solve_sound. Qed.

Lemma sound_markPending now t l n x : now < x → sound (markLogoutPending now t l n x).
Proof.
  intros Hx. unfold markLogoutPending. apply sound_bind; [apply _| |intros; solve_sound].
  eapply sound_set_pending; [apply same_and_active|lia|done].
Qed.

(** ** Whole calls *)

Definition call_sound {A} (f : Db → A * Db) : Prop := ∀ db, moves db (f db).2.

Lemma run_tx_sound {A} (c : Tx A) : sound c → call_sound (run_tx c).
Proof.
  intros Hc db. unfold run_tx. destruct (c db) as [[a db']|e] eqn:E; cbn; [by eapply Hc|reflexivity].
Qed.

Lemma begin_sound d s : ok_op (d_operationId d) → call_sound (beginAuthIssuance hmac d s).
Proof.
  intros Hop db. unfold beginAuthIssuance. destruct (AUTH_BINDING_PATTERN _); [|reflexivity].
  destruct (bindingResolution _ _ _ _) as [r|]; [|reflexivity].
  pose proof (run_tx_sound _ (sound_admission d s r Hop) db) as H.
  destruct (run_tx _ db) as [[[c|rep reason]|e] db']; exact H.
Qed.

Lemma rotateExpired_sound d s : call_sound (rotateExpiredBinding hmac d s).
Proof.
  intros db. unfold rotateExpiredBinding. destruct (AUTH_BINDING_PATTERN _); [|reflexivity].
  destruct (bindingResolution _ _ _ _) as [r|]; [|reflexivity]. apply run_tx_sound. solve_sound.
Qed.

Lemma beginStored_sound {A} d id g (claim : Tx A) :
  ok_op (d_operationId d) → sound claim → call_sound (beginAuthIssuanceForStoredTransition d id g claim).
Proof. intros Hop Hc. apply run_tx_sound. solve_sound. Qed.

Lemma cancel_sound now c db : moves db (cancelAuthIssuance now c db).
Proof. apply run_tx_sound. solve_sound. Qed.

Lemma completeLogout_sound d k : call_sound (completeTerminalLogout hmac sha256 d k).
Proof.
  intros db. unfold completeTerminalLogout. destruct (completionSigningKey _ _); [|reflexivity].
  apply run_tx_sound, sound_complete.
Qed.

Lemma withLogout_sound {A} d s (cb : Transition → KeyMaterial → Tx A) :
  (∀ t m, sound (cb t m)) → call_sound (withTerminalLogoutTransition hmac d s cb).
Proof.
  intros Hcb db. unfold withTerminalLogoutTransition. destruct (AUTH_BINDING_PATTERN _); [|reflexivity].
  destruct (bindingResolution _ _ _ _) as [r|]; [|reflexivity]. apply run_tx_sound. solve_sound.
  apply sound_set_operation; [|done]. intros row Hrow. by apply same_and_active in Hrow as [? _].
Qed.

Lemma cleanup_sound now picked db : moves db (cleanupAuthBrowserTransitions now picked db).
Proof.
  unfold cleanupAuthBrowserTransitions. revert db. induction picked as [|id l IH]; intros db; cbn [foldl]; [reflexivity|].
  etransitivity; [|apply IH]. apply run_tx_sound, sound_set_retired.
Qed.
End operations.
End Soundness.
