(* ===== verification/Sessions.v ===== *)
(** * Sessions: refresh-token families, revocation and the refresh route

    [services/refreshTokenFamily.ts], [services/authLifecycle.ts],
    [services/userSession.ts] and [services/terminalLogout.ts] as transactions on
    the database of [AuthTransition] ([FamilyStore], [Lifecycle], [Issue], [Logout]);
    [services/tokenRevocation.ts] on the class of [Redis] ([Revocation]); and the
    handler of [POST /auth/refresh] that composes them ([Refresh]).  Their theorems
    are in [SessionHistory] and [SessionFacts].

    Tokens are the claims their signature vouches for; the digests, the HMAC, the
    random ids and the clocks are arguments. *)
From S2P Require Import Prelude Transaction JsText JsDate IsoDate IpAccess Redis RateLimit AuthTransition.
From stdpp Require Import base tactics list strings gmap.
From Stdlib Require Import ZArith Lia Ascii.
Open Scope Z_scope.
Import Binding Issuance.

(** ** Families *)

Module FamilyStore.

Inductive TokenType := access | refresh_type.

(** The claims of a verified token. *)
Record TokenPayload := mkPayload {
  p_sub : string; p_type : TokenType; p_fam : option string; p_jti : option string;
  p_aep : option Z; p_mep : option Z; p_iat : option Z; p_mdid : option string; p_mfa : bool }.

Definition absoluteTtlDays (env : gmap string string) : Z :=
  match parseInt (default "" (env !! "REFRESH_FAMILY_ABSOLUTE_TTL_DAYS")) with
  | Some raw => if 0 <? raw then raw else 30
  | None => 30
  end.

Definition put_family (id : string) (f : Family) (db : Db) : Db :=
  mkDb (transitions db) (users db) (<[id := f]> (families db)).

Section families.
Context (sha256 : string → string).

Definition digestRefreshTokenJti (jti : string) : string :=
  sha256 ("auth-refresh-jti:v1" +:+ String "000"%char jti).

(** [clock] is the server's time, [now] the database's. *)
Definition mintRefreshTokenFamily (env : gmap string string) (clock now : Z) (familyId userId : string)
    (currentRefreshJti mobileDeviceId : option string) : Tx string :=
  λ db, match families db !! familyId with
        | Some _ => Err GenericError
        | None =>
            Ok (familyId, put_family familyId
              (mkFamily userId (clock + absoluteTtlDays env * 24 * 60 * 60 * 1000) None None mobileDeviceId
                 (digestRefreshTokenJti <$> currentRefreshJti) now) db)
        end.

(** The row of a family with its owner. *)
Definition select_family (familyId userId : string) (db : Db) : option Family :=
  f ← families db !! familyId; if String.eqb (f_userId f) userId then Some f else None.

Definition set_current (d : string) (now : Z) (f : Family) : Family :=
  mkFamily (f_userId f) (absoluteExpiresAt f) (revokedAt f) (revokedReason f) (mobileDeviceId f) (Some d) now.

Definition rotateRefreshTokenFamilyCurrentJti (now : Z) (familyId userId presentedJti successorJti : string) : Tx unit :=
  λ db,
    match select_family familyId userId db with
    | None => Err RefreshTokenCurrentnessError
    | Some f =>
        if bool_decide (revokedAt f ≠ None) || (absoluteExpiresAt f <=? now) then Err RefreshTokenCurrentnessError
        else
          let presentedDigest := digestRefreshTokenJti presentedJti in
          let legacy := bool_decide (currentRefreshJtiDigest f = None) in
          if negb legacy && negb (opt_eqb (currentRefreshJtiDigest f) (Some presentedDigest))
          then Err RefreshTokenCurrentnessError
          else
            let current := if legacy then opt_eqb (currentRefreshJtiDigest f) None
                           else opt_eqb (currentRefreshJtiDigest f) (Some presentedDigest) in
            if bool_decide (revokedAt f = None) && current
            then Ok (tt, put_family familyId (set_current (digestRefreshTokenJti successorJti) now f) db)
            else Err RefreshTokenCurrentnessError
    end.

Inductive RefreshAuthority :=
| current (userId familyId : string)
| legacy_or_stale_family (familyId : string)
| invalid_authority.

(** [payload] is the answer of [verifyToken]. *)
Definition classifyRefreshTokenAuthority (now : Z) (payload : option TokenPayload) (db : Db) : RefreshAuthority :=
  match payload with
  | Some p =>
      match p_type p, truthy (Some (p_sub p)), truthy (p_fam p), truthy (p_jti p), p_aep p, p_mep p with
      | refresh_type, Some sub, Some fam, Some jti, Some aep, Some mep =>
          match users db !! sub with
          | Some u =>
              if u_active u && (authEpoch u =? aep) && (mfaEpoch u =? mep) then
                match select_family fam sub db with
                | Some f =>
                    if bool_decide (revokedAt f ≠ None) || (absoluteExpiresAt f <=? now) then invalid_authority
                    else if opt_eqb (currentRefreshJtiDigest f) (Some (digestRefreshTokenJti jti))
                         then current sub fam else legacy_or_stale_family fam
                | None => invalid_authority
                end
              else invalid_authority
          | None => invalid_authority
          end
      | _, _, _, _, _, _ => invalid_authority
      end
  | None => invalid_authority
  end.
End families.

Definition getRefreshFamily (familyId : string) (db : Db) : option (option Z * Z) :=
  (λ f, (revokedAt f, absoluteExpiresAt f)) <$> families db !! familyId.
End FamilyStore.

(** ** Epochs and durable revocation *)

Module Lifecycle.
Import FamilyStore.

Record EpochFields := mkFields { e_auth : bool; e_mfa : bool; e_email : bool; e_passwordReset : bool }.
Record EpochExpected := mkExpected {
  x_authEpoch : option Z; x_mfaEpoch : option Z; x_passwordResetEpoch : option Z;
  x_email : option string; x_mfaEnabled : option bool; x_statusActive : bool }.

Definition bump (b : bool) (n : Z) : Z := if b then n + 1 else n.
Definition expects {A} `{EqDecision A} (x : option A) (v : A) : bool :=
  match x with Some a => bool_decide (a = v) | None => true end.

Definition precondition (x : EpochExpected) (u : User) : bool :=
  expects (x_authEpoch x) (authEpoch u) && expects (x_mfaEpoch x) (mfaEpoch u)
  && expects (x_passwordResetEpoch x) (passwordResetEpoch u) && expects (x_email x) (u_email u)
  && expects (x_mfaEnabled x) (mfaEnabled u) && (negb (x_statusActive x) || u_active u).

Definition bump_epochs (fs : EpochFields) (u : User) : User :=
  mkUser (u_active u) (bump (e_auth fs) (authEpoch u)) (bump (e_mfa fs) (mfaEpoch u))
    (bump (e_email fs) (emailEpoch u)) (bump (e_passwordReset fs) (passwordResetEpoch u)) (u_email u) (mfaEnabled u)
    (passwordChangedAt u).

Definition put_user (id : string) (u : User) (db : Db) : Db :=
  mkDb (transitions db) (<[id := u]> (users db)) (families db).

Definition advanceUserEpochs (userId : string) (fs : EpochFields) (expected : option EpochExpected) : Tx User :=
  λ db, match users db !! userId with
        | Some u =>
            if match expected with Some x => precondition x u | None => true end
            then Ok (bump_epochs fs u, put_user userId (bump_epochs fs u) db)
            else Err EpochAdvancePreconditionError
        | None => Err (match expected with Some _ => EpochAdvancePreconditionError | None => GenericError end)
        end.

Definition truncateReason (reason : string) : string :=
  if (64 <? Z.of_nat (length (chars reason))) then slice_to 64 reason else reason.

(** [COALESCE]: the first revocation stays. *)
Definition revoke_row (now : Z) (reason : string) (f : Family) : Family :=
  mkFamily (f_userId f) (absoluteExpiresAt f)
    (Some (default now (revokedAt f))) (Some (default (truncateReason reason) (revokedReason f)))
    (mobileDeviceId f) (currentRefreshJtiDigest f) (lastUsedAt f).

(** [UPDATE refresh_token_families SET revoked ... WHERE ...]. *)
Definition revoke_where (p : string → Family → bool) (now : Z) (reason : string) (db : Db) : Db :=
  mkDb (transitions db) (users db)
    (map_imap (λ id f, Some (if p id f then revoke_row now reason f else f)) (families db)).

Definition revokeAllRefreshFamilies (userId : string) (now : Z) (reason : string) : Db → Db :=
  revoke_where (λ _ f, String.eqb (f_userId f) userId) now reason.

Definition revokeRefreshFamilyById (familyId : string) (now : Z) (reason : string) : Db → Db :=
  revoke_where (λ id _, String.eqb id familyId) now reason.

Definition revokeMobileDeviceRefreshFamilies (userId device : string) (now : Z) (reason : string) : Db → Db :=
  revoke_where (λ _ f, String.eqb (f_userId f) userId && opt_eqb (mobileDeviceId f) (Some device)
                       && bool_decide (revokedAt f = None)) now reason.

End Lifecycle.

(** ** Issuing a session *)

Module Issue.
Import FamilyStore.

Record UserSessionIdentity := mkIdentity { i_userId : string; i_mobileDeviceId : option string }.

Record IssueOptions := mkOptions {
  o_capability : AuthIssuanceCapability; o_authEpoch : Z; o_mfaEpoch : Z;
  o_familyId : option string; o_presentedJti : option string }.

(** The session: the claims of its refresh token that later checks read, and the
    transition it was issued under. *)
Record AuthorizedUserSession := mkSession {
  s_userId : string; s_familyId : string; s_refreshJti : string; s_aep : Z; s_mep : Z;
  s_transitionId : string; s_generation : Z }.

(** The clocks, and the ids drawn at random. *)
Record IssueDraw := mkIssueDraw {
  n_env : gmap string string; n_clock : Z; n_now : Z; n_refreshJti : string; n_familyId : string }.

Section issue.
Context (sha256 : string → string).

Definition lockLiveUserSecurityState (userId : string) : Tx User :=
  λ db, match users db !! userId with
        | Some u => if u_active u then Ok (u, db) else Err GenericError
        | None => Err GenericError
        end.

Definition issueUserSession (n : IssueDraw) (identity : UserSessionIdentity) (o : IssueOptions) : Tx AuthorizedUserSession :=
  let* _ := assertAuthIssuanceCapability (n_now n) (o_capability o) in
  let* u := lockLiveUserSecurityState (i_userId identity) in
  if negb ((authEpoch u =? o_authEpoch o) && (mfaEpoch u =? o_mfaEpoch o)) then
    throw (match o_presentedJti o with Some _ => RefreshTokenCurrentnessError | None => UserSessionEpochMismatchError end)
  else
    let* familyId :=
      match o_familyId o with
      | Some fam =>
          match o_presentedJti o with
          | None => throw RefreshTokenCurrentnessError
          | Some presented =>
              let* _ := rotateRefreshTokenFamilyCurrentJti sha256 (n_now n) fam (i_userId identity) presented (n_refreshJti n) in
              ret fam
          end
      | None => mintRefreshTokenFamily sha256 (n_env n) (n_clock n) (n_now n) (n_familyId n) (i_userId identity)
                  (Some (n_refreshJti n)) (i_mobileDeviceId identity)
      end in
    let* _ := bindAuthIssuanceSession (n_now n) (o_capability o) (i_userId identity) familyId in
    ret (mkSession (i_userId identity) familyId (n_refreshJti n) (authEpoch u) (mfaEpoch u)
           (transitionId (o_capability o)) (generation (o_capability o))).
End issue.
End Issue.

(** ** Revocation marks in Redis *)

Module Revocation.
Import FamilyStore Lifecycle.

Definition ACCESS_TOKEN_REVOCATION_TTL_SECONDS : Z := 15 * 60.
Definition REFRESH_TOKEN_REVOCATION_TTL_SECONDS : Z := 7 * 24 * 60 * 60.
Definition USER_REVOCATION_TTL_SECONDS : Z := REFRESH_TOKEN_REVOCATION_TTL_SECONDS + ACCESS_TOKEN_REVOCATION_TTL_SECONDS.
Definition REFRESH_FAMILY_REVOCATION_TTL_SECONDS : Z := USER_REVOCATION_TTL_SECONDS.
Definition REFRESH_JTI_FAMILY_TTL_SECONDS : Z := REFRESH_TOKEN_REVOCATION_TTL_SECONDS + ACCESS_TOKEN_REVOCATION_TTL_SECONDS.

Definition getRotationGraceSeconds (env : gmap string string) : Z :=
  match parseInt (default "" (env !! "REFRESH_ROTATION_GRACE_SECONDS")) with
  | Some raw => if 0 <=? raw then raw else 15
  | None => 15
  end.

Definition getRevokedAccessKey (userId : string) : string := "token:revoked:" +:+ userId.
Definition getRevokedAfterKey (userId : string) : string := "token:revoked_after:" +:+ userId.
Definition getRevokedRefreshKey (jti : string) : string := "token:refresh:revoked:" +:+ jti.
Definition getRefreshJtiFamilyKey (jti : string) : string := "refresh-jti-fam:" +:+ jti.
Definition getRevokedFamilyKey (familyId : string) : string := "refresh-fam-revoked:" +:+ familyId.
Definition getRotationGraceKey (jti : string) : string := "refresh-rotated-grace:" +:+ jti.

Section redis.
Context {R : Type} `{Redis R}.

(** A command of a client at [t]: the state it leaves, and its reply unless it threw. *)
Definition command (r : R) (t : Z) (k : string) (c : Cmd) (l : Landed) : R * option Reply :=
  let '(r', a) := exec r t k c in
  match l with
  | lost applied => (if applied then r' else r, None)
  | replied => (r', match a with RErr => None | _ => Some a end)
  end.

(** [redis.get]: the string, null, or thrown. *)
Definition redis_get (r : R) (t : Z) (k : string) (l : Landed) : option (option Value) :=
  match (command r t k GET l).2 with
  | Some (RBulk v) => Some (Some v)
  | Some _ => Some None
  | None => None
  end.

(** The truthiness of a reply, and [parseInt] of it. *)
Definition truthy_value (v : option Value) : bool :=
  match v with Some (VStr s) => negb (String.eqb s "") | Some _ => true | None => false end.
Definition parse_value (v : option Value) : option Z :=
  match v with Some (VStr s) => parseInt s | Some (VDec n) => Some n | _ => None end.

Definition isUserTokenRevoked (redis : option R) (t : Z) (userId : string) (tokenIssuedAt : option Z) (l1 l2 : Landed) : bool :=
  match redis with
  | None => true
  | Some r =>
      match redis_get r t (getRevokedAccessKey userId) l1 with
      | None => true
      | Some revoked =>
          if truthy_value revoked then
            match tokenIssuedAt with
            | None => true
            | Some iat =>
                match redis_get r t (getRevokedAfterKey userId) l2 with
                | None => true
                | Some raw => if truthy_value raw
                              then match parse_value raw with Some after => negb (after <? iat) | None => true end
                              else true
                end
            end
          else
            match tokenIssuedAt with
            | None => false
            | Some iat =>
                match redis_get r t (getRevokedAfterKey userId) l2 with
                | None => true
                | Some raw => if truthy_value raw
                              then match parse_value raw with Some after => iat <=? after | None => false end
                              else false
                end
            end
      end
  end.

Definition isTimestampRevoked (redis : option R) (t : Z) (userId : string) (createdAtMs : Z) (l1 l2 : Landed) : bool :=
  isUserTokenRevoked redis t userId (Some (createdAtMs / 1000 - 1)) l1 l2.

(** The cutoff only ever narrows. *)
Definition revocation_cutoff (t : Z) (preserveFrom : option Z) : Z :=
  let defaultCutoff := t / 1000 - 1 in
  match preserveFrom with Some p => Z.min defaultCutoff (p - 1) | None => defaultCutoff end.

(** Two keys in one transaction; false where it throws. *)
Definition revokeAllUserTokens (redis : option R) (t : Z) (userId : string) (preserveFrom : option Z) (l : Landed)
    : option R * bool :=
  match redis with
  | None => (None, false)
  | Some r =>
      let r1 := (exec r t (getRevokedAccessKey userId) (SETEX ACCESS_TOKEN_REVOCATION_TTL_SECONDS (VStr "1"))).1 in
      let r2 := (exec r1 t (getRevokedAfterKey userId)
                   (SETEX USER_REVOCATION_TTL_SECONDS (VDec (revocation_cutoff t preserveFrom)))).1 in
      match l with
      | replied => (Some r2, true)
      | lost applied => (Some (if applied then r2 else r), false)
      end
  end.

Definition isTokenIssuedBeforePasswordChange (tokenIssuedAt passwordChangedAt : option Z) : bool :=
  match passwordChangedAt with
  | None => false
  | Some changedAtMs =>
      match tokenIssuedAt with None => true | Some iat => iat <? changedAtMs / 1000 end
  end.

Definition isRefreshTokenJtiRevoked (redis : option R) (t : Z) (jti : string) (l : Landed) : bool :=
  match redis with
  | None => true
  | Some r => match redis_get r t (getRevokedRefreshKey jti) l with Some v => truthy_value v | None => true end
  end.

(** [Ok] of whether this call won the mark; an error where it could not be made. *)
Definition revokeRefreshTokenJti (redis : option R) (t : Z) (jti : string) (l : Landed) : option R * result unit bool :=
  match redis with
  | None => (None, Err tt)
  | Some r =>
      let '(r', reply) := command r t (getRevokedRefreshKey jti) (SET_EX_NX REFRESH_TOKEN_REVOCATION_TTL_SECONDS (VStr "1")) l in
      (Some r', match reply with Some ROk => Ok true | Some _ => Ok false | None => Err tt end)
  end.

Definition markRefreshTokenJtiRotated (env : gmap string string) (redis : option R) (t : Z) (jti : string) (l : Landed) : option R :=
  let graceSeconds := getRotationGraceSeconds env in
  if graceSeconds <=? 0 then redis
  else (λ r, (command r t (getRotationGraceKey jti) (SETEX graceSeconds (VStr "1")) l).1) <$> redis.

Definition wasRefreshTokenJtiRecentlyRotated (env : gmap string string) (redis : option R) (t : Z) (jti : string) (l : Landed) : bool :=
  if getRotationGraceSeconds env <=? 0 then false
  else match redis with
       | None => false
       | Some r => match redis_get r t (getRotationGraceKey jti) l with Some v => truthy_value v | None => false end
       end.

Definition rememberJtiFamily (redis : option R) (t : Z) (jti familyId : string) (l : Landed) : option R :=
  (λ r, (command r t (getRefreshJtiFamilyKey jti) (SETEX REFRESH_JTI_FAMILY_TTL_SECONDS (VStr familyId)) l).1) <$> redis.

Definition getFamilyForJti (redis : option R) (t : Z) (jti : string) (l : Landed) : option Value :=
  r ← redis; v ← redis_get r t (getRefreshJtiFamilyKey jti) l; v.

Inductive RedisAck := redis_confirmed | redis_unavailable | redis_failed.
Inductive DatabaseAck := db_confirmed | db_not_found | db_failed.

Definition writeFamilyRevocationSentinel (redis : option R) (t : Z) (familyId : string) (l : Landed) : option R * RedisAck :=
  match redis with
  | None => (None, redis_unavailable)
  | Some r =>
      let '(r', reply) := command r t (getRevokedFamilyKey familyId) (SETEX REFRESH_FAMILY_REVOCATION_TTL_SECONDS (VStr "1")) l in
      (Some r', match reply with Some _ => redis_confirmed | None => redis_failed end)
  end.

Definition publishFamilyRevocationSentinel (redis : option R) (t : Z) (familyId : string) (l : Landed) : option R * bool :=
  let '(r', ack) := writeFamilyRevocationSentinel redis t familyId l in
  (r', match ack with redis_confirmed => true | _ => false end).

(** The two stores are written independently; [dbl] is the fate of the database's
    transaction. *)
Definition revokeFamily (redis : option R) (db : Db) (t now : Z) (familyId reason : string) (l dbl : Landed)
    : option R * Db * (RedisAck * DatabaseAck) :=
  let '(r', ack) := writeFamilyRevocationSentinel redis t familyId l in
  let db' := revokeRefreshFamilyById familyId now reason db in
  match dbl with
  | replied => (r', db', (ack, if bool_decide (is_Some (families db !! familyId)) then db_confirmed else db_not_found))
  | lost applied => (r', if applied then db' else db, (ack, db_failed))
  end.

Definition revokeAllRefreshTokenFamiliesForUser (db : Db) (now : Z) (userId reason : string) : Db :=
  revokeAllRefreshFamilies userId now reason db.

(** [reads] tells whether the database can be read. *)
Definition isFamilyRevoked (redis : option R) (db : Db) (t : Z) (familyId : string) (l : Landed) (reads : bool) : bool :=
  let durable := if reads then match families db !! familyId with
                               | Some f => bool_decide (revokedAt f ≠ None)
                               | None => true
                               end
                 else true in
  match r ← redis; redis_get r t (getRevokedFamilyKey familyId) l with
  | Some v => if truthy_value v then true else durable
  | None => durable
  end.

Definition touchFamilyLastUsed (db : Db) (now : Z) (familyId : string) : Db :=
  match families db !! familyId with
  | Some f => put_family familyId (mkFamily (f_userId f) (absoluteExpiresAt f) (revokedAt f) (revokedReason f)
                (mobileDeviceId f) (currentRefreshJtiDigest f) now) db
  | None => db
  end.
End redis.
End Revocation.

(** ** Terminal logout *)

Module Logout.
Import FamilyStore Lifecycle Issue Revocation.

Definition TERMINAL_LOGOUT_TTL_SECONDS : Z := 5 * 60.

Record TerminalAccessAuthority := mkAccess {
  a_userId : string; a_authEpoch : Z; a_mfaEpoch : Z; a_familyId : option string }.
Record RefreshCandidate := mkRefreshCandidate {
  c_userId : string; c_familyId : string; c_jti : string; c_authEpoch : Z; c_mfaEpoch : Z }.

Definition refreshCandidate (payload : option TokenPayload) : option RefreshCandidate :=
  p ← payload;
  match p_type p, p_fam p, p_jti p, p_aep p, p_mep p with
  | refresh_type, Some fam, Some jti, Some aep, Some mep => Some (mkRefreshCandidate (p_sub p) fam jti aep mep)
  | _, _, _, _, _ => None
  end.

Definition str_le (a b : string) : bool := match String.compare a b with Gt => false | _ => true end.
Definition sortedUnique (values : list (option string)) : list string :=
  js_sort str_le (remove_dups (omap truthy values)).

Definition liveUser (us : gmap string User) (userId : string) (aep mep : Z) : bool :=
  match us !! userId with
  | Some u => u_active u && (authEpoch u =? aep) && (mfaEpoch u =? mep)
  | None => false
  end.

Definition liveFamily (fs : gmap string Family) (c : RefreshCandidate) (now : Z) : bool :=
  match fs !! c_familyId c with
  | Some f => String.eqb (f_userId f) (c_userId c) && bool_decide (revokedAt f = None) && (now <? absoluteExpiresAt f)
  | None => false
  end.

Section logout.
Context (hmac : string → string → string) (sha256 : string → string).

(** The rows locked, by id or by owner. *)
Definition lockUsers (ids : list string) (db : Db) : gmap string User :=
  filter (λ kv : string * User, kv.1 ∈ ids) (users db).
Definition lockFamilies (userIds familyIds : list string) (db : Db) : gmap string Family :=
  filter (λ kv : string * Family, f_userId kv.2 ∈ userIds ∨ kv.1 ∈ familyIds) (families db).

Definition globallyRevokeUser (now : Z) (userId : string) : Tx unit :=
  let* _ := advanceUserEpochs userId (mkFields true false false false) None in
  modify (revokeAllRefreshFamilies userId now "terminal_logout").

Fixpoint each {A} (f : A → Tx unit) (l : list A) : Tx unit :=
  match l with [] => ret tt | a :: l' => let* _ := f a in each f l' end.

(** Whom the request may log out everywhere, and the one stale family it names. *)
Definition global_users (now : Z) (us : gmap string User) (fs : gmap string Family) (acc : TerminalAccessAuthority)
    (refresh : option RefreshCandidate) (authority : RefreshAuthority) : list string :=
  let from_access := if liveUser us (a_userId acc) (a_authEpoch acc) (a_mfaEpoch acc) then [a_userId acc] else [] in
  let from_refresh :=
    match refresh, authority with
    | Some c, current u f =>
        if String.eqb u (c_userId c) && String.eqb f (c_familyId c)
           && liveUser us (c_userId c) (c_authEpoch c) (c_mfaEpoch c) && liveFamily fs c now
        then [c_userId c] else []
    | _, _ => []
    end in
  from_access ++ from_refresh.

Definition stale_family (now : Z) (fs : gmap string Family) (refresh : option RefreshCandidate) (authority : RefreshAuthority)
    : option string :=
  match refresh, authority with
  | Some c, legacy_or_stale_family f =>
      if String.eqb f (c_familyId c) && liveFamily fs c now then Some (c_familyId c) else None
  | _, _ => None
  end.

(** The revocations, decided on the rows [rows] as locked. *)
Definition revoke_subjects (now : Z) (t : Transition) (acc : TerminalAccessAuthority) (payload : option TokenPayload)
    (rows : Db) : Tx (list string) :=
  let refresh := refreshCandidate payload in
  let userIds := sortedUnique [Some (a_userId acc); c_userId <$> refresh; currentUserId t] in
  let familyIds := sortedUnique [a_familyId acc; c_familyId <$> refresh; currentFamilyId t] in
  let us := lockUsers userIds rows in
  let fs := lockFamilies userIds familyIds rows in
  let authority := classifyRefreshTokenAuthority sha256 now payload rows in
  let globals := global_users now us fs acc refresh authority in
  let globalUserIds := js_sort str_le (remove_dups globals) in
  let* _ := each (globallyRevokeUser now) globalUserIds in
  let* _ := each (λ familyId,
      match fs !! familyId with
      | Some f => if bool_decide (f_userId f ∈ globals) then ret tt
                  else modify (revokeRefreshFamilyById familyId now "terminal_logout")
      | None => ret tt
      end) (sortedUnique [stale_family now fs refresh authority; currentFamilyId t]) in
  ret globalUserIds.

Definition revokeTerminalSubjects (now : Z) (t : Transition) (acc : TerminalAccessAuthority) (payload : option TokenPayload)
    : Tx (list string) :=
  if negb (is_state t_active t) then throw GenericError
  else λ db, revoke_subjects now t acc payload db db.

Inductive Durable :=
| ordinary (globalUserIds : list string) (replacement : AuthBindingSource)
| pending (globalUserIds : list string) (transitionId logoutId : string) (generation issuedAt expiresAt : Z).

Definition prepare_callback (d : Draw) (k : BindingKind) (cf : bool) (nonce logoutId : string) (acc : TerminalAccessAuthority)
    (payload : option TokenPayload) (t : Transition) (m : KeyMaterial) : Tx Durable :=
  let* globalUserIds := revokeTerminalSubjects (d_now d) t acc payload in
  if cf then
    let issuedAt := d_now d / 1000 in
    let until := issuedAt + TERMINAL_LOGOUT_TTL_SECONDS in
    let* g := markLogoutPending (d_now d) t logoutId (sha256 nonce) (until * 1000) in
    ret (pending globalUserIds (t_id t) logoutId g issuedAt until)
  else
    let* replacement := retireWithSuccessor hmac d k t m in
    ret (ordinary globalUserIds replacement).

(** The durable half of [prepare], for an ordinary logout and for one that leaves
    through the identity provider. *)
Definition prepare (d : Draw) (source : AuthBindingSource) (cf : bool) (nonce logoutId : string)
    (acc : TerminalAccessAuthority) (payload : option TokenPayload) (db : Db) : result AuthError Durable * Db :=
  withTerminalLogoutTransition hmac d source (prepare_callback d (kind source) cf nonce logoutId acc payload) db.

(** The marks after the commit: what they leave, and whether all were made. *)
Fixpoint cleanup_users {R} `{Redis R} (redis : option R) (t : Z) (us : list (string * Landed)) : option R * bool :=
  match us with
  | [] => (redis, true)
  | (u, l) :: us' => let '(r1, ok1) := revokeAllUserTokens redis t u None l in
                     let '(r2, ok2) := cleanup_users r1 t us' in (r2, ok1 && ok2)
  end.
Definition cleanup {R} `{Redis R} (redis : option R) (t : Z) (us : list (string * Landed)) (refreshJti : option string)
    (l : Landed) : option R * bool :=
  let '(r1, ok1) := cleanup_users redis t us in
  match truthy refreshJti with
  | Some jti => let '(r2, res) := revokeRefreshTokenJti r1 t jti l in (r2, ok1 && is_Ok res)
  | None => (r1, ok1)
  end.
End logout.
End Logout.

(** ** The refresh route *)

Module Refresh.
Import FamilyStore Lifecycle Issue Revocation.

Definition getRefreshRateLimit (env : gmap string string) : Z := positiveIntFromEnv env "AUTH_REFRESH_RATE_LIMIT" 60.
Definition getRefreshRateWindowSeconds (env : gmap string string) : Z :=
  positiveIntFromEnv env "AUTH_REFRESH_RATE_WINDOW_SECONDS" 60.

Inductive Response :=
| unauthorized (cookie_cleared raced : bool)
| csrf_rejected
| mobile_blocked
| temporarily_unavailable
| rate_limited (retryAfter : Z)
| ip_check_failed
| ip_not_allowed
| binding_rotation_required (replacement : AuthBindingSource)
| issuance_unavailable
| server_error
| tokens (s : AuthorizedUserSession).

(** What the request brings, and what the calls to other services answer it: the
    claims of its token, a block of its phone, its rate-limit call, whether its
    user still has a tenant, and the decision of the allowlist. *)
Record Request := mkRequest {
  q_token : bool; q_csrf_ok : bool; q_payload : option TokenPayload; q_mobile_block : bool;
  q_e2e : bool; q_rate : SlidingWindow.Call; q_context_ok : bool;
  q_ip : result IpAllowlist.ReadError IpAllowlist.IpAllowlistDecision;
  q_source : AuthBindingSource; q_begin : Draw; q_issue : IssueDraw; q_clock : Z }.

(** The fate of each command and query of the request. *)
Record Fates := mkFates {
  l_jti : Landed; l_grace : Landed; l_sentinel : Landed; l_revoke_db : Landed; l_family : Landed; l_reads : bool;
  l_user1 : Landed; l_user2 : Landed; l_bind : Landed; l_mark : Landed; l_revoke : Landed; l_cancelled : bool; l_touched : bool }.

(** An error as the admission to issuance reports it. *)
Definition refreshIssuanceAdmissionError (e : AuthError) : Response :=
  match e with
  | AuthIssuanceConflictError => unauthorized false true
  | AuthBindingRotationRequiredError replacement _ => binding_rotation_required replacement
  | AuthBindingUnavailableError _ | AuthIssuanceCapabilityError | UserSessionEpochMismatchError => issuance_unavailable
  | _ => server_error
  end.

Section refresh.
Context (hmac : string → string → string) (sha256 : string → string) (env : gmap string string).
Context {R : Type} `{Redis R}.

(** [Math.ceil(n / 1000)]. *)
Definition ceil_seconds (n : Z) : Z := - ((- n) / 1000).

Definition rate_gate (q : Request) (fam : string) (redis : option R) : option R * option Response :=
  if q_e2e q then (redis, None)
  else match redis with
  | None => (redis, Some temporarily_unavailable)
  | Some r =>
      let '(r', res) := SlidingWindow.rateLimiter ("refresh:fam:" +:+ fam) (getRefreshRateLimit env)
                          (getRefreshRateWindowSeconds env) (Some r) true (q_rate q) in
      (r', if SlidingWindow.allowed res then None
           else Some (rate_limited (Z.max 1 (ceil_seconds (SlidingWindow.resetAt res - q_clock q)))))
  end.

(** A token whose mark is set: raced within the grace, reuse outside it. *)
Definition reuse_gate (q : Request) (f : Fates) (fam jti : string) (redis : option R) (db : Db)
    : option R * Db * option Response :=
  if isRefreshTokenJtiRevoked redis (q_clock q) jti (l_jti f) then
    if wasRefreshTokenJtiRecentlyRotated env redis (q_clock q) jti (l_grace f) then (redis, db, Some (unauthorized false true))
    else let '(r', db', _) := revokeFamily redis db (q_clock q) (d_now (q_begin q)) fam "reuse-detected" (l_sentinel f) (l_revoke_db f) in
         (r', db', Some (unauthorized true false))
  else (redis, db, None).

(** The checks of the family, the user and the caller, in order. *)
Definition state_gate (q : Request) (f : Fates) (p : TokenPayload) (fam : string) (redis : option R) (db : Db)
    : Response + User :=
  if isFamilyRevoked redis db (q_clock q) fam (l_family f) (l_reads f) then inl (unauthorized true false)
  else match getRefreshFamily fam db with
  | None => inl (unauthorized true false)
  | Some (revoked, expires) =>
      if bool_decide (revoked ≠ None) || (expires <=? q_clock q) then inl (unauthorized true false)
      else if isUserTokenRevoked redis (q_clock q) (p_sub p) (p_iat p) (l_user1 f) (l_user2 f) then inl (unauthorized true false)
      else match users db !! p_sub p with
      | None => inl (unauthorized true false)
      | Some u =>
          if negb (u_active u) then inl (unauthorized true false)
          else if isTokenIssuedBeforePasswordChange (p_iat p) (passwordChangedAt u) then inl (unauthorized true false)
          else if negb (bool_decide (p_aep p = Some (authEpoch u)) && bool_decide (p_mep p = Some (mfaEpoch u)))
          then inl (unauthorized true false)
          else if negb (q_context_ok q) then inl (unauthorized true false)
          else match q_ip q with
               | Err _ => inl ip_check_failed
               | Ok decision => if IpAllowlist.isBlocked decision then inl ip_not_allowed else inr u
               end
      end
  end.

(** Admission, the transaction, and the marks after it: the successor is delivered
    only if the mark of the predecessor could be made. *)
Definition issue_stage (q : Request) (f : Fates) (p : TokenPayload) (fam jti : string) (u : User) (redis : option R) (db : Db)
    : Response * option R * Db :=
  match beginAuthIssuance hmac (q_begin q) (q_source q) db with
  | (Err e, db1) => (refreshIssuanceAdmissionError e, redis, db1)
  | (Ok capability, db1) =>
      let options := mkOptions capability (authEpoch u) (mfaEpoch u) (Some fam) (Some jti) in
      match finishAuthIssuance (n_now (q_issue q)) capability
              (issueUserSession sha256 (q_issue q) (mkIdentity (p_sub p) (p_mdid p)) options) db1 with
      | (Err e, db2) =>
          let db3 := if l_cancelled f then cancelAuthIssuance (n_now (q_issue q)) capability db2 else db2 in
          (match e with RefreshTokenCurrentnessError => unauthorized false true | _ => refreshIssuanceAdmissionError e end, redis, db3)
      | (Ok issued, db2) =>
          let r1 := rememberJtiFamily redis (q_clock q) (s_refreshJti issued) (s_familyId issued) (l_bind f) in
          let r2 := markRefreshTokenJtiRotated env r1 (q_clock q) jti (l_mark f) in
          match revokeRefreshTokenJti r2 (q_clock q) jti (l_revoke f) with
          | (r3, Err _) => (unauthorized true false, r3, db2)
          | (r3, Ok _) =>
              (tokens issued, r3, if l_touched f then touchFamilyLastUsed db2 (n_now (q_issue q)) fam else db2)
          end
      end
  end.

(** [POST /auth/refresh]. *)
Definition refresh (q : Request) (f : Fates) (redis : option R) (db : Db) : Response * option R * Db :=
  if negb (q_token q) then (unauthorized true false, redis, db)
  else if negb (q_csrf_ok q) then (csrf_rejected, redis, db)
  else match q_payload q with
  | None => (unauthorized true false, redis, db)
  | Some p =>
      match p_type p, truthy (p_jti p) with
      | refresh_type, Some jti =>
          match truthy (p_fam p) with
          | None => (unauthorized true false, redis, db)
          | Some fam =>
              if bool_decide (is_Some (truthy (p_mdid p))) && q_mobile_block q then
                let '(r', db', _) := revokeFamily redis db (q_clock q) (d_now (q_begin q)) fam "mobile-device-blocked"
                                       (l_sentinel f) (l_revoke_db f) in
                (mobile_blocked, r', db')
              else
                let '(r1, stop1) := rate_gate q fam redis in
                match stop1 with
                | Some resp => (resp, r1, db)
                | None =>
                    let '(r2, db2, stop2) := reuse_gate q f fam jti r1 db in
                    match stop2 with
                    | Some resp => (resp, r2, db2)
                    | None =>
                        match state_gate q f p fam r2 db2 with
                        | inl resp => (resp, r2, db2)
                        | inr u => issue_stage q f p fam jti u r2 db2
                        end
                    end
                end
          end
      | _, _ => (unauthorized true false, redis, db)
      end
  end.
End refresh.
End Refresh.
