(* ===== verification/SessionHistory.v ===== *)
(** * Sessions: every history of the session services

    What the transactions of [Sessions] preserve ([SessionLemmas]), and every
    interleaving of them from empty tables, with the abstract specification of
    sessions and the refinement between them ([History]). *)
From S2P Require Import Prelude Transaction JsText JsDate IsoDate IpAccess Redis RateLimit AuthTransition Sessions.
From stdpp Require Import base tactics list strings gmap.
From Stdlib Require Import ZArith Lia Ascii.
Open Scope Z_scope.
Import Binding Issuance.

(** ** What the session transactions do and preserve *)

Module SessionLemmas.
Import FamilyStore Lifecycle Issue Revocation Logout Soundness.

Lemma inv_keep_transitions db db' :
  transitions db' = transitions db → map_le fam_le (families db) (families db') → inv db → inv db'.
Proof.
  intros Ht Hf [Hr Hd]. split; rewrite Ht; [|done]. intros id t Hid. destruct (Hr id t Hid) as (? & ? & Hfk).
  split_and!; [done..|]. intros u f Hu Hfam. destruct (Hfk u f Hu Hfam) as (x & Hx & Hxu).
  destruct (Hf f x Hx) as (y & Hy & (Hown & _)). exists y. split; [done|congruence].
Qed.

Lemma sound_keep_transitions db db' :
  transitions db' = transitions db → map_le fam_le (families db) (families db') → map_le user_le (users db) (users db') →
  inv db → inv db' ∧ evolves db db'.
Proof.
  intros Ht Hf Hu Hi. split; [by eapply inv_keep_transitions|]. split_and!; [|done..]. rewrite Ht. reflexivity.
Qed.

(** A change that issues nothing: no operation but those of [ok_op] appears, and
    every family keeps its current token. *)
Definition quietly (ok_op : string → Prop) (db db' : Db) : Prop :=
  (∀ id t' op, transitions db' !! id = Some t' → activeOperationId t' = Some op →
     ok_op op ∨ ∃ t, transitions db !! id = Some t ∧ activeOperationId t = Some op)
  ∧ ∀ k, currentRefreshJtiDigest <$> families db' !! k = currentRefreshJtiDigest <$> families db !! k.

#[export] Instance quietly_preorder ok_op : PreOrder (quietly ok_op).
Proof.
  split; [intros db; split; [eauto|done]|].
  intros a b c [H1 F1] [H2 F2]. split; [|intros k; by rewrite F2].
  intros id t op Ht Hop. destruct (H2 id t op Ht Hop) as [?|(t1 & Ht1 & Hop1)]; eauto.
Qed.

#[export] Instance quietly_tolerant ok_op : Tolerant (quietly ok_op) ok_op.
Proof.
  split; [apply _| |].
  - intros db t t' Ht Hid Hop. split; [|done]. unfold put; cbn [transitions].
    intros id x op Hx Hxop. rewrite Hid in Hx. apply lookup_insert_Some in Hx as [[<- <-]|[_ Hx]]; [|eauto].
    destruct (Hop op Hxop); eauto.
  - intros db t Ht Hop. split; [|done]. unfold put; cbn [transitions].
    intros id x op Hx Hxop. apply lookup_insert_Some in Hx as [[<- <-]|[_ Hx]]; [congruence|eauto].
Qed.

Section quiet.
Context (ok_op : string → Prop).
Notation calm := (sound (quietly ok_op)).

Lemma moves_keep_transitions db db' :
  transitions db' = transitions db → map_le fam_le (families db) (families db') → map_le user_le (users db) (users db') →
  (∀ k, currentRefreshJtiDigest <$> families db' !! k = currentRefreshJtiDigest <$> families db !! k) →
  moves (quietly ok_op) db db'.
Proof.
  intros Ht Hf Hu Hc Hi. destruct (sound_keep_transitions db db' Ht Hf Hu Hi). split_and!; [done..|].
  split; [|done]. rewrite Ht. eauto.
Qed.

(** An update of families that keeps owner and expiry and clears no revocation. *)
Lemma revoke_where_moves p now reason db : moves (quietly ok_op) db (revoke_where p now reason db).
Proof.
  apply moves_keep_transitions; [done| |reflexivity|]; intros k; [intros f Hf|]; unfold revoke_where; cbn [families];
    rewrite map_lookup_imap; [rewrite Hf; cbn; eexists; split; [done|]|].
  - destruct (p k f); [|reflexivity]. unfold fam_le, revoke_row; cbn. split_and!; try done. by destruct (revokedAt f).
  - destruct (families db !! k) as [f|]; [|done]. cbn. by destruct (p k f).
Qed.

Lemma touch_moves db now fam : moves (quietly ok_op) db (touchFamilyLastUsed db now fam).
Proof.
  unfold touchFamilyLastUsed. destruct (families db !! fam) as [f|] eqn:E; [|reflexivity].
  apply moves_keep_transitions; [done| |reflexivity|]; cbn [put_family families].
  - apply map_le_insert; [apply _|]. rewrite E. by intros y [= <-].
  - intros k. destruct (decide (fam = k)) as [<-|]; [by rewrite lookup_insert_eq, E|by rewrite lookup_insert_ne].
Qed.

Lemma calm_do f : (∀ db, moves (quietly ok_op) db (f db)) → calm (modify f).
Proof. intros Hf db a db' [= <- <-]. apply Hf. Qed.

Lemma calm_advance userId fs x : calm (advanceUserEpochs userId fs x).
Proof.
  intros db a db' H. unfold advanceUserEpochs in H. destruct (users db !! userId) as [u|] eqn:E; [|done].
  destruct (match x with Some y => precondition y u | None => true end); simplify_eq.
  apply moves_keep_transitions; [done|reflexivity| |done]. cbn [put_user users].
  apply map_le_insert; [apply _|]. rewrite E. intros y [= <-]. unfold user_le, bump_epochs, bump; cbn.
  split_and!; case_match; lia.
Qed.

Lemma calm_each {A} (f : A → Tx unit) l : (∀ a, calm (f a)) → calm (each f l).
Proof. intros Hf. induction l as [|a l IH]; cbn [each]; solve_sound. Qed.

Section logout.
Context (hmac : string → string → string) (sha256 : string → string).

Lemma calm_globallyRevoke now u : calm (globallyRevokeUser now u).
Proof.
  unfold globallyRevokeUser. apply sound_bind; [apply _|apply calm_advance|]. intros _. apply calm_do.
  intros db. apply revoke_where_moves.
Qed.

Lemma calm_subjects now t acc payload rows : calm (revoke_subjects sha256 now t acc payload rows).
Proof.
  unfold revoke_subjects. apply sound_bind; [apply _|apply calm_each, calm_globallyRevoke|]. intros _.
  apply sound_bind; [apply _| |intros _; apply sound_ret; apply _]. apply calm_each. intros fam. solve_sound.
  apply calm_do. intros db. apply revoke_where_moves.
Qed.

Lemma calm_revokeTerminal now t acc payload : calm (revokeTerminalSubjects sha256 now t acc payload).
Proof.
  unfold revokeTerminalSubjects. destruct (negb _); [apply sound_throw; apply _|].
  intros db a db'. apply calm_subjects.
Qed.

Lemma prepare_moves d s cf nonce l acc payload db :
  moves (quietly ok_op) db (prepare hmac sha256 d s cf nonce l acc payload db).2.
Proof.
  unfold prepare. apply (withLogout_sound _ ok_op). intros t m. unfold prepare_callback.
  apply sound_bind; [apply _|apply calm_revokeTerminal|]. intros us. destruct cf.
  - apply sound_bind; [apply _| |intros g; solve_sound]. apply (sound_markPending _ ok_op).
    unfold TERMINAL_LOGOUT_TTL_SECONDS. pose proof (Z.div_mod (d_now d) 1000). pose proof (Z.mod_pos_bound (d_now d) 1000). lia.
  - apply sound_bind; [apply _|apply (sound_retireWithSuccessor _ ok_op)|intros r; solve_sound].
Qed.
End logout.
End quiet.

Section lemmas.
Context (hmac : string → string → string) (sha256 : string → string).
Notation dg := (digestRefreshTokenJti sha256).

Lemma mint_spec env clock now fam u jti mdid db a db' :
  mintRefreshTokenFamily sha256 env clock now fam u jti mdid db = Ok (a, db') →
  a = fam ∧ families db !! fam = None
  ∧ ∃ f, db' = put_family fam f db ∧ f_userId f = u ∧ revokedAt f = None
         ∧ currentRefreshJtiDigest f = (dg <$> jti).
Proof.
  unfold mintRefreshTokenFamily. destruct (families db !! fam) eqn:E; [done|]. intros [= <- <-].
  split_and!; [done..|]. eexists. by split_and!.
Qed.

(** A rotation succeeds exactly on the owner's live family whose current token is
    the presented one, or that has none recorded. *)
Definition rotatable (now : Z) (fam u presented : string) (db : Db) (f : Family) : Prop :=
  families db !! fam = Some f ∧ f_userId f = u ∧ revokedAt f = None ∧ now < absoluteExpiresAt f
  ∧ (currentRefreshJtiDigest f = None ∨ currentRefreshJtiDigest f = Some (dg presented)).

Lemma rotate_spec now fam u presented successor db :
  match rotateRefreshTokenFamilyCurrentJti sha256 now fam u presented successor db with
  | Ok (_, db') => ∃ f, rotatable now fam u presented db f ∧ db' = put_family fam (set_current (dg successor) now f) db
  | Err e => e = RefreshTokenCurrentnessError ∧ ∀ f, ¬ rotatable now fam u presented db f
  end.
Proof.
  unfold rotateRefreshTokenFamilyCurrentJti, select_family, rotatable.
  destruct (families db !! fam) as [f|] eqn:Ef; cbn; [|split; [done|]; by intros f (? & _)].
  destruct (String.eqb_spec (f_userId f) u) as [Hu|Hu]; cbn; [|split; [done|]; intros g (? & ? & _); simplify_eq; done].
  destruct (bool_decide_reflect (revokedAt f ≠ None)) as [Hr|Hr]; cbn;
    [split; [done|]; intros g (? & ? & ? & _); simplify_eq; done|].
  destruct (Z.leb_spec (absoluteExpiresAt f) now) as [Hx|Hx]; cbn;
    [split; [done|]; intros g (? & ? & ? & ? & _); simplify_eq; lia|].
  assert (revokedAt f = None) as Hr' by (destruct (revokedAt f); [by destruct Hr|done]).
  unfold opt_eqb. destruct (currentRefreshJtiDigest f) as [d|] eqn:Ed.
  - rewrite (bool_decide_eq_false_2 (Some d = None)) by done. cbn.
    destruct (bool_decide_reflect (Some d = Some (dg presented))) as [Hd|Hd]; cbn.
    + rewrite bool_decide_eq_true_2 by done. cbn. exists f. simplify_eq. split_and!; auto.
    + split; [done|]. by intros g (? & ? & ? & ? & [?|?]); simplify_eq.
  - cbn. rewrite bool_decide_eq_true_2 by done. cbn. exists f. split_and!; auto.
Qed.

Lemma bind_session_spec now c u fam db a db' :
  bindAuthIssuanceSession now c u fam db = Ok (a, db') →
  ∃ t, transitions db !! transitionId c = Some t ∧ owns c t = true ∧ db' = put (set_session u fam now t) db.
Proof.
  unfold bindAuthIssuanceSession, bind, update_transition. destruct (transitions db !! transitionId c) as [t|]; [|done].
  destruct (owns c t) eqn:E; [|done]. cbn. intros [= _ <-]. eauto.
Qed.

Lemma assert_spec now c db a db' :
  assertAuthIssuanceCapability now c db = Ok (a, db') → db' = db ∧ holds_lease now c (transitions db !! transitionId c) = true.
Proof.
  unfold assertAuthIssuanceCapability, bind, lockTransitionById. cbn. destruct (holds_lease _ _ _); [|done]. by intros [= _ <-].
Qed.

(** What an issued session is: a rotation of a family the presented token could
    rotate, or a family that did not exist. *)
Inductive issued_family (n : IssueDraw) (identity : UserSessionIdentity) (o : IssueOptions) (db : Db) : string → Family → Prop :=
| issued_rotation fam presented f :
    o_familyId o = Some fam → o_presentedJti o = Some presented →
    rotatable (n_now n) fam (i_userId identity) presented db f →
    issued_family n identity o db fam (set_current (dg (n_refreshJti n)) (n_now n) f)
| issued_mint f :
    o_familyId o = None → families db !! n_familyId n = None → f_userId f = i_userId identity → revokedAt f = None →
    currentRefreshJtiDigest f = Some (dg (n_refreshJti n)) →
    issued_family n identity o db (n_familyId n) f.

Lemma issue_spec n identity o db s db' :
  issueUserSession sha256 n identity o db = Ok (s, db') →
  ∃ u fam f t, users db !! i_userId identity = Some u ∧ u_active u = true
    ∧ authEpoch u = o_authEpoch o ∧ mfaEpoch u = o_mfaEpoch o
    ∧ holds_lease (n_now n) (o_capability o) (transitions db !! transitionId (o_capability o)) = true
    ∧ transitions db !! transitionId (o_capability o) = Some t
    ∧ issued_family n identity o db fam f
    ∧ db' = put (set_session (i_userId identity) fam (n_now n) t) (put_family fam f db)
    ∧ s = mkSession (i_userId identity) fam (n_refreshJti n) (authEpoch u) (mfaEpoch u)
        (transitionId (o_capability o)) (generation (o_capability o)).
Proof.
  unfold issueUserSession. unfold bind at 1. destruct (assertAuthIssuanceCapability _ _ db) as [[[] db0]|] eqn:Ea; [|done].
  apply assert_spec in Ea as [-> Hlease]. unfold bind at 1, lockLiveUserSecurityState.
  destruct (users db !! i_userId identity) as [u|] eqn:Eu; [|done]. destruct (u_active u) eqn:Ea; [|done].
  destruct ((authEpoch u =? o_authEpoch o) && (mfaEpoch u =? o_mfaEpoch o)) eqn:Ee; cbn [negb]; [|done]. bool_hyps.
  unfold bind at 1. intros Hs.
  match type of Hs with match ?c with _ => _ end = _ => destruct c as [[fam db1]|] eqn:Ef; [|done] end.
  assert (∃ f, issued_family n identity o db fam f ∧ db1 = put_family fam f db) as (f & Hf & ->).
  { destruct (o_familyId o) as [fam0|] eqn:Eo.
    - destruct (o_presentedJti o) as [pj|] eqn:Ep; [|done]. unfold bind in Ef.
      pose proof (rotate_spec (n_now n) fam0 (i_userId identity) pj (n_refreshJti n) db) as Hr.
      destruct (rotateRefreshTokenFamilyCurrentJti _ _ _ _ _ _ db) as [[? db2]|]; [|done]. simplify_eq.
      destruct Hr as (f & Hrot & ->). unfold ret in Ef. simplify_eq. eexists. split; [by econstructor|done].
    - apply mint_spec in Ef as (-> & Hnone & f & -> & Hu & Hr & Hd). exists f. split; [by constructor|done]. }
  unfold bind in Hs. destruct (bindAuthIssuanceSession _ _ _ _ _) as [[? db3]|] eqn:Eb; [|done]. unfold ret in Hs. simplify_eq.
  apply bind_session_spec in Eb as (t & Ht & _ & ->). cbn in Ht. exists u, fam, f, t. by split_and!.
Qed.

Lemma issued_owner n identity o db fam f : issued_family n identity o db fam f → f_userId f = i_userId identity.
Proof. intros []; [|done]. destruct H1 as (_ & ? & _). done. Qed.

Lemma issued_fam_le n identity o db fam f y :
  issued_family n identity o db fam f → families db !! fam = Some y → fam_le y f.
Proof.
  intros [fam' pj f' _ _ (Hf & _ & Hr & _)|f' _ Hnone _ _ _] Hy; [|congruence].
  simplify_eq. unfold fam_le, set_current; cbn. done.
Qed.

#[local] Instance anything_tolerant ok_op : Tolerant (λ _ _ : Db, True) ok_op.
Proof. by repeat split. Qed.

Lemma sound_issue n identity o : sound (λ _ _, True) (issueUserSession sha256 n identity o).
Proof.
  intros db s db' H Hi. apply issue_spec in H as (u & fam & f & t & Hu & _ & _ & _ & Hlease & Ht & Hf & -> & _).
  assert (inv (put_family fam f db) ∧ evolves db (put_family fam f db)) as [Hi1 He1].
  { apply sound_keep_transitions; [done| |reflexivity|done]. cbn. apply map_le_insert; [apply _|].
    intros y Hy. by eapply issued_fam_le. }
  destruct (inv_rows db Hi _ _ Ht) as (Hid & (Hg & Ho & Hc & Hs) & _).
  destruct (moves_put (λ _ _, True) (λ _, True) (put_family fam f db) t
              (set_session (i_userId identity) fam (n_now n) t)) as (Hi2 & He2 & _).
  - cbn. by rewrite Hid.
  - unfold row_le, set_session; cbn. split_and!; done || lia.
  - assert (t_state t = t_active) as Hst.
    { rewrite Ht in Hlease. cbn in Hlease. unfold is_state in Hlease. by bool_hyps. }
    unfold row_ok, set_session; cbn. rewrite Hst in *. destruct Hs as (? & ? & ? & ?). by split_and!.
  - intros u' f' [= <-] [= <-]. exists f. cbn. rewrite lookup_insert_eq. split; [done|by eapply issued_owner].
  - by right.
  - done.
  - split_and!; [done|by etransitivity|done].
Qed.

Lemma finish_spec {A} now c (cb : Tx A) db a db' :
  finishAuthIssuance now c cb db = (Ok a, db') →
  ∃ db1 t, cb db = Ok (a, db1) ∧ holds_lease now c (transitions db !! transitionId c) = true
    ∧ transitions db1 !! transitionId c = Some t ∧ owns c t = true ∧ db' = put (set_operation None now t) db1.
Proof.
  unfold finishAuthIssuance, run_tx, bind, lockTransitionById. cbn.
  destruct (holds_lease now c (transitions db !! transitionId c)) eqn:Hl; [|done].
  destruct (cb db) as [[x db1]|] eqn:Ec; [|done]. unfold update_transition.
  destruct (transitions db1 !! transitionId c) as [t|] eqn:Et; [|done]. destruct (owns c t) eqn:Eo; [|done].
  cbn. intros [= <- <-]. eauto 10.
Qed.

(** A committed issuance, seen from outside: the lease it held, the user, the family
    before and after, and the row, whose operation is gone. *)
Lemma finish_issue_spec now n identity o db s db' :
  inv db → finishAuthIssuance now (o_capability o) (issueUserSession sha256 n identity o) db = (Ok s, db') →
  ∃ u fam f t t', users db !! i_userId identity = Some u ∧ u_active u = true
    ∧ authEpoch u = o_authEpoch o ∧ mfaEpoch u = o_mfaEpoch o
    ∧ transitions db !! transitionId (o_capability o) = Some t ∧ t_state t = t_active
    ∧ activeOperationId t = Some (operationId (o_capability o))
    ∧ issued_family n identity o db fam f
    ∧ s = mkSession (i_userId identity) fam (n_refreshJti n) (authEpoch u) (mfaEpoch u)
        (transitionId (o_capability o)) (generation (o_capability o))
    ∧ users db' = users db ∧ families db' = <[fam := f]> (families db)
    ∧ transitions db' = <[transitionId (o_capability o) := t']> (transitions db) ∧ activeOperationId t' = None
    ∧ inv db' ∧ evolves db db'.
Proof.
  intros Hi Hfin. apply finish_spec in Hfin as (db1 & t1 & Hcb & Hl & Ht1 & Ho & ->).
  destruct (sound_issue n identity o db s db1 Hcb Hi) as (Hi1 & He1 & _).
  apply issue_spec in Hcb as (u & fam & f & t & Hu & Hact & Hae & Hme & Hl2 & Ht & Hf & -> & ->).
  destruct (inv_rows db Hi _ _ Ht) as (Hid & _ & _).
  assert (t1 = set_session (i_userId identity) fam (n_now n) t) as ->.
  { cbn in Ht1. rewrite Hid, lookup_insert_eq in Ht1. by simplify_eq. }
  set (db1 := put (set_session (i_userId identity) fam (n_now n) t) (put_family fam f db)) in *.
  assert (moves (λ _ _, True) db1 (put (set_operation None now (set_session (i_userId identity) fam (n_now n) t)) db1)) as Hm.
  { pose proof (sound_clear_owned (λ _ _, True) (λ _, True) now (o_capability o) db1 true) as H. apply H.
    unfold update_transition. by rewrite Ht1, Ho. }
  destruct (Hm Hi1) as (Hi2 & He2 & _). rewrite Ht in Hl2. cbn in Hl2. unfold is_state, opt_eqb in Hl2. bool_hyps.
  exists u, fam, f, t, (set_operation None now (set_session (i_userId identity) fam (n_now n) t)).
  split_and!; try done; [|by etransitivity].
  cbn. by rewrite Hid, insert_insert_eq.
Qed.
End lemmas.
End SessionLemmas.

(** ** Every history of sessions

    The transactions of all the services interleave in any order; Redis is not
    consulted, so nothing here depends on what it remembers. *)
Module History.
Import FamilyStore Lifecycle Issue Revocation Logout Soundness SessionLemmas.

(** A committed issuance: the session, the token it was exchanged for, and the
    capability it used. *)
Record Issued := mkIssued { g_session : AuthorizedUserSession; g_presented : option string; g_capability : AuthIssuanceCapability }.
Definition g_transition (g : Issued) : string := transitionId (g_capability g).

(** The database, the issuances, newest first, and the operation ids drawn. *)
Record World := mkWorld { w_db : Db; w_log : list Issued; w_ops : list string }.

Definition family_of (g : Issued) : string := s_familyId (g_session g).
Definition successor_of (g : Issued) : string := s_refreshJti (g_session g).

(** The tokens of a family, newest first, and every token seen. *)
Definition chain (f : string) (log : list Issued) : list string :=
  successor_of <$> filter (λ g, family_of g = f) log.
Definition seen (log : list Issued) : list string :=
  concat ((λ g, successor_of g :: option_list (g_presented g)) <$> log).

Section history.
Context (hmac : string → string → string) (sha256 : string → string).
Notation dg := (digestRefreshTokenJti sha256).

(** The transactions that issue nothing. *)
Inductive quiet : Db → Db → Prop :=
| q_cancel now c db : quiet db (cancelAuthIssuance now c db)
| q_rotateExpired d s db : quiet db (rotateExpiredBinding hmac d s db).2
| q_complete d k db : quiet db (completeTerminalLogout hmac sha256 d k db).2
| q_cleanup now picked db : quiet db (cleanupAuthBrowserTransitions now picked db)
| q_logout d s cf nonce l acc payload db : quiet db (prepare hmac sha256 d s cf nonce l acc payload db).2
| q_revoke_family f now reason db : quiet db (revokeRefreshFamilyById f now reason db)
| q_revoke_user u now reason db : quiet db (revokeAllRefreshFamilies u now reason db)
| q_revoke_device u dev now reason db : quiet db (revokeMobileDeviceRefreshFamilies u dev now reason db)
| q_touch db now f : quiet db (touchFamilyLastUsed db now f)
| q_epochs u fs x db : quiet db (run_tx (advanceUserEpochs u fs x) db).2
| q_user id u db : (∀ old, users db !! id = Some old → user_le old u) → quiet db (put_user id u db).

Inductive wstep : World → World → Prop :=
| h_begin db log ops d s :
    d_operationId d ∉ ops →
    wstep (mkWorld db log ops) (mkWorld (beginAuthIssuance hmac d s db).2 log (d_operationId d :: ops))
| h_begin_stored db log ops d id g :
    d_operationId d ∉ ops →
    wstep (mkWorld db log ops)
      (mkWorld (beginAuthIssuanceForStoredTransition d id g (ret tt) db).2 log (d_operationId d :: ops))
| h_issue db log ops now n identity o s db' :
    finishAuthIssuance now (o_capability o) (issueUserSession sha256 n identity o) db = (Ok s, db') →
    n_refreshJti n ∉ seen log → Some (n_refreshJti n) ≠ o_presentedJti o →
    wstep (mkWorld db log ops)
      (mkWorld db' (mkIssued s (_ ← o_familyId o; o_presentedJti o) (o_capability o) :: log) ops)
| h_legacy db log ops env clock now f u mdid a db' :
    mintRefreshTokenFamily sha256 env clock now f u None mdid db = Ok (a, db') →
    wstep (mkWorld db log ops) (mkWorld db' log ops)
| h_quiet db log ops db' : quiet db db' → wstep (mkWorld db log ops) (mkWorld db' log ops).

Definition initial (w : World) : Prop :=
  transitions (w_db w) = ∅ ∧ families (w_db w) = ∅ ∧ w_log w = [] ∧ w_ops w = [].
Definition reachable (w : World) : Prop := ∃ w0, initial w0 ∧ rtc wstep w0 w.

(** ** The specification

    A family has an owner and a chain of tokens.  It starts with its first token
    (or, for a family of the old issuers, with none recorded), it is extended by
    exchanging its newest token, and it ends for good. *)
Record SFam := mkSFam { sf_owner : string; sf_chain : list string; sf_live : bool }.
Abbreviation Spec := (gmap string SFam).

Definition ended (x : SFam) : SFam := mkSFam (sf_owner x) (sf_chain x) false.

Inductive sstep : Spec → Spec → Prop :=
| ss_start S f u j :
    S !! f = None → (∀ g x, S !! g = Some x → j ∉ sf_chain x) → sstep S (<[f := mkSFam u [j] true]> S)
| ss_start_legacy S f u : S !! f = None → sstep S (<[f := mkSFam u [] true]> S)
| ss_exchange S f x old new :
    S !! f = Some x → sf_live x = true → (sf_chain x = [] ∨ head (sf_chain x) = Some old) →
    (∀ g y, S !! g = Some y → new ∉ sf_chain y) →
    sstep S (<[f := mkSFam (sf_owner x) (new :: sf_chain x) true]> S)
| ss_end S f x : S !! f = Some x → sstep S (<[f := ended x]> S).

(** What a world stands for. *)
Definition abs (w : World) : Spec :=
  map_imap (λ f fam, Some (mkSFam (f_userId fam) (chain f (w_log w)) (bool_decide (revokedAt fam = None)))) (families (w_db w)).

(** ** The invariant *)

Definition exchange_of (g : Issued) : option (string * string) := (λ p, (family_of g, p)) <$> g_presented g.

Definition lease_of (g : Issued) : string * string := (g_transition g, operationId (g_capability g)).

Record ok (w : World) : Prop := {
  ok_inv : inv (w_db w);
  ok_current : ∀ f fam, families (w_db w) !! f = Some fam → currentRefreshJtiDigest fam = dg <$> head (chain f (w_log w));
  ok_absent : ∀ f, families (w_db w) !! f = None → chain f (w_log w) = [];
  ok_active_ops : ∀ id t op, transitions (w_db w) !! id = Some t → activeOperationId t = Some op →
    op ∈ w_ops w ∧ (id, op) ∉ lease_of <$> w_log w;
  ok_log_ops : ∀ g, g ∈ w_log w → operationId (g_capability g) ∈ w_ops w;
  ok_single_use : NoDup (lease_of <$> w_log w);
  ok_spent : ∀ g p, g ∈ w_log w → g_presented g = Some p → head (chain (family_of g) (w_log w)) ≠ Some p;
  ok_once : NoDup (omap exchange_of (w_log w)) }.

Context `{Hdg : !Inj (=) (=) (digestRefreshTokenJti sha256)}.

Lemma quiet_moves db db' : quiet db db' → moves (quietly (λ _, False)) db db'.
Proof.
  destruct 1.
  - apply (cancel_sound _ (λ _, False)).
  - apply (rotateExpired_sound _ (λ _, False)).
  - apply (completeLogout_sound _ (λ _, False)).
  - apply (cleanup_sound _ (λ _, False)).
  - apply prepare_moves.
  - apply revoke_where_moves.
  - apply revoke_where_moves.
  - apply revoke_where_moves.
  - apply touch_moves.
  - apply (run_tx_sound _ (λ _, False)), calm_advance.
  - apply moves_keep_transitions; [done|reflexivity| |done]. cbn. by apply map_le_insert; [apply _|].
Qed.

Lemma same_families {okop} db db' f :
  quietly okop db db' → (families db' !! f = None ↔ families db !! f = None).
Proof. intros [_ Hf]. specialize (Hf f). by destruct (families db' !! f), (families db !! f). Qed.

Lemma ok_quiet okop db db' log ops ops' :
  moves (quietly okop) db db' → (∀ op, okop op → op ∈ ops' ∧ op ∉ ops) → ops ⊆ ops' →
  ok (mkWorld db log ops) → ok (mkWorld db' log ops').
Proof.
  intros Hm Hok Hsub [Hi Hc Ha Ho Hl Hs Hsp Hon]. cbn [w_db w_log w_ops] in *. destruct (Hm Hi) as (Hi' & _ & Hq).
  split; cbn [w_db w_log w_ops]; try done.
  - intros f fam Hf. destruct Hq as [_ Hq]. specialize (Hq f). rewrite Hf in Hq.
    destruct (families db !! f) as [fam0|] eqn:E0; [|done]. cbn in Hq. injection Hq as ->. by apply Hc.
  - intros f Hf. apply Ha. by apply (same_families (okop := okop) db db').
  - intros id t op Ht Hop. destruct Hq as [Hq _]. destruct (Hq id t op Ht Hop) as [Hnew|(t0 & Ht0 & Hop0)].
    + destruct (Hok op Hnew) as [Hin Hno]. split; [done|]. intros (g & Hg & Hgl)%list_elem_of_fmap.
      apply Hno. unfold lease_of in Hg. simplify_eq. by apply Hl.
    + destruct (Ho id t0 op Ht0 Hop0). split; [by apply Hsub|done].
  - intros g Hg. by apply Hsub, Hl.
Qed.

Lemma chain_cons f g log : chain f (g :: log) = if decide (family_of g = f) then successor_of g :: chain f log else chain f log.
Proof. unfold chain. rewrite filter_cons. by case_decide. Qed.

Lemma ok_issue db log ops now n identity o s db' :
  finishAuthIssuance now (o_capability o) (issueUserSession sha256 n identity o) db = (Ok s, db') →
  n_refreshJti n ∉ seen log → Some (n_refreshJti n) ≠ o_presentedJti o →
  ok (mkWorld db log ops) →
  ok (mkWorld db' (mkIssued s (_ ← o_familyId o; o_presentedJti o) (o_capability o) :: log) ops).
Proof.
  intros Hfin Hfresh Hne [Hi Hc Ha Ho Hl Hs Hsp Hon]. cbn [w_db w_log w_ops] in *.
  apply finish_issue_spec in Hfin as (u & fam & f & t & t' & Hu & _ & _ & _ & Ht & _ & Hop & Hf & -> & Husers & Hfams
    & Htrans & Hop' & Hi' & He'); [|done].
  set (g := mkIssued _ _ _). assert (family_of g = fam) as Hgf by done.
  assert (∀ p, g_presented g = Some p → o_familyId o = Some fam ∧ o_presentedJti o = Some p
            ∧ ∀ fa, families db !! fam = Some fa → currentRefreshJtiDigest fa = None ∨ currentRefreshJtiDigest fa = Some (dg p)) as Hpres.
  { unfold g. cbn. intros p Hp. destruct Hf as [fam0 p0 f0 Hof Hop0 (Hf0 & _ & _ & _ & Hd)|f0 Hof]; rewrite Hof in Hp; [|done].
    cbn in Hp. split_and!; [done..|]. intros fa Hfa. simplify_eq. done. }
  split; cbn [w_db w_log w_ops]; try done.
  - intros f1 fam1 Hf1. rewrite Hfams in Hf1. rewrite chain_cons, Hgf.
    apply lookup_insert_Some in Hf1 as [[<- <-]|[Hne1 Hf1]]; [|by rewrite decide_False; [apply Hc|]].
    rewrite decide_True by done. cbn. by destruct Hf.
  - intros f1 Hf1. rewrite Hfams in Hf1. apply lookup_insert_None in Hf1 as [Hf1 Hne1].
    rewrite chain_cons, decide_False by congruence. by apply Ha.
  - intros id t1 op Ht1 Hop1. rewrite Htrans in Ht1.
    apply lookup_insert_Some in Ht1 as [[<- <-]|[Hid Ht1]]; [congruence|].
    destruct (Ho id t1 op Ht1 Hop1) as [Hin Hno]. split; [done|]. rewrite fmap_cons, not_elem_of_cons.
    split; [|done]. unfold lease_of, g_transition, g; cbn. congruence.
  - intros g' [->|Hg']%elem_of_cons; [|by apply Hl]. unfold g; cbn. by apply (Ho _ t _ Ht Hop).
  - rewrite fmap_cons. constructor; [|done]. unfold lease_of at 1, g_transition, g; cbn. by apply (Ho _ t _ Ht Hop).
  - intros g' p Hg' Hp. rewrite chain_cons. case_decide as Hd; [|by apply elem_of_cons in Hg' as [->|Hg']; [|eapply Hsp]].
    cbn. unfold successor_of, g; cbn. intros [= Heq]. apply elem_of_cons in Hg' as [->|Hg'].
    + destruct (Hpres p Hp) as (_ & ? & _). congruence.
    + apply Hfresh. rewrite Heq. unfold seen. apply list_elem_of_In, in_concat. eexists. rewrite <-!list_elem_of_In.
      split; [apply list_elem_of_fmap; by exists g'|]. rewrite Hp. cbn. right. by left.
  - cbn [omap list_omap]. destruct (exchange_of g) as [[f1 p]|] eqn:Eg; [|done]. constructor; [|done].
    unfold exchange_of in Eg. apply fmap_Some in Eg as (p' & Hp' & [= -> ->]). rewrite Hgf.
    intros (g' & Hg' & Eg')%list_elem_of_omap. unfold exchange_of in Eg'. apply fmap_Some in Eg' as (p & Hp & [= Hf1 ->]).
    destruct (Hpres p Hp') as (_ & _ & Hcur). specialize (Hsp g' p Hg' Hp). rewrite <-Hf1 in Hsp.
    destruct (families db !! fam) as [fa|] eqn:Efa.
    + specialize (Hc fam fa Efa). destruct (Hcur fa eq_refl) as [Hnone|Hsome].
      * rewrite Hnone in Hc. destruct (chain fam log) eqn:Ec; [|done].
        assert (successor_of g' ∈ chain fam log) as Hin; [|rewrite Ec in Hin; by auto with breeze].
        apply list_elem_of_fmap. exists g'. by rewrite list_elem_of_filter.
      * rewrite Hsome in Hc. destruct (chain fam log) as [|j l]; [done|]. cbn in Hc, Hsp. injection Hc as Hc%Hdg. congruence.
    + assert (successor_of g' ∈ chain fam log) as Hin; [|rewrite (Ha fam Efa) in Hin; by auto with breeze].
      apply list_elem_of_fmap. exists g'. by rewrite list_elem_of_filter.
Qed.

Lemma history_step_ok w w' : wstep w w' → ok w → ok w'.
Proof.
  destruct 1 as [db log ops d s Hnew|db log ops d id g Hnew|db log ops now n identity o s db' Hfin Hfresh Hne
    |db log ops env clock now f u mdid a db' Hm|db log ops db' Hq]; intros Hok.
  - apply (ok_quiet (λ op, op = d_operationId d) db _ log ops); [by apply (begin_sound _ (λ op, op = d_operationId d))| |set_solver|done].
    intros op ->. split; [by left|done].
  - apply (ok_quiet (λ op, op = d_operationId d) db _ log ops); [apply (beginStored_sound _ (λ op, op = d_operationId d)); [done|apply sound_ret; apply _]| |set_solver|done].
    intros op ->. split; [by left|done].
  - by eapply ok_issue.
  - destruct Hok as [Hi Hc Ha Ho Hl Hs Hsp Hon]. cbn [w_db w_log w_ops] in *.
    apply mint_spec in Hm as (-> & Hnone & fam & -> & Hu & Hr & Hd).
    split; cbn [w_db w_log w_ops put_family families transitions]; try done.
    + apply (inv_keep_transitions db); [done| |done]. cbn. apply map_le_insert; [apply _|]. by rewrite Hnone.
    + intros f1 fam1 Hf1. apply lookup_insert_Some in Hf1 as [[<- <-]|[_ Hf1]]; [|by apply Hc].
      rewrite Hd, (Ha f Hnone). done.
    + intros f1 [Hf1 _]%lookup_insert_None. by apply Ha.
  - apply (ok_quiet (λ _, False) db _ log ops); [by apply quiet_moves|done|done|done].
Qed.

Lemma history_ok w : reachable w → ok w.
Proof.
  intros (w0 & (Ht & Hf & Hlog & Hops) & Hr). apply (rtc_invariant wstep ok w0 w history_step_ok Hr).
  split; rewrite ?Ht, ?Hf, ?Hlog; try (by apply NoDup_nil_2).
  - split; rewrite Ht; intros; by auto with breeze.
  - intros f fam Hx. by auto with breeze.
  - done.
  - intros id t op Hx. by auto with breeze.
  - intros g Hg. by auto with breeze.
  - intros g p Hg. by auto with breeze.
Qed.

(** ** Refinement *)

Definition end_one (f : string) (S : Spec) : Spec :=
  match S !! f with Some x => <[f := ended x]> S | None => S end.

Lemma ends_steps l S : rtc sstep S (foldr end_one S l).
Proof.
  induction l as [|f l IH]; [done|]. cbn. unfold end_one at 1.
  destruct (foldr end_one S l !! f) as [x|] eqn:E; [|done]. eapply rtc_r; [exact IH|]. by constructor.
Qed.

Lemma end_one_lookup g S f : end_one g S !! f = if decide (f = g) then ended <$> S !! f else S !! f.
Proof.
  unfold end_one. destruct (S !! g) as [x|] eqn:E; case_decide as Hd; subst.
  - by rewrite lookup_insert_eq, E.
  - by rewrite lookup_insert_ne.
  - by rewrite E.
  - done.
Qed.

Lemma ends_lookup l S f :
  foldr end_one S l !! f = if decide (f ∈ l) then ended <$> S !! f else S !! f.
Proof.
  induction l as [|g l IH]; [done|]. cbn [foldr]. rewrite end_one_lookup, IH.
  destruct (decide (f = g)) as [Heq|Hne].
  - rewrite (decide_True (P := f ∈ g :: l)) by set_solver. case_decide; [|done]. by destruct (S !! f).
  - destruct (decide (f ∈ l)); [rewrite decide_True|rewrite decide_False]; done || set_solver.
Qed.

(** Families that only lose their life do so by steps of the specification. *)
Lemma ends_refine (S S' : Spec) :
  (∀ f, match S !! f, S' !! f with
        | Some x, Some y => y = x ∨ y = ended x
        | None, None => True
        | _, _ => False
        end) → rtc sstep S S'.
Proof.
  intros HS. set (l := filter (λ f, sf_live <$> S' !! f = Some false) (map_to_list S).*1).
  assert (foldr end_one S l = S') as E; [|pose proof (ends_steps l S) as Hs; by rewrite E in Hs].
  apply map_eq. intros f. rewrite ends_lookup. specialize (HS f).
  destruct (S !! f) as [x|] eqn:Ex, (S' !! f) as [y|] eqn:Ey; try done; [|by case_decide].
  case_decide as Hin.
  - apply list_elem_of_filter in Hin as [Hlive _]. rewrite Ey in Hlive. cbn in Hlive. simplify_eq.
    destruct HS as [-> | ->]; [|done]. cbn. f_equal. destruct x as [o c []]; done.
  - destruct HS as [-> | ->]; [done|]. destruct Hin. apply list_elem_of_filter. rewrite Ey. split; [done|].
    apply list_elem_of_fmap. exists (f, x). split; [done|]. by apply elem_of_map_to_list.
Qed.

Lemma abs_lookup w f :
  abs w !! f = (λ fam, mkSFam (f_userId fam) (chain f (w_log w)) (bool_decide (revokedAt fam = None))) <$> families (w_db w) !! f.
Proof. unfold abs. rewrite map_lookup_imap. by destruct (families (w_db w) !! f). Qed.

Lemma abs_quiet okop db db' log ops ops' :
  inv db → moves (quietly okop) db db' → rtc sstep (abs (mkWorld db log ops)) (abs (mkWorld db' log ops')).
Proof.
  intros Hi Hm. destruct (Hm Hi) as (_ & (_ & Hev & _) & Hq). apply ends_refine. intros f. rewrite !abs_lookup. cbn [w_db w_log].
  pose proof (same_families db db' f Hq) as Hsame. specialize (Hev f).
  destruct (families db !! f) as [x|] eqn:Ex, (families db' !! f) as [y|] eqn:Ey; cbn; try done;
    [|destruct Hsame as [H1 _]; by specialize (H1 eq_refl)|destruct Hsame as [_ H2]; by specialize (H2 eq_refl)].
  destruct (Hev x eq_refl) as (y' & [= <-] & (Ho & _ & _ & Hr)). rewrite Ho. unfold ended; cbn.
  destruct (revokedAt x) eqn:Erx.
  - rewrite Hr by done. left. done.
  - destruct (revokedAt y); [right|left]; done.
Qed.

Lemma abs_insert db log ops g fam f' db' ops' :
  families db' = <[fam := f']> (families db) → family_of g = fam →
  abs (mkWorld db' (g :: log) ops')
  = <[fam := mkSFam (f_userId f') (successor_of g :: chain fam log) (bool_decide (revokedAt f' = None))]>
      (abs (mkWorld db log ops)).
Proof.
  intros Hf Hg. apply map_eq. intros k. rewrite abs_lookup. cbn [w_db w_log]. rewrite Hf, chain_cons, Hg.
  destruct (decide (fam = k)) as [<-|Hne]; [by rewrite !lookup_insert_eq|].
  rewrite !lookup_insert_ne by done. by rewrite abs_lookup.
Qed.

Lemma seen_chain f log j : j ∈ chain f log → j ∈ seen log.
Proof.
  intros (g & -> & [_ Hg]%list_elem_of_filter)%list_elem_of_fmap. unfold seen. apply list_elem_of_In, in_concat.
  eexists. rewrite <-!list_elem_of_In. split; [by apply (list_elem_of_fmap_2 (λ g, successor_of g :: option_list (g_presented g)))|by left].
Qed.

Lemma step_refines w w' : ok w → wstep w w' → rtc sstep (abs w) (abs w').
Proof.
  intros Hok. destruct 1 as [db log ops d s Hnew|db log ops d id g Hnew|db log ops now n identity o s db' Hfin Hfresh Hne
    |db log ops env clock now f u mdid a db' Hm|db log ops db' Hq]; pose proof (ok_inv _ Hok) as Hi; cbn [w_db] in Hi.
  - apply (abs_quiet (λ op, op = d_operationId d)); [done|by apply (begin_sound _ (λ op, op = d_operationId d))].
  - apply (abs_quiet (λ op, op = d_operationId d)); [done|].
    apply (beginStored_sound _ (λ op, op = d_operationId d)); [done|apply sound_ret; apply _].
  - apply finish_issue_spec in Hfin as (usr & fam & f & t & t' & _ & _ & _ & _ & _ & _ & _ & Hf & -> & _ & Hfams & _); [|done].
    apply rtc_once. erewrite (abs_insert db log ops _ fam f) by done. unfold successor_of at 1; cbn [g_session s_refreshJti].
    assert (∀ g x, abs (mkWorld db log ops) !! g = Some x → n_refreshJti n ∉ sf_chain x) as Hnew.
    { intros g x. rewrite abs_lookup. intros (fa & Hfa & ->)%fmap_Some. cbn. intros Hin. by eapply Hfresh, seen_chain. }
    destruct Hf as [fam pj f0 Hof Hop (Hf0 & Hu & Hr & _ & Hd)|f Hof Hnone Hu Hr Hd]; cbn.
    + rewrite Hr, bool_decide_eq_true_2 by done. subst.
      eapply (ss_exchange _ fam (mkSFam (f_userId f0) (chain fam log) true) pj); cbn; [|done| |done].
      * by rewrite abs_lookup; cbn; rewrite Hf0; cbn; rewrite Hr.
      * pose proof (ok_current _ Hok fam f0 Hf0) as Hc. cbn [w_log] in Hc. destruct (chain fam log) as [|j l]; [by left|right].
        destruct Hd as [Hd|Hd]; rewrite Hd in Hc; cbn in Hc; [done|].
        injection Hc as Hc%Hdg. by subst.
    + pose proof (ok_absent _ Hok (n_familyId n) Hnone) as Hc. cbn [w_log] in Hc. rewrite Hc, Hr, bool_decide_eq_true_2 by done.
      apply ss_start; [|done]. by rewrite abs_lookup; cbn; rewrite Hnone.
  - apply mint_spec in Hm as (-> & Hnone & fam & -> & Hu & Hr & Hd). apply rtc_once.
    pose proof (ok_absent _ Hok f Hnone) as Hc. cbn [w_log] in Hc.
    assert (abs (mkWorld (put_family f fam db) log ops) = <[f := mkSFam u [] true]> (abs (mkWorld db log ops))) as ->.
    { apply map_eq. intros k. rewrite abs_lookup. cbn [w_db w_log put_family families].
      destruct (decide (f = k)) as [<-|Hk]; [rewrite !lookup_insert_eq; cbn; by rewrite Hc, Hu, Hr|].
      rewrite !lookup_insert_ne by done. by rewrite abs_lookup. }
    constructor. by rewrite abs_lookup; cbn; rewrite Hnone.
  - apply (abs_quiet (λ _, False)); [done|by apply quiet_moves].
Qed.

Lemma run_refines w w' : ok w → rtc wstep w w' → rtc sstep (abs w) (abs w').
Proof.
  intros Hok Hr. induction Hr as [|w w1 w2 Hst Hr IH]; [done|].
  etransitivity; [by apply step_refines|]. apply IH. by eapply history_step_ok.
Qed.

(** What a step does to the rows, and to the issuances. *)
Lemma step_evolves w w' : ok w → wstep w w' → evolves (w_db w) (w_db w').
Proof.
  intros Hok. pose proof (ok_inv _ Hok) as Hi.
  destruct 1 as [db log ops d s Hnew|db log ops d id g Hnew|db log ops now n identity o s db' Hfin Hfresh Hne
    |db log ops env clock now f u mdid a db' Hm|db log ops db' Hq]; cbn [w_db] in *.
  - by eapply (begin_sound (quietly (λ _, True)) (λ _, True) hmac d s I).
  - by eapply (beginStored_sound (quietly (λ _, True)) (λ _, True) d id g (ret tt) I); [apply sound_ret; apply _|].
  - apply finish_issue_spec in Hfin as (? & ? & ? & ? & ? & Hrest); [|done]. by destruct_and!.
  - apply mint_spec in Hm as (-> & Hnone & fam & -> & _). split_and!; [reflexivity| |reflexivity].
    cbn. apply map_le_insert; [apply _|]. by rewrite Hnone.
  - by apply quiet_moves.
Qed.

Lemma step_log w w' :
  ok w → wstep w w' →
  w_log w' = w_log w
  ∨ ∃ g t, w_log w' = g :: w_log w
      ∧ (∀ fam, families (w_db w) !! family_of g = Some fam → revokedAt fam = None)
      ∧ transitions (w_db w) !! g_transition g = Some t ∧ t_state t = t_active.
Proof.
  intros Hok. pose proof (ok_inv _ Hok) as Hi.
  destruct 1 as [db log ops d s Hnew|db log ops d id g Hnew|db log ops now n identity o s db' Hfin Hfresh Hne
    |db log ops env clock now f u mdid a db' Hm|db log ops db' Hq]; cbn [w_db w_log] in *; try (by left).
  right. apply finish_issue_spec in Hfin as (usr & fam & f & t & t' & _ & _ & _ & _ & Ht & Hst & _ & Hf & -> & _); [|done].
  eexists _, t. split_and!; [done| |done|done]. unfold family_of; cbn [g_session s_familyId]. intros fa Hfa.
  destruct Hf as [fam pj f0 _ _ (Hf0 & _ & Hr & _)|f Hof Hnone Hu Hr Hd]; congruence.
Qed.


(** C2: A refresh token is exchanged at most once, and a lease issues at most one
    session, whatever interleaves and whatever Redis has forgotten. *)
Theorem token_exchanged_once w (Hw : reachable w) :
  NoDup (omap exchange_of (w_log w)) ∧ NoDup (lease_of <$> w_log w).
Proof. split; [apply ok_once|apply ok_single_use]; by apply history_ok. Qed.

(** Ended sessions stay ended.  Once a family is revoked no token is ever
    issued in it again and the time of its revocation stays; once a logout has
    retired a browser's row, or left it pending, no session is ever issued through
    that row again. *)
Theorem ended_stays_ended w w' (Hw : reachable w) (Hr : rtc wstep w w') :
  (∀ f fam, families (w_db w) !! f = Some fam → revokedAt fam ≠ None →
     chain f (w_log w') = chain f (w_log w)
     ∧ ∃ fam', families (w_db w') !! f = Some fam' ∧ revokedAt fam' = revokedAt fam)
  ∧ (∀ id t, transitions (w_db w) !! id = Some t → t_state t ≠ t_active →
     filter (λ g, g_transition g = id) (w_log w') = filter (λ g, g_transition g = id) (w_log w)).
Proof.
  apply history_ok in Hw. clear -Hw Hr Hdg. split.
  - intros f fam Hf Hrev. assert (ok w' ∧ chain f (w_log w') = chain f (w_log w)
      ∧ ∃ fam', families (w_db w') !! f = Some fam' ∧ revokedAt fam' = revokedAt fam) as [_ ?]; [|done].
    eapply (rtc_invariant wstep (λ v, ok v ∧ chain f (w_log v) = chain f (w_log w)
      ∧ ∃ fam', families (w_db v) !! f = Some fam' ∧ revokedAt fam' = revokedAt fam)); [|exact Hr|eauto].
    intros v v' Hst (Hok & Hch & fam1 & Hf1 & Hr1). split; [by eapply history_step_ok|].
    destruct (step_evolves v v' Hok Hst) as (_ & Hev & _). destruct (Hev f fam1 Hf1) as (fam2 & Hf2 & (_ & _ & _ & Hr2)).
    split; [|exists fam2; split; [done|]; rewrite Hr2; congruence].
    destruct (step_log v v' Hok Hst) as [->|(g & t & -> & Hg & _)]; [done|].
    rewrite chain_cons. case_decide as Hd; [|done]. subst f. rewrite <-Hr1 in Hrev. by destruct Hrev; apply Hg.
  - intros id t Ht Hst0. assert (ok w' ∧ filter (λ g, g_transition g = id) (w_log w') = filter (λ g, g_transition g = id) (w_log w)
      ∧ ∃ t', transitions (w_db w') !! id = Some t' ∧ t_state t' ≠ t_active) as [_ [? _]]; [|done].
    eapply (rtc_invariant wstep (λ v, ok v ∧ filter (λ g, g_transition g = id) (w_log v) = filter (λ g, g_transition g = id) (w_log w)
      ∧ ∃ t', transitions (w_db v) !! id = Some t' ∧ t_state t' ≠ t_active)); [|exact Hr|eauto].
    intros v v' Hst (Hok & Hfl & t1 & Ht1 & Hs1). split; [by eapply history_step_ok|].
    destruct (step_evolves v v' Hok Hst) as (Hev & _). destruct (Hev id t1 Ht1) as (t2 & Ht2 & (_ & _ & _ & Hrk)).
    split; [|exists t2; split; [done|]; destruct (t_state t1), (t_state t2); cbn in Hrk; done || lia].
    destruct (step_log v v' Hok Hst) as [->|(g & tg & -> & _ & Htg & Hact)]; [done|].
    rewrite filter_cons, decide_False; [done|]. intros <-. congruence.
Qed.

(** C35: The rows keep their types.  In every history each transition row satisfies
    the check constraints of its table (operation and lease together or neither,
    the logout columns exactly in their states, no operation once retired; the format
    of digests apart), its
    session is a family of the user it names, and no two rows share a digest. *)
Theorem rows_well_formed w (Hw : reachable w) :
  (∀ id t, transitions (w_db w) !! id = Some t → t_id t = id ∧ row_ok t ∧ fk_ok (w_db w) t)
  ∧ ∀ id id' t t', transitions (w_db w) !! id = Some t → transitions (w_db w) !! id' = Some t' →
      t_bindingDigest t = t_bindingDigest t' → id = id'.
Proof. destruct (ok_inv _ (history_ok w Hw)) as [Hr Hd]. split; [exact Hr|exact Hd]. Qed.
End history.

(** ** Witnesses: a login, a refresh and a revocation *)

Definition ex_hmac (k m : string) : string := "0000000000000000000000000000000000000000000000000000000000000000".
Definition ex_sha256 (s : string) : string := s.

#[global] Instance ex_digest_inj : Inj (=) (=) (digestRefreshTokenJti ex_sha256).
Proof.
  intros a b H. unfold digestRefreshTokenJti, ex_sha256 in H. by injection H.
Qed.

Definition ex_keys : KeyMaterials := mkKeys (mkKey None "k") [mkKey None "k"].
Definition ex_source : AuthBindingSource := mkSource browser (ex_hmac "" "").
Definition ex_draw (now : Z) (op : string) : Draw := mkDraw now ex_keys "p" "row" op.
Definition ex_user : User := mkUser true 1 1 0 0 "u@x" false None.
Definition ex_cap (op : string) (until : Z) : AuthIssuanceCapability := mkCapability "row" 1 op until.
Definition ex_issue (now : Z) (jti : string) : IssueDraw := mkIssueDraw ∅ now now jti "fam".
Definition ex_login : IssueOptions := mkOptions (ex_cap "op1" 121000) 1 1 None None.
Definition ex_refresh : IssueOptions := mkOptions (ex_cap "op2" 122000) 1 1 (Some "fam") (Some "j1").

Definition ex_db0 : Db := mkDb ∅ {["u" := ex_user]} ∅.
Definition ex_db1 : Db := (beginAuthIssuance ex_hmac (ex_draw 1000 "op1") ex_source ex_db0).2.
Definition ex_db2 : Db :=
  (finishAuthIssuance 1500 (o_capability ex_login) (issueUserSession ex_sha256 (ex_issue 1500 "j1") (mkIdentity "u" None) ex_login) ex_db1).2.
Definition ex_db3 : Db := (beginAuthIssuance ex_hmac (ex_draw 2000 "op2") ex_source ex_db2).2.
Definition ex_db4 : Db :=
  (finishAuthIssuance 2500 (o_capability ex_refresh) (issueUserSession ex_sha256 (ex_issue 2500 "j2") (mkIdentity "u" None) ex_refresh) ex_db3).2.
Definition ex_db5 : Db := revokeRefreshFamilyById "fam" 3000 "reuse-detected" ex_db4.

Definition ex_log1 : list Issued := [mkIssued (mkSession "u" "fam" "j1" 1 1 "row" 1) None (ex_cap "op1" 121000)].
Definition ex_log2 : list Issued := mkIssued (mkSession "u" "fam" "j2" 1 1 "row" 1) (Some "j1") (ex_cap "op2" 122000) :: ex_log1.

Lemma ex_run2 : rtc (wstep ex_hmac ex_sha256) (mkWorld ex_db0 [] []) (mkWorld ex_db2 ex_log1 ["op1"]).
Proof.
  eapply rtc_l; [apply (h_begin ex_hmac ex_sha256 ex_db0 [] [] (ex_draw 1000 "op1") ex_source); apply not_elem_of_nil|].
  apply rtc_once. apply (h_issue ex_hmac ex_sha256 ex_db1 [] ["op1"] 1500 (ex_issue 1500 "j1") (mkIdentity "u" None) ex_login
    (mkSession "u" "fam" "j1" 1 1 "row" 1) ex_db2); [by vm_compute|apply not_elem_of_nil|done].
Qed.

Lemma ex_run4 : rtc (wstep ex_hmac ex_sha256) (mkWorld ex_db0 [] []) (mkWorld ex_db4 ex_log2 ["op2"; "op1"]).
Proof.
  etransitivity; [exact ex_run2|].
  eapply rtc_l; [apply (h_begin ex_hmac ex_sha256 ex_db2 ex_log1 ["op1"] (ex_draw 2000 "op2") ex_source); set_solver|].
  apply rtc_once.
  apply (h_issue ex_hmac ex_sha256 ex_db3 ex_log1 ["op2"; "op1"] 2500 (ex_issue 2500 "j2") (mkIdentity "u" None) ex_refresh
      (mkSession "u" "fam" "j2" 1 1 "row" 1) ex_db4); [by vm_compute| |done].
  apply (bool_decide_unpack _). by vm_compute.
Qed.

Lemma ex_run5 : rtc (wstep ex_hmac ex_sha256) (mkWorld ex_db0 [] []) (mkWorld ex_db5 ex_log2 ["op2"; "op1"]).
Proof. eapply rtc_r; [exact ex_run4|]. apply h_quiet, q_revoke_family. Qed.

Lemma ex_initial : initial (mkWorld ex_db0 [] []).
Proof. by repeat split. Qed.


Lemma token_exchanged_once_witness : NoDup [("fam", "j1")].
Proof.
  destruct (token_exchanged_once ex_hmac ex_sha256 (mkWorld ex_db4 ex_log2 ["op2"; "op1"])) as [H _];
    [exists (mkWorld ex_db0 [] []); split; [apply ex_initial|apply ex_run4]|].
  exact H.
Defined.

(** A second revocation of the family does not move the first. *)
Lemma ended_stays_ended_witness :
  ∃ fam, families (revokeAllRefreshFamilies "u" 4000 "logout" ex_db5) !! "fam" = Some fam ∧ revokedAt fam = Some 3000.
Proof.
  destruct (ended_stays_ended ex_hmac ex_sha256 (mkWorld ex_db5 ex_log2 ["op2"; "op1"])
    (mkWorld (revokeAllRefreshFamilies "u" 4000 "logout" ex_db5) ex_log2 ["op2"; "op1"])) as [H _].
  - exists (mkWorld ex_db0 [] []). split; [apply ex_initial|apply ex_run5].
  - apply rtc_once, h_quiet, q_revoke_user.
  - destruct (families ex_db5 !! "fam") as [fam|] eqn:E; [|by vm_compute in E].
    assert (revokedAt fam = Some 3000) as Hr by (vm_compute in E; by simplify_eq).
    destruct (H "fam" fam E) as [_ (fam' & Hf' & Hr')]; [by rewrite Hr|]. exists fam'. split; [exact Hf'|by rewrite Hr'].
Defined.

Lemma rows_well_formed_witness : ∃ t, transitions ex_db4 !! "row" = Some t ∧ row_ok t.
Proof.
  destruct (rows_well_formed ex_hmac ex_sha256 (mkWorld ex_db4 ex_log2 ["op2"; "op1"])) as [H _];
    [exists (mkWorld ex_db0 [] []); split; [apply ex_initial|apply ex_run4]|].
  destruct (transitions ex_db4 !! "row") as [t|] eqn:E; [|by vm_compute in E].
  exists t. split; [done|]. by destruct (H "row" t E) as (_ & ? & _).
Defined.
End History.
