(* ===== verification/SessionFacts.v ===== *)
(** * Sessions: logging out and refreshing

    What a terminal logout leaves ([LogoutFacts]), and what an answer of the refresh
    route says of the state it found and leaves ([RefreshFacts]). *)
From S2P Require Import Prelude Transaction JsText JsDate IsoDate IpAccess Redis RateLimit AuthTransition Sessions SessionHistory.
From stdpp Require Import base tactics list strings gmap.
From Stdlib Require Import ZArith Lia Ascii.
Open Scope Z_scope.
Import Binding Issuance.

Import SessionLemmas.

(** ** Logging out *)

Module LogoutFacts.
Import FamilyStore Lifecycle Issue Revocation Logout Soundness SessionLemmas.

Notation silent := (moves (quietly (λ _, False))).
Notation calm := (sound (quietly (λ _, False))).

Lemma update_Ok id p f db db' :
  update_transition id p f db = Ok (true, db') → ∃ t, transitions db !! id = Some t ∧ db' = put (f t) db.
Proof. unfold update_transition. destruct (transitions db !! id) as [t|]; [|done]. destruct (p t); [|done]. intros [= <-]. eauto. Qed.

Lemma locked_row dg db row db1 :
  lockTransitionByDigest dg db = Ok (row, db1) →
  db1 = db ∧ match row with
             | Some t => ∃ id, transitions db !! id = Some t ∧ t_bindingDigest t = dg
             | None => ∀ id t, transitions db !! id = Some t → t_bindingDigest t ≠ dg
             end.
Proof.
  unfold lockTransitionByDigest. intros [= <- <-]. split; [done|].
  destruct (filter _ _) as [|[id t] l] eqn:Ef; cbn.
  - intros id t Ht Hd. apply (not_elem_of_nil (id, t)). rewrite <- Ef. apply list_elem_of_filter. split; [done|by apply elem_of_map_to_list].
  - assert ((id, t) ∈ filter (λ it : string * Transition, t_bindingDigest it.2 = dg) (map_to_list (transitions db))) as Hin by (rewrite Ef; left).
    apply list_elem_of_filter in Hin as [? ?%elem_of_map_to_list]. eauto.
Qed.

(** The row found carries the digest of a candidate, and no other row does. *)
Lemma candidates_found cs : ∀ found db t m db1,
  match_candidates found cs db = Ok (Some (t, m), db1) →
  db1 = db ∧ ((∃ m', found = Some (t, m')) ∨ ∃ id c, c ∈ cs ∧ transitions db !! id = Some t ∧ t_bindingDigest t = cand_digest c)
  ∧ (∀ t0 m0, found = Some (t0, m0) → t_id t0 = t_id t)
  ∧ ∀ c, c ∈ cs → (∃ id t0, transitions db !! id = Some t0 ∧ t_bindingDigest t0 = cand_digest c) →
      ∃ id t0, transitions db !! id = Some t0 ∧ t_bindingDigest t0 = cand_digest c ∧ t_id t0 = t_id t.
Proof.
  induction cs as [|c cs IH]; intros found db t m db1 H; cbn [match_candidates] in H.
  { unfold ret in H. simplify_eq. split_and!; [done|eauto|by intros t0 m0 [= <- _]|]. by intros c ?%not_elem_of_nil. }
  apply bind_Ok in H as (row & db2 & Hrow & H). apply locked_row in Hrow as [-> Hrow].
  destruct row as [t1|].
  - destruct Hrow as (id1 & Hid1 & Hd1).
    assert (match_candidates (Some (t1, cand_key c)) cs db = Ok (Some (t, m), db1) ∧ (∀ t0 m0, found = Some (t0, m0) → t_id t0 = t_id t1)) as [Hgo Hsame].
    { destruct found as [[t0 m0]|]; [|done]. destruct (String.eqb_spec (t_id t0) (t_id t1)); [|done]. split; [done|]. by intros ? ? [= <- _]. }
    apply IH in Hgo as (-> & Hn & Hf & Hall). pose proof (Hf _ _ eq_refl) as Hid. split_and!; [done| | |].
    + right. destruct Hn as [(m' & [= <- _])|(id & c' & ? & ? & ?)]; [exists id1, c|exists id, c']; split_and!; try done; [by left|by right].
    + intros t0 m0 E. rewrite (Hsame _ _ E). done.
    + intros c' [->|Hin]%elem_of_cons He; [|by apply Hall]. exists id1, t1. auto.
  - apply IH in H as (-> & Hn & Hf & Hall). split_and!; [done| |done|].
    + destruct Hn as [?|(id & c' & ? & ? & ?)]; [by left|right]. exists id, c'. split_and!; [by right|done..].
    + intros c' [->|Hin]%elem_of_cons (id & t0 & Ht0 & Hd0); [by destruct (Hrow _ _ Ht0)|]. apply Hall; eauto.
Qed.

Lemma each_elem {A} (f : A → Tx unit) l a db db' x :
  (∀ a, calm (f a)) → each f l db = Ok (x, db') → a ∈ l →
  ∃ db1 db2 y, silent db db1 ∧ f a db1 = Ok (y, db2) ∧ silent db2 db'.
Proof.
  intros Hf. revert db. induction l as [|b l IH]; intros db H Ha; [by auto with breeze|]. cbn in H.
  apply bind_Ok in H as (y & db1 & Hb & H). apply elem_of_cons in Ha as [->|Ha].
  - exists db, db1, y. split_and!; [reflexivity|done|]. by eapply (calm_each (λ _, False) f l Hf).
  - destruct (IH db1 H Ha) as (db2 & db3 & z & H1 & H2 & H3). exists db2, db3, z. split_and!; [|done..].
    etransitivity; [by eapply Hf|done].
Qed.

Definition all_revoked (u : string) (db : Db) : Prop :=
  ∀ f fam, families db !! f = Some fam → f_userId fam = u → revokedAt fam ≠ None.

Lemma revoked_after u now reason db : all_revoked u (revokeAllRefreshFamilies u now reason db).
Proof.
  intros f fam. unfold revokeAllRefreshFamilies, revoke_where; cbn [families]. rewrite map_lookup_imap.
  destruct (families db !! f) as [x|]; [|done]. cbn. intros [= <-].
  destruct (String.eqb_spec (f_userId x) u) as [Hu|Hu]; [done|]. done.
Qed.

Lemma globallyRevoke_spec now u db x db' :
  globallyRevokeUser now u db = Ok (x, db') →
  all_revoked u db' ∧ ∃ usr usr', users db !! u = Some usr ∧ users db' !! u = Some usr' ∧ authEpoch usr' = authEpoch usr + 1.
Proof.
  intros H. apply bind_Ok in H as (usr' & db1 & Ha & H). unfold advanceUserEpochs in Ha.
  destruct (users db !! u) as [usr|] eqn:Eu; [|done]. simplify_eq. unfold modify in H. simplify_eq.
  split; [apply revoked_after|]. eexists usr, _. split_and!; [done|cbn; apply lookup_insert_eq|done].
Qed.

(** Silence keeps families revoked and epochs advanced. *)
Lemma silent_revoked u db db' : silent db db' → inv db → all_revoked u db → all_revoked u db'.
Proof.
  intros Hs Hi Hr f fam' Hf' Hu. destruct (Hs Hi) as (_ & (_ & Hev & _) & [_ Hq]). specialize (Hq f). rewrite Hf' in Hq.
  destruct (families db !! f) as [fam|] eqn:Ef; [|done]. destruct (Hev f fam Ef) as (y & Hy & (Ho & _ & _ & Hrev)). simplify_eq.
  rewrite Hrev; apply (Hr f fam Ef); congruence.
Qed.

Lemma silent_epoch u n db db' :
  silent db db' → inv db → (∃ usr, users db !! u = Some usr ∧ n ≤ authEpoch usr) → ∃ usr, users db' !! u = Some usr ∧ n ≤ authEpoch usr.
Proof.
  intros Hs Hi (usr & Hu & Hn). destruct (Hs Hi) as (_ & (_ & _ & Hev) & _). destruct (Hev u usr Hu) as (y & Hy & (Ha & _)).
  exists y. split; [done|lia].
Qed.

Section logout.
Context (hmac : string → string → string) (sha256 : string → string).

Lemma subjects_spec now t acc payload rows db us db' :
  inv db → users rows = users db → a_userId acc ≠ "" →
  liveUser (users db) (a_userId acc) (a_authEpoch acc) (a_mfaEpoch acc) = true →
  revoke_subjects sha256 now t acc payload rows db = Ok (us, db') →
  all_revoked (a_userId acc) db' ∧ ∃ u, users db' !! a_userId acc = Some u ∧ a_authEpoch acc + 1 ≤ authEpoch u.
Proof.
  intros Hi Hrows Hne Hlive H. unfold revoke_subjects in H. cbv zeta in H.
  set (userIds := sortedUnique _) in H. set (us0 := lockUsers userIds rows) in H.
  assert (a_userId acc ∈ userIds) as Huid.
  { unfold userIds, sortedUnique. apply (elem_of_js_sort str_le), elem_of_remove_dups, list_elem_of_omap.
    exists (Some (a_userId acc)). split; [by left|]. by destruct (a_userId acc). }
  assert (liveUser us0 (a_userId acc) (a_authEpoch acc) (a_mfaEpoch acc) = true) as Hlive0.
  { unfold liveUser, us0, lockUsers in *. rewrite Hrows.
    destruct (users db !! a_userId acc) as [u|] eqn:Eu; [|done].
    by rewrite (proj2 (map_lookup_filter_Some _ _ _ u)). }
  apply bind_Ok in H as (x & db1 & H1 & H). apply bind_Ok in H as (y & db2 & H2 & H). unfold ret in H. simplify_eq.
  assert (silent db1 db') as Hs2.
  { revert H2. apply calm_each. intros fam. solve_sound. apply calm_do. intros db2. apply revoke_where_moves. }
  apply (each_elem _ _ (a_userId acc)) in H1 as (da & db_ & z & Ha & Hg & Hb).
  - assert (inv da) as Hia by (by destruct (Ha Hi)). assert (inv db_) as Hib.
    { destruct (calm_globallyRevoke (λ _, False) now (a_userId acc) da z db_ Hg Hia). done. }
    apply globallyRevoke_spec in Hg as [Hrev (u1 & u2 & Hu1 & Hu2 & Hep)].
    assert (silent db_ db') as Hs by (by etransitivity). split; [by eapply silent_revoked|].
    eapply silent_epoch; [done|done|]. exists u2. split; [done|].
    destruct (silent_epoch (a_userId acc) (a_authEpoch acc) db da Ha Hi) as (u1' & Hu1' & Hle); [|simplify_eq; lia].
    unfold liveUser in Hlive. destruct (users db !! a_userId acc) as [u|]; [|done]. exists u. bool_hyps. split; [done|lia].
  - intros a. apply calm_globallyRevoke.
  - apply (elem_of_js_sort str_le), elem_of_remove_dups. unfold global_users. rewrite Hlive0. apply elem_of_app. left. by left.
Qed.

(** The candidates are the digests of the binding under the retained keys. *)
Lemma candidates_of v seen ms :
  (∀ c, c ∈ add_candidates hmac v seen ms → ∃ m, m ∈ ms ∧ cand_digest c = bindingDigest hmac v (key m))
  ∧ ∀ m, m ∈ ms → bindingDigest hmac v (key m) ∈ seen ∨ ∃ c, c ∈ add_candidates hmac v seen ms ∧ cand_digest c = bindingDigest hmac v (key m).
Proof.
  revert seen. induction ms as [|m ms IH]; intros seen; cbn [add_candidates].
  { split; by intros ? ?%not_elem_of_nil. }
  case_bool_decide as Hs.
  - destruct (IH seen) as [H1 H2]. split.
    + intros c (m' & ? & ?)%H1. exists m'. split; [by right|done].
    + intros m' [->|Hin]%elem_of_cons; [by left|by apply H2].
  - destruct (IH (bindingDigest hmac v (key m) :: seen)) as [H1 H2]. split.
    + intros c [->|(m' & ? & ?)%H1]%elem_of_cons; [exists m; split; [by left|done]|exists m'; split; [by right|done]].
    + intros m' [->|Hin]%elem_of_cons; [right; eexists; split; [by left|done]|].
      destruct (H2 m' Hin) as [[E|?]%elem_of_cons|(c & ? & ?)]; [right; eexists; split; [by left|done]|by left|].
      right. exists c. split; [by right|done].
Qed.

(** The digests a request's binding may be stored under. *)
Definition of_binding (d : Draw) (s : AuthBindingSource) (t : Transition) : Prop :=
  ∃ m, m ∈ retained (d_keys d) ∧ t_bindingDigest t = bindingDigest hmac (value s) (key m).

Lemma resolution_row d s res db t m db1 :
  inv db → bindingResolution hmac (d_payload d) s (d_keys d) = Ok res →
  lockTransitionForResolution res db = Ok (Some (t, m), db1) →
  db1 = db ∧ (∃ id, transitions db !! id = Some t) ∧ of_binding d s t
  ∧ ∀ id t0, transitions db !! id = Some t0 → of_binding d s t0 → id = t_id t.
Proof.
  intros Hi Hres Hl. unfold bindingResolution in Hres. destruct (filter _ _) as [|signer [|]]; [done| |done]. injection Hres as <-.
  unfold lockTransitionForResolution in Hl. cbn [candidates] in Hl. apply candidates_found in Hl as (-> & Hn & _ & Hall).
  destruct (candidates_of (value s) [] (retained (d_keys d))) as [C1 C2]. split; [done|].
  destruct Hn as [(m' & [=])|(id & c & Hc & Ht & Hd)]. split_and!; [eauto| |].
  - destruct (C1 c (proj1 (elem_of_js_sort digest_le _ _) Hc)) as (k & Hk & E). exists k. split; [done|congruence].
  - intros id0 t0 Ht0 (k & Hk & Hd0). destruct (C2 k Hk) as [?%not_elem_of_nil|(c0 & Hc0 & E0)]; [done|].
    destruct (Hall c0) as (id1 & t1 & Ht1 & Hd1 & Hid1); [by apply (elem_of_js_sort digest_le)|exists id0, t0; split; [done|congruence]|].
    rewrite <- Hid1. destruct (inv_rows db Hi id1 t1 Ht1) as (-> & _). by eapply (inv_digest db Hi id0 id1 t0 t1); [..|congruence].
Qed.

(** The row is left pending or retired. *)
Lemma mark_spec now t l n x db g db' :
  markLogoutPending now t l n x db = Ok (g, db') → ∃ row, transitions db !! t_id t = Some row ∧ db' = put (set_pending (t_generation t + 1) l n x now row) db.
Proof.
  intros H. apply bind_Ok in H as ([] & db1 & Hu & H); [|done]. unfold ret in H. simplify_eq. apply update_Ok in Hu as (row & Hr & ->). eauto.
Qed.

Lemma retire_spec d k t m db r db' :
  retireWithSuccessor hmac d k t m db = Ok (r, db') →
  ∃ db1 row, silent db db1 ∧ transitions db1 !! t_id t = Some row ∧ db' = put (set_retired (d_now d) row) db1.
Proof.
  intros H. apply bind_Ok in H as (rep & db1 & He & H). apply bind_Ok in H as ([] & db2 & Hu & H); [|done].
  unfold ret in H. simplify_eq. apply update_Ok in Hu as (row & Hr & ->). exists db1, row. split_and!; [|done..].
  by eapply (sound_ensureSuccessor _ (λ _, False)).
Qed.

(** What follows the revocations, on either way out. *)
Lemma callback_tail d k (cf : bool) l nonce us t m db x db' :
  inv db →
  (if cf then
     let issuedAt := d_now d / 1000 in
     let until := issuedAt + TERMINAL_LOGOUT_TTL_SECONDS in
     let* g := markLogoutPending (d_now d) t l nonce (until * 1000) in
     ret (pending us (t_id t) l g issuedAt until)
   else let* replacement := retireWithSuccessor hmac d k t m in ret (ordinary us replacement) : Tx Durable) db = Ok (x, db') →
  silent db db' ∧ ∃ t', transitions db' !! t_id t = Some t' ∧ t_state t' ≠ t_active.
Proof.
  intros Hi E. destruct cf; cbv zeta in E; apply bind_Ok in E as (y & db1 & Hm & E); unfold ret in E; simplify_eq.
  - split.
    + revert Hm. apply (sound_markPending _ (λ _, False)).
      unfold TERMINAL_LOGOUT_TTL_SECONDS. pose proof (Z.div_mod (d_now d) 1000). pose proof (Z.mod_pos_bound (d_now d) 1000). lia.
    + apply mark_spec in Hm as (row & Hrow & ->). destruct (inv_rows _ Hi _ _ Hrow) as (Hid & _).
      eexists. cbn. rewrite Hid, lookup_insert_eq. by split.
  - assert (silent db db') as Hs by (by eapply (sound_retireWithSuccessor _ (λ _, False))). split; [done|].
    apply retire_spec in Hm as (db2 & row & Hs2 & Hrow & ->). destruct (Hs2 Hi) as (Hi2 & _).
    destruct (inv_rows _ Hi2 _ _ Hrow) as (Hid & _). eexists. cbn. rewrite Hid, lookup_insert_eq. by split.
Qed.

(** C32: A terminal logout ends the user's sessions durably.  When the logout of a
    user whose access token is current commits, with or without a refresh token and
    whether it ends here or at the identity provider, every refresh family of the
    user is revoked, the user's auth epoch is past the one the token carries, and
    the browser's row (the one row stored under a digest of the request's binding,
    by any of the retained keys), active before, is no longer active. *)
Theorem terminal_logout_ends_sessions d s cf nonce l acc payload db r db' (Hi : inv db)
    (H : prepare hmac sha256 d s cf nonce l acc payload db = (Ok r, db')) (Hne : a_userId acc ≠ "")
    (Hlive : liveUser (users db) (a_userId acc) (a_authEpoch acc) (a_mfaEpoch acc) = true) :
  all_revoked (a_userId acc) db'
  ∧ (∃ u, users db' !! a_userId acc = Some u ∧ a_authEpoch acc < authEpoch u)
  ∧ ∃ id t t', transitions db !! id = Some t ∧ of_binding d s t ∧ t_state t = t_active
      ∧ transitions db' !! id = Some t' ∧ t_state t' ≠ t_active
      ∧ ∀ id0 t0, transitions db !! id0 = Some t0 → of_binding d s t0 → id0 = id.
Proof.
  unfold prepare, withTerminalLogoutTransition in H. destruct (AUTH_BINDING_PATTERN _); [|done].
  destruct (bindingResolution _ _ _ _) as [res|] eqn:Eres; [|done]. unfold run_tx in H.
  match type of H with match ?c db with _ => _ end = _ => destruct (c db) as [[r1 db1]|] eqn:E; [|done] end. simplify_eq.
  apply bind_Ok in E as (locked & db0 & Hl & E). destruct locked as [[t m]|]; [|done].
  destruct (resolution_row d s res db t m db0 Hi Eres Hl) as (-> & (id & Ht) & Hof & Honly).
  destruct (is_state t_active t) eqn:Est; [|done]. apply bool_decide_eq_true in Est.
  apply bind_Ok in E as ([] & db2 & Hu & E); [|done].
  destruct (inv_rows db Hi id t Ht) as (<- & _).
  assert (silent db db2) as Hs2.
  { revert Hu. apply (sound_set_operation _ (λ _, False)); [|done]. intros row Hrow. by apply same_and_active in Hrow as [? _]. }
  assert (inv db2) as Hi2 by (by destruct (Hs2 Hi)).
  apply update_Ok in Hu as (t0 & Ht0 & ->). rewrite Ht in Ht0. injection Ht0 as <-.
  apply bind_Ok in E as (us & db3 & Hsub & E). unfold revokeTerminalSubjects, is_state in Hsub. cbn in Hsub.
  rewrite Est, bool_decide_eq_true_2 in Hsub by done. cbn in Hsub.
  assert (silent (put (set_operation None (d_now d) t) db) db3) as Hs3 by (by eapply (calm_subjects (λ _, False))).
  assert (inv db3) as Hi3 by (by destruct (Hs3 Hi2)).
  apply subjects_spec in Hsub as [Hrev Hep]; [|done..].
  assert (silent db3 db' ∧ ∃ t', transitions db' !! t_id t = Some t' ∧ t_state t' ≠ t_active) as [Hs4 (t' & Ht' & Hst')].
  { eapply callback_tail; [exact Hi3|exact E]. }
  split_and!; [by eapply silent_revoked| |by exists (t_id t), t, t'; split_and!].
  destruct (silent_epoch _ _ db3 db' Hs4 Hi3 Hep) as (u & Hu & Hle). exists u. split; [done|lia].
Qed.
End logout.

(** The user of the example logs out through the identity provider. *)
Definition ex_logout : result AuthError Durable * Db :=
  prepare History.ex_hmac History.ex_sha256 (History.ex_draw 5000 "") History.ex_source true "nonce" "logout"
    (mkAccess "u" 1 1 None) None History.ex_db4.

Lemma terminal_logout_ends_sessions_witness : all_revoked "u" ex_logout.2.
Proof.
  destruct ex_logout as [[r|e] db'] eqn:E; [|by vm_compute in E].
  apply (terminal_logout_ends_sessions History.ex_hmac History.ex_sha256 (History.ex_draw 5000 "") History.ex_source
    true "nonce" "logout" (mkAccess "u" 1 1 None) None History.ex_db4 r db'); [|exact E|done|by vm_compute].
  apply (History.ok_inv History.ex_sha256 (History.mkWorld History.ex_db4 History.ex_log2 ["op2"; "op1"])).
  eapply History.history_ok; [apply History.ex_digest_inj|].
  exists (History.mkWorld History.ex_db0 [] []). split; [apply History.ex_initial|apply History.ex_run4].
Defined.
End LogoutFacts.

(** ** The refresh handler *)

Module RefreshFacts.
Import FamilyStore Lifecycle Issue Revocation Refresh Soundness SessionLemmas.

Section refresh.
Context (hmac : string → string → string) (sha256 : string → string) (env : gmap string string).
Context {R : Type} `{Redis R}.
Notation dg := (digestRefreshTokenJti sha256).

Lemma set_nx_present r t k n v :
  0 < n → is_Some (peek (exec r t k (SET_EX_NX n v)).1 t k).
Proof.
  intros Hn. rewrite peek_exec, <-(peek_now r t k). destruct (peek r t k) as [e|]; cbn.
  - destruct (alive t e) eqn:Ea; cbn; [by rewrite Ea|]. rewrite (proj2 (Z.ltb_lt 0 n)) by done. cbn. unfold alive; cbn.
    by rewrite (proj2 (Z.ltb_lt _ _)) by lia.
  - rewrite (proj2 (Z.ltb_lt 0 n)) by done. cbn. unfold alive; cbn. by rewrite (proj2 (Z.ltb_lt _ _)) by lia.
Qed.

(** A mark that was made, or found, is there. *)
Lemma revoke_jti_marks redis t jti l redis' b :
  revokeRefreshTokenJti redis t jti l = (redis', Ok b) →
  ∃ r', redis' = Some r' ∧ is_Some (peek r' t (getRevokedRefreshKey jti)).
Proof.
  unfold revokeRefreshTokenJti, command. destruct redis as [r|]; [|done].
  pose proof (set_nx_present r t (getRevokedRefreshKey jti) REFRESH_TOKEN_REVOCATION_TTL_SECONDS (VStr "1") eq_refl) as Hp.
  destruct (exec r t _ _) as [r1 a]. destruct l; [|done]. intros E. exists r1. destruct a; by simplify_eq.
Qed.

(** What a delivered token pair says of the state the request found. *)
Definition holder (q : Request) (p : TokenPayload) (fam jti : string) (fm : Family) (u : User) (db : Db) : Prop :=
  q_payload q = Some p ∧ p_type p = refresh_type ∧ p_fam p = Some fam ∧ p_jti p = Some jti
  ∧ rotatable sha256 (n_now (q_issue q)) fam (p_sub p) jti db fm
  ∧ users db !! p_sub p = Some u ∧ u_active u = true ∧ p_aep p = Some (authEpoch u) ∧ p_mep p = Some (mfaEpoch u).

Lemma reuse_gate_open q f fam jti redis db redis' db' :
  reuse_gate env q f fam jti redis db = (redis', db', None) → redis' = redis ∧ db' = db.
Proof.
  unfold reuse_gate. destruct (isRefreshTokenJtiRevoked _ _ _ _); [|by intros [= <- <-]].
  destruct (wasRefreshTokenJtiRecentlyRotated _ _ _ _ _); [done|]. by destruct (revokeFamily _ _ _ _ _ _ _ _) as [[? ?] ?].
Qed.

Lemma state_gate_open q f p fam redis db u :
  state_gate q f p fam redis db = inr u →
  users db !! p_sub p = Some u ∧ u_active u = true ∧ p_aep p = Some (authEpoch u) ∧ p_mep p = Some (mfaEpoch u).
Proof.
  unfold state_gate. destruct (isFamilyRevoked _ _ _ _ _ _); [done|]. destruct (getRefreshFamily _ _) as [[rv ex]|]; [|done].
  destruct (_ || _); [done|]. destruct (isUserTokenRevoked _ _ _ _ _ _); [done|].
  destruct (users db !! p_sub p) as [u'|]; [|done]. destruct (u_active u') eqn:Ea; [|done]. cbn [negb].
  destruct (isTokenIssuedBeforePasswordChange _ _); [done|].
  destruct (bool_decide_reflect (p_aep p = Some (authEpoch u'))) as [Ha|]; [|done].
  destruct (bool_decide_reflect (p_mep p = Some (mfaEpoch u'))) as [Hm|]; [|done]. cbn.
  destruct (q_context_ok q); [|done]. cbn. destruct (q_ip q) as [dcs|]; [|done]. destruct (IpAllowlist.isBlocked dcs); [done|].
  by intros [= <-].
Qed.

(** A family that can be rotated after quiet changes could be before. *)
Lemma rotatable_before okop now fam u jti db db1 f :
  moves (quietly okop) db db1 → inv db → rotatable sha256 now fam u jti db1 f → ∃ f0, rotatable sha256 now fam u jti db f0.
Proof.
  intros Hm Hi (Hf & Hu & Hr & Hx & Hd). destruct (Hm Hi) as (_ & (_ & Hev & _) & [_ Hq]). specialize (Hq fam). rewrite Hf in Hq.
  destruct (families db !! fam) as [f0|] eqn:E0; [|done]. cbn in Hq. injection Hq as Hq.
  destruct (Hev fam f0 E0) as (f1 & Hf1 & (Ho & Hex & _ & Hrev)). simplify_eq. exists f0.
  unfold rotatable. rewrite <-Hq, <-Hex, <-Ho. split_and!; try done.
  destruct (revokedAt f0); [|done]. by rewrite Hrev in Hr.
Qed.

Lemma issue_stage_tokens q f p fam jti u redis db s redis' db' :
  inv db → issue_stage hmac sha256 env q f p fam jti u redis db = (tokens s, redis', db') →
  (∃ fm, rotatable sha256 (n_now (q_issue q)) fam (p_sub p) jti db fm)
  ∧ (s_userId s = p_sub p ∧ s_familyId s = fam ∧ s_refreshJti s = n_refreshJti (q_issue q))
  ∧ (∃ fm', families db' !! fam = Some fm' ∧ currentRefreshJtiDigest fm' = Some (dg (n_refreshJti (q_issue q))))
  ∧ ∃ r', redis' = Some r' ∧ is_Some (peek r' (q_clock q) (getRevokedRefreshKey jti)).
Proof.
  intros Hi. unfold issue_stage. pose proof (begin_sound (quietly (λ _, True)) (λ _, True) hmac (q_begin q) (q_source q) I db) as Hm.
  destruct (beginAuthIssuance _ _ _ db) as [[c|e] db1]; [|by destruct e]. cbn [snd] in Hm.
  destruct (finishAuthIssuance _ _ _ db1) as [[x|e] db2] eqn:Ef; [|by destruct e].
  set (r2 := markRefreshTokenJtiRotated _ _ _ _ _). destruct (revokeRefreshTokenJti r2 _ _ _) as [r3 [b|]] eqn:Er; [|done].
  intros [= <- <- <-]. assert (inv db1) as Hi1 by (by destruct (Hm Hi)).
  apply (finish_issue_spec sha256 _ _ _ (mkOptions c (authEpoch u) (mfaEpoch u) (Some fam) (Some jti))) in Ef
    as (u1 & fam1 & f1 & t & t' & _ & _ & _ & _ & _ & _ & _ & Hf & -> & _ & Hfams & _); [|done].
  destruct Hf as [fam2 pj f2 [= <-] [= <-] Hrot|f2 [=]].
  split_and!; [by eapply rotatable_before|done..| |by eapply revoke_jti_marks].
  destruct (l_touched f); [|rewrite Hfams; eexists; by rewrite lookup_insert_eq].
  unfold touchFamilyLastUsed. rewrite Hfams, lookup_insert_eq. eexists. cbn. by rewrite lookup_insert_eq.
Qed.

(** A gate that stops the request delivers no token. *)
Definition refusal (resp : Response) : Prop := ∀ s, resp ≠ tokens s.

Lemma rate_gate_stops q fam redis resp : (rate_gate env q fam redis).2 = Some resp → refusal resp.
Proof.
  unfold rate_gate. destruct (q_e2e q); [done|]. destruct redis as [r|]; [|by intros [= <-] ?].
  destruct (SlidingWindow.rateLimiter _ _ _ _ _ _) as [r' res]. cbn. destruct (SlidingWindow.allowed res); [done|].
  by intros [= <-] ?.
Qed.

Lemma reuse_gate_stops q f fam jti redis db resp : (reuse_gate env q f fam jti redis db).2 = Some resp → refusal resp.
Proof.
  unfold reuse_gate. destruct (isRefreshTokenJtiRevoked _ _ _ _); [|done].
  destruct (wasRefreshTokenJtiRecentlyRotated _ _ _ _ _); [by intros [= <-] ?|].
  destruct (revokeFamily _ _ _ _ _ _ _ _) as [[? ?] ?]. by intros [= <-] ?.
Qed.

Lemma state_gate_stops q f p fam redis db resp : state_gate q f p fam redis db = inl resp → refusal resp.
Proof. unfold state_gate. intros E s ->. repeat case_match; simplify_eq. Qed.

Lemma refresh_tokens q f redis db s redis' db' :
  inv db → refresh hmac sha256 env q f redis db = (tokens s, redis', db') →
  ∃ p fam jti fm u, holder q p fam jti fm u db
    ∧ (s_userId s = p_sub p ∧ s_familyId s = fam ∧ s_refreshJti s = n_refreshJti (q_issue q))
    ∧ (∃ fm', families db' !! fam = Some fm' ∧ currentRefreshJtiDigest fm' = Some (dg (n_refreshJti (q_issue q))))
    ∧ ∃ r', redis' = Some r' ∧ is_Some (peek r' (q_clock q) (getRevokedRefreshKey jti)).
Proof.
  intros Hi. unfold refresh. destruct (q_token q); [|done]. destruct (q_csrf_ok q); [|done]. cbn [negb].
  destruct (q_payload q) as [p|] eqn:Ep; [|done]. destruct (p_type p) eqn:Ety; [done|].
  destruct (truthy (p_jti p)) as [jti|] eqn:Ej; [|done]. apply truthy_Some in Ej as [Ej _].
  destruct (truthy (p_fam p)) as [fam|] eqn:Efa; [|done]. apply truthy_Some in Efa as [Efa _].
  destruct (_ && q_mobile_block q); [by destruct (revokeFamily _ _ _ _ _ _ _ _) as [[? ?] ?]|].
  destruct (rate_gate env q fam redis) as [r1 [resp|]] eqn:Erate.
  { intros [= -> _ _]. exfalso. eapply rate_gate_stops; [by rewrite Erate|done]. }
  destruct (reuse_gate env q f fam jti r1 db) as [[r2 db2] [resp|]] eqn:Ereuse.
  { intros [= -> _ _]. exfalso. eapply reuse_gate_stops; [by rewrite Ereuse|done]. }
  apply reuse_gate_open in Ereuse as [-> ->]. destruct (state_gate q f p fam r1 db) as [resp|u] eqn:Est.
  { intros [= -> _ _]. exfalso. by eapply state_gate_stops. }
  intros (Hrot & Hs & Hd & Hmk)%issue_stage_tokens; [|done]. destruct Hrot as [fm Hrot].
  apply state_gate_open in Est as (? & ? & ? & ?).
  exists p, fam, jti, fm, u. split; [|by split]. unfold holder. tauto.
Qed.

Lemma revokeFamily_inv redis db t now fam reason l dbl : inv db → inv (revokeFamily redis db t now fam reason l dbl).1.2.
Proof.
  intros Hi. unfold revokeFamily. destruct (writeFamilyRevocationSentinel _ _ _ _) as [r' ack].
  assert (inv (revokeRefreshFamilyById fam now reason db)) by (by eapply (revoke_where_moves (λ _, False))).
  by destruct dbl as [|[]].
Qed.

Lemma issue_stage_inv q f p fam jti u redis db :
  inv db → inv (issue_stage hmac sha256 env q f p fam jti u redis db).2.
Proof.
  intros Hi. unfold issue_stage. pose proof (begin_sound (quietly (λ _, True)) (λ _, True) hmac (q_begin q) (q_source q) I db) as Hm.
  destruct (beginAuthIssuance _ _ _ db) as [[c|e] db1]; cbn [snd] in Hm; destruct (Hm Hi) as (Hi1 & _); [|done].
  set (o := mkOptions _ _ _ _ _). destruct (finishAuthIssuance _ _ _ db1) as [[x|e] db2] eqn:Ef.
  - apply (finish_issue_spec sha256 _ _ _ o) in Ef as (? & ? & ? & ? & ? & Hrest); [|done].
    assert (inv db2) as Hi2 by (by destruct_and!). destruct (revokeRefreshTokenJti _ _ _ _) as [r3 [b|]]; [|done].
    destruct (l_touched f); [|done]. by eapply (touch_moves (λ _, False)).
  - assert (db2 = db1) as ->.
    { unfold finishAuthIssuance, run_tx in Ef. match type of Ef with match ?c with _ => _ end = _ => destruct c as [[? ?]|] end; by simplify_eq. }
    cbn. destruct (l_cancelled f); [|done]. by eapply (cancel_sound (quietly (λ _, False)) (λ _, False)).
Qed.

(** The route keeps the tables' invariant on every path. *)
Lemma refresh_inv q f redis db : inv db → inv (refresh hmac sha256 env q f redis db).2.
Proof.
  intros Hi. unfold refresh. destruct (q_token q); [|done]. destruct (q_csrf_ok q); [|done]. cbn [negb].
  destruct (q_payload q) as [p|]; [|done]. destruct (p_type p); [done|].
  destruct (truthy (p_jti p)) as [jti|]; [|done]. destruct (truthy (p_fam p)) as [fam|]; [|done].
  destruct (_ && q_mobile_block q).
  { pose proof (revokeFamily_inv redis db (q_clock q) (d_now (q_begin q)) fam "mobile-device-blocked" (l_sentinel f) (l_revoke_db f) Hi) as Hr.
    by destruct (revokeFamily _ _ _ _ _ _ _ _) as [[? ?] ?]. }
  destruct (rate_gate env q fam redis) as [r1 [resp|]]; [done|].
  assert (inv (reuse_gate env q f fam jti r1 db).1.2) as Hr.
  { unfold reuse_gate. destruct (isRefreshTokenJtiRevoked _ _ _ _); [|done].
    destruct (wasRefreshTokenJtiRecentlyRotated _ _ _ _ _); [done|].
    pose proof (revokeFamily_inv r1 db (q_clock q) (d_now (q_begin q)) fam "reuse-detected" (l_sentinel f) (l_revoke_db f) Hi) as Hr.
    by destruct (revokeFamily _ _ _ _ _ _ _ _) as [[? ?] ?]. }
  destruct (reuse_gate env q f fam jti r1 db) as [[r2 db2] [resp|]]; [done|]. cbn in Hr.
  destruct (state_gate q f p fam r2 db2) as [resp|u]; [done|]. by apply issue_stage_inv.
Qed.

(** C8: Tokens are delivered only to the holder of a live session.  When the
    refresh route answers with tokens, the request's verified refresh token names a
    family of its subject that is neither revoked nor expired and whose current
    token it is (or that has none recorded), the subject is active and its epochs
    are the token's; the new session is of that subject in that family, its token is
    the family's current one afterwards, and the mark against the old token is in
    Redis.  The old token is then spent: the next request with it, whatever Redis
    remembers or answers and whatever fails, is not answered with tokens. *)
Theorem refresh_serves_only_holder q f redis db s redis' db' (Hi : inv db)
    (Hresp : refresh hmac sha256 env q f redis db = (tokens s, redis', db')) :
  ∃ p fam jti fm u, holder q p fam jti fm u db
    ∧ (s_userId s = p_sub p ∧ s_familyId s = fam ∧ s_refreshJti s = n_refreshJti (q_issue q))
    ∧ (∃ fm', families db' !! fam = Some fm' ∧ currentRefreshJtiDigest fm' = Some (dg (n_refreshJti (q_issue q))))
    ∧ (∃ r', redis' = Some r' ∧ is_Some (peek r' (q_clock q) (getRevokedRefreshKey jti)))
    ∧ (Inj (=) (=) dg → n_refreshJti (q_issue q) ≠ jti →
       ∀ q2 f2 redis2, q_payload q2 = Some p → refusal (refresh hmac sha256 env q2 f2 redis2 db').1.1).
Proof.
  pose proof (refresh_inv q f redis db Hi) as Hi'. rewrite Hresp in Hi'. cbn in Hi'.
  destruct (refresh_tokens _ _ _ _ _ _ _ Hi Hresp) as (p & fam & jti & fm & u & Hh & Hs & (fm' & Hf' & Hd') & Hmk).
  exists p, fam, jti, fm, u. split_and!; try done; [by destruct Hs as (?&?&?)..|by exists fm'|].
  intros Hinj Hne q2 f2 redis2 Hq2 s2 E. destruct (refresh _ _ _ q2 f2 redis2 db') as [[resp r3] db3] eqn:E2. cbn in E. subst resp.
  destruct (refresh_tokens _ _ _ _ _ _ _ Hi' E2) as (p2 & fam2 & jti2 & fm2 & u2 & Hh2 & _).
  destruct Hh as (_ & _ & Hfam & Hjti & _), Hh2 as (? & _ & Hfam2 & Hjti2 & (Hf2 & _ & _ & _ & Hd2) & _). simplify_eq.
  destruct Hd2 as [Hd2|Hd2]; rewrite Hd2 in Hd'; [done|]. injection Hd' as Hd'%Hinj. done.
Qed.

(** The request gets past the checks of its form and the rate limit. *)
Definition presents (q : Request) (p : TokenPayload) (fam jti : string) (redis redis1 : option R) : Prop :=
  q_token q = true ∧ q_csrf_ok q = true ∧ q_payload q = Some p ∧ p_type p = refresh_type
  ∧ truthy (p_fam p) = Some fam ∧ truthy (p_jti p) = Some jti
  ∧ bool_decide (is_Some (truthy (p_mdid p))) && q_mobile_block q = false ∧ rate_gate env q fam redis = (redis1, None).

(** A token marked as used, where the mark can be read. *)
Definition marked (t : Z) (jti : string) (redis : option R) : Prop :=
  ∃ r e s, redis = Some r ∧ peek r t (getRevokedRefreshKey jti) = Some e ∧ e_value e = VStr s ∧ s ≠ "".

Lemma marked_revoked t jti l redis : marked t jti redis → isRefreshTokenJtiRevoked redis t jti l = true.
Proof.
  intros (r & e & s & -> & Hp & Hv & Hs). unfold isRefreshTokenJtiRevoked, redis_get, command.
  pose proof (exec_reply r t (getRevokedRefreshKey jti) GET) as Hr. rewrite Hp in Hr. cbn in Hr. rewrite Hv in Hr.
  destruct (exec r t _ GET) as [r' a]. cbn in Hr. subst a. destruct l as [|[]]; [|done..]. cbn. by destruct s.
Qed.

Lemma reuse_answer q f redis redis1 db p fam jti :
  presents q p fam jti redis redis1 → marked (q_clock q) jti redis1 →
  refresh hmac sha256 env q f redis db
  = if wasRefreshTokenJtiRecentlyRotated env redis1 (q_clock q) jti (l_grace f) then (unauthorized false true, redis1, db)
    else let '(r', db', _) := revokeFamily redis1 db (q_clock q) (d_now (q_begin q)) fam "reuse-detected"
                                (l_sentinel f) (l_revoke_db f) in (unauthorized true false, r', db').
Proof.
  intros (Ht & Hc & Hq & Hty & Hf & Hj & Hmob & Hrate) Hm. unfold refresh. rewrite Ht, Hc, Hq, Hty, Hf, Hj, Hmob, Hrate. cbn [negb].
  unfold reuse_gate. rewrite (marked_revoked _ _ _ _ Hm).
  destruct (wasRefreshTokenJtiRecentlyRotated _ _ _ _ _); [done|]. by destruct (revokeFamily _ _ _ _ _ _ _ _) as [[? ?] ?].
Qed.

Lemma revoked_by_id fam now reason db :
  (∀ fm, families db !! fam = Some fm → ∃ fm', families (revokeRefreshFamilyById fam now reason db) !! fam = Some fm')
  ∧ ∀ fm', families (revokeRefreshFamilyById fam now reason db) !! fam = Some fm' → revokedAt fm' ≠ None.
Proof.
  unfold revokeRefreshFamilyById, revoke_where; cbn. rewrite map_lookup_imap, String.eqb_refl.
  destruct (families db !! fam); [|done]. split; [eauto|]. by intros fm' [= <-].
Qed.

(** Reuse of a spent refresh token ends its family.  A request that presents a
    token already marked as used is refused.  Within the grace of its own rotation
    nothing else happens, and the cookie, which by then holds the winner's token,
    is left alone.  Outside it the cookie is cleared, the family's revocation is
    attempted in both stores, and once the database's write lands no token of the
    family, the newest included, is answered with tokens. *)
Theorem reuse_ends_family q f redis redis1 db p fam jti (Hi : inv db)
    (Hp : presents q p fam jti redis redis1) (Hm : marked (q_clock q) jti redis1) :
  if wasRefreshTokenJtiRecentlyRotated env redis1 (q_clock q) jti (l_grace f)
  then refresh hmac sha256 env q f redis db = (unauthorized false true, redis1, db)
  else ∃ redis' db', refresh hmac sha256 env q f redis db = (unauthorized true false, redis', db')
    ∧ (l_revoke_db f = replied →
       (∀ fm, families db !! fam = Some fm → ∃ fm', families db' !! fam = Some fm' ∧ revokedAt fm' ≠ None)
       ∧ ∀ q2 f2 redis2 p2, q_payload q2 = Some p2 → p_fam p2 = Some fam →
           refusal (refresh hmac sha256 env q2 f2 redis2 db').1.1).
Proof.
  pose proof (refresh_inv q f redis db Hi) as Hi'. rewrite (reuse_answer _ _ _ _ _ _ _ _ Hp Hm) in Hi' |- *.
  destruct (wasRefreshTokenJtiRecentlyRotated _ _ _ _ _); [done|].
  unfold revokeFamily in Hi' |- *. destruct (writeFamilyRevocationSentinel _ _ _ _) as [r' ack].
  destruct (revoked_by_id fam (d_now (q_begin q)) "reuse-detected" db) as [Hthere Hrev].
  destruct (l_revoke_db f) as [|b] eqn:El; eexists _, _; (split; [done|]); [intros _; split|done].
  - intros fm Hfm. destruct (Hthere fm Hfm) as [fm' Hfm']. eauto.
  - intros q2 f2 redis2 p2 Hq2 Hfam2 s2 E. cbn [snd] in Hi'. destruct (refresh _ _ _ q2 f2 redis2 _) as [[resp r3] db3] eqn:E2. cbn in E. subst resp.
    destruct (refresh_tokens _ _ _ _ _ _ _ Hi' E2) as (p3 & fam3 & jti3 & fm3 & u3 & Hh & _).
    destruct Hh as (? & _ & ? & _ & (Hf3 & _ & Hr3 & _) & _). simplify_eq. by apply (Hrev fm3).
Qed.
End refresh.

(** ** Witnesses: the token of the login is refreshed, then presented again *)

Definition ex_payload : TokenPayload := mkPayload "u" refresh_type (Some "fam") (Some "j1") (Some 1) (Some 1) (Some 1) None false.
Definition ex_request (now : Z) (op jti : string) : Request :=
  mkRequest true true (Some ex_payload) false false (SlidingWindow.ex_call now op) true (Ok IpAllowlist.allow)
    History.ex_source (History.ex_draw now op) (History.ex_issue now jti) now.
Definition ex_fates : Fates := mkFates replied replied replied replied replied true replied replied replied replied replied true true.
Definition ex_first : Response * option (gmap string Entry) * Db :=
  refresh History.ex_hmac History.ex_sha256 ∅ (ex_request 2000 "op2" "j2") ex_fates (Some ∅) History.ex_db2.

Lemma ex_inv2 : inv History.ex_db2.
Proof.
  apply (History.ok_inv History.ex_sha256 (History.mkWorld History.ex_db2 History.ex_log1 ["op1"])).
  eapply History.history_ok; [apply History.ex_digest_inj|].
  exists (History.mkWorld History.ex_db0 [] []). split; [apply History.ex_initial|apply History.ex_run2].
Qed.

Lemma refresh_serves_only_holder_witness :
  ∃ s, ex_first.1.1 = tokens s ∧ s_refreshJti s = "j2"
    ∧ refusal (refresh History.ex_hmac History.ex_sha256 ∅ (ex_request 90000 "op3" "j3") ex_fates (Some ∅ : option (gmap string Entry)) ex_first.2).1.1.
Proof.
  destruct ex_first as [[resp redis'] db'] eqn:E. assert (ex_first.1.1 = resp) as Hr by (by rewrite E). vm_compute in Hr. subst resp.
  destruct (refresh_serves_only_holder History.ex_hmac History.ex_sha256 ∅ (ex_request 2000 "op2" "j2") ex_fates (Some ∅)
    History.ex_db2 _ redis' db' ex_inv2 E) as (p & fam & jti & fm & u & Hh & (_ & _ & Hs) & _ & _ & Hspent).
  eexists. split_and!; [done|exact Hs|]. destruct Hh as ([= <-] & _ & _ & [= <-] & _).
  by apply Hspent; [apply History.ex_digest_inj|..].
Defined.

Definition ex_again : Request := ex_request 90000 "op3" "j3".
Definition ex_redis1 : option (gmap string Entry) := (rate_gate ∅ ex_again "fam" ex_first.1.2).1.

Lemma ex_presents : presents ∅ ex_again ex_payload "fam" "j1" ex_first.1.2 ex_redis1.
Proof. by repeat split. Qed.

Lemma ex_marked : marked 90000 "j1" ex_redis1.
Proof.
  assert ((r ← ex_redis1; peek r 90000 (getRevokedRefreshKey "j1")) = Some (mkEntry (VStr "1") (Some 604802000))) as E
    by (vm_compute; reflexivity).
  destruct ex_redis1 as [r|]; [|done]. exists r, (mkEntry (VStr "1") (Some 604802000)), "1". by repeat split.
Qed.

Lemma reuse_ends_family_witness :
  ∃ redis' db', refresh History.ex_hmac History.ex_sha256 ∅ ex_again ex_fates ex_first.1.2 ex_first.2
    = (unauthorized true false, redis', db') ∧ ∃ fm', families db' !! "fam" = Some fm' ∧ revokedAt fm' ≠ None.
Proof.
  assert (inv ex_first.2) as Hi by (apply refresh_inv, ex_inv2).
  pose proof (reuse_ends_family History.ex_hmac History.ex_sha256 ∅ ex_again ex_fates _ ex_redis1 ex_first.2 ex_payload "fam" "j1"
    Hi ex_presents ex_marked) as Hend.
  assert (wasRefreshTokenJtiRecentlyRotated ∅ ex_redis1 (q_clock ex_again) "j1" (l_grace ex_fates) = false) as Hg
    by (vm_compute; reflexivity).
  rewrite Hg in Hend. destruct Hend as (redis' & db' & E & Hrev). exists redis', db'. split; [exact E|].
  assert (∃ fm, families ex_first.2 !! "fam" = Some fm) as [fm Hf] by (eexists; vm_compute; reflexivity).
  destruct (Hrev eq_refl) as [Hthere _]. exact (Hthere fm Hf).
Defined.
End RefreshFacts.
