(* ===== verification/Budget.v ===== *)
(** * The AI budget ledger

    [services/aiBudgetReservations.ts], all of it, with the budget it reads
    ([getEffectiveAiBudget] of [services/effectiveSettings.ts]).  A dispatch to a
    model provider first reserves what is left of the organization's cap; when the
    provider has answered, the actual cost is settled into the usage of the day and
    the month, or the reservation is released, marked as of unknown outcome, or
    swept when its window has closed.

    The tables are one state and each call is a transaction on it; the organization's
    row lock makes the calls of one organization run one after the other, and whether
    the lock was got in time is an argument.  Amounts in the tables are
    [numeric(20,6)], whole millionths of a cent.  The admission computes with
    JavaScript numbers, which [Numbers] describes: their operations, and, in
    [NumberLaws], how exact they are below a limit. *)
From S2P Require Import Prelude Transaction JsText JsDate IsoDate.
From stdpp Require Import base tactics list strings gmap.
From Stdlib Require Import ZArith Lia Ascii.
Open Scope Z_scope.

(** ** Numbers *)

(** JavaScript numbers as the admission uses them: the number nearest to so many
    millionths, subtraction, minimum, comparison, and [Math.round(x * 1e6)]. *)
Class Numbers (N : Type) := {
  of_micro : Z → N;
  minus : N → N → N;
  num_min : N → N → N;
  num_leb : N → N → bool;
  micro : N → Z }.

(** What is relied on, for amounts up to [limit] millionths: two subtractions of such
    amounts are right to the millionth, and rounding respects the order.  For
    doubles this holds up to 2^31 cents. *)
Class NumberLaws (N : Type) `{Numbers N} (limit : Z) := {
  minus_micro c u h : 0 ≤ c ≤ limit → 0 ≤ u ≤ limit → 0 ≤ h ≤ limit →
    micro (minus (minus (of_micro c) (of_micro u)) (of_micro h)) = c - u - h;
  zero_micro : micro (of_micro 0) = 0;
  leb_micro x y : num_leb x y = true → micro x ≤ micro y;
  leb_false_micro x y : num_leb x y = false → micro y ≤ micro x;
  min_micro x y : micro (num_min x y) = Z.min (micro x) (micro y) }.

Module Budget.

(** ** The tables *)

Inductive AiBudgetReservationStatus := active | settled | indeterminate | released | expired.
#[global] Instance AiBudgetReservationStatus_eq : EqDecision AiBudgetReservationStatus.
Proof. solve_decision. Defined.
Inductive AiBudgetNamespace := technician | client.
#[global] Instance AiBudgetNamespace_eq : EqDecision AiBudgetNamespace.
Proof. solve_decision. Defined.
Inductive AiBillingSource := platform | partner_key.
#[global] Instance AiBillingSource_eq : EqDecision AiBillingSource.
Proof. solve_decision. Defined.

Record ReservationRow := mkRow {
  r_id : string; r_org : string; r_key : string; r_session : option string; r_billing : AiBillingSource;
  r_namespace : AiBudgetNamespace; r_daily : string; r_monthly : string; r_uncapped : bool;
  r_reserved : Z; r_actual : option Z; r_status : AiBudgetReservationStatus; r_fingerprint : option string;
  r_expires : Z }.

Record UsageRow := mkUsage {
  u_input : Z; u_output : Z; u_cost : Z; u_messages : Z; u_tools : Z; u_billing : AiBillingSource }.

Record SessionRow := mkSession {
  s_org : string; s_input : Z; s_output : Z; s_cost : Z; s_turns : Z; s_billing : AiBillingSource; s_activity : Z }.

(** The caps an organization's row and its partner's settings carry.  A partner
    field may be absent, null or a value. *)
Record OrgBudget := mkOrgBudget { ob_enabled : bool; ob_monthly : option Z; ob_daily : option Z }.
Record PartnerBudget := mkPartnerBudget {
  pb_enabled : option bool; pb_monthly : option (option Z); pb_daily : option (option Z) }.

(** [client_usage] is the sum over the users of [client_ai_usage], to the millionth. *)
Record Db := mkDb {
  orgs : gmap string string; partners : gmap string PartnerBudget; org_budgets : gmap string OrgBudget;
  reservations : gmap string ReservationRow; usage : gmap (string * string * string) UsageRow;
  client_usage : gmap (string * string * string) Z; sessions : gmap string SessionRow }.

Definition set_reservations (m : gmap string ReservationRow) (db : Db) : Db :=
  mkDb (orgs db) (partners db) (org_budgets db) m (usage db) (client_usage db) (sessions db).
Definition set_usage (m : gmap (string * string * string) UsageRow) (db : Db) : Db :=
  mkDb (orgs db) (partners db) (org_budgets db) (reservations db) m (client_usage db) (sessions db).
Definition set_sessions (m : gmap string SessionRow) (db : Db) : Db :=
  mkDb (orgs db) (partners db) (org_budgets db) (reservations db) (usage db) (client_usage db) m.
Definition put_row (r : ReservationRow) (db : Db) : Db := set_reservations (<[r_id r := r]> (reservations db)) db.

Inductive BudgetError := AiBudgetLockTimeoutError | Failure (message : string).
Abbreviation Tx := (Transaction Db BudgetError).

(** ** The effective budget *)

Record EffectiveAiBudget := mkBudget { b_enabled : bool; b_monthly : option Z; b_daily : option Z }.
Definition AI_BUDGET_DEFAULTS : EffectiveAiBudget := mkBudget true None None.

(** The organization's row where it has a value, then the partner's settings. *)
Definition getEffectiveAiBudget (orgId : string) : Tx EffectiveAiBudget :=
  let* db := query id in
  match orgs db !! orgId with
  | None => throw (Failure "Organization not found")
  | Some partnerId =>
      let d := AI_BUDGET_DEFAULTS in
      let o := match org_budgets db !! orgId with
               | Some row => mkBudget (ob_enabled row)
                               (match ob_monthly row with Some v => Some v | None => b_monthly d end)
                               (match ob_daily row with Some v => Some v | None => b_daily d end)
               | None => d
               end in
      match partners db !! partnerId with
      | None => throw (Failure "Partner not found")
      | Some p => ret (mkBudget (default (b_enabled o) (pb_enabled p)) (default (b_monthly o) (pb_monthly p))
                         (default (b_daily o) (pb_daily p)))
      end
  end.

(** ** Inputs *)

Definition is_hex (c : ascii) : bool := is_lower_hex (lower_char c).
Definition one_of (cs : list ascii) (c : ascii) : bool := existsb (Ascii.eqb (lower_char c)) cs.

(** The pattern of a UUID, a test per character. *)
Definition uuid_tests : list (ascii → bool) :=
  let dash := Ascii.eqb "-"%char in
  replicate 8 is_hex ++ dash :: replicate 4 is_hex ++ dash
    :: one_of ["1"; "2"; "3"; "4"; "5"]%char :: replicate 3 is_hex ++ dash
    :: one_of ["8"; "9"; "a"; "b"]%char :: replicate 3 is_hex ++ dash :: replicate 12 is_hex.
Definition is_uuid (s : string) : bool :=
  bool_decide (length (chars s) = length uuid_tests) && forallb (λ tc, tc.1 tc.2) (zip uuid_tests (chars s)).

Record PeriodKeys := mkKeys { k_daily : string; k_monthly : string }.

Definition periodKeys (now : Z) : PeriodKeys :=
  let month := padStart2 (js_String (getUTCMonth now + 1)) in
  let year := js_String (getUTCFullYear now) in
  mkKeys (year +:+ "-" +:+ month +:+ "-" +:+ padStart2 (js_String (getUTCDate now))) (year +:+ "-" +:+ month).

Definition MAX_SAFE_INTEGER : Z := 9007199254740991.
Definition nonNegativeInteger (value : Z) (label : string) : result BudgetError Z :=
  if (MAX_SAFE_INTEGER <? value) || (value <? 0) then Err (Failure (label +:+ " must be a non-negative safe integer"))
  else Ok value.

Section numbers.
Context {N : Type} `{Numbers N}.

Definition MONEY_SCALE : Z := 1000000.
Definition MAX_MONEY_CENTS : Z := 99999999999999.
Definition cents (c : Z) : N := of_micro (c * MONEY_SCALE).

(** [moneyString]: the amount as the column stores it.  Without a number the value is
    infinite. *)
Definition moneyString (value : option N) (label : string) : result BudgetError Z :=
  match value with
  | Some x => if negb (num_leb (cents 0) x) || negb (num_leb x (cents MAX_MONEY_CENTS))
              then Err (Failure (label +:+ " must be a finite non-negative monetary amount")) else Ok (micro x)
  | None => Err (Failure (label +:+ " must be a finite non-negative monetary amount"))
  end.

Record ClientAiBudgetCaps := mkCaps { c_daily : option Z; c_monthly : option Z }.

Record ReserveAiBudgetInput := mkReserve {
  i_orgId : string; i_idempotencyKey : string; i_billingSource : AiBillingSource; i_sessionId : option string;
  i_namespace : option AiBudgetNamespace; i_clientBudget : option ClientAiBudgetCaps; i_maxHoldCents : option N }.

Definition namespace_of (i : ReserveAiBudgetInput) : AiBudgetNamespace := default technician (i_namespace i).

Definition validateIdentity (i : ReserveAiBudgetInput) : result BudgetError unit :=
  if negb (is_uuid (i_orgId i)) then Err (Failure "orgId must be a UUID")
  else if match i_sessionId i with Some s => negb (is_uuid s) | None => false end
  then Err (Failure "sessionId must be a UUID or null")
  else if (length (chars (i_idempotencyKey i)) <? 1)%nat || (200 <? length (chars (i_idempotencyKey i)))%nat
  then Err (Failure "idempotencyKey must contain 1-200 characters")
  else if bool_decide (namespace_of i = client) && bool_decide (i_clientBudget i = None)
  then Err (Failure "clientBudget is required for a client-namespace reservation")
  else if negb (bool_decide (namespace_of i = client)) && bool_decide (i_clientBudget i ≠ None)
  then Err (Failure "clientBudget is only meaningful for a client-namespace reservation")
  else if match i_maxHoldCents i with Some x => num_leb x (cents 0) | None => false end
  then Err (Failure "maxHoldCents must be a finite positive amount")
  else Ok tt.

(** ** Admission *)

Definition AI_BUDGET_RESERVATION_ACTIVE_TTL_MS : Z := 30 * 60 * 1000.
Definition AI_BUDGET_RESERVATION_INDETERMINATE_TTL_MS : Z := 24 * 60 * 60 * 1000.

Inductive AiBudgetDenialReason :=
| ai_disabled
| daily_budget | monthly_budget
| client_daily_budget | client_monthly_budget
| client_daily_budget_in_flight | client_monthly_budget_in_flight
| daily_budget_in_flight | monthly_budget_in_flight.

Inductive ReserveAiBudgetResult :=
| unlimited (reservationId dailyPeriodKey monthlyPeriodKey : string)
| reserved (reservationId dailyPeriodKey monthlyPeriodKey : string) (cost : Z)
| denied (reason : AiBudgetDenialReason).

(** [SELECT id FROM organizations ... FOR UPDATE], within the bound or not. *)
Definition lockOrganizationRow (locked : bool) (orgId : string) : Tx unit :=
  if locked then
    let* org := query (λ db, orgs db !! orgId) in
    match org with Some _ => ret tt | None => throw (Failure "Organization not found or not visible") end
  else throw AiBudgetLockTimeoutError.

Definition existingResult (r : ReservationRow) : result BudgetError ReserveAiBudgetResult :=
  match r_status r with
  | indeterminate => Err (Failure "reservation has an indeterminate provider outcome")
  | expired => Err (Failure "reservation expired before it was settled")
  | settled | released => Err (Failure "reservation is already closed")
  | active => Ok (if r_uncapped r then unlimited (r_id r) (r_daily r) (r_monthly r)
                  else reserved (r_id r) (r_daily r) (r_monthly r) (r_reserved r))
  end.

(** A reservation holds capacity while it is open and its window has not closed. *)
Definition open_status (s : AiBudgetReservationStatus) : bool :=
  match s with active | indeterminate => true | _ => false end.
Definition holds (t : Z) (r : ReservationRow) : bool := open_status (r_status r) && (t <? r_expires r).

Definition sum_rows (f : ReservationRow → Z) (m : gmap string ReservationRow) : Z := map_fold (λ _ r n, f r + n) 0 m.
Definition held (t : Z) (p : ReservationRow → bool) (db : Db) : Z :=
  sum_rows (λ r, if holds t r && p r then r_reserved r else 0) (reservations db).

Definition of_day (orgId key : string) (r : ReservationRow) : bool := String.eqb (r_org r) orgId && String.eqb (r_daily r) key.
Definition of_month (orgId key : string) (r : ReservationRow) : bool := String.eqb (r_org r) orgId && String.eqb (r_monthly r) key.
Definition of_client (p : ReservationRow → bool) (r : ReservationRow) : bool := bool_decide (r_namespace r = client) && p r.

Definition used (orgId period key : string) (db : Db) : Z :=
  match usage db !! (orgId, period, key) with Some u => u_cost u | None => 0 end.
Definition client_used (orgId period key : string) (db : Db) : Z := default 0 (client_usage db !! (orgId, period, key)).

(** What a cap leaves; without a cap, infinity. *)
Definition remaining (cap : option Z) (usedCents heldCents : Z) : option N :=
  (λ c, minus (minus (cents c) (of_micro (Z.max 0 usedCents))) (of_micro (Z.max 0 heldCents))) <$> cap.

(** Whether a cap denies, and whether for money spent or for money held. *)
Definition cap_denies (cap : option Z) (usedCents heldCents : Z) (in_flight spent : AiBudgetDenialReason)
    : option AiBudgetDenialReason :=
  match remaining cap usedCents heldCents with
  | Some x =>
      if num_leb x (cents 0) then
        Some (if (0 <? Z.max 0 heldCents)
                 && negb (num_leb (minus (cents (default 0 cap)) (of_micro (Z.max 0 usedCents))) (cents 0))
              then in_flight else spent)
      else None
  | None => None
  end.

Definition min_inf (a b : option N) : option N :=
  match a, b with Some x, Some y => Some (num_min x y) | Some x, None => Some x | None, y => y end.

(** The amount to hold, or why there is none. *)
Definition hold_amount (i : ReserveAiBudgetInput) (b : EffectiveAiBudget) (keys : PeriodKeys) (t : Z) (db : Db)
    : AiBudgetDenialReason + option N :=
  let org := i_orgId i in
  let day := of_day org (k_daily keys) in
  let month := of_month org (k_monthly keys) in
  let dailyUsed := used org "daily" (k_daily keys) db in
  let monthlyUsed := used org "monthly" (k_monthly keys) db in
  let clientCaps := match namespace_of i with client => i_clientBudget i | technician => None end in
  match cap_denies (b_daily b) dailyUsed (held t day db) daily_budget_in_flight daily_budget with
  | Some r => inl r
  | None =>
      match cap_denies (b_monthly b) monthlyUsed (held t month db) monthly_budget_in_flight monthly_budget with
      | Some r => inl r
      | None =>
          let amount := min_inf (remaining (b_daily b) dailyUsed (held t day db))
                                (remaining (b_monthly b) monthlyUsed (held t month db)) in
          let amount := min_inf amount (i_maxHoldCents i) in
          match clientCaps with
          | Some c =>
              let clientDailyUsed := client_used org "daily" (k_daily keys) db in
              let clientMonthlyUsed := client_used org "monthly" (k_monthly keys) db in
              match cap_denies (c_daily c) clientDailyUsed (held t (of_client day) db)
                      client_daily_budget_in_flight client_daily_budget with
              | Some r => inl r
              | None =>
                  match cap_denies (c_monthly c) clientMonthlyUsed (held t (of_client month) db)
                          client_monthly_budget_in_flight client_monthly_budget with
                  | Some r => inl r
                  | None => inr (min_inf (min_inf amount (remaining (c_daily c) clientDailyUsed (held t (of_client day) db)))
                                         (remaining (c_monthly c) clientMonthlyUsed (held t (of_client month) db)))
                  end
              end
          | None => inr amount
          end
      end
  end.

Definition uncapped_by (i : ReserveAiBudgetInput) (b : EffectiveAiBudget) : bool :=
  let orgUncapped := bool_decide (b_daily b = None) && bool_decide (b_monthly b = None) in
  let clientUncapped := match namespace_of i, i_clientBudget i with
                        | client, Some c => bool_decide (c_daily c = None) && bool_decide (c_monthly c = None)
                        | _, _ => true
                        end in
  orgUncapped && clientUncapped.

Definition find_reservation (orgId key : string) (db : Db) : option ReservationRow :=
  snd <$> head (filter (λ kr : string * ReservationRow, r_org kr.2 = orgId ∧ r_key kr.2 = key) (map_to_list (reservations db))).

Definition insert_reservation (r : ReservationRow) : Tx unit :=
  let* old := query (λ db, reservations db !! r_id r) in
  match old with
  | Some _ => throw (Failure "Failed to create AI budget reservation")
  | None => modify (put_row r)
  end.

(** [now] is the server's clock, [t] the database's, [rowId] the id of the new row. *)
Definition reserveAiBudget (i : ReserveAiBudgetInput) (now t : Z) (locked : bool) (rowId : string) : Tx ReserveAiBudgetResult :=
  let* _ := lift (validateIdentity i) in
  let keys := periodKeys now in
  let* _ := lockOrganizationRow locked (i_orgId i) in
  let* existing := query (find_reservation (i_orgId i) (i_idempotencyKey i)) in
  match existing with
  | Some r =>
      if bool_decide (r_billing r = i_billingSource i) && bool_decide (r_session r = i_sessionId i)
         && bool_decide (r_namespace r = namespace_of i)
      then lift (existingResult r)
      else throw (Failure "AI budget reservation idempotency key conflicts with another dispatch")
  | None =>
      let* session := query (λ db, s ← i_sessionId i; sessions db !! s) in
      guard* (match i_sessionId i, session with
              | Some _, Some s => String.eqb (s_org s) (i_orgId i)
              | Some _, None => false
              | None, _ => true
              end) or (Failure "AI session not found in reservation organization") in
      let* budget := getEffectiveAiBudget (i_orgId i) in
      if negb (b_enabled budget) then ret (denied ai_disabled)
      else
        let* amount := (if uncapped_by i budget then ret (inr (Some (cents 0)))
                        else query (hold_amount i budget keys t)) in
        match amount with
        | inl reason => ret (denied reason)
        | inr x =>
            let* cost := lift (moneyString x "reservedCostCents") in
            let row := mkRow rowId (i_orgId i) (i_idempotencyKey i) (i_sessionId i) (i_billingSource i) (namespace_of i)
                         (k_daily keys) (k_monthly keys) (uncapped_by i budget) cost None active None
                         (t + AI_BUDGET_RESERVATION_ACTIVE_TTL_MS) in
            let* _ := insert_reservation row in
            lift (existingResult row)
        end
  end.

(** ** Settlement *)

Record SettleAiBudgetReservationInput := mkSettle {
  t_orgId : string; t_reservationId : string; t_actualCostCents : N; t_inputTokens : Z; t_outputTokens : Z;
  t_messageCount : option Z; t_toolExecutionCount : option Z; t_session : option (string * option Z); t_settledAt : Z }.

Inductive SettleResult := settled_now (reservationId : string) (cost : Z) | already_settled (reservationId : string) (cost : Z).

(** [toFixed(6)] of so many millionths. *)
Definition money_text (m : Z) : string :=
  js_String (m / MONEY_SCALE) +:+ "."
  +:+ of_chars (let d := chars (js_String (m mod MONEY_SCALE)) in replicate (6 - length d) "0"%char ++ d).

(** The counts of the settlement, with their defaults. *)
Definition messages_of (i : SettleAiBudgetReservationInput) : Z := default 1 (t_messageCount i).
Definition tools_of (i : SettleAiBudgetReservationInput) : Z := default 0 (t_toolExecutionCount i).
Definition turns_of (i : SettleAiBudgetReservationInput) : Z :=
  match t_session i with Some (_, Some n) => n | _ => 1 end.

Context (sha256 : string → string).

Definition settlementFingerprint (i : SettleAiBudgetReservationInput) (cost : Z) : string :=
  sha256 (json_object
    [("actualCostCents", quoted (money_text cost)); ("inputTokens", js_String (t_inputTokens i));
     ("outputTokens", js_String (t_outputTokens i)); ("messageCount", js_String (messages_of i));
     ("toolExecutionCount", js_String (tools_of i));
     ("sessionId", match t_session i with Some (s, _) => quoted s | None => "null" end);
     ("sessionTurnCount", js_String (turns_of i))]).

(** A value that must fit its column. *)
Definition int4 (n : Z) : result BudgetError Z :=
  if (n <? -2147483648) || (2147483647 <? n) then Err (Failure "integer out of range") else Ok n.
Definition numeric20 (m : Z) : result BudgetError Z :=
  if 100000000000000 * MONEY_SCALE <=? Z.abs m then Err (Failure "numeric field overflow") else Ok m.

(** [INSERT ... ON CONFLICT (org_id, period, period_key) DO UPDATE]. *)
Definition upsert_usage (orgId period key : string) (inp out cost messages tools : Z) (billing : AiBillingSource) : Tx unit :=
  let* old := query (λ db, usage db !! (orgId, period, key)) in
  let base := default (mkUsage 0 0 0 0 0 billing) old in
  let* inp' := lift (let! x := int4 inp in int4 (u_input base + x)) in
  let* out' := lift (let! x := int4 out in int4 (u_output base + x)) in
  let* cost' := lift (let! x := numeric20 cost in numeric20 (u_cost base + x)) in
  let* messages' := lift (let! x := int4 messages in int4 (u_messages base + x)) in
  let* tools' := lift (let! x := int4 tools in int4 (u_tools base + x)) in
  modify (λ db, set_usage (<[(orgId, period, key) := mkUsage inp' out' cost' messages' tools' billing]> (usage db)) db).

Definition update_session (id orgId : string) (inp out cost turns : Z) (billing : AiBillingSource) (at_ : Z) : Tx unit :=
  let* old := query (λ db, sessions db !! id) in
  match old with
  | Some s =>
      guard* (String.eqb (s_org s) orgId) or (Failure "AI session not found in settlement organization") in
      let* inp' := lift (let! x := int4 inp in int4 (s_input s + x)) in
      let* out' := lift (let! x := int4 out in int4 (s_output s + x)) in
      let* cost' := lift (let! x := numeric20 cost in numeric20 (s_cost s + x)) in
      let* turns' := lift (let! x := int4 turns in int4 (s_turns s + x)) in
      modify (λ db, set_sessions (<[id := mkSession (s_org s) inp' out' cost' turns' billing at_]> (sessions db)) db)
  | None => throw (Failure "AI session not found in settlement organization")
  end.

Definition set_status (st : AiBudgetReservationStatus) (r : ReservationRow) : ReservationRow :=
  mkRow (r_id r) (r_org r) (r_key r) (r_session r) (r_billing r) (r_namespace r) (r_daily r) (r_monthly r) (r_uncapped r)
    (r_reserved r) (r_actual r) st (r_fingerprint r) (r_expires r).
Definition set_settled (cost : Z) (fp : string) (r : ReservationRow) : ReservationRow :=
  mkRow (r_id r) (r_org r) (r_key r) (r_session r) (r_billing r) (r_namespace r) (r_daily r) (r_monthly r) (r_uncapped r)
    (r_reserved r) (Some cost) settled (Some fp) (r_expires r).
Definition set_indeterminate (expires : Z) (r : ReservationRow) : ReservationRow :=
  mkRow (r_id r) (r_org r) (r_key r) (r_session r) (r_billing r) (r_namespace r) (r_daily r) (r_monthly r) (r_uncapped r)
    (r_reserved r) (r_actual r) indeterminate (r_fingerprint r) expires.

Definition select_reservation (id orgId : string) (db : Db) : option ReservationRow :=
  r ← reservations db !! id; if String.eqb (r_org r) orgId then Some r else None.

(** The session of the call must be the reservation's, on both sides. *)
Definition session_matches (i : SettleAiBudgetReservationInput) (r : ReservationRow) : bool :=
  match t_session i, r_session r with
  | Some (s, _), Some s' => String.eqb s' s
  | None, None => true
  | _, _ => false
  end.

(** The writes of a settlement that is admitted. *)
Definition settle_writes (i : SettleAiBudgetReservationInput) (r : ReservationRow) (cost : Z) (fp : string) : Tx SettleResult :=
  let* _ := match t_session i with
            | Some (s, _) => update_session s (t_orgId i) (t_inputTokens i) (t_outputTokens i) cost (turns_of i) (r_billing r)
                               (t_settledAt i)
            | None => ret tt
            end in
  let* _ := upsert_usage (t_orgId i) "daily" (r_daily r) (t_inputTokens i) (t_outputTokens i) cost (messages_of i) (tools_of i)
              (r_billing r) in
  let* _ := upsert_usage (t_orgId i) "monthly" (r_monthly r) (t_inputTokens i) (t_outputTokens i) cost (messages_of i) (tools_of i)
              (r_billing r) in
  let* current := query (λ db, reservations db !! r_id r) in
  match current with
  | Some c =>
      guard* (match r_status c with active | indeterminate | expired => true | _ => false end)
        or (Failure "AI budget reservation changed during settlement") in
      let* _ := modify (put_row (set_settled cost fp c)) in
      ret (settled_now (r_id r) cost)
  | None => throw (Failure "AI budget reservation changed during settlement")
  end.

Definition settleAiBudgetReservation (i : SettleAiBudgetReservationInput) (locked : bool) : Tx SettleResult :=
  let* cost := lift (moneyString (Some (t_actualCostCents i)) "actualCostCents") in
  let* _ := lift (nonNegativeInteger (t_inputTokens i) "inputTokens") in
  let* _ := lift (nonNegativeInteger (t_outputTokens i) "outputTokens") in
  let* _ := lift (nonNegativeInteger (messages_of i) "messageCount") in
  let* _ := lift (nonNegativeInteger (tools_of i) "toolExecutionCount") in
  let* _ := lift (nonNegativeInteger (turns_of i) "session.turnCount") in
  let fp := settlementFingerprint i cost in
  let* _ := lockOrganizationRow locked (t_orgId i) in
  let* found := query (select_reservation (t_reservationId i) (t_orgId i)) in
  match found with
  | None => throw (Failure "AI budget reservation not found or not visible")
  | Some r =>
      match r_status r with
      | settled => guard* (bool_decide (r_fingerprint r = Some fp)) or (Failure "Conflicting settlement for AI budget reservation") in
                   ret (already_settled (r_id r) (default 0 (r_actual r)))
      | released => throw (Failure "Released AI budget reservation cannot be settled")
      | _ => guard* (session_matches i r) or (Failure "Settlement session does not match AI budget reservation") in
             settle_writes i r cost fp
      end
  end.

(** ** Closing without a cost *)

Inductive MarkResult := now_indeterminate | already_indeterminate | m_already_settled | m_already_expired.

Definition markAiBudgetReservationIndeterminate (orgId reservationId : string) (t : Z) (locked : bool) : Tx MarkResult :=
  let* _ := lockOrganizationRow locked orgId in
  let* found := query (select_reservation reservationId orgId) in
  match found with
  | None => throw (Failure "AI budget reservation not found or not visible")
  | Some r =>
      match r_status r with
      | settled => ret m_already_settled
      | indeterminate => ret already_indeterminate
      | expired => ret m_already_expired
      | released => throw (Failure "Released AI budget reservation cannot become indeterminate")
      | active => let* _ := modify (put_row (set_indeterminate (t + AI_BUDGET_RESERVATION_INDETERMINATE_TTL_MS) r)) in
                  ret now_indeterminate
      end
  end.

Inductive ReleaseResult := now_released | already_released | already_expired.

Definition releaseUnusedAiBudgetReservation (orgId reservationId : string) (locked : bool) : Tx ReleaseResult :=
  let* _ := lockOrganizationRow locked orgId in
  let* found := query (select_reservation reservationId orgId) in
  match found with
  | None => throw (Failure "AI budget reservation not found or not visible")
  | Some r =>
      match r_status r with
      | released => ret already_released
      | expired => ret already_expired
      | active => let* _ := modify (put_row (set_status released r)) in ret now_released
      | _ => throw (Failure "AI budget reservation cannot be released")
      end
  end.

(** Retry once on a lock timeout, then mark; the fates of the three locks are given. *)
Inductive DurableResult := durably (r : SettleResult) | deferred_indeterminate (reservationId : string).

Definition settleAiBudgetReservationDurably (i : SettleAiBudgetReservationInput) (t : Z) (lock1 lock2 lock3 : bool) (db : Db)
    : result BudgetError DurableResult * Db :=
  match run_tx (settleAiBudgetReservation i lock1) db with
  | (Ok r, db1) => (Ok (durably r), db1)
  | (Err AiBudgetLockTimeoutError, db1) =>
      match run_tx (settleAiBudgetReservation i lock2) db1 with
      | (Ok r, db2) => (Ok (durably r), db2)
      | (Err AiBudgetLockTimeoutError, db2) =>
          (Ok (deferred_indeterminate (t_reservationId i)),
           (run_tx (markAiBudgetReservationIndeterminate (t_orgId i) (t_reservationId i) t lock3) db2).2)
      | (Err e, db2) => (Err e, db2)
      end
  | (Err e, db1) => (Err e, db1)
  end.

(** The sweep, over the ids its subquery picked. *)
Definition sweep_row (t : Z) (r : ReservationRow) : ReservationRow :=
  if open_status (r_status r) && (r_expires r <=? t) then set_status expired r else r.
Definition expireStaleAiBudgetReservations (t : Z) (picked : list string) (db : Db) : Db :=
  set_reservations (map_imap (λ id r, Some (if bool_decide (id ∈ picked) then sweep_row t r else r)) (reservations db)) db.

(** ** The output ceiling *)

(** The loop: [low] is affordable; each round halves the range.  The sum of the two
    ends is exact up to 2^53. *)
Fixpoint search (fuel : nat) (affordable : Z → bool) (low high : Z) : Z :=
  match fuel with
  | O => low
  | S fuel' =>
      if low <? high then
        let midpoint := (low + high + 1) / 2 in
        if affordable midpoint then search fuel' affordable midpoint high else search fuel' affordable low (midpoint - 1)
      else low
  end.

(** [promptBytes] is the UTF-8 length of the prompt. *)
Definition maxOutputTokensForAiBudget (promptBytes requestedMaxOutputTokens : Z) (budgetCents : option N)
    (calculateCostCents : Z → Z → N) : result BudgetError (option Z) :=
  if (MAX_SAFE_INTEGER <? requestedMaxOutputTokens) || (requestedMaxOutputTokens <? 1) then
    Err (Failure "requestedMaxOutputTokens must be a positive safe integer")
  else match budgetCents with
  | None => Ok (Some requestedMaxOutputTokens)
  | Some budget =>
      if negb (num_leb (cents 0) budget) then Err (Failure "budgetCents must be a finite non-negative amount")
      else
        let conservativeInputTokens := promptBytes + 256 in
        let affordable n := num_leb (calculateCostCents conservativeInputTokens n) budget in
        if negb (affordable 1) then Ok None
        else Ok (Some (search (Z.to_nat (Z.log2 requestedMaxOutputTokens + 1)) affordable 1 requestedMaxOutputTokens))
  end.
End numbers.
End Budget.
