(* ===== verification/BudgetLedger.v ===== *)
(** * The AI budget ledger: what it guarantees

    The output ceiling is the largest affordable one ([Ceiling]).  [Ledger] is every
    interleaving of the calls on the tables: settled costs are recorded exactly
    once, settled rows are final, and while outcomes stay within their
    reservations no cap is oversold; [Reclaim] shows the one way a closed window
    takes its capacity back. *)
From S2P Require Import Prelude Transaction JsText JsDate IsoDate Budget.
From stdpp Require Import base tactics list strings gmap.
From Stdlib Require Import ZArith Lia Ascii.
Open Scope Z_scope.
Import Budget.

(** Exact numbers, for examples. *)
#[export] Instance exact : Numbers Z := {
  of_micro := λ m, m; minus := Z.sub; num_min := Z.min; num_leb := Z.leb; micro := λ x, x }.
#[export] Instance exact_laws limit : NumberLaws Z limit.
Proof. split; simpl; intros; lia. Qed.

Module Ceiling.

(** The range at least halves, so the fuel for [log2] of it is enough; [low] stays
    affordable and everything above [high] is not. *)
Lemma search_spec (affordable : Z → bool) fuel : ∀ low high,
  low ≤ high → high - low < 2 ^ Z.of_nat fuel → affordable low = true →
  low ≤ search fuel affordable low high ≤ high ∧ affordable (search fuel affordable low high) = true
  ∧ ∀ n, (∀ m, low ≤ m ≤ n → affordable m = true) → n ≤ high → n ≤ search fuel affordable low high.
Proof.
  induction fuel as [|fuel IH]; intros low high Hle Hf Ha; cbn [search].
  { change (2 ^ Z.of_nat 0) with 1 in Hf. split_and!; [lia|lia|done|lia]. }
  rewrite Nat2Z.inj_succ, Z.pow_succ_r in Hf by lia.
  destruct (Z.ltb_spec low high) as [Hlt|Hge]; [|split_and!; [lia|lia|done|lia]].
  set (mid := (low + high + 1) / 2). assert (low < mid ≤ high) as Hm.
  { unfold mid. pose proof (Z.div_mod (low + high + 1) 2). pose proof (Z.mod_pos_bound (low + high + 1) 2). lia. }
  assert (2 * mid ≤ low + high + 1 ≤ 2 * mid + 1) as Hm2.
  { unfold mid. pose proof (Z.div_mod (low + high + 1) 2). pose proof (Z.mod_pos_bound (low + high + 1) 2). lia. }
  destruct (affordable mid) eqn:Em.
  - destruct (IH mid high) as (H1 & H2 & H3); [lia|lia|done|]. split_and!; [lia|lia|done|].
    intros n Hn Hnh. destruct (decide (n < mid)); [lia|]. apply H3; [|done]. intros m Hm'. apply Hn. lia.
  - destruct (IH low (mid - 1)) as (H1 & H2 & H3); [lia|lia|done|]. split_and!; [lia|lia|done|].
    intros n Hn Hnh. apply H3; [done|]. destruct (decide (n < mid)); [lia|].
    rewrite Hn in Em by lia. done.
Qed.

(** The output ceiling is affordable, and it is the largest that is.  For every
    positive request up to 2^52 tokens the search ends with an answer: no ceiling
    exactly when not even one token is affordable, and otherwise a ceiling within
    the request that is affordable; where the cost does not fall with the output it
    is the largest such. *)
Theorem output_ceiling_correct {N} `{Numbers N} bytes requested budget (cost : Z → Z → N)
    (Hreq : 1 ≤ requested ≤ 2 ^ 52) (Hb : num_leb (cents 0) budget = true) :
  let affordable n := num_leb (cost (bytes + 256) n) budget in
  match maxOutputTokensForAiBudget bytes requested (Some budget) cost with
  | Ok None => affordable 1 = false
  | Ok (Some n) =>
      1 ≤ n ≤ requested ∧ affordable n = true
      ∧ ((∀ a b, a ≤ b → affordable b = true → affordable a = true) →
         ∀ m, 1 ≤ m ≤ requested → affordable m = true → m ≤ n)
  | Err _ => False
  end.
Proof.
  intros affordable. change (2 ^ 52) with 4503599627370496 in Hreq. unfold maxOutputTokensForAiBudget, MAX_SAFE_INTEGER.
  rewrite (proj2 (Z.ltb_ge 9007199254740991 requested)) by lia. rewrite (proj2 (Z.ltb_ge requested 1)) by lia.
  rewrite Hb. cbn [orb negb]. fold (affordable 1). destruct (affordable 1) eqn:E1; [|done]. cbn [negb].
  destruct (search_spec affordable (Z.to_nat (Z.log2 requested + 1)) 1 requested) as (Hr & Ha & Hmax); [lia| |done|].
  - pose proof (Z.log2_nonneg requested). rewrite Z2Nat.id by lia. pose proof (Z.log2_spec requested). lia.
  - split; [exact Hr|split; [exact Ha|]]. intros Hmono m Hm Hma. apply Hmax; [|lia]. intros k Hk. by apply (Hmono k m); [lia|].
Qed.

Lemma output_ceiling_correct_witness :
  maxOutputTokensForAiBudget 44 4096 (Some (100 * 1000000)) (λ i o, i * 30 + o * 150000) = Ok (Some 666)
  ∧ 666 ≤ 4096.
Proof.
  pose proof (output_ceiling_correct 44 4096 (100 * 1000000) (λ i o : Z, i * 30 + o * 150000)) as H.
  split; [by vm_compute|]. change (maxOutputTokensForAiBudget 44 4096 _ _) with (Ok (Some 666) : result BudgetError (option Z)) in H.
  apply H; [lia|done].
Defined.
End Ceiling.

(** ** Sums over the rows *)

Lemma sum_rows_insert f m k r : m !! k = None → sum_rows f (<[k := r]> m) = f r + sum_rows f m.
Proof.
  intros Hk. unfold sum_rows. rewrite map_fold_insert_L; [done| |done]. intros. lia.
Qed.

Lemma sum_rows_replace f m k r r' : m !! k = Some r → sum_rows f (<[k := r']> m) = f r' - f r + sum_rows f m.
Proof.
  intros Hk. rewrite <-(insert_delete_id m k r Hk) at 2. rewrite <-insert_delete_eq.
  rewrite !sum_rows_insert by apply lookup_delete_eq. lia.
Qed.

Lemma sum_rows_mono f g m : (∀ k r, m !! k = Some r → f r ≤ g r) → sum_rows f m ≤ sum_rows g m.
Proof.
  induction m as [|k r m Hk IH] using map_ind; intros Hfg; [done|]. rewrite !sum_rows_insert by done.
  pose proof (Hfg k r ltac:(apply lookup_insert_eq)). assert (sum_rows f m ≤ sum_rows g m); [|lia].
  apply IH. intros j x Hj. apply (Hfg j). rewrite lookup_insert_ne; [done|]. intros ->. congruence.
Qed.

Lemma sum_rows_nonneg f m : (∀ k r, m !! k = Some r → 0 ≤ f r) → 0 ≤ sum_rows f m.
Proof.
  induction m as [|k r m Hk IH] using map_ind; intros Hf; [done|]. rewrite sum_rows_insert by done.
  pose proof (Hf k r ltac:(apply lookup_insert_eq)). assert (0 ≤ sum_rows f m); [|lia].
  apply IH. intros j x Hj. apply (Hf j). rewrite lookup_insert_ne; [done|]. intros ->. congruence.
Qed.

Lemma sum_rows_ext f g m : (∀ k r, m !! k = Some r → f r = g r) → sum_rows f m = sum_rows g m.
Proof. intros Hfg. apply Z.le_antisymm; apply sum_rows_mono; intros k r Hk; rewrite (Hfg k r Hk); lia. Qed.

Lemma sum_rows_zero f m : (∀ k r, m !! k = Some r → f r = 0) → sum_rows f m = 0.
Proof.
  intros Hf. rewrite (sum_rows_ext f (λ _, 0)) by done. clear. induction m as [|k r m Hk IH] using map_ind; [done|].
  by rewrite sum_rows_insert.
Qed.

Lemma sum_rows_map f (g : string → ReservationRow → ReservationRow) m :
  (∀ k r, m !! k = Some r → f (g k r) = f r) → sum_rows f (map_imap (λ k r, Some (g k r)) m) = sum_rows f m.
Proof.
  induction m as [|k r m Hk IH] using map_ind; intros Hg; [by rewrite map_imap_empty|].
  rewrite map_imap_insert. rewrite sum_rows_insert by (by rewrite map_lookup_imap, Hk).
  rewrite sum_rows_insert by done. rewrite Hg with (k := k) by apply lookup_insert_eq. rewrite IH; [done|].
  intros j x Hj. apply (Hg j). rewrite lookup_insert_ne; [done|]. intros ->. congruence.
Qed.

Module Ledger.

(** ** What each call does *)

Lemma lock_Ok locked org db x db' : lockOrganizationRow locked org db = Ok (x, db') → db' = db ∧ locked = true.
Proof. unfold lockOrganizationRow. intros H. destruct locked; tx_inv. destruct (orgs _ !! org); by tx_inv. Qed.

Lemma budget_Ok org db b db' : getEffectiveAiBudget org db = Ok (b, db') → db' = db.
Proof. unfold getEffectiveAiBudget. intros H. tx_inv. repeat case_match; by tx_inv. Qed.

(** The organizations and their budgets are only read. *)
Definition same_config (db db' : Db) : Prop :=
  orgs db' = orgs db ∧ partners db' = partners db ∧ org_budgets db' = org_budgets db.

#[export] Instance same_config_preorder : PreOrder same_config.
Proof. split; [by intros db|]. intros a b c (?&?&?) (?&?&?). unfold same_config. split_and!; congruence. Qed.

Lemma upsert_Ok org period key inp out cost messages tools billing db x db' :
  upsert_usage org period key inp out cost messages tools billing db = Ok (x, db') →
  reservations db' = reservations db ∧ sessions db' = sessions db ∧ same_config db db'
  ∧ ∀ o p k, used o p k db' = used o p k db + if bool_decide ((o, p, k) = (org, period, key)) then cost else 0.
Proof.
  unfold upsert_usage. intros H. tx_inv. split_and!; [done..|]. intros o p k. unfold used; cbn.
  case_bool_decide as Hk.
  - simplify_eq. rewrite lookup_insert_eq. cbn. unfold numeric20, rbind in *. repeat case_match; simplify_eq; cbn; lia.
  - rewrite lookup_insert_ne by congruence. lia.
Qed.

Lemma session_Ok id org inp out cost turns billing at_ db x db' :
  update_session id org inp out cost turns billing at_ db = Ok (x, db') →
  reservations db' = reservations db ∧ usage db' = usage db ∧ same_config db db'
  ∧ ∃ s s', sessions db !! id = Some s ∧ sessions db' = <[id := s']> (sessions db)
            ∧ s_cost s' = s_cost s + cost ∧ s_org s' = s_org s.
Proof.
  unfold update_session. intros H. tx_inv. destruct (sessions _ !! id) as [row|] eqn:Es; [|by tx_inv]. tx_inv.
  split_and!; [done..|]. eexists row, _. split_and!; [done|reflexivity| |done].
  unfold numeric20, rbind in *. cbn. repeat case_match; simplify_eq. done.
Qed.

Lemma used_put_row o p k r db : used o p k (put_row r db) = used o p k db.
Proof. done. Qed.

(** What a settlement writes besides its row. *)
Definition charged (i_org : string) (session : option string) (day month : string) (cost : Z) (db db' : Db) : Prop :=
  same_config db db'
  ∧ (∀ o k, used o "daily" k db' = used o "daily" k db + if bool_decide (o = i_org ∧ k = day) then cost else 0)
  ∧ (∀ o k, used o "monthly" k db' = used o "monthly" k db + if bool_decide (o = i_org ∧ k = month) then cost else 0)
  ∧ match session with
    | Some id => ∃ s s', sessions db !! id = Some s ∧ sessions db' = <[id := s']> (sessions db) ∧ s_cost s' = s_cost s + cost
    | None => sessions db' = sessions db
    end.

Section numbers.
Context {N : Type} `{Numbers N} (sha256 : string → string).

Lemma session_part (i : SettleAiBudgetReservationInput (N := N)) cost billing db x db' :
  match t_session i with
  | Some (s, _) => update_session s (t_orgId i) (t_inputTokens i) (t_outputTokens i) cost (turns_of i) billing (t_settledAt i)
  | None => ret tt
  end db = Ok (x, db') →
  reservations db' = reservations db ∧ usage db' = usage db ∧ same_config db db'
  ∧ match fst <$> t_session i with
    | Some id => ∃ s s', sessions db !! id = Some s ∧ sessions db' = <[id := s']> (sessions db) ∧ s_cost s' = s_cost s + cost
    | None => sessions db' = sessions db
    end.
Proof.
  destruct (t_session i) as [[id n]|]; cbn; intros H1; [|by tx_inv].
  apply session_Ok in H1 as (? & ? & ? & s & s' & ? & ? & ? & ?). split_and!; [done..|]. by exists s, s'.
Qed.

Lemma writes_Ok (i : SettleAiBudgetReservationInput (N := N)) r cost fp db x db' :
  reservations db !! r_id r = Some r → settle_writes i r cost fp db = Ok (x, db') →
  x = settled_now (r_id r) cost
  ∧ reservations db' = <[r_id r := set_settled cost fp r]> (reservations db)
  ∧ charged (t_orgId i) (fst <$> t_session i) (r_daily r) (r_monthly r) cost db db'.
Proof.
  intros Hr H1. unfold settle_writes in H1. apply bind_Ok in H1 as (? & db1 & Hs & H1).
  apply session_part in Hs as (Hr1 & Hu1 & Hc1 & Hs1).
  apply bind_Ok in H1 as (? & db2 & Hd & H1). apply upsert_Ok in Hd as (Hr2 & Hs2 & Hc2 & Hu2).
  apply bind_Ok in H1 as (? & db3 & Hm & H1). apply upsert_Ok in Hm as (Hr3 & Hs3 & Hc3 & Hu3).
  apply bind_Ok in H1 as (cur & db4 & Hq & H1). unfold query in Hq. simplify_eq.
  rewrite Hr3, Hr2, Hr1, Hr in H1. tx_inv. split_and!; [done|by cbn; rewrite Hr3, Hr2, Hr1|].
  assert (∀ o p k, used o p k db1 = used o p k db) as Hu1' by (intros; unfold used; by rewrite Hu1).
  unfold charged. cbn [put_row set_reservations sessions]. split_and!.
  - etransitivity; [exact Hc1|]. etransitivity; [exact Hc2|exact Hc3].
  - intros o k. rewrite used_put_row, Hu3, Hu2, Hu1'.
    rewrite (bool_decide_eq_false_2 ((o, "daily", k) = (t_orgId i, "monthly", _))) by congruence.
    rewrite (bool_decide_ext ((o, "daily", k) = _) (o = t_orgId i ∧ k = r_daily r)) by naive_solver. lia.
  - intros o k. rewrite used_put_row, Hu3, Hu2, Hu1'.
    rewrite (bool_decide_eq_false_2 ((o, "monthly", k) = (t_orgId i, "daily", _))) by congruence.
    rewrite (bool_decide_ext ((o, "monthly", k) = _) (o = t_orgId i ∧ k = r_monthly r)) by naive_solver. lia.
  - by rewrite Hs3, Hs2.
Qed.

Lemma select_Some rid org db r :
  select_reservation rid org db = Some r → reservations db !! rid = Some r ∧ r_org r = org.
Proof.
  unfold select_reservation. destruct (reservations db !! rid) as [x|]; cbn; [|done].
  destruct (String.eqb_spec (r_org x) org); [|done]. by intros [= <-].
Qed.

(** Rows that may still be settled. *)
Definition settleable (st : AiBudgetReservationStatus) : bool :=
  match st with active | indeterminate | expired => true | _ => false end.

Definition keyed (db : Db) : Prop := ∀ k r, reservations db !! k = Some r → r_id r = k.

Lemma settle_Ok (i : SettleAiBudgetReservationInput (N := N)) locked db x db' :
  keyed db → settleAiBudgetReservation sha256 i locked db = Ok (x, db') →
  ∃ r cost, reservations db !! t_reservationId i = Some r ∧ r_org r = t_orgId i
    ∧ moneyString (Some (t_actualCostCents i)) "actualCostCents" = Ok cost
    ∧ ((r_status r = settled ∧ db' = db ∧ r_fingerprint r = Some (settlementFingerprint sha256 i cost)
        ∧ x = already_settled (r_id r) (default 0 (r_actual r)))
       ∨ (settleable (r_status r) = true ∧ session_matches i r = true ∧ x = settled_now (r_id r) cost
          ∧ reservations db' = <[r_id r := set_settled cost (settlementFingerprint sha256 i cost) r]> (reservations db)
          ∧ charged (r_org r) (r_session r) (r_daily r) (r_monthly r) cost db db')).
Proof.
  intros Hk H1. unfold settleAiBudgetReservation in H1. tx_inv.
  match goal with Hl : lockOrganizationRow _ _ _ = _ |- _ => apply lock_Ok in Hl as [-> _] end.
  match goal with Hc : moneyString _ _ = Ok ?c |- _ => rename c into cost end.
  destruct (select_reservation _ _ _) as [r|] eqn:Er; [|by tx_inv]. apply select_Some in Er as [Er Ho].
  exists r, cost. split_and!; [done..|].
  assert (∀ db', (guard* (session_matches i r) or (Failure "Settlement session does not match AI budget reservation") in
             settle_writes i r cost (settlementFingerprint sha256 i cost)) db = Ok (x, db') → settleable (r_status r) = true →
    settleable (r_status r) = true ∧ session_matches i r = true ∧ x = settled_now (r_id r) cost
          ∧ reservations db' = <[r_id r := set_settled cost (settlementFingerprint sha256 i cost) r]> (reservations db)
          ∧ charged (r_org r) (r_session r) (r_daily r) (r_monthly r) cost db db') as Hw.
  { intros db'' Hw Hst. tx_inv. apply writes_Ok in Hw as (-> & Hres & Hch); [|by rewrite (Hk _ _ Er)].
    split_and!; try done. rewrite Ho. revert Hch. unfold session_matches in *. destruct (t_session i) as [[sid n]|], (r_session r); cbn; try done.
    match goal with Hs : String.eqb _ _ = true |- _ => by apply String.eqb_eq in Hs as -> end. }
  destruct (r_status r) eqn:Est; try (right; by apply Hw); left. tx_inv. bool_hyps. by split_and!.
Qed.

Lemma mark_Ok org rid t locked db x db' :
  markAiBudgetReservationIndeterminate org rid t locked db = Ok (x, db') →
  db' = db ∨ ∃ r, reservations db !! rid = Some r ∧ r_status r = active ∧ r_org r = org
    ∧ db' = put_row (set_indeterminate (t + AI_BUDGET_RESERVATION_INDETERMINATE_TTL_MS) r) db.
Proof.
  intros H1. unfold markAiBudgetReservationIndeterminate in H1. tx_inv.
  match goal with Hl : lockOrganizationRow _ _ _ = _ |- _ => apply lock_Ok in Hl as [-> _] end.
  destruct (select_reservation _ _ _) as [r|] eqn:Er; [|by tx_inv]. apply select_Some in Er as [Er Ho].
  destruct (r_status r) eqn:Est; tx_inv; auto. right. by exists r.
Qed.

Lemma release_Ok org rid locked db x db' :
  releaseUnusedAiBudgetReservation org rid locked db = Ok (x, db') →
  db' = db ∨ ∃ r, reservations db !! rid = Some r ∧ r_status r = active ∧ db' = put_row (set_status released r) db.
Proof.
  intros H1. unfold releaseUnusedAiBudgetReservation in H1. tx_inv.
  match goal with Hl : lockOrganizationRow _ _ _ = _ |- _ => apply lock_Ok in Hl as [-> _] end.
  destruct (select_reservation _ _ _) as [r|] eqn:Er; [|by tx_inv]. apply select_Some in Er as [Er Ho].
  destruct (r_status r) eqn:Est; tx_inv; auto. right. by exists r.
Qed.

(** The row a reservation inserts. *)
Definition new_row (i : ReserveAiBudgetInput (N := N)) (now t : Z) (rowId : string) (uncapped : bool) (cost : Z) : ReservationRow :=
  mkRow rowId (i_orgId i) (i_idempotencyKey i) (i_sessionId i) (i_billingSource i) (namespace_of i)
    (k_daily (periodKeys now)) (k_monthly (periodKeys now)) uncapped cost None active None
    (t + AI_BUDGET_RESERVATION_ACTIVE_TTL_MS).

Lemma reserve_Ok (i : ReserveAiBudgetInput (N := N)) now t locked rowId db x db' :
  reserveAiBudget i now t locked rowId db = Ok (x, db') →
  db' = db ∨ ∃ b cost, getEffectiveAiBudget (i_orgId i) db = Ok (b, db) ∧ reservations db !! rowId = None
    ∧ find_reservation (i_orgId i) (i_idempotencyKey i) db = None
    ∧ match i_sessionId i with Some s => is_Some (sessions db !! s) | None => True end
    ∧ (∃ amount, (uncapped_by i b = true ∨ hold_amount i b (periodKeys now) t db = inr amount)
         ∧ moneyString amount "reservedCostCents" = Ok cost)
    ∧ db' = put_row (new_row i now t rowId (uncapped_by i b) cost) db.
Proof.
  intros H1. unfold reserveAiBudget in H1. tx_inv.
  match goal with Hl : lockOrganizationRow _ _ _ = _ |- _ => apply lock_Ok in Hl as [-> _] end.
  destruct (find_reservation _ _ db) as [r|] eqn:Ef.
  { left. destruct (_ && _ && _); by tx_inv. }
  apply bind_Ok in H1 as (session & db1 & Hs & H1). unfold query in Hs. injection Hs as <- <-.
  match type of H1 with (if ?b then _ else throw _) _ = _ => destruct b eqn:Eg; [|done] end.
  apply bind_Ok in H1 as (b & db1 & Hb & H1). pose proof (budget_Ok _ _ _ _ Hb) as ->.
  destruct (b_enabled b); cbn [negb] in H1; [|left; by tx_inv].
  apply bind_Ok in H1 as (amount & db1 & Ha & H1).
  assert (db1 = db ∧ ∀ y, amount = inr y → uncapped_by i b = true ∨ hold_amount i b (periodKeys now) t db = inr y) as [-> Hamt].
  { destruct (uncapped_by i b); tx_inv; [auto|]. split; [done|]. auto. }
  destruct amount as [reason|y]; [left; by tx_inv|]. right. unfold insert_reservation in H1. tx_inv.
  match goal with Hi : (match ?o with _ => _ end) _ = Ok _ |- _ => destruct o eqn:Eo; [by tx_inv|]; tx_inv end.
  eexists b, _. split_and!; [done..| |eexists; split; [by apply Hamt|done]|done].
  destruct (i_sessionId i) as [sid|]; [|done]. cbn in Eg. destruct (sessions db !! sid); [eauto|done].
Qed.

(** ** Every history *)

Record World := mkWorld { w_clock : Z; w_db : Db }.

(** A settlement within its reservation, while it still holds. *)
Definition within_hold (t : Z) (i : SettleAiBudgetReservationInput (N := N)) (db : Db) : Prop :=
  ∀ r cost, reservations db !! t_reservationId i = Some r → settleable (r_status r) = true →
    moneyString (Some (t_actualCostCents i)) "actualCostCents" = Ok cost → holds t r = true ∧ cost ≤ r_reserved r.

(** The calls in any order, the database's clock never running back.  A strict
    history settles within the reservation, marks only rows whose window is open,
    and keeps the budgets.  Turns that record usage without a reservation are not
    part of these histories. *)
Inductive step (strict : bool) : World → World → Prop :=
| l_reserve t t' db (i : ReserveAiBudgetInput (N := N)) now locked rowId :
    t ≤ t' → step strict (mkWorld t db) (mkWorld t' (run_tx (reserveAiBudget i now t' locked rowId) db).2)
| l_settle t t' db (i : SettleAiBudgetReservationInput (N := N)) locked :
    t ≤ t' → (strict = true → within_hold t' i db) →
    step strict (mkWorld t db) (mkWorld t' (run_tx (settleAiBudgetReservation sha256 i locked) db).2)
| l_mark t t' db org rid locked :
    t ≤ t' → (strict = true → ∀ r, reservations db !! rid = Some r → r_status r = active → t' < r_expires r) →
    step strict (mkWorld t db) (mkWorld t' (run_tx (markAiBudgetReservationIndeterminate org rid t' locked) db).2)
| l_release t t' db org rid locked :
    t ≤ t' → step strict (mkWorld t db) (mkWorld t' (run_tx (releaseUnusedAiBudgetReservation org rid locked) db).2)
| l_sweep t t' db picked :
    t ≤ t' → step strict (mkWorld t db) (mkWorld t' (expireStaleAiBudgetReservations t' picked db))
| l_session t t' db id s :
    t ≤ t' → sessions db !! id = None → s_cost s = 0 →
    step strict (mkWorld t db) (mkWorld t' (set_sessions (<[id := s]> (sessions db)) db))
| l_client t t' db m :
    t ≤ t' → step strict (mkWorld t db)
      (mkWorld t' (mkDb (orgs db) (partners db) (org_budgets db) (reservations db) (usage db) m (sessions db)))
| l_config t t' db o p b :
    t ≤ t' → strict = false → step strict (mkWorld t db)
      (mkWorld t' (mkDb o p b (reservations db) (usage db) (client_usage db) (sessions db))).

(** Before the first reservation: nothing recorded, no session has cost anything. *)
Definition initial (w : World) : Prop :=
  reservations (w_db w) = ∅ ∧ usage (w_db w) = ∅ ∧ ∀ id s, sessions (w_db w) !! id = Some s → s_cost s = 0.
Definition reachable (strict : bool) (w : World) : Prop := ∃ w0, initial w0 ∧ rtc (step strict) w0 w.

(** The settled cost of the rows that satisfy [p]. *)
Definition settled_cost (p : ReservationRow → bool) (r : ReservationRow) : Z :=
  if bool_decide (r_status r = settled) && p r then default 0 (r_actual r) else 0.
Definition settled_sum (p : ReservationRow → bool) (db : Db) : Z := sum_rows (settled_cost p) (reservations db).
Definition of_session (id : string) (r : ReservationRow) : bool := bool_decide (r_session r = Some id).

Record ok (db : Db) : Prop := {
  ok_keyed : keyed db;
  ok_unique : ∀ k k' r r', reservations db !! k = Some r → reservations db !! k' = Some r' →
    r_org r = r_org r' → r_key r = r_key r' → k = k';
  ok_session : ∀ k r id, reservations db !! k = Some r → r_session r = Some id → is_Some (sessions db !! id);
  ok_daily : ∀ o k, used o "daily" k db = settled_sum (of_day o k) db;
  ok_monthly : ∀ o k, used o "monthly" k db = settled_sum (of_month o k) db;
  ok_cost : ∀ id s, sessions db !! id = Some s → s_cost s = settled_sum (of_session id) db }.

Lemma settled_sum_replace p r r' db :
  reservations db !! r_id r' = Some r → settled_sum p (put_row r' db) = settled_cost p r' - settled_cost p r + settled_sum p db.
Proof. intros Hr. unfold settled_sum, put_row; cbn. by apply sum_rows_replace. Qed.

Lemma settled_sum_new p r db :
  reservations db !! r_id r = None → settled_sum p (put_row r db) = settled_cost p r + settled_sum p db.
Proof. intros Hr. unfold settled_sum, put_row; cbn. by apply sum_rows_insert. Qed.

(** A row that changes only in status and window, and is settled neither before nor after. *)
Definition same_reservation (r r' : ReservationRow) : Prop :=
  r_id r' = r_id r ∧ r_org r' = r_org r ∧ r_key r' = r_key r ∧ r_session r' = r_session r ∧ r_daily r' = r_daily r
  ∧ r_monthly r' = r_monthly r ∧ r_reserved r' = r_reserved r.

Lemma ok_put r r' db :
  ok db → reservations db !! r_id r = Some r → same_reservation r r' →
  r_status r ≠ settled → r_status r' ≠ settled → ok (put_row r' db).
Proof.
  intros [Hk Hu Hs Hd Hm Hc] Hr (Hid & Ho & Hkey & Hse & _ & _ & _) Hst Hst'.
  assert (∀ p, settled_sum p (put_row r' db) = settled_sum p db) as Hsum.
  { intros p. rewrite (settled_sum_replace p r) by (by rewrite Hid). unfold settled_cost.
    rewrite !bool_decide_eq_false_2 by done. cbn. lia. }
  assert (∀ k x, reservations (put_row r' db) !! k = Some x →
    ∃ y, reservations db !! k = Some y ∧ r_id x = r_id y ∧ r_org x = r_org y ∧ r_key x = r_key y ∧ r_session x = r_session y) as Hback.
  { intros k x. unfold put_row; cbn. rewrite Hid. intros [[<- <-]|[_ Hx]]%lookup_insert_Some; [by exists r|by exists x]. }
  split.
  - intros k x Hx. destruct (Hback k x Hx) as (y & Hy & -> & _). by apply Hk.
  - intros k k' x x' Hx Hx' Ho' Hk'. destruct (Hback k x Hx) as (y & Hy & _ & Hyo & Hyk & _), (Hback k' x' Hx') as (y' & Hy' & _ & Hyo' & Hyk' & _).
    eapply Hu; [exact Hy|exact Hy'|congruence|congruence].
  - intros k x id Hx Hxs. destruct (Hback k x Hx) as (y & Hy & _ & _ & _ & Hys). eapply Hs; [exact Hy|congruence].
  - intros o k. rewrite Hsum. apply Hd.
  - intros o k. rewrite Hsum. apply Hm.
  - intros id s Hid'. rewrite Hsum. by apply Hc.
Qed.

Lemma settled_cost_open p r : settleable (r_status r) = true → settled_cost p r = 0.
Proof. unfold settled_cost. by destruct (r_status r). Qed.

Lemma settled_cost_settled p cost fp r :
  settled_cost p (set_settled cost fp r) = if p (set_settled cost fp r) then cost else 0.
Proof. done. Qed.

Lemma ok_settled r cost fp db db' :
  ok db → reservations db !! r_id r = Some r → settleable (r_status r) = true →
  reservations db' = <[r_id r := set_settled cost fp r]> (reservations db) →
  charged (r_org r) (r_session r) (r_daily r) (r_monthly r) cost db db' → ok db'.
Proof.
  intros [Hk Hu Hs Hd Hm Hc] Hr Hst Hres (_ & Hda & Hmo & Hse).
  assert (∀ p, p (set_settled cost fp r) = p r → settled_sum p db' = settled_sum p db + if p r then cost else 0) as Hsum.
  { intros p Hp. unfold settled_sum. rewrite Hres, (sum_rows_replace _ _ _ r) by done.
    rewrite (settled_cost_open p r) by done. rewrite settled_cost_settled, Hp. destruct (p r); lia. }
  assert (∀ k x, reservations db' !! k = Some x → ∃ y, reservations db !! k = Some y ∧ r_id x = r_id y
    ∧ r_org x = r_org y ∧ r_key x = r_key y ∧ r_session x = r_session y) as Hback.
  { intros k x. rewrite Hres. intros [[<- <-]|[_ Hx]]%lookup_insert_Some; [by exists r|by exists x]. }
  split.
  - intros k x Hx. destruct (Hback k x Hx) as (y & Hy & -> & _). by apply Hk.
  - intros k k' x x' Hx Hx' Ho' Hk'. destruct (Hback k x Hx) as (y & Hy & _ & Hyo & Hyk & _), (Hback k' x' Hx') as (y' & Hy' & _ & Hyo' & Hyk' & _).
    eapply Hu; [exact Hy|exact Hy'|congruence|congruence].
  - intros k x id Hx Hxs. destruct (Hback k x Hx) as (y & Hy & _ & _ & _ & Hys).
    assert (is_Some (sessions db !! id)) as Hid by (eapply Hs; [exact Hy|congruence]).
    destruct (r_session r) as [sid|]; [|by rewrite Hse]. destruct Hse as (s & s' & _ & -> & _).
    destruct (decide (sid = id)) as [<-|]; [by rewrite lookup_insert_eq|by rewrite lookup_insert_ne].
  - intros o k. rewrite Hda, Hsum, Hd by done. f_equal. unfold of_day.
    destruct (String.eqb_spec (r_org r) o), (String.eqb_spec (r_daily r) k); cbn; case_bool_decide; naive_solver.
  - intros o k. rewrite Hmo, Hsum, Hm by done. f_equal. unfold of_month.
    destruct (String.eqb_spec (r_org r) o), (String.eqb_spec (r_monthly r) k); cbn; case_bool_decide; naive_solver.
  - intros id s Hid. rewrite Hsum by done. unfold of_session at 2. destruct (r_session r) as [sid|] eqn:Esr.
    + destruct Hse as (s0 & s1 & Hs0 & Hs' & Hcost). rewrite Hs' in Hid. apply lookup_insert_Some in Hid as [[<- <-]|[Hne Hid]].
      * rewrite bool_decide_eq_true_2 by done. rewrite Hcost. f_equal. by apply Hc.
      * rewrite bool_decide_eq_false_2 by congruence. rewrite (Hc id s Hid). lia.
    + rewrite Hse in Hid. rewrite (Hc id s Hid), bool_decide_eq_false_2 by done. lia.
Qed.

Lemma ok_new r db :
  ok db → reservations db !! r_id r = None → r_status r = active →
  find_reservation (r_org r) (r_key r) db = None → (∀ id, r_session r = Some id → is_Some (sessions db !! id)) → ok (put_row r db).
Proof.
  intros [Hk Hu Hs Hd Hm Hc] Hr Hst Hf Hsess.
  assert (∀ p, settled_sum p (put_row r db) = settled_sum p db) as Hsum.
  { intros p. by rewrite settled_sum_new, settled_cost_open by (by rewrite ?Hst). }
  assert (∀ k x, reservations db !! k = Some x → r_org x = r_org r → r_key x = r_key r → False) as Hno.
  { intros k x Hx Ho Hkey. unfold find_reservation in Hf. destruct (head _) as [kr|] eqn:Eh; [done|].
    assert ((k, x) ∈ filter (λ kr : string * ReservationRow, r_org kr.2 = r_org r ∧ r_key kr.2 = r_key r) (map_to_list (reservations db))) as Hin.
    { apply list_elem_of_filter. split; [done|]. by apply elem_of_map_to_list. }
    destruct (filter _ _); [|done]. by auto with breeze. }
  split; unfold keyed, put_row; cbn [set_reservations reservations].
  - intros k x [[<- <-]|[_ Hx]]%lookup_insert_Some; [done|by apply Hk].
  - intros k k' x x' [[<- <-]|[_ Hx]]%lookup_insert_Some [[<- <-]|[_ Hx']]%lookup_insert_Some Ho Hkey; [done|exfalso; by eapply Hno..|by eapply Hu].
  - intros k x id [[<- <-]|[_ Hx]]%lookup_insert_Some Hxs; [by apply Hsess|by eapply Hs].
  - intros o k. rewrite Hsum. apply Hd.
  - intros o k. rewrite Hsum. apply Hm.
  - intros id s Hid. rewrite Hsum. by apply Hc.
Qed.

Lemma ok_sweep t picked db : ok db → ok (expireStaleAiBudgetReservations t picked db).
Proof.
  intros [Hk Hu Hs Hd Hm Hc].
  set (g := λ (id : string) r, if bool_decide (id ∈ picked) then sweep_row t r else r).
  assert (∀ k r, same_reservation r (g k r)) as Hsame.
  { intros k r. unfold g, sweep_row. destruct (bool_decide (k ∈ picked)); [|done]. by destruct (open_status (r_status r) && (r_expires r <=? t)). }
  assert (∀ p k r, (∀ r r', same_reservation r r' → p r' = p r) → settled_cost p (g k r) = settled_cost p r) as Hcost.
  { intros p k r Hp. unfold settled_cost. rewrite (Hp r (g k r)) by done. unfold g, sweep_row, open_status.
    destruct (bool_decide (k ∈ picked)); [|done]. destruct (r_status r) eqn:Es, (r_expires r <=? t); cbn; by rewrite ?Es. }
  assert (∀ p, (∀ r r', same_reservation r r' → p r' = p r) →
    settled_sum p (expireStaleAiBudgetReservations t picked db) = settled_sum p db) as Hsum.
  { intros p Hp. unfold settled_sum, expireStaleAiBudgetReservations; cbn. apply sum_rows_map. intros k r _. by apply Hcost. }
  assert (∀ k x, reservations (expireStaleAiBudgetReservations t picked db) !! k = Some x →
    ∃ y, reservations db !! k = Some y ∧ same_reservation y x) as Hback.
  { intros k x. unfold expireStaleAiBudgetReservations; cbn. rewrite map_lookup_imap.
    destruct (reservations db !! k) as [y|]; cbn; [|done]. intros [= <-]. exists y. split; [done|apply Hsame]. }
  split.
  - intros k x Hx. destruct (Hback k x Hx) as (y & Hy & (-> & _)). by apply Hk.
  - intros k k' x x' Hx Hx' Ho' Hk'. destruct (Hback k x Hx) as (y & Hy & (_ & Hyo & Hyk & _)), (Hback k' x' Hx') as (y' & Hy' & (_ & Hyo' & Hyk' & _)).
    eapply Hu; [exact Hy|exact Hy'|congruence|congruence].
  - intros k x id Hx Hxs. destruct (Hback k x Hx) as (y & Hy & (_ & _ & _ & Hys & _)). eapply (Hs k y); [done|congruence].
  - intros o k. rewrite Hsum; [apply Hd|]. intros r r' (_ & Ho & _ & _ & Hda & _). unfold of_day. by rewrite Ho, Hda.
  - intros o k. rewrite Hsum; [apply Hm|]. intros r r' (_ & Ho & _ & _ & _ & Hmo & _). unfold of_month. by rewrite Ho, Hmo.
  - intros id s Hid. rewrite Hsum; [by apply Hc|]. intros r r' (_ & _ & _ & Hse & _). unfold of_session. by rewrite Hse.
Qed.

(** What a call leaves: nothing changed, a new row, a row moved on, a settlement. *)
Inductive change (db : Db) : Db → Prop :=
| ch_none : change db db
| ch_new r : reservations db !! r_id r = None → r_status r = active → find_reservation (r_org r) (r_key r) db = None →
    (∀ id, r_session r = Some id → is_Some (sessions db !! id)) → change db (put_row r db)
| ch_move r r' : reservations db !! r_id r = Some r → same_reservation r r' → r_status r = active →
    r_status r' = indeterminate ∨ r_status r' = released → change db (put_row r' db)
| ch_settle r cost fp db' : reservations db !! r_id r = Some r → settleable (r_status r) = true →
    reservations db' = <[r_id r := set_settled cost fp r]> (reservations db) →
    charged (r_org r) (r_session r) (r_daily r) (r_monthly r) cost db db' → change db db'.

Lemma change_ok db db' : change db db' → ok db → ok db'.
Proof.
  destruct 1 as [|r Hr Hst Hf Hs|r r' Hr Hsame Hst Hst'|r cost fp db' Hr Hst Hres Hch]; intros Hok; [done|by apply ok_new| |by eapply ok_settled].
  eapply ok_put; [done|done|done|congruence|]. destruct Hst'; congruence.
Qed.

Lemma run_change {A} (c : Transaction Db BudgetError A) db :
  (∀ x db', c db = Ok (x, db') → change db db') → change db (run_tx c db).2.
Proof. intros Hc. unfold run_tx. destruct (c db) as [[x db']|] eqn:E; [by eapply Hc|constructor]. Qed.

Lemma reserve_change (i : ReserveAiBudgetInput (N := N)) now t locked rowId db :
  change db (run_tx (reserveAiBudget i now t locked rowId) db).2.
Proof.
  apply run_change. intros x db' [->|(b & cost & _ & Hnew & Hf & Hs & _ & ->)]%reserve_Ok; [constructor|].
  apply ch_new; [done..|]. intros id Hid. cbn in Hid. by rewrite Hid in Hs.
Qed.

Lemma settle_change (i : SettleAiBudgetReservationInput (N := N)) locked db :
  keyed db → change db (run_tx (settleAiBudgetReservation sha256 i locked) db).2.
Proof.
  intros Hk. apply run_change. intros x db' Hx. apply settle_Ok in Hx as (r & cost & Hr & _ & _ & [(_ & -> & _)|(Hst & _ & _ & Hres & Hch)]);
    [constructor| |done]. eapply ch_settle; [by rewrite (Hk _ _ Hr)|done..].
Qed.

Lemma mark_change org rid t locked db :
  keyed db → change db (run_tx (markAiBudgetReservationIndeterminate org rid t locked) db).2.
Proof.
  intros Hk. apply run_change. intros x db' [->|(r & Hr & Hst & _ & ->)]%mark_Ok; [constructor|].
  eapply (ch_move db r); [by rewrite (Hk _ _ Hr)|done|done|by left].
Qed.

Lemma release_change org rid locked db :
  keyed db → change db (run_tx (releaseUnusedAiBudgetReservation org rid locked) db).2.
Proof.
  intros Hk. apply run_change. intros x db' [->|(r & Hr & Hst & ->)]%release_Ok; [constructor|].
  eapply (ch_move db r); [by rewrite (Hk _ _ Hr)|done|done|by right].
Qed.

Lemma ledger_step_ok strict w w' : step strict w w' → ok (w_db w) → ok (w_db w').
Proof.
  destruct 1 as [| | | | |t t' db id s _ Hnone Hs| |]; cbn; intros Hok; pose proof (ok_keyed _ Hok) as Hk.
  - eapply change_ok; [apply reserve_change|done].
  - eapply change_ok; [by apply settle_change|done].
  - eapply change_ok; [by apply mark_change|done].
  - eapply change_ok; [by apply release_change|done].
  - by apply ok_sweep.
  - destruct Hok as [_ Hu Hse Hd Hm Hc]. split; try done; cbn.
    + intros k r sid Hr Hsid. destruct (decide (id = sid)) as [<-|]; [rewrite lookup_insert_eq; eauto|].
      rewrite lookup_insert_ne by done. by eapply Hse.
    + intros sid x [[<- <-]|[_ Hx]]%lookup_insert_Some; [|by apply Hc]. rewrite Hs. symmetry. apply sum_rows_zero.
      intros k r Hr. unfold settled_cost, of_session. rewrite (bool_decide_eq_false_2 (r_session r = Some id)), andb_false_r; [done|].
      intros Hid. destruct (Hse k r id Hr Hid). congruence.
  - by destruct Hok.
  - by destruct Hok.
Qed.

Lemma ledger_ok strict w : reachable strict w → ok (w_db w).
Proof.
  intros (w0 & (Hr & Hu & Hs) & Hrun). apply (rtc_invariant (step strict) (λ w, ok (w_db w)) w0 w); [apply ledger_step_ok|done|].
  assert (∀ p, settled_sum p (w_db w0) = 0) as Hsum by (intros p; unfold settled_sum; by rewrite Hr).
  split; unfold keyed; rewrite ?Hr; try (intros; set_solver).
  - intros o k. rewrite Hsum. unfold used. by rewrite Hu.
  - intros o k. rewrite Hsum. unfold used. by rewrite Hu.
  - intros id s Hid. rewrite Hsum. by eapply Hs.
Qed.

(** A settled row never changes again. *)
Lemma change_final db db' k r :
  change db db' → reservations db !! k = Some r → r_status r = settled → reservations db' !! k = Some r.
Proof.
  intros Hch Hk Hst. assert (∀ y, reservations db !! r_id y = Some y → r_status y ≠ settled → r_id y ≠ k) as Hne.
  { intros y Hy Hny <-. congruence. }
  destruct Hch as [|x Hx _ _ _|x x' Hx (Hid & _) Hs _|x cost fp db' Hx Hs Hres _]; unfold put_row; cbn [set_reservations reservations].
  - done.
  - rewrite lookup_insert_ne; [done|]. intros <-. congruence.
  - rewrite lookup_insert_ne; [done|]. rewrite Hid. apply Hne; [done|]. by rewrite Hs.
  - rewrite Hres, lookup_insert_ne; [done|]. apply Hne; [done|]. by destruct (r_status x).
Qed.

Lemma ledger_step_final strict w w' k r :
  step strict w w' → ok (w_db w) → reservations (w_db w) !! k = Some r → r_status r = settled →
  reservations (w_db w') !! k = Some r.
Proof.
  destruct 1; cbn [w_db]; intros Hok Hr Hst; pose proof (ok_keyed _ Hok) as Hk; try done.
  - by eapply change_final; [apply reserve_change|..].
  - by eapply change_final; [apply settle_change|..].
  - by eapply change_final; [apply mark_change|..].
  - by eapply change_final; [apply release_change|..].
  - unfold expireStaleAiBudgetReservations; cbn. rewrite map_lookup_imap, Hr. cbn. unfold sweep_row. rewrite Hst. cbn.
    by destruct (bool_decide _).
Qed.

Lemma run_final strict w w' k r :
  rtc (step strict) w w' → ok (w_db w) → reservations (w_db w) !! k = Some r → r_status r = settled →
  reservations (w_db w') !! k = Some r.
Proof.
  induction 1 as [|w w1 w' Hs _ IH]; intros Hok Hr Hst; [done|].
  apply IH; [by eapply ledger_step_ok|by eapply ledger_step_final|done].
Qed.

(** C11: The usage counters are the settled reservations, no more and no less.  In every
    history of the calls, whatever they cost, however late they come and however the
    budgets change: the cost recorded for a day, for a month and on a session is the
    sum of the actual costs of the settled reservations of that day, month or session;
    no organization has two reservations under one idempotency key; and a settled
    reservation stays as it is for ever.  The calls are the ledger's: usage that is
    recorded without a reservation (the fallbacks of aiCostTracker) adds to the counters
    and is not among them. *)
Theorem ledger_conserved w (Hw : reachable false w) :
  (∀ org key, used org "daily" key (w_db w) = settled_sum (of_day org key) (w_db w))
  ∧ (∀ org key, used org "monthly" key (w_db w) = settled_sum (of_month org key) (w_db w))
  ∧ (∀ id s, sessions (w_db w) !! id = Some s → s_cost s = settled_sum (of_session id) (w_db w))
  ∧ (∀ k k' r r', reservations (w_db w) !! k = Some r → reservations (w_db w) !! k' = Some r' →
       r_org r = r_org r' → r_key r = r_key r' → k = k')
  ∧ (∀ w' k r, rtc (step false) w w' → reservations (w_db w) !! k = Some r → r_status r = settled →
       reservations (w_db w') !! k = Some r).
Proof.
  pose proof (ledger_ok _ _ Hw) as Hok. destruct Hok as [_ Hu _ Hd Hm Hc].
  split; [exact Hd|split; [exact Hm|split; [exact Hc|split; [exact Hu|]]]].
  intros w' k r Hrun. apply (run_final false); [done|by eapply ledger_ok].
Qed.

(** A settlement counts once.  When a settlement has gone through, then after any
    further history a retry with the same arguments answers with the same reservation
    and cost and changes nothing, and a settlement of the same reservation with any
    other figures is refused and changes nothing: neither is ever charged. *)
Theorem settlement_idempotent w (i : SettleAiBudgetReservationInput (N := N)) locked id cost db1 w2 partner
    (Hw : reachable false w)
    (Hset : settleAiBudgetReservation sha256 i locked (w_db w) = Ok (settled_now id cost, db1))
    (Hrun : rtc (step false) (mkWorld (w_clock w) db1) w2)
    (Horg : orgs (w_db w2) !! t_orgId i = Some partner) :
  run_tx (settleAiBudgetReservation sha256 i true) (w_db w2) = (Ok (already_settled id cost), w_db w2)
  ∧ ∀ (j : SettleAiBudgetReservationInput (N := N)) locked',
      t_orgId j = t_orgId i → t_reservationId j = t_reservationId i →
      (∀ c, moneyString (Some (t_actualCostCents j)) "actualCostCents" = Ok c →
        settlementFingerprint sha256 j c ≠ settlementFingerprint sha256 i cost) →
      ∃ e, run_tx (settleAiBudgetReservation sha256 j locked') (w_db w2) = (Err e, w_db w2).
Proof.
  pose proof (ledger_ok _ _ Hw) as Hok.
  assert (ok db1) as Hok1.
  { eapply change_ok; [|exact Hok]. replace db1 with (run_tx (settleAiBudgetReservation sha256 i locked) (w_db w)).2
      by (unfold run_tx; by rewrite Hset). by apply settle_change, ok_keyed. }
  pose proof Hset as Hset'. apply settle_Ok in Hset' as (r & cost' & Hr & Ho & Hm & [(_ & _ & _ & [=])|(_ & _ & [= Hid Hcost] & Hres & _)]);
    [|by apply ok_keyed]. subst id cost'.
  assert (r_id r = t_reservationId i) as Hrid by by apply (ok_keyed _ Hok).
  set (r1 := set_settled cost (settlementFingerprint sha256 i cost) r) in *.
  assert (reservations (w_db w2) !! t_reservationId i = Some r1) as Hr2.
  { eapply (run_final false); [exact Hrun|done| |done]. cbn. by rewrite Hres, <-Hrid, lookup_insert_eq. }
  assert (keyed (w_db w2)) as Hk2.
  { eapply ok_keyed, (rtc_invariant (step false) (λ w, ok (w_db w))); [apply ledger_step_ok|exact Hrun|done]. }
  split.
  - assert (∀ o, o = t_orgId i → select_reservation (t_reservationId i) o (w_db w2) = Some r1) as Hsel.
    { intros o ->. unfold select_reservation. rewrite Hr2. cbn. by rewrite Ho, String.eqb_refl. }
    revert Hset. unfold run_tx, settleAiBudgetReservation, bind, lift, ret, query, lockOrganizationRow.
    destruct (moneyString _ _) as [c|]; [|done]. injection Hm as ->.
    do 5 (match goal with |- context [nonNegativeInteger ?a ?b] => destruct (nonNegativeInteger a b) end; [|done]).
    intros _. unfold bind, query. rewrite Horg. unfold ret. rewrite Hsel by done. cbn. by rewrite bool_decide_eq_true_2.
  - intros j locked' Hjo Hjr Hfp. unfold run_tx. destruct (settleAiBudgetReservation sha256 j locked' (w_db w2)) as [[x db']|e] eqn:E; [|by exists e].
    exfalso. apply settle_Ok in E as (r' & c & Hr' & _ & Hc & Hcase); [|done]. rewrite Hjr, Hr2 in Hr'. injection Hr' as <-.
    destruct Hcase as [(_ & _ & Hf & _)|(Hs & _)]; [|done]. apply (Hfp c Hc). by injection Hf.
Qed.

(** ** The caps *)

Section caps.
Context {limit : Z} `{!NumberLaws N limit}.

Definition nonneg (db : Db) : Prop := ∀ k r, reservations db !! k = Some r → 0 ≤ r_reserved r ∧ 0 ≤ default 0 (r_actual r).

Lemma money_nonneg x label cost : moneyString (Some x) label = Ok cost → cost = micro x ∧ 0 ≤ cost.
Proof.
  unfold moneyString. destruct (num_leb (cents 0) x) eqn:E; cbn; [|done]. destruct (num_leb x _); cbn; [|done].
  intros [= <-]. split; [done|]. apply leb_micro in E. change (cents 0) with (of_micro 0 : N) in E. by rewrite zero_micro in E.
Qed.

(** At most, where no number is infinity. *)
Definition le_inf (a b : option N) : Prop := ∀ y, b = Some y → ∃ x, a = Some x ∧ micro x ≤ micro y.

Lemma le_inf_l a b c : le_inf a c → le_inf (min_inf a b) c.
Proof.
  intros Ha y Hy. destruct (Ha y Hy) as (x & -> & Hx). destruct b as [z|]; cbn; [|eauto].
  eexists. split; [done|]. rewrite min_micro. lia.
Qed.

Lemma le_inf_r a b c : le_inf b c → le_inf (min_inf a b) c.
Proof.
  intros Hb y Hy. destruct (Hb y Hy) as (x & -> & Hx). destruct a as [z|]; cbn; [|eauto].
  eexists. split; [done|]. rewrite min_micro. lia.
Qed.

Lemma le_inf_refl a : le_inf a a.
Proof. intros y ->. eauto with lia. Qed.

(** What is admitted is at most what each of the organization's caps leaves. *)
Lemma hold_bound (i : ReserveAiBudgetInput (N := N)) b keys t db amount :
  hold_amount i b keys t db = inr amount →
  le_inf amount (remaining (b_daily b) (used (i_orgId i) "daily" (k_daily keys) db) (held t (of_day (i_orgId i) (k_daily keys)) db))
  ∧ le_inf amount (remaining (b_monthly b) (used (i_orgId i) "monthly" (k_monthly keys) db) (held t (of_month (i_orgId i) (k_monthly keys)) db)).
Proof.
  intros Ha. unfold hold_amount in Ha. repeat (case_match; try discriminate Ha); injection Ha as <-;
    (split; [|]; repeat first [apply le_inf_refl | apply le_inf_l; solve [auto using le_inf_l, le_inf_r, le_inf_refl]]).
Qed.

Lemma remaining_micro c u h x :
  0 ≤ u → 0 ≤ h → u + h ≤ c * MONEY_SCALE → c * MONEY_SCALE ≤ limit → remaining (Some c) u h = Some x →
  micro x = c * MONEY_SCALE - u - h.
Proof.
  intros Hu Hh Huh Hc. unfold remaining, cents. cbn. intros [= <-]. rewrite !Z.max_r by done. apply minus_micro; lia.
Qed.

(** Every strict step keeps the amounts non-negative and the budget of an organization. *)
Lemma change_config db db' : change db db' → same_config db db'.
Proof. destruct 1 as [| | |r cost fp db' _ _ _ (Hc & _)]; [done..|exact Hc]. Qed.

Lemma budget_config org db db' b :
  same_config db db' → getEffectiveAiBudget org db = Ok (b, db) → getEffectiveAiBudget org db' = Ok (b, db').
Proof.
  intros (Ho & Hp & Hb). unfold getEffectiveAiBudget, bind, query, id. rewrite Ho, Hp, Hb.
  repeat case_match; unfold ret, throw; intros; by simplify_eq.
Qed.

Lemma step_config w w' : step true w w' → ok (w_db w) → same_config (w_db w) (w_db w').
Proof.
  destruct 1; cbn [w_db]; intros Hok; pose proof (ok_keyed _ Hok) as Hk; try done.
  - apply change_config, reserve_change.
  - by apply change_config, settle_change.
  - by apply change_config, mark_change.
  - by apply change_config, release_change.
Qed.

Lemma nonneg_put r db : nonneg db → 0 ≤ r_reserved r → 0 ≤ default 0 (r_actual r) → nonneg (put_row r db).
Proof. intros Hn H1 H2 k x. unfold put_row; cbn. intros [[<- <-]|[_ Hx]]%lookup_insert_Some; [done|by eapply Hn]. Qed.

Lemma step_nonneg w w' : step true w w' → ok (w_db w) → nonneg (w_db w) → nonneg (w_db w').
Proof.
  destruct 1 as [t t' db i now locked rowId _|t t' db i locked _ _|t t' db org rid locked _ _|t t' db org rid locked _|t t' db picked _| | |];
    cbn [w_db]; intros Hok Hn; pose proof (ok_keyed _ Hok) as Hk; try done; unfold run_tx.
  - destruct (reserveAiBudget _ _ _ _ _ db) as [[x db']|] eqn:E; [|done].
    apply reserve_Ok in E as [->|(b & cost & _ & _ & _ & _ & (amount & _ & Hm) & ->)]; [done|].
    destruct amount as [a|]; [|done]. apply money_nonneg in Hm as [_ Hc]. by apply nonneg_put.
  - destruct (settleAiBudgetReservation _ _ _ db) as [[x db']|] eqn:E; [|done].
    apply settle_Ok in E as (r & cost & Hr & _ & Hm & [(_ & -> & _)|(_ & _ & _ & Hres & _)]); [done| |done].
    apply money_nonneg in Hm as [_ Hc]. intros k y. cbn. rewrite Hres.
    intros [[<- <-]|[_ Hy]]%lookup_insert_Some; [|by eapply Hn]. by apply Hn in Hr as [? _].
  - destruct (markAiBudgetReservationIndeterminate _ _ _ _ db) as [[x db']|] eqn:E; [|done].
    apply mark_Ok in E as [->|(r & Hr & _ & _ & ->)]; [done|]. apply Hn in Hr as [? ?]. by apply nonneg_put.
  - destruct (releaseUnusedAiBudgetReservation _ _ _ db) as [[x db']|] eqn:E; [|done].
    apply release_Ok in E as [->|(r & Hr & _ & ->)]; [done|]. apply Hn in Hr as [? ?]. by apply nonneg_put.
  - intros k y. unfold expireStaleAiBudgetReservations; cbn. rewrite map_lookup_imap.
    destruct (reservations db !! k) as [r|] eqn:Hr; cbn; [|done]. intros [= <-]. apply Hn in Hr.
    unfold sweep_row. by repeat case_match.
Qed.

(** One cap of one period: the reservations it counts, the usage it counts, the amount. *)
Section period.
Context (P : ReservationRow → bool) (u : Db → Z) (C : Z).
Hypothesis P_same : ∀ r r', same_reservation r r' → P r' = P r.
Hypothesis u_usage : ∀ db db', usage db' = usage db → u db' = u db.
Hypothesis u_charged : ∀ r cost db db', charged (r_org r) (r_session r) (r_daily r) (r_monthly r) cost db db' →
  u db' = u db + if P r then cost else 0.

Definition room (t : Z) (db : Db) : Prop := u db + held t P db ≤ C.
Definition hold (t : Z) (r : ReservationRow) : Z := if holds t r && P r then r_reserved r else 0.

Lemma hold_mono t t' r : t ≤ t' → 0 ≤ r_reserved r → hold t' r ≤ hold t r.
Proof.
  intros Ht Hr. unfold hold, holds. destruct (open_status (r_status r)); [|done]. cbn.
  destruct (Z.ltb_spec t' (r_expires r)), (Z.ltb_spec t (r_expires r)); cbn; destruct (P r); lia.
Qed.

Lemma room_time t t' db : nonneg db → t ≤ t' → room t db → room t' db.
Proof.
  intros Hn Ht Hroom. unfold room in *. assert (held t' P db ≤ held t P db); [|lia].
  apply sum_rows_mono. intros k r Hr. apply (hold_mono t t'); [done|]. by eapply Hn.
Qed.

Lemma room_put t r r' db :
  reservations db !! r_id r' = Some r → hold t r' ≤ hold t r → room t db → room t (put_row r' db).
Proof.
  intros Hr Hh Hroom. unfold room in *. rewrite (u_usage db (put_row r' db)) by done. unfold held in *. cbn.
  rewrite (sum_rows_replace _ _ _ r) by done. unfold hold in Hh. lia.
Qed.

Lemma room_new t r db :
  reservations db !! r_id r = None → (P r = true → u db + held t P db + r_reserved r ≤ C) → room t db → room t (put_row r db).
Proof.
  intros Hr Hc Hroom. unfold room in *. rewrite (u_usage db (put_row r db)) by done. unfold held in *. cbn.
  rewrite sum_rows_insert by done. destruct (holds t r), (P r); cbn; first [lia | specialize (Hc eq_refl); lia].
Qed.

Lemma room_settle t r cost fp db db' :
  reservations db !! r_id r = Some r → reservations db' = <[r_id r := set_settled cost fp r]> (reservations db) →
  charged (r_org r) (r_session r) (r_daily r) (r_monthly r) cost db db' →
  holds t r = true → cost ≤ r_reserved r → room t db → room t db'.
Proof.
  intros Hr Hres Hch Hh Hc Hroom. unfold room in *. rewrite (u_charged _ _ _ _ Hch). unfold held in *. rewrite Hres.
  rewrite (sum_rows_replace _ _ _ r) by done. rewrite Hh. cbn. destruct (P r); cbn; lia.
Qed.

Lemma room_sweep t picked db : nonneg db → room t db → room t (expireStaleAiBudgetReservations t picked db).
Proof.
  intros Hn Hroom. unfold room, held in *. rewrite (u_usage db) by done. unfold expireStaleAiBudgetReservations. cbn.
  rewrite sum_rows_map; [done|]. intros k r Hr. destruct (bool_decide (k ∈ picked)); [|done]. unfold sweep_row, holds.
  destruct (open_status (r_status r)) eqn:Eo; cbn; [|by rewrite Eo].
  destruct (Z.leb_spec (r_expires r) t); cbn; [by rewrite (proj2 (Z.ltb_ge t (r_expires r)))|by rewrite Eo].
Qed.

(** A strict step keeps the cap, where what is admitted fits it. *)
Lemma room_step w w' :
  step true w w' → ok (w_db w) → nonneg (w_db w) → room (w_clock w) (w_db w) →
  (∀ t (i : ReserveAiBudgetInput (N := N)) now rowId b cost amount, room t (w_db w) →
     getEffectiveAiBudget (i_orgId i) (w_db w) = Ok (b, w_db w) →
     uncapped_by i b = true ∨ hold_amount i b (periodKeys now) t (w_db w) = inr amount →
     moneyString amount "reservedCostCents" = Ok cost → P (new_row i now t rowId (uncapped_by i b) cost) = true →
     u (w_db w) + held t P (w_db w) + cost ≤ C) →
  room (w_clock w') (w_db w').
Proof.
  destruct 1 as [t t' db i now locked rowId Ht|t t' db i locked Ht Hw|t t' db org rid locked Ht Hw|t t' db org rid locked Ht|t t' db picked Ht|t t' db id s Ht|t t' db m Ht|t t' db o p b Ht Hf];
    cbn [w_db w_clock]; intros Hok Hn Hroom Hadm; pose proof (ok_keyed _ Hok) as Hk; apply (room_time t t') in Hroom; try done; unfold run_tx.
  - destruct (reserveAiBudget _ _ _ _ _ db) as [[x db']|] eqn:E; [|done].
    apply reserve_Ok in E as [->|(b & cost & Hb & Hnew & _ & _ & (amount & Ha & Hm) & ->)]; [done|].
    apply room_new; [done| |done]. intros HP. cbn. by eapply Hadm.
  - destruct (settleAiBudgetReservation _ _ _ db) as [[x db']|] eqn:E; [|done].
    apply settle_Ok in E as (r & cost & Hr & _ & Hm & [(_ & -> & _)|(Hst & _ & _ & Hres & Hch)]); [done| |done].
    destruct (Hw eq_refl r cost Hr Hst Hm) as [Hh Hc]. cbn. eapply room_settle; [|done..]. by rewrite (Hk _ _ Hr).
  - destruct (markAiBudgetReservationIndeterminate _ _ _ _ db) as [[x db']|] eqn:E; [|done].
    apply mark_Ok in E as [->|(r & Hr & Hst & _ & ->)]; [done|]. cbn. eapply room_put; [by cbn; rewrite (Hk _ _ Hr)| |done].
    pose proof (Hw eq_refl r Hr Hst) as Hex. unfold hold, holds. rewrite Hst. cbn.
    rewrite (P_same r (set_indeterminate _ r)) by done. rewrite (proj2 (Z.ltb_lt t' (r_expires r))) by done.
    destruct (_ <? _), (P r); cbn; try lia. by apply Hn in Hr as [? _].
  - destruct (releaseUnusedAiBudgetReservation _ _ _ db) as [[x db']|] eqn:E; [|done].
    apply release_Ok in E as [->|(r & Hr & Hst & ->)]; [done|]. cbn. eapply room_put; [by cbn; rewrite (Hk _ _ Hr)| |done].
    apply Hn in Hr as [? _]. unfold hold. cbn. destruct (_ && _); lia.
  - by apply room_sweep.
  - unfold room in *. by rewrite (u_usage db).
  - unfold room in *. by rewrite (u_usage db).
Qed.

Definition budget_is (org : string) (b : EffectiveAiBudget) (db : Db) : Prop := getEffectiveAiBudget org db = Ok (b, db).

Lemma room_reachable org b w :
  0 ≤ C → (∀ db, usage db = ∅ → u db = 0) →
  (∀ db t (i : ReserveAiBudgetInput (N := N)) now rowId b' cost amount, ok db → nonneg db → budget_is org b db → room t db →
     getEffectiveAiBudget (i_orgId i) db = Ok (b', db) →
     uncapped_by i b' = true ∨ hold_amount i b' (periodKeys now) t db = inr amount →
     moneyString amount "reservedCostCents" = Ok cost → P (new_row i now t rowId (uncapped_by i b') cost) = true →
     u db + held t P db + cost ≤ C) →
  reachable true w → budget_is org b (w_db w) → room (w_clock w) (w_db w).
Proof.
  intros HC Hu Hadm (w0 & (Hr0 & Hu0 & Hs0) & Hrun) Hb.
  pose (I := λ w, ok (w_db w) ∧ nonneg (w_db w) ∧ same_config (w_db w0) (w_db w)).
  assert (I w0) as HI0.
  { split; [eapply (ledger_ok true); by exists w0|]. split; [|done]. intros k r. by rewrite Hr0. }
  assert (∀ w w', step true w w' → I w → I w') as HI.
  { intros w1 w2 Hs (Hok & Hn & Hc). split; [by eapply ledger_step_ok|]. split; [by eapply step_nonneg|].
    etransitivity; [exact Hc|]. by apply step_config. }
  assert (budget_is org b (w_db w0)) as Hb0.
  { destruct (rtc_invariant (step true) I w0 w HI Hrun HI0) as (_ & _ & Ho & Hp & Hbu).
    eapply budget_config; [|exact Hb]. split_and!; congruence. }
  apply (rtc_invariant (step true) (λ w, I w ∧ room (w_clock w) (w_db w)) w0 w); [|done|].
  - intros w1 w2 Hs [HI1 Hroom]. split; [by eapply HI|]. destruct HI1 as (Hok & Hn & Hc).
    eapply room_step; [exact Hs|done..|]. intros. eapply Hadm; eauto. by eapply budget_config.
  - split; [done|]. unfold room, held. rewrite Hu, Hr0 by done. done.
Qed.
End period.

Definition within_cap (cap : option Z) (amount : Z) : Prop := match cap with Some c => amount ≤ c * MONEY_SCALE | None => True end.
Definition cap_ok (cap : option Z) : Prop := match cap with Some c => 0 ≤ c ∧ c * MONEY_SCALE ≤ limit | None => True end.

Lemma held_nonneg t P db : nonneg db → 0 ≤ held t P db.
Proof. intros Hn. apply sum_rows_nonneg. intros k r Hr. apply Hn in Hr as [? _]. by destruct (_ && _). Qed.

Lemma settled_nonneg P db : nonneg db → 0 ≤ settled_sum P db.
Proof. intros Hn. apply sum_rows_nonneg. intros k r Hr. apply Hn in Hr as [_ ?]. unfold settled_cost. by destruct (_ && _). Qed.

Lemma admitted_fits c u h amount cost :
  0 ≤ u → 0 ≤ h → u + h ≤ c * MONEY_SCALE → c * MONEY_SCALE ≤ limit → le_inf amount (remaining (Some c) u h) →
  moneyString amount "reservedCostCents" = Ok cost → u + h + cost ≤ c * MONEY_SCALE.
Proof.
  intros Hu Hh Huh Hc Hle Hm. destruct (remaining (Some c) u h) as [x|] eqn:Ex; [|done].
  destruct (Hle x eq_refl) as (y & -> & Hy). apply money_nonneg in Hm as [-> _].
  rewrite (remaining_micro c u h x) in Hy by done. lia.
Qed.

Lemma daily_kept w org b c key :
  reachable true w → budget_is org b (w_db w) → b_daily b = Some c → 0 ≤ c → c * MONEY_SCALE ≤ limit →
  used org "daily" key (w_db w) + held (w_clock w) (of_day org key) (w_db w) ≤ c * MONEY_SCALE.
Proof.
  intros Hw Hb Hcap Hc0 Hcl.
  apply (room_reachable (of_day org key) (used org "daily" key) (c * MONEY_SCALE)) with (org := org) (b := b); try done.
  - intros r r' (_ & Ho & _ & _ & Hda & Hmo & _). unfold of_day. by rewrite Ho, Hda.
  - intros x y Hxy. unfold used. by rewrite Hxy.
  - intros r cost x y (_ & Hda & Hmo & _). rewrite Hda. f_equal. unfold of_day.
    destruct (String.eqb_spec (r_org r) org), (String.eqb_spec (r_daily r) key); cbn; case_bool_decide; naive_solver.
  - unfold MONEY_SCALE. lia.
  - intros db Hu. unfold used. by rewrite Hu.
  - intros db t i now rowId b' cost amount Hok Hn Hbud Hroom Hb' Ha Hm HP.
    unfold of_day in HP. cbn [new_row r_org r_daily r_monthly] in HP. apply andb_true_iff in HP as [Ho%String.eqb_eq Hk%String.eqb_eq].
    rewrite Ho in Hb'. assert (b' = b) as -> by (unfold budget_is in Hbud; congruence).
    destruct Ha as [Ha|Ha]; [unfold uncapped_by in Ha; rewrite Hcap in Ha; by rewrite ?andb_false_r in Ha|].
    apply hold_bound in Ha as [Hda Hmo]. rewrite Hcap, Ho, Hk in Hda.
    eapply admitted_fits; [|by apply held_nonneg|exact Hroom|done|exact Hda|done].
    rewrite (ok_daily _ Hok). by apply settled_nonneg.
Qed.

Lemma monthly_kept w org b c key :
  reachable true w → budget_is org b (w_db w) → b_monthly b = Some c → 0 ≤ c → c * MONEY_SCALE ≤ limit →
  used org "monthly" key (w_db w) + held (w_clock w) (of_month org key) (w_db w) ≤ c * MONEY_SCALE.
Proof.
  intros Hw Hb Hcap Hc0 Hcl.
  apply (room_reachable (of_month org key) (used org "monthly" key) (c * MONEY_SCALE)) with (org := org) (b := b); try done.
  - intros r r' (_ & Ho & _ & _ & Hda & Hmo & _). unfold of_month. by rewrite Ho, Hmo.
  - intros x y Hxy. unfold used. by rewrite Hxy.
  - intros r cost x y (_ & Hda & Hmo & _). rewrite Hmo. f_equal. unfold of_month.
    destruct (String.eqb_spec (r_org r) org), (String.eqb_spec (r_monthly r) key); cbn; case_bool_decide; naive_solver.
  - unfold MONEY_SCALE. lia.
  - intros db Hu. unfold used. by rewrite Hu.
  - intros db t i now rowId b' cost amount Hok Hn Hbud Hroom Hb' Ha Hm HP.
    unfold of_month in HP. cbn [new_row r_org r_daily r_monthly] in HP. apply andb_true_iff in HP as [Ho%String.eqb_eq Hk%String.eqb_eq].
    rewrite Ho in Hb'. assert (b' = b) as -> by (unfold budget_is in Hbud; congruence).
    destruct Ha as [Ha|Ha]; [unfold uncapped_by in Ha; rewrite Hcap in Ha; by rewrite ?andb_false_r in Ha|].
    apply hold_bound in Ha as [Hda Hmo]. rewrite Hcap, Ho, Hk in Hmo.
    eapply admitted_fits; [|by apply held_nonneg|exact Hroom|done|exact Hmo|done].
    rewrite (ok_monthly _ Hok). by apply settled_nonneg.
Qed.

(** C10: No cap of an organization is ever oversold.  In every history in which a
    settlement comes while its reservation holds and within what it reserved, rows are
    marked only while their window is open and the budget stays as it is: for every
    day and every month, what has been spent plus what is still held is at most the
    organization's cap, whatever the order of the calls, for caps the numbers
    represent exactly.  The calls are the ledger's: usage that is recorded without a
    reservation (the fallbacks of aiCostTracker) is spent outside it, and is not among
    them. *)
Theorem cap_never_oversold w org b (Hw : reachable true w) (Hb : budget_is org b (w_db w))
    (Hd : cap_ok (b_daily b)) (Hm : cap_ok (b_monthly b)) (key : string) :
  within_cap (b_daily b) (used org "daily" key (w_db w) + held (w_clock w) (of_day org key) (w_db w))
  ∧ within_cap (b_monthly b) (used org "monthly" key (w_db w) + held (w_clock w) (of_month org key) (w_db w)).
Proof.
  split.
  - destruct (b_daily b) as [c|] eqn:Ec; [|done]. destruct Hd. by eapply daily_kept.
  - destruct (b_monthly b) as [c|] eqn:Ec; [|done]. destruct Hm. by eapply monthly_kept.
Qed.
End caps.
End numbers.

(** ** Histories that happen *)

Definition ex_org : string := "00000000-0000-4000-8000-000000000001".
Definition ex_session : string := "00000000-0000-4000-8000-000000000002".
Definition ex_db : Db :=
  mkDb {[ex_org := "p"]} {["p" := mkPartnerBudget None None None]} {[ex_org := mkOrgBudget true None (Some 10)]}
    ∅ ∅ ∅ {[ex_session := mkSession ex_org 0 0 0 0 platform 0]}.
Definition ex_reserve (key : string) : ReserveAiBudgetInput (N := Z) := mkReserve ex_org key platform (Some ex_session) None None None.
Definition ex_settle (id : string) (cost : Z) : SettleAiBudgetReservationInput (N := Z) :=
  mkSettle ex_org id cost 100 20 None None (Some (ex_session, None)) 1000.
Definition ex_reserved : Db := (run_tx (reserveAiBudget (ex_reserve "a") 0 0 true "r1") ex_db).2.
Definition ex_settled : Db := (run_tx (settleAiBudgetReservation id (ex_settle "r1" 4000000) true) ex_reserved).2.

Lemma ex_reachable_reserved strict : reachable (N := Z) id strict (mkWorld 0 ex_reserved).
Proof.
  exists (mkWorld 0 ex_db). split; [|apply rtc_once, l_reserve; lia].
  split; [done|]. split; [done|]. cbn. intros k x [<- <-]%lookup_singleton_Some. done.
Qed.

Lemma ex_reachable_settled strict : reachable (N := Z) id strict (mkWorld 5 ex_settled).
Proof.
  destruct (ex_reachable_reserved strict) as (w0 & Hi & Hrun). exists w0. split; [done|]. eapply rtc_r; [exact Hrun|].
  apply l_settle; [lia|]. intros _ r cost Hr _ Hc.
  assert (reservations ex_reserved !! "r1" = Some (mkRow "r1" ex_org "a" (Some ex_session) platform technician "1970-01-01" "1970-01"
    false 10000000 None active None 1800000)) as Hrow by (vm_compute; reflexivity).
  cbn [t_reservationId ex_settle] in Hr. rewrite Hrow in Hr. injection Hr as <-. vm_compute in Hc. injection Hc as <-.
  split; [reflexivity|cbn [r_reserved]; lia].
Qed.

Lemma ledger_conserved_witness :
  reachable (N := Z) id false (mkWorld 5 ex_settled) ∧ settled_sum (of_day ex_org "1970-01-01") ex_settled = 4000000.
Proof.
  pose proof (ex_reachable_settled false) as Hw. split; [exact Hw|].
  etransitivity; [symmetry; exact (proj1 (ledger_conserved id _ Hw) ex_org "1970-01-01")|]. vm_compute. reflexivity.
Defined.

Definition ex_before : World := mkWorld 0 ex_reserved.
Definition ex_after : World := mkWorld 0 ex_settled.

Lemma ex_settles :
  settleAiBudgetReservation id (ex_settle "r1" 4000000) true (w_db ex_before) = Ok (settled_now "r1" 4000000, ex_settled).
Proof. change (w_db ex_before) with ex_reserved. unfold ex_settled. apply run_tx_answer. vm_compute. reflexivity. Qed.

Lemma settlement_idempotent_witness :
  run_tx (settleAiBudgetReservation id (ex_settle "r1" 4000000) true) (w_db ex_after)
  = (Ok (already_settled "r1" 4000000), w_db ex_after).
Proof.
  refine (proj1 (settlement_idempotent id ex_before (ex_settle "r1" 4000000) true "r1" 4000000 ex_settled ex_after "p" _ ex_settles _ _));
    [apply ex_reachable_reserved|apply rtc_refl|vm_compute; reflexivity].
Defined.

Lemma cap_never_oversold_witness :
  used ex_org "daily" "1970-01-01" ex_reserved + held 0 (of_day ex_org "1970-01-01") ex_reserved ≤ 10 * MONEY_SCALE.
Proof.
  pose proof (cap_never_oversold (N := Z) id (limit := 2 ^ 51) (mkWorld 0 ex_reserved) ex_org (mkBudget true None (Some 10))) as H.
  apply H; [apply ex_reachable_reserved|vm_compute; reflexivity|cbn; unfold MONEY_SCALE; lia|done].
Defined.

(** A window that has closed may reopen: a reservation of the whole cap that is no
    longer counted, and that no sweep has reached, is marked and counts again, beside
    the reservation that took its place. *)
Definition ex_second : Db := (run_tx (reserveAiBudget (ex_reserve "b") 1800000 1800000 true "r2") ex_reserved).2.
Definition ex_reclaimed : Db := (run_tx (markAiBudgetReservationIndeterminate ex_org "r1" 1800001 true) ex_second).2.

Lemma late_mark_oversells :
  reachable (N := Z) id false (mkWorld 1800001 ex_reclaimed)
  ∧ held 1800001 (of_day ex_org "1970-01-01") ex_second = 10 * MONEY_SCALE
  ∧ held 1800001 (of_day ex_org "1970-01-01") ex_reclaimed = 20 * MONEY_SCALE.
Proof.
  split; [|split; vm_compute; reflexivity]. destruct (ex_reachable_reserved false) as (w0 & Hi & Hrun). exists w0. split; [done|].
  apply rtc_r with (mkWorld 1800000 ex_second); [eapply rtc_r; [exact Hrun|]|].
  - unfold ex_second. apply (l_reserve id false 0 1800000). lia.
  - unfold ex_reclaimed. refine (l_mark (N := Z) id false 1800000 1800001 ex_second ex_org "r1" true _ _); [lia|intros [=]].
Qed.
End Ledger.
