(* ===== verification/Recurrence.v ===== *)
(** * Recurring deliverables

    Models [apps/api/src/services/recurrence.ts], all of it, on the date arithmetic
    of [Contracts]: the due dates of a cadence, the period a due date covers, the
    occurrences a sweep materialises, and the first anchor of a template.  Dates are
    ISO strings compared as strings; where the code would compute with [NaN] the
    model answers [NotADate].  The planning loop has fuel, and the theorems show how
    much is enough. *)
From S2P Require Import Prelude JsText JsDate IsoDate Contracts.
From stdpp Require Import base tactics list list_numbers strings.
From Stdlib Require Import ZArith Lia Ascii.
Open Scope Z_scope.
Import Contracts.

Module Recurrence.

Inductive RecurrenceError := RangeError | NotADate | OutOfFuel.

Definition or_nan {A} (o : option A) : result RecurrenceError A := match o with Some a => Ok a | None => Err NotADate end.

Inductive Cadence := monthly | quarterly | semiannual | annual | one_time.

Definition cadenceMonths (c : Cadence) : option Z :=
  match c with monthly => Some 1 | quarterly => Some 3 | semiannual => Some 6 | annual => Some 12 | one_time => None end.

Definition nthDueDate (anchorDueDate : string) (c : Cadence) (n : Z) : result RecurrenceError (option string) :=
  if n <? 0 then Err RangeError
  else match cadenceMonths c with
       | None => Ok (if n =? 0 then Some anchorDueDate else None)
       | Some months => let! d := or_nan (addMonthsClamped anchorDueDate (months * n)) in Ok (Some d)
       end.

(** [s.slice(0, 7)]: year and month. *)
Definition slice7 (s : string) : string := of_chars (take 7 (chars s)).

Definition isLastDayOfMonth (d : string) : result RecurrenceError bool :=
  let! next := or_nan (addDaysISO d 1) in Ok (negb (String.eqb (slice7 next) (slice7 d))).

Definition endOfMonth (d : string) : result RecurrenceError string :=
  let! first := or_nan (addMonthsClamped (slice7 d +:+ "-01") 1) in or_nan (addDaysISO first (-1)).

Definition coveredPeriod (dueAt : string) (c : Cadence) : result RecurrenceError Period :=
  match cadenceMonths c with
  | None => Ok (mkPeriod dueAt dueAt)
  | Some months =>
      let! stepped := or_nan (addMonthsClamped dueAt (- months)) in
      let! last := isLastDayOfMonth dueAt in
      let! previousDue := (if last : bool then endOfMonth stepped else Ok stepped) in
      let! s := or_nan (addDaysISO previousDue 1) in
      Ok (mkPeriod s dueAt)
  end.

Definition isInLeadWindow (dueAt : string) (leadDays : Z) (today : string) : result RecurrenceError bool :=
  let! d := or_nan (addDaysISO dueAt (- leadDays)) in Ok (String.leb d today).

Definition isPastGrace (dueAt : string) (graceDays : Z) (today : string) : result RecurrenceError bool :=
  let! d := or_nan (addDaysISO dueAt graceDays) in Ok (String.ltb d today).

Record PlanInput := mkPlan {
  anchorDueDate : string; cadence : Cadence; effectiveFrom : string; effectiveUntil : option string;
  leadDays : Z; graceDays : Z; today : string; existingDueDates : list string; cap : option nat }.

Inductive InitialStatus := scheduled | missed.
Record PlannedOccurrence := mkOccurrence { o_period : Period; o_dueAt : string; o_status : InitialStatus }.

(** The loop of [planOccurrences], from [n] with [out] collected. *)
Fixpoint plan_loop (fuel : nat) (i : PlanInput) (n : Z) (out : list PlannedOccurrence) : result RecurrenceError (list PlannedOccurrence) :=
  match fuel with
  | O => Err OutOfFuel
  | S fuel' =>
      if (length out <? default 12 (cap i))%nat then
        let! due := nthDueDate (anchorDueDate i) (cadence i) n in
        match due with
        | None => Ok out
        | Some due =>
            let! lead := isInLeadWindow due (leadDays i) (today i) in
            if negb lead then Ok out
            else if match effectiveUntil i with Some u => String.ltb u due | None => false end then Ok out
            else if String.ltb due (effectiveFrom i) || bool_decide (due ∈ existingDueDates i) then plan_loop fuel' i (n + 1) out
            else
              let! p := coveredPeriod due (cadence i) in
              let! late := isPastGrace due (graceDays i) (today i) in
              plan_loop fuel' i (n + 1) (out ++ [mkOccurrence p due (if late : bool then missed else scheduled)])
        end
      else Ok out
  end.

Definition planOccurrences (fuel : nat) (i : PlanInput) : result RecurrenceError (list PlannedOccurrence) := plan_loop fuel i 0 [].

Definition firstAnchorAfter (effectiveFrom : string) (c : Cadence) : result RecurrenceError string :=
  match cadenceMonths c with
  | None => Ok effectiveFrom
  | Some months => let! d := or_nan (addMonthsClamped effectiveFrom months) in or_nan (addDaysISO d (-1))
  end.

(** ** Months and their ends *)

Lemma cadence_range c m : cadenceMonths c = Some m → 1 ≤ m ≤ 12.
Proof. destruct c; intros [= <-]; lia. Qed.

Lemma slice7_iso t : valid_date t → slice7 (iso t) = let '(y, m, _) := t in js_String y +:+ "-" +:+ padStart2 (js_String m).
Proof.
  destruct t as [[y m] d]. intros (Hy & Hm & Hd). unfold slice7. rewrite iso_chars_eq. unfold iso_chars.
  destruct (year_numeral y Hy) as [_ _ Ly], (pad2_numeral m) as [_ _ Lm]; [lia|].
  assert (chars (js_String y) ++ ["-"%char] ++ chars (padStart2 (js_String m)) ++ ["-"%char] ++ chars (padStart2 (js_String d))
    = (chars (js_String y) ++ ["-"%char] ++ chars (padStart2 (js_String m))) ++ ["-"%char] ++ chars (padStart2 (js_String d))) as ->
    by by rewrite <-!app_assoc.
  rewrite take_app_length' by (rewrite !length_app, Ly, Lm; done).
  apply chars_inj. rewrite chars_of_chars, !chars_app. done.
Qed.

Lemma slice7_eq t t' : valid_date t → valid_date t' → slice7 (iso t) = slice7 (iso t') ↔ t.1 = t'.1.
Proof.
  intros V V'. rewrite !slice7_iso by done. destruct t as [[y m] d], t' as [[y' m'] d']. cbn.
  split; [|by intros [= -> ->]]. intros E. destruct V as (Hy & Hm & Hd), V' as (Hy' & Hm' & Hd').
  assert (iso (y, m, 1) = iso (y', m', 1)) as E1.
  { unfold iso, fmt. apply (f_equal (λ s, s +:+ "-" +:+ padStart2 (js_String 1))) in E.
    cbv beta in E.
    apply chars_inj. apply (f_equal chars) in E. rewrite !chars_app in E. rewrite <-!app_assoc in E. rewrite !chars_app. done. }
  apply iso_inj in E1; [congruence| |]; unfold valid_date; pose proof (month_len_range (leap y) (m - 1));
    pose proof (month_len_range (leap y') (m' - 1)); lia.
Qed.

(** The last day of the month of a date. *)
Definition month_end (t : date) : date := let '(y, m, _) := t in (y, m, month_len (leap y) (m - 1)).

Lemma month_end_valid t : valid_date t → valid_date (month_end t).
Proof. destruct t as [[y m] d]. intros (Hy & Hm & Hd). pose proof (month_len_range (leap y) (m - 1)). unfold month_end, valid_date. lia. Qed.
Lemma month_end_index t : month_index (month_end t) = month_index t.
Proof. by destruct t as [[y m] d]. Qed.

(** The day after the last of a month is the first of the next. *)
Lemma next_month t :
  valid_date t → month_index t + 1 < 120000 →
  let f := add_months (t.1, 1) 1 in
  valid_date f ∧ month_index f = month_index t + 1 ∧ f.2 = 1 ∧ day_of f = day_of (month_end t) + 1.
Proof.
  destruct t as [[y m] d]. intros (Hy & Hm & Hd) Hr. cbv zeta. cbn [fst]. pose proof (month_len_range (leap y) (m - 1)).
  destruct (add_months_spec (y, m, 1) 1) as (V & M & D); [unfold valid_date; lia|unfold month_index in *; lia|].
  revert V M D. generalize (add_months (y, m, 1) 1). intros [[y' m'] d'] V M D. cbn [fst snd] in *.
  pose proof (month_len_range (leap y') (m' - 1)). assert (d' = 1) as -> by lia. split_and!; [exact V|unfold month_index in *; lia|done|].
  unfold day_of, month_end. pose proof (MakeDay_last y m ltac:(lia)) as HL.
  unfold month_index in M. assert (MakeDay y m 1 = MakeDay y m 0 + 1) as H1 by (unfold MakeDay; lia).
  rewrite <-HL, <-H1. unfold MakeDay. unfold valid_date in V.
  destruct (decide (m = 12)) as [->|].
  - assert (y' = y + 1 ∧ m' = 1) as [-> ->] by lia. change ((1 - 1) / 12) with 0. rewrite (Z.add_0_r (y + 1)). reflexivity.
  - assert (y' = y ∧ m' = m + 1) as [-> ->] by lia. by replace (m + 1 - 1) with m by lia.
Qed.

Lemma next_day t :
  valid_date t → month_index t + 1 < 120000 →
  valid_date (date_of (day_of t + 1)) ∧ (t = month_end t ↔ (date_of (day_of t + 1)).1 ≠ t.1).
Proof.
  intros V Hr. destruct (next_month t V Hr) as (Vf & Mf & _ & Df).
  destruct t as [[y m] d]. destruct (decide ((y, m, d) = month_end (y, m, d))) as [E|E].
  - rewrite E at 1 4. rewrite <-Df, date_of_day_of by done. split; [exact Vf|]. split; [|done]. intros _ Heq.
    destruct (add_months _ 1) as [[y' m'] d']. cbn in Heq. simplify_eq. unfold month_index in Mf. lia.
  - assert (d < month_len (leap y) (m - 1)) as Hlt.
    { destruct V as (Hy & Hm & Hd). destruct (decide (d = month_len (leap y) (m - 1))) as [->|]; [done|lia]. }
    assert (day_of (y, m, d) + 1 = day_of (y, m, d + 1)) as -> by (unfold day_of, MakeDay; lia).
    assert (valid_date (y, m, d + 1)) as V' by (unfold valid_date in *; lia).
    rewrite date_of_day_of by done. done.
Qed.

Lemma isLastDayOfMonth_iso t :
  valid_date t → month_index t + 1 < 120000 → isLastDayOfMonth (iso t) = Ok (bool_decide (t = month_end t)).
Proof.
  intros V Hr. destruct (next_day t V Hr) as (V' & Hl). unfold isLastDayOfMonth. rewrite addDaysISO_iso by done. cbn [or_nan rbind].
  f_equal. destruct (String.eqb_spec (slice7 (iso (date_of (day_of t + 1)))) (slice7 (iso t))) as [E|E];
    rewrite slice7_eq in E by done; cbn [negb]; symmetry; [apply bool_decide_eq_false_2|apply bool_decide_eq_true_2]; tauto.
Qed.

Lemma endOfMonth_iso t : valid_date t → month_index t + 1 < 120000 → endOfMonth (iso t) = Ok (iso (month_end t)).
Proof.
  intros V Hr. destruct (next_month t V Hr) as (Vf & _ & _ & Df). unfold endOfMonth.
  assert (slice7 (iso t) +:+ "-01" = iso (t.1, 1)) as ->.
  { rewrite slice7_iso by done. destruct t as [[y m] d]. cbn [fst]. unfold iso, fmt. apply chars_inj. by rewrite !chars_app, <-!app_assoc. }
  assert (valid_date (t.1, 1)) as V1.
  { destruct t as [[y m] d]. pose proof (month_len_range (leap y) (m - 1)). unfold valid_date in *. cbn. lia. }
  rewrite addMonthsClamped_iso by done. cbn [or_nan rbind]. rewrite addDaysISO_iso by done. cbn [or_nan rbind]. do 2 f_equal.
  rewrite Df. replace (day_of (month_end t) + 1 + -1) with (day_of (month_end t)) by lia.
  apply date_of_day_of. by apply month_end_valid.
Qed.

(** The day before the covered period. *)
Definition previous_due (t : date) (m : Z) : date :=
  if bool_decide (t = month_end t) then month_end (add_months t (- m)) else add_months t (- m).

Lemma coveredPeriod_iso t c m :
  valid_date t → cadenceMonths c = Some m → 12000 ≤ month_index t - m → month_index t + 1 < 120000 →
  coveredPeriod (iso t) c = Ok (mkPeriod (iso (date_of (day_of (previous_due t m) + 1))) (iso t))
  ∧ valid_date (previous_due t m) ∧ valid_date (date_of (day_of (previous_due t m) + 1)).
Proof.
  intros V Hc Hlo Hhi. pose proof (cadence_range _ _ Hc). destruct (add_months_spec t (- m) V) as (Vs & Ms & _); [lia|].
  assert (valid_date (previous_due t m)) as Vp by (unfold previous_due; case_bool_decide; [by apply month_end_valid|done]).
  assert (month_index (previous_due t m) = month_index t - m) as Mp.
  { unfold previous_due. case_bool_decide; rewrite ?month_end_index; lia. }
  split_and!; [|done|apply next_day; [done|lia]]. unfold coveredPeriod. rewrite Hc.
  rewrite addMonthsClamped_iso by done. cbn. rewrite isLastDayOfMonth_iso by done. cbn.
  unfold previous_due in *. case_bool_decide.
  - rewrite endOfMonth_iso by (done || lia). cbn. by rewrite addDaysISO_iso.
  - cbn. by rewrite addDaysISO_iso.
Qed.

(** ** Successive due dates *)

Definition due (t : date) (m k : Z) : date := add_months t (m * k).

Lemma nthDueDate_iso t c m k : valid_date t → cadenceMonths c = Some m → 0 ≤ k → nthDueDate (iso t) c k = Ok (Some (iso (due t m k))).
Proof.
  intros V Hc Hk. unfold nthDueDate. rewrite (proj2 (Z.ltb_ge k 0)) by done. rewrite Hc, addMonthsClamped_iso by done. done.
Qed.

Lemma same_month t t' : valid_date t → valid_date t' → month_index t = month_index t' → t.1 = t'.1.
Proof. destruct t as [[y m] d], t' as [[y' m'] d']. unfold valid_date, month_index. cbn. intros. f_equal; lia. Qed.

Lemma month_end_same t t' : t.1 = t'.1 → month_end t = month_end t'.
Proof. destruct t as [[y m] d], t' as [[y' m'] d']. cbn. by intros [= -> ->]. Qed.

Lemma is_month_end t : t = month_end t ↔ t.2 = month_len (leap t.1.1) (t.1.2 - 1).
Proof. destruct t as [[y m] d]. cbn. split; [by intros [=]|by intros ->]. Qed.

Lemma month_end_ge t : valid_date t → day_of t ≤ day_of (month_end t) ≤ day_of t + (month_len (leap t.1.1) (t.1.2 - 1) - t.2).
Proof. destruct t as [[y m] d]. intros (Hy & Hm & Hd). unfold day_of, month_end, MakeDay. cbn [fst snd]. lia. Qed.

Section dues.
Context (t : date) (m k : Z) (V : valid_date t) (Hm : 1 ≤ m ≤ 12) (Hk : 0 ≤ k)
  (Hr : month_index t + m * (k + 1) + 1 < 120000).

Lemma due_facts j : 0 ≤ j ≤ k + 1 →
  valid_date (due t m j) ∧ month_index (due t m j) = month_index t + m * j
  ∧ (due t m j).2 = Z.min t.2 (month_len (leap (due t m j).1.1) ((due t m j).1.2 - 1)).
Proof. intros Hj. pose proof (month_index_range t V). apply add_months_spec; [done|nia]. Qed.

(** The day before the period of a due date is the due date before it, or, at a
    month's end, the end of that date's month. *)
Lemma previous_due_spec :
  previous_due (due t m (k + 1)) m
  = if bool_decide (due t m (k + 1) = month_end (due t m (k + 1))) then month_end (due t m k) else due t m k.
Proof.
  pose proof (month_index_range t V). destruct (due_facts k) as (V0 & M0 & D0); [lia|].
  destruct (due_facts (k + 1)) as (V1 & M1 & D1); [lia|].
  destruct (add_months_spec (due t m (k + 1)) (- m) V1) as (Vs & Ms & Ds); [nia|].
  assert ((add_months (due t m (k + 1)) (- m)).1 = (due t m k).1) as Es by (apply same_month; [done..|lia]).
  unfold previous_due. case_bool_decide as He; [by apply month_end_same|].
  rewrite is_month_end in He.
  assert ((due t m (k + 1)).2 = t.2) as Hd by lia.
  destruct (add_months _ (- m)) as [x d], (due t m k) as [x' d']. cbn [fst snd] in *. subst x'. f_equal. lia.
Qed.

Lemma gap_spec :
  let d := due t m k in let d' := due t m (k + 1) in
  let P := day_of (previous_due d' m) in
  day_of d ≤ P ≤ day_of d + 3 ∧ P < day_of d' ∧ (P = day_of d ↔ (d' = month_end d' → d = month_end d))
  ∧ (t.2 ≤ 27 ∨ t.2 = 31 → P = day_of d).
Proof.
  intros d d' P. destruct (due_facts k) as (V0 & M0 & D0); [lia|]. destruct (due_facts (k + 1)) as (V1 & M1 & D1); [lia|].
  fold d in V0, M0, D0. fold d' in V1, M1, D1. pose proof (month_end_ge d V0) as Hge. pose proof (month_end_valid d V0) as Ve.
  assert (day_of d < day_of d' ∧ day_of (month_end d) < day_of d') as [Hlt Hlt'].
  { split; apply day_of_lt; try done; apply month_index_lt; try done; rewrite ?month_end_index; nia. }
  assert (P = if bool_decide (d' = month_end d') then day_of (month_end d) else day_of d) as ->.
  { unfold P, d', d. rewrite previous_due_spec. by case_bool_decide. }
  pose proof (month_len_range (leap d.1.1) (d.1.2 - 1)). pose proof (month_len_range (leap d'.1.1) (d'.1.2 - 1)).
  assert (d = month_end d ↔ day_of (month_end d) = day_of d) as Hend.
  { split; [by intros <-|]. intros He. transitivity (date_of (day_of d)); [by rewrite date_of_day_of|]. rewrite <-He. by apply date_of_day_of. }
  rewrite is_month_end in Hend. case_bool_decide as He'; rewrite is_month_end in He'; rewrite !is_month_end; lia.
Qed.

Lemma due_lt_next : date_lt (due t m k) (due t m (k + 1)).
Proof. pose proof (month_index_range t V). apply add_months_lt; [done|nia|lia|nia]. Qed.
End dues.

(** What the covered periods cover.  The period of every due date after the first
    ends on it, begins after the due date before and not after its own, so no day is
    covered twice.  It begins on the very next day, except that when the due date is
    the last of its month and the one before is not, the days from there to the end
    of that month, at most three, belong to no period.  Anchors up to the 27th and on
    the 31st leave no day out. *)
Theorem periods_cover t c m k (V : valid_date t) (Hc : cadenceMonths c = Some m) (Hk : 0 ≤ k)
    (Hr : month_index t + m * (k + 1) + 1 < 120000) :
  ∃ e e' p, nthDueDate (iso t) c k = Ok (Some e) ∧ nthDueDate (iso t) c (k + 1) = Ok (Some e')
    ∧ coveredPeriod e' c = Ok p ∧ periodEnd p = e'
    ∧ String.ltb e (periodStart p) = true ∧ String.leb (periodStart p) e' = true
    ∧ (addDaysISO e 1 = Some (periodStart p)
       ↔ (isLastDayOfMonth e' = Ok true → isLastDayOfMonth e = Ok true))
    ∧ (∃ gap, 0 ≤ gap ≤ 3 ∧ addDaysISO e (1 + gap) = Some (periodStart p))
    ∧ (t.2 ≤ 27 ∨ t.2 = 31 → addDaysISO e 1 = Some (periodStart p)).
Proof.
  pose proof (cadence_range _ _ Hc) as Hm. pose proof (month_index_range t V) as Hrange.
  destruct (due_facts t m k V Hm Hk Hr k) as (V0 & M0 & D0); [lia|].
  destruct (due_facts t m k V Hm Hk Hr (k + 1)) as (V1 & M1 & D1); [lia|].
  destruct (coveredPeriod_iso (due t m (k + 1)) c m V1 Hc) as (Hp & Vp & Vs); [nia|nia|].
  pose proof (gap_spec t m k V Hm Hk Hr) as (Hgap & Hlt & Hiff & Htile). revert Hp Vp Vs Hgap Hlt Hiff Htile.
  generalize (previous_due (due t m (k + 1)) m). intros q Hp Vq Vs Hgap Hlt Hiff Htile.
  exists (iso (due t m k)), (iso (due t m (k + 1))), (mkPeriod (iso (date_of (day_of q + 1))) (iso (due t m (k + 1)))).
  destruct (next_day (due t m k) V0) as (Vn & _); [nia|].
  assert (∀ g, day_of q = day_of (due t m k) + g → addDaysISO (iso (due t m k)) (1 + g) = Some (iso (date_of (day_of q + 1)))) as Hadd.
  { intros g ->. rewrite addDaysISO_iso by done. do 3 f_equal. lia. }
  assert (addDaysISO (iso (due t m k)) 1 = Some (iso (date_of (day_of q + 1))) ↔ day_of q = day_of (due t m k)) as Hnext.
  { split; [|intros E; apply (Hadd 0); lia]. rewrite addDaysISO_iso by done. intros E. apply (inj Some), iso_inj in E; [|done..].
    apply (f_equal day_of) in E. rewrite !day_of_date_of in E. lia. }
  cbn [periodStart periodEnd]. split_and!.
  - by apply nthDueDate_iso.
  - apply nthDueDate_iso; [done..|lia].
  - done.
  - done.
  - apply iso_ltb; [done..|]. apply day_of_lt; [done..|]. rewrite day_of_date_of. lia.
  - apply iso_leb; [done..|]. rewrite day_of_lt, day_of_date_of by done. lia.
  - rewrite Hnext, Hiff, !isLastDayOfMonth_iso by (done || nia).
    assert (∀ P : Prop, ∀ d : Decision P, Ok (E := RecurrenceError) (bool_decide P) = Ok true ↔ P) as Hb.
    { intros P d. split; [intros [= E]; by apply bool_decide_eq_true in E|intros HP; by rewrite bool_decide_eq_true_2]. }
    by rewrite !Hb.
  - exists (day_of q - day_of (due t m k)). split; [lia|]. apply Hadd. lia.
  - intros Ht. by apply Hnext, Htile.
Qed.

(** ** The first anchor *)

Lemma day_shift y m d e : day_of (y, m, d) + (e - d) = day_of (y, m, e).
Proof. unfold day_of, MakeDay. lia. Qed.

Lemma date_eq (t t' : date) : t.1 = t'.1 → t.2 = t'.2 → t = t'.
Proof. destruct t, t'; cbn. congruence. Qed.

(** The day before the next instance of a first of the month ends a month, and steps
    back to the end of the month before. *)
Lemma first_anchor_first t n :
  valid_date t → 1 ≤ n ≤ 12 → t.2 = 1 → 12000 ≤ month_index t - 1 → month_index t + n < 120000 →
  let a := date_of (day_of (add_months t n) - 1) in
  valid_date a ∧ 12000 ≤ month_index a - n ∧ month_index a + 1 < 120000 ∧ day_of (previous_due a n) + 1 = day_of t.
Proof.
  intros V Hn H1 Hlo Hhi a. pose proof (month_index_range t V).
  destruct (add_months_spec t (n - 1) V) as (Vp & Mp & Dp); [lia|]. destruct (add_months_spec t n V) as (Vn & Mn & Dn); [lia|].
  destruct (next_month (add_months t (n - 1)) Vp) as (Vf & Mf & Df & Ef); [lia|].
  assert (add_months ((add_months t (n - 1)).1, 1) 1 = add_months t n) as Eq.
  { apply date_eq; [apply same_month; [done..|lia]|]. rewrite Df, Dn, H1.
    pose proof (month_len_range (leap (add_months t n).1.1) ((add_months t n).1.2 - 1)). lia. }
  rewrite Eq in Ef. set (p := add_months t (n - 1)) in *. pose proof (month_end_valid p Vp) as Ve.
  assert (a = month_end p) as -> by (unfold a; rewrite Ef; replace (day_of (month_end p) + 1 - 1) with (day_of (month_end p)) by lia; by apply date_of_day_of).
  rewrite !month_end_index. split_and!; [done|lia|lia|]. unfold previous_due.
  rewrite bool_decide_eq_true_2 by (apply month_end_same; by destruct p as [[? ?] ?]).
  destruct (add_months_spec (month_end p) (- n) Ve) as (Vs & Ms & _); [rewrite month_end_index; lia|]. rewrite month_end_index in Ms.
  destruct (next_month (add_months (month_end p) (- n)) Vs) as (Vg & Mg & Dg & Eg); [lia|].
  rewrite <-Eg. f_equal. apply date_eq; [apply same_month; [done..|lia]|lia].
Qed.

(** For the other days it is the day before in the target month. *)
Lemma first_anchor_later t n :
  valid_date t → 1 ≤ n ≤ 12 → 2 ≤ t.2 → month_index t + n + 1 < 120000 →
  let a := date_of (day_of (add_months t n) - 1) in
  valid_date a ∧ 12000 ≤ month_index a - n ∧ month_index a + 1 < 120000
  ∧ day_of (previous_due a n) + 1 = day_of t - (t.2 - (add_months t n).2).
Proof.
  intros V Hn H2 Hhi a. pose proof (month_index_range t V). destruct (add_months_spec t n V) as (Vn & Mn & Dn); [lia|].
  revert Vn Mn Dn a. generalize (add_months t n). intros [[y' m'] d'] Vn Mn Dn a. cbn [fst snd] in *.
  pose proof (month_len_range (leap y') (m' - 1)).
  assert (a = (y', m', d' - 1)) as ->.
  { unfold a. rewrite <-(date_of_day_of (y', m', d' - 1)); [f_equal; rewrite <-(day_shift y' m' d' (d' - 1)); lia|]. unfold valid_date in *. lia. }
  assert (valid_date (y', m', d' - 1)) as Va by (unfold valid_date in *; lia).
  assert (month_index (y', m', d' - 1) = month_index t + n) as Ma by (unfold month_index in *; lia).
  split_and!; [done|lia|lia|]. unfold previous_due. rewrite bool_decide_eq_false_2 by (rewrite is_month_end; cbn [fst snd]; lia).
  destruct (add_months_spec (y', m', d' - 1) (- n) Va) as (Vs & Ms & Ds); [lia|].
  assert ((add_months (y', m', d' - 1) (- n)).1 = t.1) as Es by (apply same_month; [done..|lia]).
  destruct t as [[y m] d]. destruct (add_months (y', m', d' - 1) (- n)) as [x e]. cbn [fst snd] in *. subst x. cbn [fst snd] in *.
  destruct V as (Hy & Hm & Hd). assert (e = d' - 1) as -> by lia.
  rewrite <-(day_shift y m d (d' - 1)). lia.
Qed.

(** A template's first period starts with the schedule.  The first anchor of a
    recurring cadence is a date whose covered period ends on it and begins exactly on
    the day the schedule starts, also when that is the first of a short month; only
    when the target month is too short for the day does it begin earlier, by as many
    days as the day had to be moved. *)
Theorem first_anchor_covers t c n (V : valid_date t) (Hc : cadenceMonths c = Some n)
    (Hlo : 12000 ≤ month_index t - 1) (Hhi : month_index t + n + 1 < 120000) :
  ∃ a p, firstAnchorAfter (iso t) c = Ok a ∧ coveredPeriod a c = Ok p ∧ periodEnd p = a
    ∧ addDaysISO (periodStart p) (t.2 - (add_months t n).2) = Some (iso t)
    ∧ ((add_months t n).2 = t.2 → periodStart p = iso t).
Proof.
  pose proof (cadence_range _ _ Hc) as Hn. pose proof (month_index_range t V).
  destruct (add_months_spec t n V) as (Vn & Mn & Dn); [lia|].
  set (a := date_of (day_of (add_months t n) - 1)).
  assert (valid_date a ∧ 12000 ≤ month_index a - n ∧ month_index a + 1 < 120000
    ∧ day_of (previous_due a n) + 1 = day_of t - (t.2 - (add_months t n).2)) as (Va & Ha1 & Ha2 & Hp).
  { destruct (decide (t.2 = 1)) as [E|E].
    - destruct (first_anchor_first t n V Hn E) as (? & ? & ? & Hp); [lia|lia|]. split_and!; try done. fold a in Hp. rewrite Hp, Dn, E.
      pose proof (month_len_range (leap (add_months t n).1.1) ((add_months t n).1.2 - 1)). lia.
    - assert (2 ≤ t.2) by (destruct t as [[? ?] ?]; unfold valid_date in V; cbn in *; lia). by apply first_anchor_later. }
  destruct (coveredPeriod_iso a c n Va Hc Ha1 Ha2) as (Hcov & Vp & Vs).
  exists (iso a), (mkPeriod (iso (date_of (day_of (previous_due a n) + 1))) (iso a)). split_and!.
  - unfold firstAnchorAfter. rewrite Hc, addMonthsClamped_iso by done. cbn [or_nan rbind]. by rewrite addDaysISO_iso.
  - done.
  - done.
  - cbn [periodStart]. rewrite addDaysISO_iso, day_of_date_of, Hp by done.
    replace (day_of t - _ + _) with (day_of t) by lia. by rewrite date_of_day_of.
  - intros E. cbn [periodStart]. rewrite Hp, E. replace (day_of t - _) with (day_of t) by lia. by rewrite date_of_day_of.
Qed.

(** ** Planning *)

Definition in_years (d : Z) : Prop := DayFromYear 1000 ≤ d < DayFromYear 10000.

Lemma valid_in_years t : valid_date t → in_years (day_of t).
Proof.
  destruct t as [[y m] d]. intros (Hy & Hm & Hd). unfold in_years, day_of. rewrite MakeDay_valid by lia.
  pose proof (month_offset_range (leap y) (m - 1) d). pose proof (DayFromYear_succ y).
  assert (DayFromYear 1000 ≤ DayFromYear y) by (destruct (decide (y = 1000)) as [->|]; [lia|pose proof (DayFromYear_mono 1000 y); lia]).
  assert (DayFromYear (y + 1) ≤ DayFromYear 10000)
    by (destruct (decide (y + 1 = 10000)) as [->|]; [lia|pose proof (DayFromYear_mono (y + 1) 10000); lia]). lia.
Qed.

Lemma in_years_valid d : in_years d → valid_date (date_of d).
Proof.
  intros [Hlo Hhi]. apply date_of_valid. pose proof (YearFromDay_spec d) as Hs. split.
  - destruct (Z.lt_ge_cases (YearFromDay d) 1000) as [Hlt|]; [|done]. exfalso.
    destruct (decide (YearFromDay d + 1 = 1000)) as [E|]; [rewrite E in Hs; lia|]. pose proof (DayFromYear_mono (YearFromDay d + 1) 1000). lia.
  - destruct (Z.lt_ge_cases (YearFromDay d) 10000) as [Hlt|Hge]; [lia|]. exfalso.
    destruct (decide (YearFromDay d = 10000)) as [E|]; [rewrite E in Hs; lia|]. pose proof (DayFromYear_mono 10000 (YearFromDay d)). lia.
Qed.

Lemma isInLeadWindow_iso t lead td :
  valid_date t → valid_date td → in_years (day_of t - lead) → isInLeadWindow (iso t) lead (iso td) = Ok (bool_decide (day_of t - lead ≤ day_of td)).
Proof.
  intros V Vd Hy. unfold isInLeadWindow. rewrite addDaysISO_iso by done. cbn [or_nan rbind]. f_equal.
  replace (day_of t + - lead) with (day_of t - lead) by lia. apply in_years_valid in Hy. apply eq_bool_prop_intro.
  rewrite !Is_true_true, bool_decide_eq_true, iso_leb, day_of_lt, day_of_date_of by done. lia.
Qed.

Lemma isPastGrace_iso t grace td :
  valid_date t → valid_date td → in_years (day_of t + grace) → isPastGrace (iso t) grace (iso td) = Ok (bool_decide (day_of t + grace < day_of td)).
Proof.
  intros V Vd Hy. unfold isPastGrace. rewrite addDaysISO_iso by done. cbn [or_nan rbind]. f_equal.
  apply in_years_valid in Hy. apply eq_bool_prop_intro.
  rewrite !Is_true_true, bool_decide_eq_true, iso_ltb, day_of_lt, day_of_date_of by done. lia.
Qed.

(** Not after the end of the schedule, if it has one. *)
Definition until_ok (u : option date) (d : date) : Prop := match u with Some x => day_of d ≤ day_of x | None => True end.
#[global] Instance until_ok_dec u d : Decision (until_ok u d).
Proof. destruct u; cbn; apply _. Defined.
Definition valid_until (u : option date) : Prop := match u with Some x => valid_date x | None => True end.

Lemma past_until_spec u d :
  valid_until u → valid_date d →
  match iso <$> u with Some x => String.ltb x (iso d) | None => false end = negb (bool_decide (until_ok u d)).
Proof.
  destruct u as [x|]; [|done]. cbn [fmap option_fmap option_map valid_until until_ok]. intros Vx V. apply eq_bool_prop_intro.
  rewrite !Is_true_true, iso_ltb, day_of_lt, negb_true_iff, bool_decide_eq_false by done. unfold until_ok. lia.
Qed.

Lemma until_mono u d d' : day_of d ≤ day_of d' → until_ok u d' → until_ok u d.
Proof. destruct u; cbn; lia. Qed.

Section plan.
Context (a f td : date) (u : option date) (c : Cadence) (m lead grace K : Z) (ex : list string) (limit : option nat).
Context (Va : valid_date a) (Vf : valid_date f) (Vt : valid_date td) (Vu : valid_until u).
Context (Hc : cadenceMonths c = Some m) (HK0 : 0 ≤ K) (HKr : month_index a + m * (K + 1) + 1 < 120000) (Ha : 12000 ≤ month_index a - m).
Context (Hl0 : 0 ≤ lead) (Hg0 : 0 ≤ grace) (Hlead : DayFromYear 1000 ≤ day_of a - lead)
  (Hgrace : day_of (due a m K) + grace < DayFromYear 10000) (Hstop : day_of td < day_of (due a m K) - lead).

Definition input : PlanInput := mkPlan (iso a) c (iso f) (iso <$> u) lead grace (iso td) ex limit.

(** The [k]-th due date is to be materialised. *)
Definition wanted (k : Z) : Prop :=
  day_of f ≤ day_of (due a m k)
  ∧ until_ok u (due a m k)
  ∧ day_of (due a m k) - lead ≤ day_of td ∧ iso (due a m k) ∉ ex.
#[global] Instance wanted_dec k : Decision (wanted k).
Proof. unfold wanted. apply _. Defined.

Definition planned (k : Z) (o : PlannedOccurrence) : Prop :=
  o_dueAt o = iso (due a m k) ∧ coveredPeriod (iso (due a m k)) c = Ok (o_period o)
  ∧ o_status o = if bool_decide (day_of (due a m k) + grace < day_of td) then missed else scheduled.

Lemma due_valid k : 0 ≤ k ≤ K → valid_date (due a m k) ∧ month_index (due a m k) = month_index a + m * k.
Proof.
  intros Hk. pose proof (cadence_range _ _ Hc). destruct (due_facts a m K Va ltac:(lia) HK0 HKr k) as (V & M & _); [lia|]. done.
Qed.

Lemma due_mono j k : 0 ≤ j ≤ k → k ≤ K → day_of (due a m j) ≤ day_of (due a m k).
Proof.
  intros Hj Hk. pose proof (cadence_range _ _ Hc). destruct (decide (j = k)) as [->|]; [lia|]. apply Z.lt_le_incl.
  destruct (due_valid j) as [Vj Mj]; [lia|]. destruct (due_valid k) as [Vk Mk]; [lia|].
  apply day_of_lt; [done..|]. apply month_index_lt; [done..|]. nia.
Qed.

Lemma none_wanted n : 0 ≤ n ≤ K → (∀ k, n ≤ k < K → ¬ wanted k) → filter wanted (seqZ n (K - n)) = [].
Proof.
  intros Hn Hno. destruct (filter _ _) as [|k l] eqn:E; [done|]. exfalso.
  assert (k ∈ filter wanted (seqZ n (K - n))) as Hin by (rewrite E; apply list_elem_of_here).
  apply list_elem_of_filter in Hin as [Hw Hin]. apply elem_of_seqZ in Hin. eapply Hno; [|exact Hw]. lia.
Qed.

Lemma due_lead k : 0 ≤ k ≤ K → isInLeadWindow (iso (due a m k)) lead (iso td) = Ok (bool_decide (day_of (due a m k) - lead ≤ day_of td)).
Proof.
  intros Hk. destruct (due_valid k Hk) as [V _]. apply isInLeadWindow_iso; [done..|]. pose proof (valid_in_years _ V) as [? ?].
  pose proof (due_mono 0 k ltac:(lia) ltac:(lia)) as Hm. unfold due at 1 in Hm. rewrite Z.mul_0_r, add_months_0 in Hm by done.
  unfold in_years. lia.
Qed.

Lemma plan_loop_spec fuel : ∀ n out,
  0 ≤ n ≤ K → K - n < Z.of_nat fuel →
  ∃ os, plan_loop fuel input n out = Ok (out ++ os)
    ∧ Forall2 planned (take (default 12%nat limit - length out) (filter wanted (seqZ n (K - n)))) os.
Proof.
  pose proof (cadence_range _ _ Hc) as Hm.
  induction fuel as [|fuel IH]; intros n out Hn Hf; [lia|]. cbn [plan_loop input anchorDueDate cadence cap leadDays today effectiveUntil effectiveFrom existingDueDates graceDays].
  destruct (Nat.ltb_spec (length out) (default 12%nat limit)) as [Hlt|Hge].
  2: { exists []. rewrite app_nil_r. split; [done|]. by replace (_ - _)%nat with 0%nat by lia. }
  destruct (due_valid n Hn) as [V M]. rewrite (nthDueDate_iso a c m n) by (done || lia). cbn [rbind].
  rewrite due_lead by done. cbn [rbind].
  assert (filter wanted (seqZ n (K - n)) = [] → ∃ os, Ok (E := RecurrenceError) out = Ok (out ++ os)
    ∧ Forall2 planned (take (default 12%nat limit - length out) (filter wanted (seqZ n (K - n)))) os) as Hend.
  { intros ->. exists []. by rewrite app_nil_r, take_nil. }
  case_bool_decide as Hl; cbn [negb]; [|apply Hend, none_wanted; [done|]; intros k Hk (_ & _ & Hw & _); pose proof (due_mono n k); lia].
  assert (n < K) as HnK by (destruct (decide (n = K)) as [->|]; lia).
  rewrite past_until_spec by done. case_bool_decide as Hu; cbn [negb].
  2: { apply Hend, none_wanted; [done|]. intros k Hk (_ & Hw & _). apply Hu. eapply until_mono; [|exact Hw]. apply due_mono; lia. }
  rewrite (seqZ_cons n (K - n)) by lia. replace (Z.pred (K - n)) with (K - Z.succ n) by lia. fold (Z.succ n).
  destruct (String.ltb _ (iso f) || _) eqn:Es.
  - rewrite filter_cons_False; [apply IH; lia|]. intros (Hw1 & _ & _ & Hw2). apply orb_true_iff in Es as [Es|Es].
    + apply iso_ltb, day_of_lt in Es; [lia|done..].
    + by apply bool_decide_eq_true in Es.
  - apply orb_false_iff in Es as [Es1 Es2]. apply bool_decide_eq_false in Es2.
    assert (wanted n) as Hw.
    { split_and!; [|done..]. apply not_true_iff_false in Es1. rewrite iso_ltb, day_of_lt in Es1 by done. lia. }
    rewrite filter_cons_True by done. destruct (coveredPeriod_iso (due a m n) c m V Hc) as (Hp & _); [lia|nia|].
    rewrite Hp. cbn [rbind]. rewrite isPastGrace_iso; [|done|done|].
    2: { pose proof (valid_in_years _ V) as [? ?]. pose proof (due_mono n K). unfold in_years. lia. }
    cbn [rbind]. match goal with |- context [out ++ [?x]] => set (o := x) end.
    destruct (IH (Z.succ n) (out ++ [o])) as (os & Hos & Hall); [lia|lia|].
    exists (o :: os). split; [by rewrite Hos, <-app_assoc|]. rewrite length_app in Hall. cbn in Hall.
    replace (default 12%nat limit - length out)%nat with (S (default 12%nat limit - (length out + 1))) by lia.
    cbn [take]. constructor; [|done]. split; [done|]. split; [exact Hp|done].
Qed.
End plan.

(** C29: The sweep plans exactly the schedule.  For any recurring cadence, with any
    bound [K] on the rounds after which a due date lies beyond the lead window, the
    loop ends within [K + 1] rounds and answers with the due dates that lie within the
    effective dates, are at most [leadDays] ahead and are not yet materialised: all of
    them, oldest first, up to the cap, each with its covered period, and marked missed
    exactly when its grace has passed. *)
Theorem plan_is_the_schedule a f td u c m lead grace K ex limit fuel
    (Va : valid_date a) (Vf : valid_date f) (Vt : valid_date td) (Vu : valid_until u)
    (Hc : cadenceMonths c = Some m) (HK0 : 0 ≤ K) (HKr : month_index a + m * (K + 1) + 1 < 120000) (Ha : 12000 ≤ month_index a - m)
    (Hl0 : 0 ≤ lead) (Hg0 : 0 ≤ grace) (Hlead : DayFromYear 1000 ≤ day_of a - lead)
    (Hgrace : day_of (due a m K) + grace < DayFromYear 10000) (Hstop : day_of td < day_of (due a m K) - lead)
    (Hfuel : K < Z.of_nat fuel) :
  ∃ os, planOccurrences fuel (input a f td u c lead grace ex limit) = Ok os
    ∧ Forall2 (planned a td c m grace) (take (default 12%nat limit) (filter (wanted a f td u m lead ex) (seqZ 0 K))) os.
Proof.
  destruct (plan_loop_spec a f td u c m lead grace K ex limit) with (fuel := fuel) (n := 0) (out := @nil PlannedOccurrence)
    as (os & Hos & Hall); try done; [lia|]. exists os. split; [exact Hos|]. cbn [length] in Hall.
  by rewrite Nat.sub_0_r, Z.sub_0_r in Hall.
Qed.

(** A one-time deliverable has at most one occurrence, on its anchor. *)
Lemma plan_one_time i fuel out :
  cadence i = one_time → planOccurrences (S (S fuel)) i = Ok out → (length out ≤ 1)%nat ∧ Forall (λ o, o_dueAt o = anchorDueDate i) out.
Proof.
  intros Hc. unfold planOccurrences. cbn [plan_loop]. unfold nthDueDate. rewrite Hc. cbn [cadenceMonths].
  change (0 <? 0) with false. change (0 =? 0) with true. change (0 + 1 <? 0) with false. change (0 + 1 =? 0) with false. cbn [rbind].
  intros Hout. repeat (case_match; cbn [rbind length] in *; try discriminate Hout; simplify_eq; try (split; [cbn; lia|by repeat constructor])).
  all: unfold rbind in Hout; repeat (case_match; try discriminate Hout; simplify_eq; try (split; [cbn; lia|by repeat constructor])).
Qed.

(** ** Examples *)

(** An anchor on the 30th: the period of 28 February leaves out 31 January. *)
Example gap_after_30th :
  nthDueDate "2026-01-30" monthly 1 = Ok (Some "2026-02-28")
  ∧ coveredPeriod "2026-02-28" monthly = Ok (mkPeriod "2026-02-01" "2026-02-28")
  ∧ coveredPeriod "2026-01-30" monthly = Ok (mkPeriod "2025-12-31" "2026-01-30").
Proof. by vm_compute. Qed.

(** The first of a short month is no exception to the first anchor. *)
Example first_of_february :
  firstAnchorAfter "2026-02-01" monthly = Ok "2026-02-28"
  ∧ coveredPeriod "2026-02-28" monthly = Ok (mkPeriod "2026-02-01" "2026-02-28").
Proof. by vm_compute. Qed.

Lemma periods_cover_witness :
  ∃ e e' p, nthDueDate (iso (2026, 1, 31)) quarterly 2 = Ok (Some e) ∧ nthDueDate (iso (2026, 1, 31)) quarterly 3 = Ok (Some e')
    ∧ coveredPeriod e' quarterly = Ok p ∧ addDaysISO e 1 = Some (periodStart p).
Proof.
  destruct (periods_cover (2026, 1, 31) quarterly 3 2) as (e & e' & p & He & He' & Hp & _ & _ & _ & _ & _ & Ht); [by vm_compute..|].
  exists e, e', p. split; [exact He|]. split; [exact He'|]. split; [exact Hp|]. apply Ht. by right.
Defined.

Lemma first_anchor_covers_witness :
  ∃ a p, firstAnchorAfter (iso (2026, 2, 1)) monthly = Ok a ∧ coveredPeriod a monthly = Ok p ∧ periodStart p = iso (2026, 2, 1).
Proof.
  destruct (first_anchor_covers (2026, 2, 1) monthly 1) as (a & p & Ha & Hp & _ & _ & Hs); [by vm_compute..|].
  exists a, p. split; [exact Ha|]. split; [exact Hp|]. by apply Hs.
Defined.

Lemma plan_is_the_schedule_witness :
  ∃ os, planOccurrences 10 (input (2026, 1, 31) (2026, 1, 1) (2026, 4, 1) None monthly 14 5 ["2026-02-28"] None) = Ok os
    ∧ length os = 2%nat.
Proof.
  destruct (plan_is_the_schedule (2026, 1, 31) (2026, 1, 1) (2026, 4, 1) None monthly 1 14 5 6 ["2026-02-28"] None 10) as (os & Hos & Hall);
    [by vm_compute..|]. exists os. split; [exact Hos|]. apply Forall2_length in Hall. rewrite <-Hall. vm_compute. reflexivity.
Defined.
End Recurrence.
