(* ===== verification/Maintenance.v ===== *)
(** * Maintenance windows and quiet hours

    Models the maintenance-window evaluator of
    [apps/api/src/services/featureConfigResolver.ts], the projector of
    [maintenanceWindowProjection.ts] and its conversion of wall-clock time to
    instants, the device resolution of [maintenanceService.ts], and
    [quietHours.ts].

    A wall-clock time is the number of milliseconds its digits name when read as
    UTC, as in the code.  [Intl.DateTimeFormat] is a parameter, a function from a
    zone and an instant to parts; [WallFormatter] says what is relied on, against a
    function [wall] that gives a zone's clock.  The parts carry whole seconds, so a
    wall-clock time read from them is the zone's clock without its milliseconds.
    [new Date(text)] is a parameter. *)
From S2P Require Import Prelude JsText JsDate IsoDate ZoneClock.
From stdpp Require Import base tactics list list_numbers strings.
From Stdlib Require Import ZArith Lia Ascii.
Open Scope Z_scope.

Module Maintenance.

(** ** The start of a window as text *)

(** [(\d{1,2}):(\d{2})] at the front; what follows it. *)
Definition time_prefix (l : list ascii) : option (Z * Z * list ascii) :=
  let minutes h l :=
    match l with
    | c :: m1 :: m2 :: rest =>
        if Ascii.eqb c ":" && is_digit m1 && is_digit m2 then Some (h, digits_val [m1; m2], rest) else None
    | _ => None
    end in
  match l with
  | d1 :: d2 :: rest =>
      if is_digit d1 && is_digit d2 then minutes (digits_val [d1; d2]) rest
      else if is_digit d1 then minutes (digit_val d1) (d2 :: rest) else None
  | _ => None
  end.

(** [/^(\d{1,2}):(\d{2})(?::\d{2})?$/] *)
Definition TIME_OF_DAY_PATTERN (l : list ascii) : option (Z * Z) :=
  '(h, m, rest) ← time_prefix l;
  match rest with
  | [] => Some (h, m)
  | [c; s1; s2] => if Ascii.eqb c ":" && is_digit s1 && is_digit s2 then Some (h, m) else None
  | _ => None
  end.

(** [\d{4}-\d{2}-\d{2}] at the front. *)
Definition date_tests : list (ascii → bool) :=
  let dash := Ascii.eqb "-"%char in replicate 4 is_digit ++ dash :: replicate 2 is_digit ++ dash :: replicate 2 is_digit.
Definition date_prefix (l : list ascii) : option (list ascii) :=
  if (10 <=? length l)%nat && forallb (λ tc, tc.1 tc.2) (zip date_tests l) then Some (drop 10 l) else None.

(** [/^\d{4}-\d{2}-\d{2}[T ](\d{1,2}):(\d{2})/] *)
Definition DATETIME_TIME_PATTERN (l : list ascii) : option (Z * Z) :=
  rest ← date_prefix l;
  match rest with
  | c :: rest => if Ascii.eqb c "T" || Ascii.eqb c " " then '(h, m, _) ← time_prefix rest; Some (h, m) else None
  | [] => None
  end.

(** [/(?:Z|[+-]\d{2}:?\d{2})$/i], read from the end. *)
Definition EXPLICIT_UTC_OFFSET_PATTERN (l : list ascii) : bool :=
  match reverse l with
  | [] => false
  | c :: r =>
      Ascii.eqb (lower_char c) "z"
      || match c :: r with
         | d4 :: d3 :: x :: r' =>
             is_digit d4 && is_digit d3
             && match (if Ascii.eqb x ":" then r' else x :: r') with
                | d2 :: d1 :: s :: _ => is_digit d2 && is_digit d1 && (Ascii.eqb s "+" || Ascii.eqb s "-")
                | _ => false
                end
         | _ => false
         end
  end.

(** Hours and minutes; [None] is ['invalid']. *)
Definition MIDNIGHT_ANCHOR : Z * Z := (0, 0).
Definition parseRecurringWindowAnchor (rawWindowStart : option string) : option (Z * Z) :=
  let value := chars (trim (default "" rawWindowStart)) in
  match value with
  | [] => Some MIDNIGHT_ANCHOR
  | _ =>
      if EXPLICIT_UTC_OFFSET_PATTERN value then None
      else match (match TIME_OF_DAY_PATTERN value with Some r => Some r | None => DATETIME_TIME_PATTERN value end) with
           | Some (hours, minutes) => if (23 <? hours) || (59 <? minutes) then None else Some (hours, minutes)
           | None => None
           end
  end.

(** ** Settings *)

Record MaintenanceSettings := mkSettings {
  ms_id : string; recurrence : string; durationHours : Z; timezone : option string; windowStart : option string;
  suppressAlerts : bool; suppressPatching : bool; suppressAutomations : bool; suppressScripts : bool; rebootIfPending : bool }.

Record MaintenanceWindowStatus := mkStatus {
  active : bool; st_suppressAlerts : bool; st_suppressPatching : bool; st_suppressAutomations : bool; st_suppressScripts : bool;
  st_rebootIfPending : bool; windowEndsAt : option Z }.
Definition inactive : MaintenanceWindowStatus := mkStatus false false false false false false None.

(** ** The UTC setters of a date *)

Definition TimeWithinDay (t : Z) : Z := t mod msPerDay.
Definition setUTCHours (t hours minutes : Z) : Z := Day t * msPerDay + hours * 3600000 + minutes * 60000.
Definition setUTCDate (t d : Z) : Z := MakeDay (getUTCFullYear t) (getUTCMonth t) d * msPerDay + TimeWithinDay t.
Definition setUTCMonth (t m : Z) : Z := MakeDay (getUTCFullYear t) m (getUTCDate t) * msPerDay + TimeWithinDay t.

Section clock.
Context (formatToParts : string → Z → option Parts) (Date_parse : string → option Z).

(** [Number(parts.find((p) => p.type === type)?.value ?? '0')] *)
Definition part_number (parts : Parts) (type : string) : option Z :=
  js_Number (match List.find (λ p, String.eqb p.1 type) parts with Some p => p.2 | None => "0" end).

(** [None] is an invalid date, which a part that is no number makes. *)
Definition maintenanceWallClock (instant : Z) (tz : option string) : option Z :=
  match formatToParts (default "UTC" (truthy tz)) instant with
  | None => Some instant
  | Some parts =>
      y ← part_number parts "year"; m ← part_number parts "month"; d ← part_number parts "day"; h ← part_number parts "hour"; mi ← part_number parts "minute";
      s ← part_number parts "second"; Some (DateUTC y (m - 1) d h mi + s * 1000)
  end.

(** [value.replace(' ', 'T')]: the first space only. *)
Fixpoint replace_space (l : list ascii) : list ascii :=
  match l with [] => [] | c :: l' => if Ascii.eqb c " " then "T"%char :: l' else c :: replace_space l' end.

Definition onceWindowStartWallClock (rawWindowStart : string) (tz : option string) : option Z :=
  let value := trim rawWindowStart in
  match chars value with
  | [] => None
  | l =>
      if EXPLICIT_UTC_OFFSET_PATTERN l then instant ← Date_parse value; maintenanceWallClock instant tz
      else Date_parse (match date_prefix l with
                       | Some [] => value +:+ "T00:00:00Z"
                       | _ => of_chars (replace_space l) +:+ "Z"
                       end)
  end.

Definition resolveRecurringAnchor (s : MaintenanceSettings) : Z * Z := default MIDNIGHT_ANCHOR (parseRecurringWindowAnchor (windowStart s)).

Definition maintenanceOccurrenceStart (s : MaintenanceSettings) (localNow : Z) : option Z :=
  let '(hours, minutes) := resolveRecurringAnchor s in
  if String.eqb (recurrence s) "once" then raw ← truthy (windowStart s); onceWindowStartWallClock raw (timezone s)
  else if String.eqb (recurrence s) "daily" then
    let w := setUTCHours localNow hours minutes in
    Some (if localNow <? w then setUTCDate w (getUTCDate w - 1) else w)
  else if String.eqb (recurrence s) "weekly" then
    let w := setUTCDate localNow (getUTCDate localNow - getUTCDay localNow) in
    let w := setUTCHours w hours minutes in
    Some (if localNow <? w then setUTCDate w (getUTCDate w - 7) else w)
  else if String.eqb (recurrence s) "monthly" then
    let w := setUTCDate localNow 1 in
    let w := setUTCHours w hours minutes in
    Some (if localNow <? w then setUTCMonth w (getUTCMonth w - 1) else w)
  else None.

Definition maintenanceNextOccurrenceStart (recurrence : string) (occurrenceStart : Z) : option Z :=
  if String.eqb recurrence "daily" then Some (setUTCDate occurrenceStart (getUTCDate occurrenceStart + 1))
  else if String.eqb recurrence "weekly" then Some (setUTCDate occurrenceStart (getUTCDate occurrenceStart + 7))
  else if String.eqb recurrence "monthly" then Some (setUTCMonth occurrenceStart (getUTCMonth occurrenceStart + 1))
  else None.

Definition duration_ms (s : MaintenanceSettings) : Z := durationHours s * 60 * 60 * 1000.

(** An invalid date compares as neither before nor after. *)
Definition isInMaintenanceWindow (s : MaintenanceSettings) (now : Z) : MaintenanceWindowStatus :=
  match maintenanceWallClock now (timezone s) with
  | None => inactive
  | Some localNow =>
      match maintenanceOccurrenceStart s localNow with
      | None => inactive
      | Some start =>
          let windowEnd := start + duration_ms s in
          if (start <=? localNow) && (localNow <? windowEnd) then
            mkStatus true (suppressAlerts s) (suppressPatching s) (suppressAutomations s) (suppressScripts s) (rebootIfPending s)
              (Some (now + (windowEnd - localNow)))
          else inactive
      end
  end.

(** ** From wall clock to instant *)

Definition zoneOffsetMs (instant : Z) (tz : string) : option Z :=
  w ← maintenanceWallClock instant (Some tz); Some (w - instant).

(** [while (hi - lo > 1)]: the offset at [hi] is [offsetAfter]. *)
Fixpoint bisect (fuel : nat) (tz : string) (offsetAfter lo hi : Z) : option Z :=
  match fuel with
  | O => Some hi
  | S fuel' =>
      if 1 <? hi - lo then
        let mid := (lo + hi) / 2 in
        o ← zoneOffsetMs mid tz;
        if o =? offsetAfter then bisect fuel' tz offsetAfter lo mid else bisect fuel' tz offsetAfter mid hi
      else Some hi
  end.

Definition wallClockToInstant (wall : Z) (timezone : option string) : option Z :=
  let tz := default "UTC" (truthy timezone) in
  o ← zoneOffsetMs wall tz;
  let first := wall - o in
  o1 ← zoneOffsetMs first tz;
  if o1 =? wall - first then Some first
  else
    let second := wall - o1 in
    o2 ← zoneOffsetMs second tz;
    if o2 =? wall - second then Some second
    else
      let lo := Z.min first second in
      let hi := Z.max first second in
      offsetAfter ← zoneOffsetMs hi tz;
      bisect (Z.to_nat (Z.log2 (hi - lo) + 2)) tz offsetAfter lo hi.

Inductive WindowSource := config_policy | standalone.
Record NextMaintenanceWindow := mkNext {
  windowId : string; nw_source : WindowSource; startsAt : Z; endsAt : Z; nw_rebootIfPending : bool }.

Definition MAINTENANCE_WINDOW_HORIZON_DAYS : Z := 30.
Definition DAY_MS : Z := 24 * 60 * 60 * 1000.

(** [None]: no window within the horizon. *)
Definition projectNextConfigPolicyWindow (s : MaintenanceSettings) (from horizonDays : Z) : option NextMaintenanceWindow :=
  localFrom ← maintenanceWallClock from (timezone s);
  start ← maintenanceOccurrenceStart s localFrom;
  start ← (if start + duration_ms s <=? localFrom then maintenanceNextOccurrenceStart (recurrence s) start else Some start);
  starts ← wallClockToInstant start (timezone s);
  if horizonDays * DAY_MS <? starts - from then None
  else
    ends ← wallClockToInstant (start + duration_ms s) (timezone s);
    Some (mkNext (ms_id s +:+ "@" +:+ toISOString starts) config_policy starts ends (rebootIfPending s)).

End clock.
End Maintenance.
