(* ===== verification/MaintenanceFacts.v ===== *)
(** * Maintenance windows: what holds

    The governing occurrence is the latest one and its successor the next
    ([Occurrences]); a window is open exactly within its duration of some occurrence;
    the conversion from wall clock to instant around a clock change, and the
    projector's agreement with the evaluator ([Conversion]); quiet hours. *)
From S2P Require Import Prelude JsText JsDate IsoDate ZoneClock Maintenance.
From stdpp Require Import base tactics list list_numbers strings.
From Stdlib Require Import ZArith Lia Ascii.
Open Scope Z_scope.
Import Maintenance.

Module Occurrences.

(** ** The setters *)

Lemma Day_of d x : 0 ≤ x < msPerDay → Day (d * msPerDay + x) = d.
Proof. intros Hx. unfold Day. rewrite Z.div_add_l by done. rewrite Z.div_small by done. lia. Qed.

Lemma mod_of d x : 0 ≤ x < msPerDay → (d * msPerDay + x) mod msPerDay = x.
Proof. intros Hx. rewrite Z.add_comm, Z.mod_add by done. by apply Z.mod_small. Qed.

Lemma day_split t : t = Day t * msPerDay + t mod msPerDay ∧ 0 ≤ t mod msPerDay < msPerDay.
Proof. unfold Day. pose proof (Z.div_mod t msPerDay). pose proof (Z.mod_pos_bound t msPerDay). unfold msPerDay in *. lia. Qed.

Lemma MakeDay_shift y m d e : MakeDay y m e = MakeDay y m d + (e - d).
Proof. unfold MakeDay. lia. Qed.

Lemma setUTCDate_shift t d : setUTCDate t d = t + (d - getUTCDate t) * msPerDay.
Proof.
  destruct (day_split t) as [Ht _]. unfold setUTCDate, TimeWithinDay, getUTCFullYear, getUTCMonth, getUTCDate.
  rewrite (MakeDay_shift _ _ (DateFromDay (Day t)) d), MakeDay_of_civil. lia.
Qed.

(** The first day of month [k], counted from year 0. *)
Definition first_day (k : Z) : Z := MakeDay 0 k 1.

Lemma first_day_MakeDay y m : MakeDay y m 1 = first_day (12 * y + m).
Proof.
  unfold first_day, MakeDay. replace (12 * y + m) with (m + y * 12) by lia.
  rewrite Z.div_add, Z.mod_add by lia. by replace (0 + (m / 12 + y)) with (y + m / 12) by lia.
Qed.

Lemma first_day_civil k : DateFromDay (first_day k) = 1 ∧ 12 * YearFromDay (first_day k) + MonthFromDay (first_day k) = k.
Proof.
  pose proof (Z.div_mod k 12). pose proof (Z.mod_pos_bound k 12).
  assert (first_day k = MakeDay (k / 12) (k mod 12) 1) as -> by (rewrite first_day_MakeDay; f_equal; lia).
  pose proof (month_len_range (leap (k / 12)) (k mod 12)).
  destruct (civil_of_MakeDay (k / 12) (k mod 12) 1) as (-> & -> & ->); [lia|lia|]. lia.
Qed.

Lemma first_day_succ k :
  first_day (k + 1) = first_day k + month_len (leap (k / 12)) (k mod 12).
Proof.
  pose proof (Z.div_mod k 12). pose proof (Z.mod_pos_bound k 12).
  assert (first_day k = MakeDay (k / 12) (k mod 12) 1) as -> by (rewrite first_day_MakeDay; f_equal; lia).
  assert (first_day (k + 1) = MakeDay (k / 12) (k mod 12 + 1) 1) as -> by (rewrite first_day_MakeDay; f_equal; lia).
  pose proof (MakeDay_last (k / 12) (k mod 12 + 1)) as HL. replace (k mod 12 + 1 - 1) with (k mod 12) in HL by lia.
  rewrite (MakeDay_shift _ (k mod 12 + 1) 0), HL by lia. rewrite (MakeDay_shift _ (k mod 12) 1). lia.
Qed.

Definition month_of (d : Z) : Z := 12 * YearFromDay d + MonthFromDay d.

Lemma month_of_spec d : first_day (month_of d) = d - DateFromDay d + 1 ∧ first_day (month_of d) ≤ d < first_day (month_of d + 1).
Proof.
  destruct (civil_bounds d) as [Hm Hd]. unfold month_of. rewrite first_day_succ, <-first_day_MakeDay.
  pose proof (MakeDay_of_civil d) as Hc. rewrite (MakeDay_shift _ _ 1) in Hc.
  replace (12 * YearFromDay d + MonthFromDay d) with (MonthFromDay d + YearFromDay d * 12) by lia.
  rewrite Z.div_add, Z.mod_add, Z.div_small, Z.mod_small by lia. rewrite Z.add_0_l. lia.
Qed.

(** ** Occurrences *)

Inductive Recurring := daily | weekly | monthly.
Definition recurrence_text (r : Recurring) : string := match r with daily => "daily" | weekly => "weekly" | monthly => "monthly" end.

(** Every day, every Sunday, every first of a month, at [anchor] milliseconds. *)
Definition is_occurrence (r : Recurring) (anchor o : Z) : Prop :=
  TimeWithinDay o = anchor ∧ match r with daily => True | weekly => getUTCDay o = 0 | monthly => getUTCDate o = 1 end.

(** The days of the occurrences, in order. *)
Definition occ_day (r : Recurring) (k : Z) : Z := match r with daily => k | weekly => 7 * k + 3 | monthly => first_day k end.
Definition occ (r : Recurring) (anchor k : Z) : Z := occ_day r k * msPerDay + anchor.

Lemma occ_day_succ r k : occ_day r k + 1 ≤ occ_day r (k + 1).
Proof.
  destruct r; cbn; [lia..|]. rewrite first_day_succ. pose proof (month_len_range (leap (k / 12)) (k mod 12)). lia.
Qed.

Lemma occ_mono r anchor j k : j < k → occ r anchor j + msPerDay ≤ occ r anchor k.
Proof.
  intros Hjk. assert (occ_day r j + 1 ≤ occ_day r k) as Hd; [|unfold occ, msPerDay; lia].
  replace k with (j + 1 + (k - j - 1)) by lia. assert (0 ≤ k - j - 1) as Hn by lia. revert Hn. generalize (k - j - 1).
  apply natlike_ind; [rewrite Z.add_0_r; apply occ_day_succ|]. intros n Hn IH.
  replace (j + 1 + Z.succ n) with (j + 1 + n + 1) by lia. pose proof (occ_day_succ r (j + 1 + n)). lia.
Qed.

Lemma occ_gap r anchor k : occ r anchor (k + 1) ≤ occ r anchor k + 31 * msPerDay.
Proof.
  assert (occ_day r (k + 1) ≤ occ_day r k + 31) as Hd; [|unfold occ, msPerDay; lia].
  destruct r; cbn; [lia..|]. rewrite first_day_succ. pose proof (month_len_range (leap (k / 12)) (k mod 12)). lia.
Qed.

Lemma occ_le r anchor j k x : occ r anchor j ≤ x → x < occ r anchor (k + 1) → j ≤ k.
Proof.
  intros H1 H2. destruct (Z.le_gt_cases j k); [done|]. destruct (decide (j = k + 1)) as [->|]; [lia|].
  pose proof (occ_mono r anchor (k + 1) j). unfold msPerDay in *. lia.
Qed.

Lemma occ_mono_le r anchor j k : j ≤ k → occ r anchor j ≤ occ r anchor k.
Proof. intros Hjk. destruct (decide (j = k)) as [->|]; [lia|]. pose proof (occ_mono r anchor j k). unfold msPerDay in *. lia. Qed.

Lemma is_occurrence_occ r anchor o : 0 ≤ anchor < msPerDay → is_occurrence r anchor o ↔ ∃ k, o = occ r anchor k.
Proof.
  intros Ha. unfold is_occurrence, occ, TimeWithinDay. split.
  - intros [Ht Hr]. destruct (day_split o) as [Ho _]. rewrite Ht in Ho. destruct r; cbn.
    + by exists (Day o).
    + exists ((Day o - 3) / 7). unfold getUTCDay, WeekDay in Hr. rewrite Ho at 1. do 2 f_equal.
      pose proof (Z.div_mod (Day o - 3) 7). pose proof (Z.div_mod (Day o + 4) 7). Z.to_euclidean_division_equations. lia.
    + exists (month_of (Day o)). destruct (month_of_spec (Day o)) as [Hf _]. unfold getUTCDate in Hr. rewrite Hf, Hr. lia.
  - intros [k ->]. rewrite mod_of by done. split; [done|].
    unfold getUTCDay, getUTCDate. rewrite Day_of by done. destruct r; cbn; [done| |apply first_day_civil].
    unfold WeekDay. replace (7 * k + 3 + 4) with (0 + (k + 1) * 7) by lia. by rewrite Z.mod_add.
Qed.

(** ** The governing occurrence *)

Lemma time_prefix_range l h m rest : time_prefix l = Some (h, m, rest) → 0 ≤ h ∧ 0 ≤ m.
Proof.
  assert (∀ d, is_digit d = true → 0 ≤ digit_val d) as Hd by (intros d Hd; pose proof (digit_val_range d Hd); lia).
  assert (∀ c d, is_digit c = true → is_digit d = true → 0 ≤ digits_val [c; d]) as Hdd.
  { intros c d Hc Hd'. unfold digits_val. cbn. pose proof (Hd c Hc). pose proof (Hd d Hd'). lia. }
  unfold time_prefix. intros H. repeat (case_match; try discriminate H); injection H as <- <- _; bool_hyps; auto.
Qed.

Lemma anchor_range s h m : resolveRecurringAnchor s = (h, m) → 0 ≤ h ≤ 23 ∧ 0 ≤ m ≤ 59.
Proof.
  unfold resolveRecurringAnchor, parseRecurringWindowAnchor, MIDNIGHT_ANCHOR. intros H.
  assert (∀ l h m, TIME_OF_DAY_PATTERN l = Some (h, m) → 0 ≤ h ∧ 0 ≤ m) as H1.
  { intros l h' m' E. unfold TIME_OF_DAY_PATTERN in E. destruct (time_prefix l) as [[[h0 m0] r]|] eqn:Ep; [|done]. cbn in E.
    apply time_prefix_range in Ep. repeat (case_match; try discriminate E); by simplify_eq. }
  assert (∀ l h m, DATETIME_TIME_PATTERN l = Some (h, m) → 0 ≤ h ∧ 0 ≤ m) as H2.
  { intros l h' m' E. unfold DATETIME_TIME_PATTERN in E. destruct (date_prefix l) as [[|c r]|]; cbn in E; try done.
    destruct (_ || _); [|done]. destruct (time_prefix r) as [[[h0 m0] r']|] eqn:Ep; [|done]. cbn in E.
    apply time_prefix_range in Ep. by simplify_eq. }
  destruct (chars _) as [|c l]; [cbn in H; simplify_eq; lia|]. destruct (EXPLICIT_UTC_OFFSET_PATTERN _); [cbn in H; simplify_eq; lia|].
  destruct (match TIME_OF_DAY_PATTERN _ with Some r => _ | None => _ end) as [[h0 m0]|] eqn:E; [|cbn in H; simplify_eq; lia].
  assert (0 ≤ h0 ∧ 0 ≤ m0) as Hlo by (destruct (TIME_OF_DAY_PATTERN _) as [[]|] eqn:Et; simplify_eq; eauto).
  destruct ((23 <? h0) || (59 <? m0)) eqn:Er; cbn in H; simplify_eq; [lia|]. apply orb_false_iff in Er as [?%Z.ltb_ge ?%Z.ltb_ge]. lia.
Qed.

Definition anchor_ms (s : MaintenanceSettings) : Z := let '(h, m) := resolveRecurringAnchor s in h * 3600000 + m * 60000.

Lemma anchor_ms_range s : 0 ≤ anchor_ms s < msPerDay.
Proof. unfold anchor_ms, msPerDay. destruct (resolveRecurringAnchor s) as [h m] eqn:E. apply anchor_range in E. lia. Qed.

Lemma setUTCHours_at s t : setUTCHours t (resolveRecurringAnchor s).1 (resolveRecurringAnchor s).2 = Day t * msPerDay + anchor_ms s.
Proof. unfold setUTCHours, anchor_ms. destruct (resolveRecurringAnchor s). cbn. lia. Qed.

Lemma setUTCMonth_first k a j :
  0 ≤ a < msPerDay → let w := first_day k * msPerDay + a in setUTCMonth w (getUTCMonth w + j) = first_day (k + j) * msPerDay + a.
Proof.
  intros Ha w. unfold setUTCMonth, TimeWithinDay, getUTCFullYear, getUTCMonth, getUTCDate, w. rewrite Day_of by done.
  destruct (first_day_civil k) as [-> Hk]. rewrite first_day_MakeDay, mod_of by done.
  do 2 f_equal. f_equal. lia.
Qed.

Section governing.
Context (formatToParts : string → Z → option Parts) (Date_parse : string → option Z).
Context (s : MaintenanceSettings) (r : Recurring) (Hr : recurrence s = recurrence_text r).

Lemma start_spec now :
  ∃ k, maintenanceOccurrenceStart formatToParts Date_parse s now = Some (occ r (anchor_ms s) k)
    ∧ occ r (anchor_ms s) k ≤ now < occ r (anchor_ms s) (k + 1).
Proof.
  pose proof (anchor_ms_range s) as Ha. destruct (day_split now) as [Hnow Hm].
  unfold maintenanceOccurrenceStart. rewrite (surjective_pairing (resolveRecurringAnchor s)), Hr. destruct r; cbn [recurrence_text String.eqb Ascii.eqb Bool.eqb];
    rewrite setUTCHours_at; unfold occ, occ_day.
  - destruct (Z.ltb_spec now (Day now * msPerDay + anchor_ms s)).
    + exists (Day now - 1). rewrite setUTCDate_shift. split; [f_equal; lia|unfold msPerDay in *; lia].
    + exists (Day now). split; [done|unfold msPerDay in *; lia].
  - set (wd := getUTCDay now). assert (Day (setUTCDate now (getUTCDate now - wd)) = 7 * ((Day now + 4) / 7 - 1) + 3) as ->.
    { rewrite setUTCDate_shift. replace (now + (getUTCDate now - wd - getUTCDate now) * msPerDay) with ((Day now - wd) * msPerDay + now mod msPerDay) by lia.
      rewrite Day_of by done. unfold wd, getUTCDay, WeekDay. pose proof (Z.div_mod (Day now + 4) 7). lia. }
    pose proof (Z.div_mod (Day now + 4) 7). pose proof (Z.mod_pos_bound (Day now + 4) 7).
    match goal with |- context [now <? ?w] => destruct (Z.ltb_spec now w) end.
    + exists ((Day now + 4) / 7 - 1 - 1). rewrite setUTCDate_shift. split; [f_equal; lia|unfold msPerDay in *; lia].
    + exists ((Day now + 4) / 7 - 1). split; [done|unfold msPerDay in *; lia].
  - destruct (month_of_spec (Day now)) as [Hf Hin].
    assert (Day (setUTCDate now 1) = first_day (month_of (Day now))) as ->.
    { rewrite setUTCDate_shift. unfold getUTCDate.
      replace (now + (1 - DateFromDay (Day now)) * msPerDay) with ((Day now - DateFromDay (Day now) + 1) * msPerDay + now mod msPerDay) by lia.
      rewrite Day_of by done. lia. }
    match goal with |- context [now <? ?w] => destruct (Z.ltb_spec now w) end.
    + exists (month_of (Day now) - 1). split.
      * f_equal. by apply (setUTCMonth_first (month_of (Day now)) (anchor_ms s) (-1)).
      * pose proof (occ_day_succ monthly (month_of (Day now) - 1)) as Hs. cbn in Hs.
        replace (month_of (Day now) - 1 + 1) with (month_of (Day now)) in * by lia. unfold msPerDay in *. lia.
    + exists (month_of (Day now)). split; [done|]. unfold msPerDay in *. lia.
Qed.

Lemma next_spec k : maintenanceNextOccurrenceStart (recurrence s) (occ r (anchor_ms s) k) = Some (occ r (anchor_ms s) (k + 1)).
Proof.
  pose proof (anchor_ms_range s) as Ha. unfold maintenanceNextOccurrenceStart. rewrite Hr. destruct r; cbn [recurrence_text String.eqb Ascii.eqb Bool.eqb].
  - f_equal. rewrite setUTCDate_shift. unfold occ, occ_day. lia.
  - f_equal. rewrite setUTCDate_shift. unfold occ, occ_day. lia.
  - f_equal. unfold occ, occ_day. by rewrite setUTCMonth_first.
Qed.

(** The occurrence that governs a moment is the latest.  For a daily, weekly or
    monthly window and any wall-clock time, the start found is an occurrence (at the
    configured time of day, every day, on Sundays, or on the first of the month), not
    after the time; no later occurrence has begun; and the successor function gives
    the first occurrence after the time. *)
Theorem governing_occurrence now :
  ∃ o o', maintenanceOccurrenceStart formatToParts Date_parse s now = Some o
    ∧ maintenanceNextOccurrenceStart (recurrence s) o = Some o'
    ∧ is_occurrence r (anchor_ms s) o ∧ is_occurrence r (anchor_ms s) o' ∧ o ≤ now < o'
    ∧ (∀ x, is_occurrence r (anchor_ms s) x → x ≤ now → x ≤ o)
    ∧ (∀ x, is_occurrence r (anchor_ms s) x → now < x → o' ≤ x).
Proof.
  pose proof (anchor_ms_range s) as Ha. destruct (start_spec now) as (k & Hk & Hin).
  exists (occ r (anchor_ms s) k), (occ r (anchor_ms s) (k + 1)). split; [exact Hk|]. split; [apply next_spec|].
  rewrite !is_occurrence_occ by done. split; [by exists k|]. split; [by exists (k + 1)|]. split; [exact Hin|].
  split; intros x Hx Hn; apply is_occurrence_occ in Hx as [j ->]; try done.
  - apply occ_mono_le. eapply occ_le; [exact Hn|lia].
  - apply occ_mono_le. destruct (Z.lt_ge_cases k j); [lia|]. pose proof (occ_mono_le r (anchor_ms s) j k). lia.
Qed.
End governing.
End Occurrences.

Module Conversion.
Import Occurrences.

(** ** The formatter *)

Definition whole (t : Z) : Z := t / 1000 * 1000.
Definition four_digit_year (w : Z) : Prop := 1000 ≤ getUTCFullYear w ≤ 9999.

(** [{ year: 'numeric', month: '2-digit', day: '2-digit', hour: '2-digit', minute: '2-digit',
    second: '2-digit', hourCycle: 'h23' }] shows a zone's clock. *)
Class WallFormatter (formatToParts : string → Z → option Parts) (wall : string → Z → option Z) : Prop := {
  wall_unknown tz t : wall tz t = None → formatToParts tz t = None;
  wall_parts tz t w : wall tz t = Some w → four_digit_year w →
    ∃ parts, formatToParts tz t = Some parts ∧ shows parts "year" (js_String (getUTCFullYear w))
      ∧ shows_number parts "month" (getUTCMonth w + 1) ∧ shows_number parts "day" (getUTCDate w)
      ∧ shows_number parts "hour" (getUTCHours w) ∧ shows_number parts "minute" (getUTCMinutes w)
      ∧ shows_number parts "second" (w / 1000 mod 60) }.

Lemma part_number_shown parts k n : shows_number parts k n → part_number parts k = Some n.
Proof. intros (v & Hs & Hn). unfold part_number. rewrite (shows_find _ _ _ Hs). by apply numeral_Number. Qed.

Lemma get_year parts y : 1000 ≤ y ≤ 9999 → shows parts "year" (js_String y) → part_number parts "year" = Some y.
Proof.
  intros Hy Hs. unfold part_number. rewrite (shows_find _ _ _ Hs). cbn [snd]. rewrite <-(of_chars_chars (js_String y)).
  eapply js_Number_numeral, year_numeral, Hy.
Qed.

Lemma read_back w : four_digit_year w →
  DateUTC (getUTCFullYear w) (getUTCMonth w) (getUTCDate w) (getUTCHours w) (getUTCMinutes w) + w / 1000 mod 60 * 1000 = whole w.
Proof.
  intros Hy. unfold DateUTC, fullYear. unfold four_digit_year in Hy. rewrite (proj2 (Z.leb_gt (getUTCFullYear w) 99)) by lia. rewrite andb_false_r.
  unfold getUTCFullYear, getUTCMonth, getUTCDate. rewrite MakeDay_of_civil. unfold Day, getUTCHours, getUTCMinutes, whole, msPerDay.
  Z.to_euclidean_division_equations. lia.
Qed.

Lemma zone_nonempty tz : truthy (Some (default "UTC" (truthy tz))) = Some (default "UTC" (truthy tz)).
Proof. destruct tz as [[|c z]|]; done. Qed.

Section zone.
Context (formatToParts : string → Z → option Parts) (wall : string → Z → option Z) `{!WallFormatter formatToParts wall}.
(** The clock as it is read: without its milliseconds. *)
Lemma wall_clock tz t w :
  wall (default "UTC" (truthy tz)) t = Some w → four_digit_year w → maintenanceWallClock formatToParts t tz = Some (whole w).
Proof.
  intros Hw Hy. destruct (wall_parts _ _ _ Hw Hy) as (parts & Hp & H1 & H2 & H3 & H4 & H5 & H6). unfold maintenanceWallClock. rewrite Hp.
  rewrite (get_year parts _ Hy H1), (part_number_shown _ _ _ H2), (part_number_shown _ _ _ H3), (part_number_shown _ _ _ H4), (part_number_shown _ _ _ H5), (part_number_shown _ _ _ H6).
  cbn [mbind option_bind]. rewrite <-(read_back w Hy). do 2 f_equal. f_equal. lia.
Qed.

(** ** Around one clock change *)

(** From [lo] to [hi] the zone is [a] ahead of UTC before the instant [T] and [b] from
    it on, in whole seconds. *)
Record one_change (tz : string) (T a b lo hi : Z) : Prop := {
  change_wall t : lo ≤ t ≤ hi → wall tz t = Some (t + if t <? T then a else b) ∧ four_digit_year (t + if t <? T then a else b);
  change_seconds : T mod 1000 = 0 ∧ a mod 1000 = 0 ∧ b mod 1000 = 0 }.

Section change.
Context (tz : string) (T a b lo hi : Z) (Hz : tz ≠ "") (Hchange : one_change tz T a b lo hi).

Lemma offset_at t : lo ≤ t ≤ hi → zoneOffsetMs formatToParts t tz = Some ((if t <? T then a else b) - t mod 1000).
Proof.
  intros Ht. destruct (change_wall _ _ _ _ _ _ Hchange t Ht) as [Hw Hy]. destruct (change_seconds _ _ _ _ _ _ Hchange) as (_ & Ha & Hb).
  unfold zoneOffsetMs. rewrite (wall_clock (Some tz) t (t + if t <? T then a else b)); [|by destruct tz|done].
  cbn [mbind option_bind]. f_equal. unfold whole. destruct (t <? T); Z.to_euclidean_division_equations; lia.
Qed.

(** The search never goes below the change. *)
Lemma bisect_bounds fuel : a < b → ∀ l h, lo ≤ l → l ≤ h ≤ hi → T ≤ h →
  ∃ r, bisect formatToParts fuel tz b l h = Some r ∧ T ≤ r ≤ h.
Proof.
  intros Hab. induction fuel as [|fuel IH]; intros l h Hl Hh HT; cbn [bisect]; [by exists h|].
  destruct (Z.ltb_spec 1 (h - l)); [|by exists h]. set (mid := (l + h) / 2).
  assert (l < mid < h) as Hmid by (unfold mid; Z.to_euclidean_division_equations; lia).
  rewrite offset_at by lia. cbn [mbind option_bind]. pose proof (Z.mod_pos_bound mid 1000).
  destruct (Z.ltb_spec mid T); case_match; bool_hyps.
  - lia.
  - apply IH; lia.
  - destruct (IH l mid) as (r & Hr & ?); [lia..|]. exists r. split; [done|lia].
  - apply IH; lia.
Qed.
End change.

(** Halving: the fuel is enough, more of it changes nothing. *)
Lemma bisect_enough tz b fuel extra : ∀ l h, h - l ≤ 2 ^ Z.of_nat fuel →
  bisect formatToParts (fuel + extra) tz b l h = bisect formatToParts fuel tz b l h.
Proof.
  induction fuel as [|fuel IH]; intros l h Hw.
  - change (2 ^ Z.of_nat 0) with 1 in Hw. destruct extra; cbn [bisect Nat.add]; [done|].
    by rewrite (proj2 (Z.ltb_ge 1 (h - l))).
  - rewrite Nat2Z.inj_succ, Z.pow_succ_r in Hw by lia. cbn [bisect Nat.add]. destruct (Z.ltb_spec 1 (h - l)); [|done].
    assert (h - (l + h) / 2 ≤ 2 ^ Z.of_nat fuel ∧ (l + h) / 2 - l ≤ 2 ^ Z.of_nat fuel) by (Z.to_euclidean_division_equations; lia).
    destruct (zoneOffsetMs _ _ tz); cbn [mbind option_bind]; [|done]. destruct (_ =? b); apply IH; lia.
Qed.

(** From wall clock to instant around a clock change.  When the zone's clock shows
    the requested time, the instant found is one at which it does.  When it shows it
    twice, that is the earlier of the two exactly if the requested digits, read as
    UTC, are before the change (so in zones east of Greenwich it is the later).  When
    the clock skips it, the instant is never before the change, and late by less
    than the skip. *)
Theorem wall_clock_to_instant timezone D T a b lo hi
    (Hchange : one_change (default "UTC" (truthy timezone)) T a b lo hi) (HD : D mod 1000 = 0) (Hab : a ≠ b)
    (Hlo : lo ≤ D ∧ lo ≤ D - a ∧ lo ≤ D - b) (Hhi : D ≤ hi ∧ D - a ≤ hi ∧ D - b ≤ hi) :
  ∃ r, wallClockToInstant formatToParts D timezone = Some r
    ∧ ((D - a < T ∨ T ≤ D - b) → wall (default "UTC" (truthy timezone)) r = Some D)
    ∧ (D - a < T ∧ T ≤ D - b → r = (if D <? T then D - a else D - b) ∧ D - a < D - b)
    ∧ (T ≤ D - a ∧ D - b < T → T ≤ r < T + (b - a)).
Proof.
  set (tz := default "UTC" (truthy timezone)) in *. assert (tz ≠ "") as Hz by (unfold tz; by destruct timezone as [[|c z]|]).
  destruct (change_seconds _ _ _ _ _ _ Hchange) as (HT & Ha & Hb).
  assert (lo ≤ D ≤ hi) as HrD by lia. assert (lo ≤ D - a ≤ hi) as Hra by lia. assert (lo ≤ D - b ≤ hi) as Hrb by lia. clear Hlo Hhi.
  assert (∀ t, lo ≤ t ≤ hi → t mod 1000 = 0 → zoneOffsetMs formatToParts t tz = Some (if t <? T then a else b)) as Hoff.
  { intros t Ht H0. rewrite (offset_at tz T a b lo hi Hz Hchange t Ht), H0. f_equal. lia. }
  assert (∀ t, lo ≤ t ≤ hi → wall tz t = Some (t + if t <? T then a else b)) as Hwall by (intros t Ht; by apply (change_wall _ _ _ _ _ _ Hchange)).
  assert ((D - a) mod 1000 = 0) as HDa by (Z.to_euclidean_division_equations; lia).
  assert ((D - b) mod 1000 = 0) as HDb by (Z.to_euclidean_division_equations; lia).
  assert (∀ x y, x ≠ y → (x =? D - (D - y)) = false) as Hne by (intros x y Hxy; apply Z.eqb_neq; lia).
  assert (∀ x, (x =? D - (D - x)) = true) as Heq by (intros x; apply Z.eqb_eq; lia).
  assert (T ≤ D - a → D - b < T → ∃ r, (offsetAfter ← zoneOffsetMs formatToParts (D - a) tz;
      bisect formatToParts (Z.to_nat (Z.log2 (D - a - (D - b)) + 2)) tz offsetAfter (D - b) (D - a)) = Some r ∧ T ≤ r < T + (b - a)) as Hgap.
  { intros H1 H2. rewrite Hoff by assumption. rewrite (proj2 (Z.ltb_ge (D - a) T)) by done. cbn [mbind option_bind].
    destruct (bisect_bounds tz T a b lo hi Hz Hchange (Z.to_nat (Z.log2 (D - a - (D - b)) + 2)) ltac:(lia) (D - b) (D - a)) as (r & Hr & Hb1);
      [lia..|]. exists r. split; [exact Hr|lia]. }
  unfold wallClockToInstant. fold tz. rewrite Hoff by assumption. cbn [mbind option_bind].
  destruct (Z.ltb_spec D T) as [HDT|HDT]; (rewrite Hoff by assumption); cbn [mbind option_bind].
  - destruct (Z.ltb_spec (D - a) T) as [H1|H1].
    + rewrite Heq. exists (D - a). rewrite Hwall, (proj2 (Z.ltb_lt (D - a) T)) by assumption. split_and!; [done|intros _; f_equal; lia|lia|lia].
    + rewrite Hne by done. rewrite (Hoff (D - b)) by assumption. cbn [mbind option_bind]. destruct (Z.ltb_spec (D - b) T) as [H2|H2].
      * rewrite Hne by done. rewrite Z.min_r, Z.max_l by lia. destruct (Hgap H1 H2) as (r & Hr & Hb1). exists r. split_and!; [exact Hr|intros [?|?]; exfalso; lia|intros; exfalso; lia|lia].
      * rewrite Heq. exists (D - b). rewrite Hwall, (proj2 (Z.ltb_ge (D - b) T)) by assumption. split_and!; [done|intros _; f_equal; lia|lia|lia].
  - destruct (Z.ltb_spec (D - b) T) as [H1|H1].
    + rewrite Hne by done. rewrite (Hoff (D - a)) by assumption. cbn [mbind option_bind]. destruct (Z.ltb_spec (D - a) T) as [H2|H2].
      * rewrite Heq. exists (D - a). rewrite Hwall, (proj2 (Z.ltb_lt (D - a) T)) by assumption. split_and!; [done|intros _; f_equal; lia|lia|lia].
      * rewrite Hne by done. rewrite Z.min_l, Z.max_r by lia. destruct (Hgap H2 H1) as (r & Hr & Hb1). exists r. split_and!; [exact Hr|intros [?|?]; exfalso; lia|intros; exfalso; lia|lia].
    + rewrite Heq. exists (D - b). rewrite Hwall, (proj2 (Z.ltb_ge (D - b) T)) by assumption. split_and!; [done|intros _; f_equal; lia|lia|lia].
Qed.

End zone.

(** ** The evaluator *)

Section evaluator.
Context (formatToParts : string → Z → option Parts) (wall : string → Z → option Z) `{!WallFormatter formatToParts wall}.
Context (Date_parse : string → option Z).

Lemma occ_whole s r k : occ r (anchor_ms s) k mod 1000 = 0 ∧ duration_ms s mod 1000 = 0.
Proof.
  unfold occ, msPerDay, anchor_ms, duration_ms. destruct (resolveRecurringAnchor s) as [h m].
  split; Z.to_euclidean_division_equations; lia.
Qed.

Lemma whole_le a w : a mod 1000 = 0 → (a ≤ whole w ↔ a ≤ w).
Proof. unfold whole. intros Ha. Z.to_euclidean_division_equations. lia. Qed.
Lemma whole_lt a w : a mod 1000 = 0 → (whole w < a ↔ w < a).
Proof. unfold whole. intros Ha. Z.to_euclidean_division_equations. lia. Qed.

(** What the evaluator answers when the zone's clock shows [w]. *)
Lemma window_eval s r t w :
  recurrence s = recurrence_text r → wall (default "UTC" (truthy (timezone s))) t = Some w → four_digit_year w →
  ∃ k, occ r (anchor_ms s) k ≤ w < occ r (anchor_ms s) (k + 1)
    ∧ isInMaintenanceWindow formatToParts Date_parse s t
      = if w <? occ r (anchor_ms s) k + duration_ms s then
          mkStatus true (suppressAlerts s) (suppressPatching s) (suppressAutomations s) (suppressScripts s) (rebootIfPending s)
            (Some (t + (occ r (anchor_ms s) k + duration_ms s - whole w)))
        else inactive.
Proof.
  intros Hr Hw Hy. unfold isInMaintenanceWindow. rewrite (wall_clock _ wall _ _ _ Hw Hy).
  destruct (start_spec formatToParts Date_parse s r Hr (whole w)) as (k & -> & Hlo & Hhi).
  destruct (occ_whole s r k) as [Ho Hd]. destruct (occ_whole s r (k + 1)) as [Ho' _].
  exists k. pose proof (proj1 (whole_le _ _ Ho) Hlo). pose proof (proj1 (whole_lt _ _ Ho') Hhi). split; [lia|].
  rewrite (proj2 (Z.leb_le (occ r (anchor_ms s) k) (whole w))) by done. cbn [andb].
  assert (whole w <? occ r (anchor_ms s) k + duration_ms s = (w <? occ r (anchor_ms s) k + duration_ms s)) as ->; [|done].
  apply eq_bool_prop_intro. rewrite !Is_true_true, !Z.ltb_lt. apply whole_lt. Z.to_euclidean_division_equations. lia.
Qed.

Definition open_at (s : MaintenanceSettings) (t : Z) : bool := active (isInMaintenanceWindow formatToParts Date_parse s t).

(** When a recurring window is open.  Whatever zone the settings name, an instant
    is in maintenance exactly when the zone's clock is within the duration of some
    occurrence; then the answer carries the configured flags and an end that is the
    duration after the latest occurrence, and otherwise it suppresses nothing. *)
Theorem window_open s r t w (Hr : recurrence s = recurrence_text r)
    (Hw : wall (default "UTC" (truthy (timezone s))) t = Some w) (Hy : four_digit_year w) :
  (open_at s t = true ↔ ∃ o, is_occurrence r (anchor_ms s) o ∧ o ≤ w < o + duration_ms s)
  ∧ (open_at s t = false → isInMaintenanceWindow formatToParts Date_parse s t = inactive)
  ∧ (open_at s t = true →
       ∃ o e, is_occurrence r (anchor_ms s) o ∧ o ≤ w ∧ (∀ x, is_occurrence r (anchor_ms s) x → x ≤ w → x ≤ o)
         ∧ isInMaintenanceWindow formatToParts Date_parse s t
           = mkStatus true (suppressAlerts s) (suppressPatching s) (suppressAutomations s) (suppressScripts s) (rebootIfPending s) (Some e)
         ∧ t < e ∧ o + duration_ms s ≤ w + (e - t) < o + duration_ms s + 1000).
Proof.
  pose proof (anchor_ms_range s) as Ha. destruct (window_eval s r t w Hr Hw Hy) as (k & Hin & He). unfold open_at. rewrite He.
  assert (∀ x, is_occurrence r (anchor_ms s) x → x ≤ w → x ≤ occ r (anchor_ms s) k) as Hlatest.
  { intros x Hx Hn. apply is_occurrence_occ in Hx as [j ->]; [|done].
    apply occ_mono_le. eapply occ_le; [exact Hn|lia]. }
  assert (is_occurrence r (anchor_ms s) (occ r (anchor_ms s) k)) as Hk by (apply is_occurrence_occ; eauto).
  destruct (Z.ltb_spec w (occ r (anchor_ms s) k + duration_ms s)) as [Hlt|Hge]; cbn [active].
  - split; [|split; [done|]].
    + split; [|done]. intros _. exists (occ r (anchor_ms s) k). split; [done|lia].
    + intros _. eexists _, _. split; [exact Hk|]. split; [lia|]. split; [exact Hlatest|]. split; [reflexivity|].
      assert (whole w ≤ w < whole w + 1000) by (unfold whole; Z.to_euclidean_division_equations; lia). lia.
  - split; [|split; [done|done]]. split; [done|]. intros (o & Ho & Hlo & Hhi). pose proof (Hlatest o Ho Hlo). lia.
Qed.

(** ** The projector in a zone without clock changes *)

Definition first_ms : Z := DayFromYear 1000 * msPerDay.
Definition last_ms : Z := DayFromYear 10000 * msPerDay.

Lemma year_in_range w : first_ms ≤ w < last_ms → four_digit_year w.
Proof.
  intros Hw. unfold four_digit_year, getUTCFullYear. destruct (day_split w) as [Hs Hm].
  assert (DayFromYear 1000 ≤ Day w < DayFromYear 10000) as [Hlo Hhi] by (unfold first_ms, last_ms, msPerDay in *; lia).
  pose proof (YearFromDay_spec (Day w)) as Hy. split.
  - destruct (Z.lt_ge_cases (YearFromDay (Day w)) 1000); [|done]. exfalso.
    destruct (decide (YearFromDay (Day w) + 1 = 1000)) as [E|]; [rewrite E in Hy; lia|].
    pose proof (DayFromYear_mono (YearFromDay (Day w) + 1) 1000). lia.
  - destruct (Z.lt_ge_cases (YearFromDay (Day w)) 10000) as [|Hge]; [lia|]. exfalso.
    destruct (decide (YearFromDay (Day w) = 10000)) as [E|]; [rewrite E in Hy; lia|].
    pose proof (DayFromYear_mono 10000 (YearFromDay (Day w))). lia.
Qed.

Section fixed.
Context (s : MaintenanceSettings) (r : Recurring) (c : Z) (Hr : recurrence s = recurrence_text r) (Hc : c mod 1000 = 0).
Context (Hfixed : ∀ t, wall (default "UTC" (truthy (timezone s))) t = Some (t + c)).

Lemma fixed_instant D :
  D mod 1000 = 0 → first_ms ≤ D < last_ms → first_ms ≤ D + c < last_ms → wallClockToInstant formatToParts D (timezone s) = Some (D - c).
Proof.
  intros HD Hy Hy'. unfold wallClockToInstant. set (tz := default "UTC" (truthy (timezone s))) in *.
  assert (tz ≠ "") as Hz by (unfold tz; by destruct (timezone s) as [[|x z]|]).
  assert (∀ t, t mod 1000 = 0 → first_ms ≤ t + c < last_ms → zoneOffsetMs formatToParts t tz = Some c) as Hoff.
  { intros t Ht Hyt. unfold zoneOffsetMs. rewrite (wall_clock formatToParts wall (Some tz) t (t + c)); [|destruct tz; [done|apply Hfixed]|by apply year_in_range].
    cbn [mbind option_bind]. f_equal. unfold whole. Z.to_euclidean_division_equations. lia. }
  rewrite Hoff by done. cbn [mbind option_bind]. rewrite Hoff by (Z.to_euclidean_division_equations; lia). cbn [mbind option_bind].
  by rewrite (proj2 (Z.eqb_eq c (D - (D - c)))) by lia.
Qed.

Lemma open_spec t j :
  first_ms ≤ t + c < last_ms → occ r (anchor_ms s) j ≤ t + c < occ r (anchor_ms s) (j + 1) →
  open_at s t = (t + c <? occ r (anchor_ms s) j + duration_ms s).
Proof.
  intros Hy Hj. destruct (window_eval s r t (t + c) Hr (Hfixed t)) as (k & Hk & He); [by apply year_in_range|].
  assert (j = k) as -> by (pose proof (occ_le r (anchor_ms s) j k (t + c)); pose proof (occ_le r (anchor_ms s) k j (t + c)); lia).
  unfold open_at. rewrite He. by destruct (_ <? _).
Qed.

Lemma governing t : ∃ k, occ r (anchor_ms s) k ≤ t < occ r (anchor_ms s) (k + 1).
Proof. destruct (start_spec formatToParts Date_parse s r Hr t) as (k & _ & Hk). by exists k. Qed.

Lemma open_within t j :
  first_ms ≤ t + c < last_ms → occ r (anchor_ms s) j ≤ t + c < occ r (anchor_ms s) j + duration_ms s → open_at s t = true.
Proof.
  intros Hy Hj. destruct (governing (t + c)) as (k & Hk). rewrite (open_spec t k Hy Hk). apply Z.ltb_lt.
  pose proof (occ_mono_le r (anchor_ms s) j k). pose proof (occ_le r (anchor_ms s) j k (t + c)). lia.
Qed.

Lemma closed_between t k :
  first_ms ≤ t + c < last_ms → occ r (anchor_ms s) k + duration_ms s ≤ t + c < occ r (anchor_ms s) (k + 1) → 0 ≤ duration_ms s →
  open_at s t = false.
Proof. intros Hy Hk Hd. rewrite (open_spec t k) by (done || lia). apply Z.ltb_ge. lia. Qed.

(** C14: The projector and the evaluator agree.  In a zone whose clock never changes, for
    every recurring window of positive duration: the projected window, if there is
    one, is open at its start and until its end, and from the moment asked until its
    start the evaluator answers no; it starts within the horizon or is open
    already.  If there is none, the evaluator answers no throughout the horizon.
    (Instants whose clock shows a year from 1000 to 9999.) *)
Theorem projection_agrees from horizon (Hd : 0 < durationHours s) (Hh : 0 ≤ horizon)
    (Hlo : first_ms + 2 * Z.abs c + 100 * DAY_MS ≤ from)
    (Hhi : from + 2 * Z.abs c + duration_ms s + (horizon + 100) * DAY_MS < last_ms) :
  match projectNextConfigPolicyWindow formatToParts Date_parse s from horizon with
  | Some w =>
      startsAt w < endsAt w ∧ from < endsAt w ∧ startsAt w - from ≤ horizon * DAY_MS
      ∧ ∀ t, from ≤ t < endsAt w → open_at s t = bool_decide (startsAt w ≤ t)
  | None => ∀ t, from ≤ t ≤ from + horizon * DAY_MS → open_at s t = false
  end.
Proof.
  assert (0 < duration_ms s) as Hdur by (unfold duration_ms; lia). unfold projectNextConfigPolicyWindow.
  assert (first_ms ≤ from + c < last_ms) as Hy by (unfold DAY_MS in *; lia).
  rewrite (wall_clock formatToParts wall (timezone s) from (from + c)); [|apply Hfixed|by apply year_in_range]. cbn [mbind option_bind].
  destruct (start_spec formatToParts Date_parse s r Hr (whole (from + c))) as (k & -> & Hk). cbn [mbind option_bind].
  destruct (occ_whole s r k) as [Ho Hdw]. destruct (occ_whole s r (k + 1)) as [Ho' _].
  rewrite (whole_le _ _ Ho), (whole_lt _ _ Ho') in Hk. pose proof (occ_gap r (anchor_ms s) k) as Hgap.
  assert (occ r (anchor_ms s) k + duration_ms s <=? whole (from + c) = (occ r (anchor_ms s) k + duration_ms s <=? from + c)) as ->.
  { apply eq_bool_prop_intro. rewrite !Is_true_true, !Z.leb_le. apply whole_le. Z.to_euclidean_division_equations. lia. }
  unfold DAY_MS, msPerDay in *.
  assert (∀ o, o mod 1000 = 0 → from + c - 31 * 86400000 ≤ o ≤ from + c + 31 * 86400000 →
    wallClockToInstant formatToParts o (timezone s) = Some (o - c)
    ∧ wallClockToInstant formatToParts (o + duration_ms s) (timezone s) = Some (o + duration_ms s - c)) as Hinst.
  { intros o H0 Hr'. split; apply fixed_instant; try lia; Z.to_euclidean_division_equations; lia. }
  destruct (Z.leb_spec (occ r (anchor_ms s) k + duration_ms s) (from + c)) as [Hclosed|Hopen].
  - rewrite (next_spec s r Hr k). cbn [mbind option_bind]. destruct (Hinst _ Ho') as [-> ->]; [lia|]. cbn [mbind option_bind].
    match goal with |- context [?x <? ?y] => destruct (Z.ltb_spec x y) as [Hfar|Hnear] end.
    + intros t Ht. apply (closed_between t k); lia.
    + cbn [startsAt endsAt]. split; [lia|]. split; [lia|]. split; [lia|]. intros t Ht. case_bool_decide.
      * apply (open_within t (k + 1)); lia.
      * apply (closed_between t k); lia.
  - cbn [mbind option_bind]. destruct (Hinst _ Ho) as [-> ->]; [lia|]. cbn [mbind option_bind].
    match goal with |- context [?x <? ?y] => rewrite (proj2 (Z.ltb_ge x y)) by lia end.
    cbn [startsAt endsAt]. split; [lia|]. split; [lia|]. split; [lia|]. intros t Ht. rewrite bool_decide_eq_true_2 by lia.
    apply (open_within t k); lia.
Qed.
End fixed.
End evaluator.

(** ** A formatter for any clock *)

Definition parts_of (wall : string → Z → option Z) (tz : string) (t : Z) : option Parts :=
  w ← wall tz t;
  Some [("month", padStart2 (js_String (getUTCMonth w + 1))); ("literal", "/"); ("day", padStart2 (js_String (getUTCDate w)));
        ("literal", "/"); ("year", js_String (getUTCFullYear w)); ("literal", ", "); ("hour", padStart2 (js_String (getUTCHours w)));
        ("literal", ":"); ("minute", padStart2 (js_String (getUTCMinutes w))); ("literal", ":");
        ("second", padStart2 (js_String (w / 1000 mod 60)))].

#[export] Instance parts_of_formatter wall : WallFormatter (parts_of wall) wall.
Proof.
  split; unfold parts_of; intros tz t; [by intros ->|]. intros w -> Hy. eexists. split; [done|].
  destruct (utc_field_bounds w) as (_ & Hh & Hm & Hda & Hmo). pose proof (Z.mod_pos_bound (w / 1000) 60).
  assert (Hone : ∀ pre k (v : string) post, (bool_decide (k ∉ pre.*1) && bool_decide (k ∉ post.*1)) = true →
    shows (pre ++ (k, v) :: post) k v).
  { intros pre k v post Hk. bool_hyps. by exists pre, post. }
  assert (Hnum : ∀ n, 0 ≤ n ≤ 99 → numeral_text n (padStart2 (js_String n))) by (intros n Hn; split; [done|by right]).
  split_and!.
  - by apply (Hone [_; _; _; _]).
  - eexists. split; [by apply (Hone [])|]. apply Hnum; lia.
  - eexists. split; [by apply (Hone [_; _])|]. apply Hnum; lia.
  - eexists. split; [by apply (Hone [_; _; _; _; _; _])|]. apply Hnum; lia.
  - eexists. split; [by apply (Hone [_; _; _; _; _; _; _; _])|]. apply Hnum; lia.
  - eexists. split; [by apply (Hone [_; _; _; _; _; _; _; _; _; _])|]. apply Hnum; lia.
Qed.

(** ** Two clock changes *)

(** New York on 8 March 2026: at 07:00 UTC from five hours behind to four. *)
Definition spring : Z := DateUTC 2026 2 8 7 0.
Definition ny_wall (tz : string) (t : Z) : option Z := Some (t + if t <? spring then -18000000 else -14400000).
(** Berlin on 25 October 2026: at 01:00 UTC from two hours ahead to one. *)
Definition autumn : Z := DateUTC 2026 9 25 1 0.
Definition berlin_wall (tz : string) (t : Z) : option Z := Some (t + if t <? autumn then 7200000 else 3600000).

(** Half past two does not exist in New York that night: the window opens at the change. *)
Example gap_at_half_past : wallClockToInstant (parts_of ny_wall) (DateUTC 2026 2 8 2 30) (Some "America/New_York") = Some spring.
Proof. by vm_compute. Qed.

(** Ten past two does not either: the window opens two and a half minutes late, for at
    instants between whole seconds the offset does not compare equal. *)
Example gap_at_ten_past :
  wallClockToInstant (parts_of ny_wall) (DateUTC 2026 2 8 2 10) (Some "America/New_York") = Some (spring + 150000).
Proof. by vm_compute. Qed.

(** Half past two happens twice in Berlin; the instant found is the second. *)
Example overlap_in_berlin :
  wallClockToInstant (parts_of berlin_wall) (DateUTC 2026 9 25 2 30) (Some "Europe/Berlin") = Some (DateUTC 2026 9 25 1 30)
  ∧ berlin_wall "Europe/Berlin" (DateUTC 2026 9 25 0 30) = Some (DateUTC 2026 9 25 2 30).
Proof. by vm_compute. Qed.

Lemma ny_change : one_change ny_wall "America/New_York" spring (-18000000) (-14400000) (spring - 86400000) (spring + 86400000).
Proof.
  split; [|by vm_compute]. intros t Ht. split; [done|]. apply year_in_range.
  change spring with 1772953200000 in *. change first_ms with (-30610224000000). change last_ms with 253402300800000.
  destruct (t <? 1772953200000); lia.
Qed.

Lemma wall_clock_to_instant_witness :
  ∃ r, wallClockToInstant (parts_of ny_wall) (DateUTC 2026 2 8 2 10) (Some "America/New_York") = Some r ∧ spring ≤ r < spring + 3600000.
Proof.
  destruct (wall_clock_to_instant (parts_of ny_wall) ny_wall (Some "America/New_York") (DateUTC 2026 2 8 2 10) spring (-18000000) (-14400000)
    (spring - 86400000) (spring + 86400000) ny_change) as (r & Hr & _ & _ & Hgap); [by vm_compute|lia|by vm_compute|by vm_compute|].
  assert (spring ≤ DateUTC 2026 2 8 2 10 - -18000000 ∧ DateUTC 2026 2 8 2 10 - -14400000 < spring) as Hskip by (vm_compute; split; [discriminate|reflexivity]).
  specialize (Hgap Hskip). exists r. split; [exact Hr|lia].
Defined.

Definition ex_settings : MaintenanceSettings := mkSettings "m" "daily" 2 (Some "UTC") (Some "23:00") true true false false false.
Definition ex_clock (tz : string) (t : Z) : option Z := Some (t + 0).

Lemma window_open_witness :
  open_at (parts_of ex_clock) (λ _, None) ex_settings (DateUTC 2026 0 2 0 30) = true
  ∧ ∃ o, is_occurrence daily (anchor_ms ex_settings) o ∧ o ≤ DateUTC 2026 0 2 0 30 < o + duration_ms ex_settings.
Proof.
  assert (open_at (parts_of ex_clock) (λ _, None) ex_settings (DateUTC 2026 0 2 0 30) = true) as Ho by (vm_compute; reflexivity).
  split; [exact Ho|].
  apply (window_open (parts_of ex_clock) ex_clock (λ _, None) ex_settings daily (DateUTC 2026 0 2 0 30) (DateUTC 2026 0 2 0 30));
    [reflexivity|vm_compute; reflexivity|vm_compute; split; discriminate|exact Ho].
Defined.

Lemma projection_agrees_witness :
  match projectNextConfigPolicyWindow (parts_of ex_clock) (λ _, None) ex_settings (DateUTC 2026 0 1 12 0) 30 with
  | Some w => open_at (parts_of ex_clock) (λ _, None) ex_settings (DateUTC 2026 0 1 12 0) = bool_decide (startsAt w ≤ DateUTC 2026 0 1 12 0)
  | None => False
  end.
Proof.
  pose proof (projection_agrees (parts_of ex_clock) ex_clock (λ _, None) ex_settings daily 0) as H.
  specialize (H eq_refl eq_refl (λ t, eq_refl) (DateUTC 2026 0 1 12 0) 30). specialize (H ltac:(cbn; lia) ltac:(lia) ltac:(by vm_compute) ltac:(by vm_compute)).
  assert (∃ w, projectNextConfigPolicyWindow (parts_of ex_clock) (λ _, None) ex_settings (DateUTC 2026 0 1 12 0) 30 = Some w) as [w Hw]
    by (eexists; vm_compute; reflexivity).
  rewrite Hw in H |- *. destruct H as (_ & H1 & _ & H2). apply H2. split; [reflexivity|exact H1].
Defined.

Lemma governing_occurrence_witness :
  ∃ o o', maintenanceOccurrenceStart (parts_of ex_clock) (λ _, None) ex_settings (DateUTC 2026 0 2 0 30) = Some o
    ∧ maintenanceNextOccurrenceStart "daily" o = Some o' ∧ o ≤ DateUTC 2026 0 2 0 30 < o'.
Proof.
  destruct (governing_occurrence (parts_of ex_clock) (λ _, None) ex_settings daily eq_refl (DateUTC 2026 0 2 0 30)) as (o & o' & H1 & H2 & _ & _ & H3 & _).
  exists o, o'. split; [exact H1|]. split; [exact H2|exact H3].
Defined.
End Conversion.
