(* ===== verification/MaintenanceDevice.v ===== *)
(** * The maintenance status of a device, and quiet hours

    [DeviceStatus] is the resolution around the window evaluator: the hierarchy of a
    device and the configuration-policy rows that apply to it
    ([featureConfigResolver.ts], [configPolicyOwnership.ts]), the gate that keeps
    groups a device can join by its own report out of execution targets
    ([executionTargetGating.ts], [filterEngine.ts]), the standalone windows and the
    status itself ([maintenanceService.ts]), and the batched next-window lookup
    ([maintenanceWindowProjection.ts]).  Query results are lists in the order the
    database returns them.  [QuietHours] is [quietHours.ts]. *)
From S2P Require Import Prelude JsText JsDate IsoDate ZoneClock Maintenance MaintenanceFacts.
From stdpp Require Import base tactics list list_numbers strings gmap sorting.
From Stdlib Require Import ZArith Lia Ascii.
Open Scope Z_scope.
Import Maintenance.

Module DeviceStatus.

(** ** Tables *)

Inductive ConfigAssignmentLevel := device | device_group | site | organization | partner.
#[global] Instance level_eq : EqDecision ConfigAssignmentLevel.
Proof. solve_decision. Defined.

Definition LEVEL_PRIORITY (l : ConfigAssignmentLevel) : Z :=
  match l with device => 5 | device_group => 4 | site => 3 | organization => 2 | partner => 1 end.

Record DeviceRow := mkDevice { d_org : string; d_site : string; d_role : string; d_os : string }.
Record OrgRow := mkOrg { org_partner : option string; org_type : string }.

(** An assignment joined with its policy and the policy's maintenance settings. *)
Record AssignmentRow := mkAssignment {
  a_level : ConfigAssignmentLevel; a_target : string; a_priority : Z; a_createdAt : Z;
  roleFilter : option (list string); osFilter : option (list string);
  p_status : string; p_org : option string; p_partner : option string; a_settings : MaintenanceSettings }.

Record StandaloneWindow := mkWindow {
  w_id : string; w_org : option string; w_partner : option string; w_status : string; startTime : Z; endTime : Z;
  targetType : string; w_deviceIds : option (list string); w_siteIds : option (list string); w_groupIds : option (list string);
  w_suppressAlerts : bool; w_suppressPatching : bool; w_suppressAutomations : bool; w_suppressScripts : bool }.

Record Db := mkDb {
  devices : gmap string DeviceRow; orgs : gmap string OrgRow; memberships : list (string * string);
  groups : gmap string (option (list string)); assignments : list AssignmentRow; windows : list StandaloneWindow }.

(** ** Groups that may be execution targets *)

(** [/^[a-z][a-z0-9_]*$/] *)
Definition is_lower (c : ascii) : bool := (97 <=? code c) && (code c <=? 122).
Definition CUSTOM_FIELD_KEY_PATTERN (l : list ascii) : bool :=
  match l with
  | c :: l' => is_lower c && forallb (λ c, is_lower c || is_digit c || Ascii.eqb c "_") l'
  | [] => false
  end.

Definition getCustomFieldKey (field : string) : option string :=
  if startsWith field "custom." then
    let key := drop 7 (chars field) in if CUSTOM_FIELD_KEY_PATTERN key then Some (of_chars key) else None
  else None.

Definition EXECUTION_REFUSED_AGENT_FIELDS : list string :=
  ["hostname"; "displayName"; "tags"; "deviceRole"; "lastUser"; "helperVersion"; "agentVersion"; "software.installed";
   "software.notInstalled"].

Definition isExecutionRefusedFilterField (fieldKey : string) : bool :=
  match getCustomFieldKey fieldKey with Some _ => true | None => bool_decide (fieldKey ∈ EXECUTION_REFUSED_AGENT_FIELDS) end.

Definition getExecutionRefusedFieldsUsed (fieldsUsed : list string) : list string :=
  filter (λ f, isExecutionRefusedFilterField f = true) fieldsUsed.

Record ExecutionSafeGroupsResult := mkSafe { allowedGroupIds : list string; refusedGroups : list (string * list string) }.

Definition partition_step (acc : ExecutionSafeGroupsResult) (g : string * option (list string)) : ExecutionSafeGroupsResult :=
  match getExecutionRefusedFieldsUsed (default [] g.2) with
  | [] => mkSafe (allowedGroupIds acc ++ [g.1]) (refusedGroups acc)
  | fs => mkSafe (allowedGroupIds acc) (refusedGroups acc ++ [(g.1, fs)])
  end.
Definition partitionGroupsByExecutionFieldProvenance (gs : list (string * option (list string))) : ExecutionSafeGroupsResult :=
  foldl partition_step (mkSafe [] []) gs.

(** The rows of [device_groups] with these ids. *)
Definition rows_of_groups (db : Db) (groupIds : list string) : list (string * option (list string)) :=
  filter (λ g, g.1 ∈ groupIds) (map_to_list (groups db)).
Definition resolveExecutionSafeGroupIds (db : Db) (groupIds : list string) : ExecutionSafeGroupsResult :=
  match groupIds with [] => mkSafe [] [] | _ => partitionGroupsByExecutionFieldProvenance (rows_of_groups db groupIds) end.

(** ** Configuration policies *)

Record DeviceHierarchy := mkHierarchy {
  h_deviceId : string; h_orgId : string; h_siteId : string; h_partnerId : option string; h_groupIds : list string;
  h_deviceRole : string; h_osType : string }.

Definition UNASSIGNED_POOL_ORG_TYPE : string := "unassigned_pool".
Definition isUnassignedPoolOrgType (type : option string) : bool := bool_decide (type = Some UNASSIGNED_POOL_ORG_TYPE).

Definition groups_of (db : Db) (deviceId : string) : list string :=
  snd <$> filter (λ m, m.1 = deviceId) (memberships db).

Definition loadDeviceHierarchy (db : Db) (deviceId : string) : option DeviceHierarchy :=
  d ← devices db !! deviceId;
  let org := orgs db !! d_org d in
  Some (mkHierarchy deviceId (d_org d) (d_site d)
          (if isUnassignedPoolOrgType (org_type <$> org) then None else org ≫= org_partner)
          (groups_of db deviceId) (d_role d) (d_os d)).

(** The filter in the process ... *)
Definition filter_matches (f : option (list string)) (v : option string) : bool :=
  match f with None => true | Some l => match truthy v with Some x => bool_decide (x ∈ l) | None => false end end.
Definition matchesRoleOsFilter (roleF osF : option (list string)) (deviceRole osType : option string) : bool :=
  filter_matches roleF deviceRole && filter_matches osF osType.
(** ... and in the query: [filter IS NULL OR value = ANY(filter)]. *)
Definition sql_any (f : option (list string)) (v : string) : bool := match f with None => true | Some l => bool_decide (v ∈ l) end.
Definition buildRoleOsFilterConditions (h : DeviceHierarchy) (a : AssignmentRow) : bool :=
  sql_any (roleFilter a) (h_deviceRole h) && sql_any (osFilter a) (h_osType h).

Definition buildTargetConditions (h : DeviceHierarchy) (a : AssignmentRow) : bool :=
  match a_level a with
  | device => String.eqb (a_target a) (h_deviceId h)
  | device_group => bool_decide (a_target a ∈ h_groupIds h)
  | site => String.eqb (a_target a) (h_siteId h)
  | organization => String.eqb (a_target a) (h_orgId h)
  | partner => match truthy (h_partnerId h) with Some p => String.eqb (a_target a) p | None => false end
  end.

(** A row of the organization, or a partner-wide row of its partner. *)
Definition owned_by (orgId : string) (partnerId : option string) (row_org row_partner : option string) : bool :=
  bool_decide (row_org = Some orgId)
  || match truthy partnerId with Some p => bool_decide (row_org = None) && bool_decide (row_partner = Some p) | None => false end.
Definition policyOwnershipCondition (h : DeviceHierarchy) (a : AssignmentRow) : bool :=
  owned_by (h_orgId h) (h_partnerId h) (p_org a) (p_partner a).

Definition assignment_applies (h : DeviceHierarchy) (a : AssignmentRow) : bool :=
  String.eqb (p_status a) "active" && policyOwnershipCondition h a && buildTargetConditions h a && buildRoleOsFilterConditions h a.

(** The comparison of the sort: level descending, priority and age ascending. *)
Definition hierarchy_le (a b : AssignmentRow) : bool :=
  let levelDiff := LEVEL_PRIORITY (a_level b) - LEVEL_PRIORITY (a_level a) in
  if negb (levelDiff =? 0) then levelDiff <=? 0
  else let priDiff := a_priority a - a_priority b in
       if negb (priDiff =? 0) then priDiff <=? 0 else a_createdAt a - a_createdAt b <=? 0.
Definition sortByHierarchy (rows : list AssignmentRow) : list AssignmentRow := js_sort hierarchy_le rows.

Definition resolveMaintenanceConfigForDevice (db : Db) (deviceId : string) : option MaintenanceSettings :=
  h ← loadDeviceHierarchy db deviceId;
  a_settings <$> head (sortByHierarchy (filter (λ a, assignment_applies h a = true) (assignments db))).

(** ** Standalone windows *)

Inductive StatusSource := from_config_policy | from_standalone | from_none.
Record DeviceMaintenanceStatus := mkDeviceStatus {
  ds_active : bool; ds_source : StatusSource; ds_alerts : bool; ds_patching : bool; ds_automations : bool; ds_scripts : bool }.
Definition not_in_maintenance : DeviceMaintenanceStatus := mkDeviceStatus false from_none false false false false.

Definition overlaps (col : option (list string)) (ids : list string) : bool :=
  match col with Some l => existsb (λ x, bool_decide (x ∈ ids)) l | None => false end.

Definition window_covers (deviceId siteId : string) (groupIds : list string) (w : StandaloneWindow) : bool :=
  String.eqb (targetType w) "all" || overlaps (w_deviceIds w) [deviceId] || overlaps (w_siteIds w) [siteId] || overlaps (w_groupIds w) groupIds.

Definition status_open (w : StandaloneWindow) : bool := String.eqb (w_status w) "scheduled" || String.eqb (w_status w) "active".

Definition checkStandaloneMaintenanceWindows (db : Db) (deviceId : string) (now : Z) : option DeviceMaintenanceStatus :=
  d ← devices db !! deviceId;
  let groupIds := allowedGroupIds (resolveExecutionSafeGroupIds db (groups_of db deviceId)) in
  let partnerId := orgs db !! d_org d ≫= org_partner in
  w ← head (filter (λ w, owned_by (d_org d) partnerId (w_org w) (w_partner w) && status_open w
                         && (startTime w <=? now) && (now <=? endTime w) && window_covers deviceId (d_site d) groupIds w = true)
              (windows db));
  Some (mkDeviceStatus true from_standalone (w_suppressAlerts w) (w_suppressPatching w) (w_suppressAutomations w) (w_suppressScripts w)).

Section clock.
Context (formatToParts : string → Z → option Parts) (Date_parse : string → option Z).

Definition isDeviceInMaintenance (db : Db) (deviceId : string) (now : Z) : DeviceMaintenanceStatus :=
  let standalone := default not_in_maintenance (checkStandaloneMaintenanceWindows db deviceId now) in
  match resolveMaintenanceConfigForDevice db deviceId with
  | Some cp =>
      let st := isInMaintenanceWindow formatToParts Date_parse cp now in
      if active st then
        mkDeviceStatus true from_config_policy (st_suppressAlerts st) (st_suppressPatching st) (st_suppressAutomations st)
          (st_suppressScripts st)
      else standalone
  | None => standalone
  end.

(** ** The next window *)

Definition standaloneTargets (w : StandaloneWindow) (deviceId siteId : string) (groupIds : list string) : bool :=
  window_covers deviceId siteId groupIds w.

(** [ORDER BY start_time ASC] of the windows of the organization or its partner that
    have not ended and start within the horizon. *)
Definition upcoming (db : Db) (orgId : string) (from until : Z) : list StandaloneWindow :=
  let partnerId := orgs db !! orgId ≫= org_partner in
  js_sort (λ a b, startTime a <=? startTime b)
    (filter (λ w, (bool_decide (w_org w = Some orgId)
                   || bool_decide (w_org w = None) && bool_decide (is_Some partnerId) && bool_decide (w_partner w = partnerId))
                  && status_open w && (from <? endTime w) && (startTime w <=? until) = true) (windows db)).

Definition resolve_one (db : Db) (orgId : string) (from horizonDays : Z) (deviceId : string) : option NextMaintenanceWindow :=
  match s ← resolveMaintenanceConfigForDevice db deviceId; projectNextConfigPolicyWindow formatToParts Date_parse s from horizonDays with
  | Some w => Some w
  | None =>
      d ← devices db !! deviceId;
      if String.eqb (d_org d) orgId then
        w ← List.find (λ w, standaloneTargets w deviceId (d_site d) (groups_of db deviceId)) (upcoming db orgId from (from + horizonDays * DAY_MS));
        Some (mkNext (w_id w +:+ "@" +:+ toISOString (startTime w)) standalone (startTime w) (endTime w) false)
      else None
  end.

Definition resolveNextMaintenanceWindows (db : Db) (deviceIds : list string) (orgId : string) (from horizonDays : Z)
    : gmap string NextMaintenanceWindow :=
  list_to_map (omap (λ id, pair id <$> resolve_one db orgId from horizonDays id) (remove_dups deviceIds)).
End clock.

(** ** The closest assignment wins *)

Lemma hierarchy_le_spec a b :
  hierarchy_le a b = true ↔
  LEVEL_PRIORITY (a_level b) < LEVEL_PRIORITY (a_level a)
  ∨ LEVEL_PRIORITY (a_level b) = LEVEL_PRIORITY (a_level a)
    ∧ (a_priority a < a_priority b ∨ a_priority a = a_priority b ∧ a_createdAt a ≤ a_createdAt b).
Proof.
  unfold hierarchy_le. destruct (Z.eqb_spec (LEVEL_PRIORITY (a_level b) - LEVEL_PRIORITY (a_level a)) 0); cbn [negb].
  - destruct (Z.eqb_spec (a_priority a - a_priority b) 0); cbn [negb]; rewrite Z.leb_le; lia.
  - rewrite Z.leb_le. lia.
Qed.

Lemma hierarchy_le_total a b : hierarchy_le a b = true ∨ hierarchy_le b a = true.
Proof. rewrite !hierarchy_le_spec. lia. Qed.
Lemma hierarchy_le_trans a b c : hierarchy_le a b = true → hierarchy_le b c = true → hierarchy_le a c = true.
Proof. rewrite !hierarchy_le_spec. lia. Qed.

(** Two tests that agree on a list filter it alike. *)
Lemma filter_elem_ext {A} (P Q : A → Prop) `{∀ x, Decision (P x)} `{∀ x, Decision (Q x)} (l : list A) :
  (∀ x, x ∈ l → P x ↔ Q x) → filter P l = filter Q l.
Proof.
  induction l as [|x l IH]; intros HPQ; [done|]. rewrite !filter_cons. rewrite IH by (intros y Hy; apply HPQ; by apply list_elem_of_further).
  pose proof (HPQ x (list_elem_of_here x l)). destruct (decide (P x)), (decide (Q x)); tauto.
Qed.

(** The head of a sorted list is its least element. *)
Lemma js_sort_least {A} (le : A → A → bool) (l : list A) x :
  (∀ a b, le a b = true ∨ le b a = true) → (∀ a b c, le a b = true → le b c = true → le a c = true) →
  head (js_sort le l) = Some x → x ∈ l ∧ ∀ y, y ∈ l → le x y = true.
Proof.
  intros Ht Htr Hx. pose proof (js_sort_sorted le Ht Htr l) as Hs. destruct (js_sort le l) as [|y ys] eqn:E; [done|].
  injection Hx as ->. apply StronglySorted_inv in Hs as [_ Hall]. split.
  - rewrite <-(elem_of_js_sort le), E. apply list_elem_of_here.
  - intros z Hz. rewrite <-(elem_of_js_sort le), E in Hz. apply elem_of_cons in Hz as [->|Hz].
    + by destruct (Ht x x).
    + rewrite Forall_forall in Hall. by apply Hall.
Qed.

(** The closest assignment decides.  The maintenance settings a device gets are
    those of an active policy of its organization or partner that targets it and
    matches its role and system, and no such assignment is closer: device before
    group before site before organization before partner, then by priority, then by
    age.  A device has none exactly when it is unknown or no assignment applies; and a
    device parked in the holding organization gets none from the partner's level. *)
Theorem closest_assignment_wins db deviceId :
  match resolveMaintenanceConfigForDevice db deviceId with
  | Some s => ∃ h a, loadDeviceHierarchy db deviceId = Some h ∧ a ∈ assignments db ∧ assignment_applies h a = true ∧ a_settings a = s
      ∧ (∀ b, b ∈ assignments db → assignment_applies h b = true →
           LEVEL_PRIORITY (a_level b) < LEVEL_PRIORITY (a_level a)
           ∨ a_level b = a_level a ∧ (a_priority a < a_priority b ∨ a_priority a = a_priority b ∧ a_createdAt a ≤ a_createdAt b))
      ∧ ((org_type <$> orgs db !! h_orgId h) = Some UNASSIGNED_POOL_ORG_TYPE → a_level a ≠ partner)
  | None => ∀ h a, loadDeviceHierarchy db deviceId = Some h → a ∈ assignments db → assignment_applies h a = false
  end.
Proof.
  unfold resolveMaintenanceConfigForDevice. destruct (loadDeviceHierarchy db deviceId) as [h|] eqn:Eh; [|done]. cbn [mbind option_bind].
  destruct (head _) as [a|] eqn:Ea; cbn [fmap option_fmap option_map].
  - apply js_sort_least in Ea as [Hin Hmin]; [|apply hierarchy_le_total|apply hierarchy_le_trans].
    apply list_elem_of_filter in Hin as [Happ Hin]. exists h, a. split_and!; try done.
    + intros b Hb Hab. assert (hierarchy_le a b = true) as Hle by (apply Hmin, list_elem_of_filter; done).
      apply hierarchy_le_spec in Hle as [?|[El ?]]; [by left|right]. split; [|done]. by destruct (a_level a), (a_level b).
    + intros Hpool Hl. unfold loadDeviceHierarchy in Eh. destruct (devices db !! deviceId) as [d|]; [|done]. cbn in Eh. injection Eh as <-. cbn in *.
      unfold assignment_applies, buildTargetConditions in Happ. rewrite Hl in Happ. cbn in Happ. rewrite Hpool in Happ.
      unfold isUnassignedPoolOrgType in Happ. rewrite bool_decide_eq_true_2 in Happ by done. cbn in Happ. by rewrite !andb_false_r in Happ.
  - intros h' a [= <-] Hin. apply not_true_iff_false. intros Happ.
    assert (a ∈ filter (λ a, assignment_applies h a = true) (assignments db)) as Hf by by apply list_elem_of_filter.
    rewrite <-(elem_of_js_sort hierarchy_le) in Hf. unfold sortByHierarchy in Ea. destruct (js_sort _ _); [|done]. by apply elem_of_nil in Hf.
Qed.

(** ** Groups a device can join by its own report *)

Definition self_selectable (fs : option (list string)) : bool := negb (bool_decide (getExecutionRefusedFieldsUsed (default [] fs) = [])).

Lemma partition_allowed gs :
  allowedGroupIds (partitionGroupsByExecutionFieldProvenance gs) = (filter (λ g, self_selectable g.2 = false) gs).*1.
Proof.
  unfold partitionGroupsByExecutionFieldProvenance.
  assert (∀ acc, allowedGroupIds (foldl partition_step acc gs) = allowedGroupIds acc ++ (filter (λ g, self_selectable g.2 = false) gs).*1) as Hgen; [|apply Hgen].
  induction gs as [|g gs IH]; intros acc; cbn [foldl]; [by rewrite app_nil_r|]. rewrite IH. unfold partition_step, self_selectable.
  destruct (getExecutionRefusedFieldsUsed (default [] g.2)) eqn:E; cbn [allowedGroupIds].
  - rewrite filter_cons_True by (by rewrite E). cbn. by rewrite <-app_assoc.
  - rewrite filter_cons_False by (by rewrite E). done.
Qed.

Lemma allowed_groups db ids :
  allowedGroupIds (resolveExecutionSafeGroupIds db ids)
  = (filter (λ g, self_selectable g.2 = false ∧ g.1 ∈ ids) (map_to_list (groups db))).*1.
Proof.
  destruct ids as [|i ids]; cbn [resolveExecutionSafeGroupIds].
  - cbn. destruct (filter _ _) as [|g l] eqn:E; [done|]. exfalso.
    assert (g ∈ filter (λ g, self_selectable g.2 = false ∧ g.1 ∈ []) (map_to_list (groups db))) as Hg by (rewrite E; apply list_elem_of_here).
    apply list_elem_of_filter in Hg as [[_ Hg] _]. by apply elem_of_nil in Hg.
  - rewrite partition_allowed. unfold rows_of_groups. f_equal. rewrite list_filter_filter. done.
Qed.

Definition with_memberships (ms : list (string * string)) (db : Db) : Db :=
  mkDb (devices db) (orgs db) ms (groups db) (assignments db) (windows db).

(** A device cannot put itself into maintenance through a group.  Joining, in any
    number, groups whose rules read fields the device reports about itself changes
    nothing about which standalone window covers a device, nor whether one does. *)
Theorem self_selected_groups_ignored db extra deviceId now
    (Hextra : ∀ m, m ∈ extra → ∀ fs, groups db !! m.2 = Some fs → self_selectable fs = true) :
  checkStandaloneMaintenanceWindows (with_memberships (memberships db ++ extra) db) deviceId now
  = checkStandaloneMaintenanceWindows db deviceId now.
Proof.
  unfold checkStandaloneMaintenanceWindows. rewrite !allowed_groups. cbn [with_memberships devices orgs groups windows].
  assert (filter (λ g, self_selectable g.2 = false ∧ g.1 ∈ groups_of (with_memberships (memberships db ++ extra) db) deviceId) (map_to_list (groups db))
    = filter (λ g, self_selectable g.2 = false ∧ g.1 ∈ groups_of db deviceId) (map_to_list (groups db))) as ->; [|done].
  apply filter_elem_ext. intros [g fs] Hg. apply elem_of_map_to_list in Hg. cbn [fst snd].
  unfold groups_of. cbn [with_memberships memberships]. rewrite filter_app, fmap_app, elem_of_app.
  split; [|tauto]. intros [Hs [Hin|Hin]]; [done|]. exfalso. apply list_elem_of_fmap in Hin as (m & -> & Hm).
  apply list_elem_of_filter in Hm as [_ Hm]. apply Hextra with (fs := fs) in Hm; [congruence|done].
Qed.

(** The filter in the process agrees with the query for a device that has a role and a
    system. *)
Lemma role_os_filter_twin h a :
  h_deviceRole h ≠ "" → h_osType h ≠ "" →
  matchesRoleOsFilter (roleFilter a) (osFilter a) (Some (h_deviceRole h)) (Some (h_osType h)) = buildRoleOsFilterConditions h a.
Proof.
  intros Hr Ho. unfold matchesRoleOsFilter, buildRoleOsFilterConditions, filter_matches, sql_any, truthy.
  destruct (h_deviceRole h), (h_osType h); try done.
Qed.

(** ** An example *)

Definition ex_window : StandaloneWindow :=
  mkWindow "w" (Some "o") None "scheduled" 0 1000 "groups" None None (Some ["g"]) true true true true.
Definition ex_mdb : Db :=
  mkDb {["d" := mkDevice "o" "s" "workstation" "linux"]} {["o" := mkOrg (Some "p") "customer"]} []
    {["g" := Some ["hostname"]]} [] [ex_window].

Lemma self_selected_groups_ignored_witness :
  checkStandaloneMaintenanceWindows (with_memberships (memberships ex_mdb ++ [("d", "g")]) ex_mdb) "d" 500
  = checkStandaloneMaintenanceWindows ex_mdb "d" 500.
Proof.
  apply (self_selected_groups_ignored ex_mdb [("d", "g")] "d" 500). intros m Hm fs Hfs.
  apply list_elem_of_singleton in Hm as ->. vm_compute in Hfs. injection Hfs as <-. vm_compute. reflexivity.
Defined.

(** The next-window lookup does not apply the gate: for a device whose only group reads
    its own host name it announces a window that never covers the device. *)
Example next_window_ungated :
  let db := with_memberships [("d", "g")] ex_mdb in
  checkStandaloneMaintenanceWindows db "d" 500 = None
  ∧ (startsAt <$> resolve_one (λ _ _, None) (λ _, None) db "o" (-10) 30 "d") = Some 0.
Proof. split; vm_compute; reflexivity. Qed.
End DeviceStatus.

Module QuietHours.

Record QuietHoursConfig := mkQuiet { q_start : string; q_end : string; q_timezone : option string; q_enabled : option bool }.

(** [/^(\d{1,2}):(\d{2})$/], hours to 23 and minutes to 59. *)
Definition parseMinutes (value : string) : option Z :=
  match time_prefix (chars value) with
  | Some (hours, minutes, []) =>
      if (hours <? 0) || (23 <? hours) || (minutes <? 0) || (59 <? minutes) then None else Some (hours * 60 + minutes)
  | _ => None
  end.

Section clock.
(** The formatter with [{ hourCycle: 'h23', hour: '2-digit', minute: '2-digit' }], and the
    server's own clock in minutes. *)
Context (formatToParts : string → Z → option Parts) (local_minutes : Z → Z).

(** [None] is a part that is no number. *)
Definition getMinutesInTimezone (date : Z) (tz : option string) : option Z :=
  match truthy tz with
  | None => Some (local_minutes date)
  | Some tz =>
      match formatToParts tz date with
      | None => Some (local_minutes date)
      | Some parts => h ← part_number parts "hour"; m ← part_number parts "minute"; Some (h * 60 + m)
      end
  end.

Definition isInQuietHours (quietHours : option QuietHoursConfig) (now : Z) : bool :=
  match quietHours with
  | None => false
  | Some q =>
      if bool_decide (q_enabled q = Some false) then false
      else match parseMinutes (q_start q), parseMinutes (q_end q) with
           | Some start, Some end_ =>
               let nowMinutes := getMinutesInTimezone now (q_timezone q) in
               if start =? end_ then true
               else match nowMinutes with
                    | None => false
                    | Some n => if start <? end_ then (start <=? n) && (n <? end_) else (start <=? n) || (n <? end_)
                    end
           | _, _ => false
           end
  end.

(** What is relied on: a known zone's clock is shown, an unknown zone throws. *)
Class TimeFormatter (wall : string → Z → option Z) : Prop := {
  time_unknown tz t : wall tz t = None → formatToParts tz t = None;
  time_parts tz t w : wall tz t = Some w →
    ∃ parts, formatToParts tz t = Some parts ∧ shows_number parts "hour" (getUTCHours w) ∧ shows_number parts "minute" (getUTCMinutes w) }.

Lemma parseMinutes_range v m : parseMinutes v = Some m → 0 ≤ m < 1440.
Proof.
  unfold parseMinutes. destruct (time_prefix (chars v)) as [[[h mi] [|c r]]|] eqn:E; try done.
  destruct (_ || _) eqn:Er; [done|]. intros [= <-]. rewrite !orb_false_iff, !Z.ltb_ge in Er. lia.
Qed.

(** When quiet hours hold.  For a configured start and end, whatever the zone, it is
    quiet exactly when the time of day on the zone's clock lies in the interval that
    runs from the start, round midnight if need be, up to but without the end; equal
    ends mean the whole day.  A text that is not a time of day is never quiet. *)
Theorem quiet_hours_interval wall `{!TimeFormatter wall} q tz now w (Htz : truthy (q_timezone q) = Some tz) (Hw : wall tz now = Some w)
    (Hen : q_enabled q ≠ Some false) :
  isInQuietHours (Some q) now
  = match parseMinutes (q_start q), parseMinutes (q_end q) with
    | Some a, Some b => bool_decide (a = b ∨ (w / 60000 mod 1440 - a) mod 1440 < (b - a) mod 1440)
    | _, _ => false
    end.
Proof.
  unfold isInQuietHours. rewrite bool_decide_eq_false_2 by done.
  destruct (parseMinutes (q_start q)) as [a|] eqn:Ea; [|done]. destruct (parseMinutes (q_end q)) as [b|] eqn:Eb; [|done].
  apply parseMinutes_range in Ea, Eb. destruct (time_parts _ _ _ Hw) as (parts & Hp & Hh & Hm).
  assert (getMinutesInTimezone now (q_timezone q) = Some (w / 60000 mod 1440)) as ->.
  { unfold getMinutesInTimezone. rewrite Htz, Hp. rewrite (Conversion.part_number_shown _ _ _ Hh), (Conversion.part_number_shown _ _ _ Hm). cbn [mbind option_bind].
    f_equal. unfold getUTCHours, getUTCMinutes. Z.to_euclidean_division_equations. lia. }
  pose proof (Z.mod_pos_bound (w / 60000) 1440 ltac:(lia)). generalize dependent (w / 60000 mod 1440). intros n Hn.
  apply eq_bool_prop_intro. rewrite !Is_true_true, bool_decide_eq_true.
  destruct (Z.eqb_spec a b) as [->|Hne]; [split; [by left|done]|].
  assert (∀ x, 0 ≤ x < 1440 → (x - a) mod 1440 = if x <? a then x - a + 1440 else x - a) as Hmod.
  { intros x Hx. destruct (Z.ltb_spec x a); [rewrite <-(Z.mod_add _ 1) by lia|]; apply Z.mod_small; lia. }
  rewrite !Hmod by lia. destruct (Z.ltb_spec a b); rewrite ?andb_true_iff, ?orb_true_iff, Z.leb_le, Z.ltb_lt;
    destruct (Z.ltb_spec n a), (Z.ltb_spec b a); lia.
Qed.
End clock.

#[export] Instance wall_is_time wall : TimeFormatter (Conversion.parts_of wall) wall.
Proof.
  split; unfold Conversion.parts_of; intros tz t; [by intros ->|]. intros w ->. eexists. split; [done|].
  destruct (utc_field_bounds w) as (_ & Hh & Hm & _). split; (eexists; split; [|split; [lia|by right]]).
  - exists [("month", padStart2 (js_String (getUTCMonth w + 1))); ("literal", "/"); ("day", padStart2 (js_String (getUTCDate w)));
      ("literal", "/"); ("year", js_String (getUTCFullYear w)); ("literal", ", ")].
    eexists. split; [reflexivity|]. split; apply (bool_decide_unpack _); by vm_compute.
  - exists [("month", padStart2 (js_String (getUTCMonth w + 1))); ("literal", "/"); ("day", padStart2 (js_String (getUTCDate w)));
      ("literal", "/"); ("year", js_String (getUTCFullYear w)); ("literal", ", "); ("hour", padStart2 (js_String (getUTCHours w))); ("literal", ":")].
    eexists. split; [reflexivity|]. split; apply (bool_decide_unpack _); by vm_compute.
Qed.

Lemma quiet_hours_interval_witness :
  isInQuietHours (Conversion.parts_of utc_wall) (λ _, 0) (Some (mkQuiet "22:00" "07:00" (Some "UTC") None)) (DateUTC 2026 0 1 23 30)
  = bool_decide (1320 = 420 ∨ (DateUTC 2026 0 1 23 30 / 60000 mod 1440 - 1320) mod 1440 < (420 - 1320) mod 1440).
Proof.
  exact (quiet_hours_interval (Conversion.parts_of utc_wall) (λ _, 0) utc_wall (mkQuiet "22:00" "07:00" (Some "UTC") None) "UTC"
    (DateUTC 2026 0 1 23 30) (DateUTC 2026 0 1 23 30) eq_refl eq_refl ltac:(discriminate)).
Defined.
End QuietHours.
