(* ===== verification/Assurance.v ===== *)
(** * Approval assurance: risk tiers, partner policy and the verification ladder

    [packages/shared/src/utils/assuranceLevel.ts], [services/authenticatorPolicy.ts]
    and [services/authenticatorAssurance.ts], with the challenge stores of
    [services/approverWebAuthn.ts] and [services/mobileHwKey.ts].  A decision on an
    approval carries an assurance level: 1 for a tap in a session, 2 for a signature
    of a registered device, 3 and 4 for a fresh one.  [Levels] has the floors and the
    partner's policy, [Ladder] the verification.  The signature checks themselves
    (WebAuthn, the mobile key) are parameters. *)
From S2P Require Import Prelude.
From stdpp Require Import base tactics list strings gmap.
From Stdlib Require Import ZArith Lia.
Open Scope Z_scope.

Module Levels.

Inductive RiskTier := low | medium | high | critical.
#[export] Instance RiskTier_eq_dec : EqDecision RiskTier.
Proof. solve_decision. Defined.

Definition DEFAULT_ASSURANCE_FLOOR (t : RiskTier) : Z :=
  match t with low => 1 | medium => 2 | high => 3 | critical => 4 end.

Definition MAX_REACHABLE_ASSURANCE (t : RiskTier) : Z :=
  match t with low => 2 | medium => 2 | high => 3 | critical => 4 end.

(** An object with a level for some of the tiers, in the order of its keys. *)
Definition AssuranceFloorOverrides : Type := list (RiskTier * Z).

Definition override_of (overrides : AssuranceFloorOverrides) (t : RiskTier) : option Z :=
  (λ p, p.2.2) <$> list_find (λ p, p.1 = t) overrides.

Definition requiredAssurance (t : RiskTier) (overrides : option AssuranceFloorOverrides) : Z :=
  let base := DEFAULT_ASSURANCE_FLOOR t in
  match overrides ≫= λ o, override_of o t with
  | Some v => if negb (v =? 0) && (base <? v) then v else base
  | None => base
  end.

Definition elevationRiskTierToName (n : option Z) : RiskTier :=
  match n with
  | Some 1 => low
  | Some 3 => high
  | Some 4 => critical
  | Some 2 => medium
  | _ => medium
  end.

Definition clamp_entry (p : RiskTier * Z) : RiskTier * Z :=
  let '(t, level) := p in
  let max := MAX_REACHABLE_ASSURANCE t in
  if max <? level then (t, Z.max max (DEFAULT_ASSURANCE_FLOOR t)) else (t, level).

Definition clampFloorOverrides (o : AssuranceFloorOverrides) : AssuranceFloorOverrides * list RiskTier :=
  (clamp_entry <$> o, fst <$> filter (λ p, MAX_REACHABLE_ASSURANCE p.1 < p.2) o).

(** The first tier whose level no device reaches; the first below the default. *)
Definition validateReachable (o : AssuranceFloorOverrides) : result RiskTier unit :=
  match list_find (λ p, MAX_REACHABLE_ASSURANCE p.1 < p.2) o with
  | Some (_, p) => Err p.1
  | None => Ok tt
  end.
Definition validateRaiseOnly (o : AssuranceFloorOverrides) : result RiskTier unit :=
  match list_find (λ p, p.2 < DEFAULT_ASSURANCE_FLOOR p.1) o with
  | Some (_, p) => Err p.1
  | None => Ok tt
  end.

Record StoredAuthenticatorPolicy := mkPolicy {
  requireEnrollment : option bool; enforceFrom : option Z; floorOverrides : option AssuranceFloorOverrides }.

Definition loadPartnerPolicy (rows : gmap string StoredAuthenticatorPolicy) (partnerId : option string)
    : option StoredAuthenticatorPolicy :=
  match partnerId with
  | None | Some "" => None
  | Some id =>
      row ← rows !! id;
      let '(overrides, clampedTiers) := clampFloorOverrides (default [] (floorOverrides row)) in
      if bool_decide (clampedTiers = []) then Some row
      else Some (mkPolicy (requireEnrollment row) (enforceFrom row) (Some overrides))
  end.

Inductive AuthenticatorPolicySource := explicit | platform_default.
Inductive AuthenticatorPolicyMode := off | grace | enforcing.
#[export] Instance mode_eq_dec : EqDecision AuthenticatorPolicyMode.
Proof. solve_decision. Defined.

Definition ALL_RISK_TIERS : list RiskTier := [low; medium; high; critical].
Definition PLATFORM_DEFAULT_ENFORCED_TIERS : list RiskTier :=
  filter (λ t, 3 ≤ DEFAULT_ASSURANCE_FLOOR t) ALL_RISK_TIERS.

Record EffectiveAuthenticatorPolicy := mkEffective {
  e_source : AuthenticatorPolicySource; e_requireEnrollment : bool; e_enforceFrom : option Z;
  e_floorOverrides : AssuranceFloorOverrides; e_enforcedTiers : list RiskTier }.

Definition resolveEffectivePolicy (stored : option StoredAuthenticatorPolicy) (defaultEnforceFrom : Z)
    : EffectiveAuthenticatorPolicy :=
  let overrides := (clampFloorOverrides (default [] (stored ≫= floorOverrides))).1 in
  match stored with
  | Some (mkPolicy (Some req) from _) => mkEffective explicit req from overrides ALL_RISK_TIERS
  | _ => mkEffective platform_default true (Some defaultEnforceFrom) overrides PLATFORM_DEFAULT_ENFORCED_TIERS
  end.

Definition effectivePolicyMode (p : EffectiveAuthenticatorPolicy) (now : Z) : AuthenticatorPolicyMode :=
  if negb (e_requireEnrollment p) then off
  else match e_enforceFrom p with
       | Some from => if now <? from then grace else enforcing
       | None => enforcing
       end.

Definition isEnforcing (stored : option StoredAuthenticatorPolicy) (now : Z) (t : RiskTier)
    (defaultEnforceFrom : Z) : bool :=
  let effective := resolveEffectivePolicy stored defaultEnforceFrom in
  bool_decide (effectivePolicyMode effective now = enforcing) && bool_decide (t ∈ e_enforcedTiers effective).

(** ** The floors *)

Lemma floor_le_max t : 1 ≤ DEFAULT_ASSURANCE_FLOOR t ≤ MAX_REACHABLE_ASSURANCE t.
Proof. destruct t; cbn; lia. Qed.

Lemma required_ge_floor t o : DEFAULT_ASSURANCE_FLOOR t ≤ requiredAssurance t o.
Proof.
  unfold requiredAssurance. destruct (o ≫= _) as [v|]; [|lia].
  destruct (negb _ && _) eqn:E; bool_hyps; lia.
Qed.

Lemma override_of_elem o t v : override_of o t = Some v → (t, v) ∈ o.
Proof.
  unfold override_of. destruct (list_find _ o) as [[i [t' v']]|] eqn:E; cbn; [|done].
  intros [= <-]. apply list_find_Some in E as (Hi & Ht & _). cbn in Ht. subst.
  by eapply list_elem_of_lookup_2.
Qed.

Lemma clamp_entry_le p : (clamp_entry p).2 ≤ MAX_REACHABLE_ASSURANCE (clamp_entry p).1.
Proof.
  destruct p as [t v]. unfold clamp_entry. pose proof (floor_le_max t).
  destruct (_ <? v) eqn:E; cbn; bool_hyps; lia.
Qed.

Lemma clamp_id o : (clampFloorOverrides o).2 = [] → ∀ p, p ∈ o → p.2 ≤ MAX_REACHABLE_ASSURANCE p.1.
Proof.
  cbn. intros E p Hp. destruct (decide (MAX_REACHABLE_ASSURANCE p.1 < p.2)) as [Hlt|]; [|lia].
  assert (Hin : p.1 ∈ (fst <$> filter (λ p, MAX_REACHABLE_ASSURANCE p.1 < p.2) o)).
  { apply list_elem_of_fmap_2, list_elem_of_filter. done. }
  rewrite E in Hin. by apply not_elem_of_nil in Hin.
Qed.

(** The levels a loaded policy has are reachable. *)
Lemma loaded_reachable rows partner p :
  loadPartnerPolicy rows partner = Some p →
  ∀ e, e ∈ default [] (floorOverrides p) → e.2 ≤ MAX_REACHABLE_ASSURANCE e.1.
Proof.
  unfold loadPartnerPolicy. destruct partner as [[|c s]|]; [done| |done].
  destruct (rows !! String c s) as [row|] eqn:Er; cbn [mbind option_bind]; [|done].
  destruct (clampFloorOverrides _) as [o ts] eqn:Ec. case_bool_decide as Ht; intros [= <-] e He.
  - eapply clamp_id; [|done]. by rewrite Ec.
  - cbn in He. assert (Ho : o = clamp_entry <$> default [] (floorOverrides row)) by (by injection Ec).
    subst o. apply list_elem_of_fmap in He as (q & -> & _). apply clamp_entry_le.
Qed.

Lemma required_le_max rows partner t :
  requiredAssurance t (loadPartnerPolicy rows partner ≫= floorOverrides) ≤ MAX_REACHABLE_ASSURANCE t.
Proof.
  unfold requiredAssurance. pose proof (floor_le_max t).
  destruct (loadPartnerPolicy rows partner) as [p|] eqn:El; cbn; [|lia].
  destruct (floorOverrides p) as [o|] eqn:Eo; cbn; [|lia].
  destruct (override_of o t) as [v|] eqn:Ev; [|lia].
  destruct (negb _ && _); [|lia]. apply override_of_elem in Ev.
  apply (loaded_reachable _ _ _ El (t, v)). by rewrite Eo.
Qed.

(** What a partner asks of a level, read off its row: the default of the tier, and the
    level stored for the tier as far as a device can reach it. *)
Definition meets_floor (rows : gmap string StoredAuthenticatorPolicy) (partner : option string) (t : RiskTier) (level : Z) : Prop :=
  DEFAULT_ASSURANCE_FLOOR t ≤ level
  ∧ ∀ id row o v, partner = Some id → id ≠ "" → rows !! id = Some row → floorOverrides row = Some o → override_of o t = Some v →
      Z.min v (MAX_REACHABLE_ASSURANCE t) ≤ level.

Lemma clamp_entry_value t v : clamp_entry (t, v) = (t, Z.min v (MAX_REACHABLE_ASSURANCE t)).
Proof.
  unfold clamp_entry. pose proof (floor_le_max t).
  destruct (Z.ltb_spec (MAX_REACHABLE_ASSURANCE t) v); f_equal; lia.
Qed.

Lemma override_clamped o t : override_of (clamp_entry <$> o) t = (λ v, Z.min v (MAX_REACHABLE_ASSURANCE t)) <$> override_of o t.
Proof.
  unfold override_of. induction o as [|[t' v] o IH]; [done|]. cbn [fmap list_fmap list_find]. rewrite clamp_entry_value. cbn [fst].
  destruct (decide (t' = t)) as [->|Hne]; [done|]. revert IH.
  destruct (list_find _ (clamp_entry <$> o)) as [[i p]|], (list_find _ o) as [[j q]|]; cbn; done.
Qed.

(** The level the code requires meets the floor. *)
Lemma required_meets rows partner t level :
  requiredAssurance t (loadPartnerPolicy rows partner ≫= floorOverrides) ≤ level → meets_floor rows partner t level.
Proof.
  intros Hle. split; [etrans; [apply required_ge_floor|exact Hle]|]. intros id row o v -> Hid Hr Ho Hv.
  assert (∃ pol o', loadPartnerPolicy rows (Some id) = Some pol ∧ floorOverrides pol = Some o'
            ∧ (override_of o' t = Some v ∨ override_of o' t = Some (Z.min v (MAX_REACHABLE_ASSURANCE t)))) as (pol & o' & Hp & Ho' & Hov).
  { unfold loadPartnerPolicy. destruct id as [|c id]; [done|]. rewrite Hr. cbn [mbind option_bind]. rewrite Ho. cbn [default clampFloorOverrides].
    case_bool_decide; [exists row, o; auto|]. eexists _, (clamp_entry <$> o). split_and!; [done..|right]. by rewrite override_clamped, Hv. }
  unfold requiredAssurance in Hle. pose proof (floor_le_max t). rewrite Hp in Hle. cbn in Hle. rewrite Ho' in Hle. cbn in Hle.
  destruct Hov as [Hov|Hov]; rewrite Hov in Hle;
    match type of Hle with context [negb (?x =? 0) && (?y <? ?x)] => destruct (Z.eqb_spec x 0), (Z.ltb_spec y x) end; cbn in Hle; lia.
Qed.

End Levels.

Module Ladder.
Import Levels.

(** The factor a decision was made with: [decidedVia]. *)
Inductive Factor := session_tap | webauthn_platform | mobile_hw_key.
#[export] Instance Factor_eq_dec : EqDecision Factor.
Proof. solve_decision. Defined.

Record AssuranceDecision := mkDecision {
  requiredLevel : Z; decidedAssuranceLevel : Z; decidedVia : Factor;
  authenticatorDeviceId : option string; graceDowngrade : bool; stepUpGrantReuse : bool }.

Definition with_required (r : Z) (d : AssuranceDecision) : AssuranceDecision :=
  mkDecision r (decidedAssuranceLevel d) (decidedVia d) (authenticatorDeviceId d) (graceDowngrade d) (stepUpGrantReuse d).
Definition with_grace (d : AssuranceDecision) : AssuranceDecision :=
  mkDecision (requiredLevel d) (decidedAssuranceLevel d) (decidedVia d) (authenticatorDeviceId d) true (stepUpGrantReuse d).

Inductive AssuranceError :=
| StepUpRequiredError (required achieved : Z)
| ReauthRequiredError
| RecencyExpiredError (ageMs : Z)
| Failure (message : string).

Definition assertDecisionConsistent (d : AssuranceDecision) : result AssuranceError unit :=
  let isSession := bool_decide (decidedVia d = session_tap) in
  if xorb isSession (decidedAssuranceLevel d =? 1)
     || xorb isSession (bool_decide (authenticatorDeviceId d = None))
     || negb isSession && bool_decide (authenticatorDeviceId d = None)
  then Err (Failure "inconsistent assurance decision") else Ok tt.

Definition resolveApprovalAssurance (t : RiskTier) : AssuranceDecision :=
  mkDecision (requiredAssurance t None) 1 session_tap None false false.

Definition resolveElevationAssurance (n : option Z) : AssuranceDecision :=
  resolveApprovalAssurance (elevationRiskTierToName n).

(** Why a device counts as bound to its platform. *)
Inductive PlatformBoundBasis :=
  unattested | legacy_unattested | ios_keychain_rsa_app_attest | webauthn_backup_flags
| ios_se_p256_app_attest | android_tee_key_attestation | android_strongbox_key_attestation.
#[export] Instance basis_eq_dec : EqDecision PlatformBoundBasis.
Proof. solve_decision. Defined.

Definition L4_TRUSTED_PLATFORM_BOUND_BASES : list PlatformBoundBasis :=
  [webauthn_backup_flags; ios_se_p256_app_attest; android_tee_key_attestation; android_strongbox_key_attestation].
Definition BASES_WITHOUT_ATTESTATION_TIMESTAMP : list PlatformBoundBasis := [webauthn_backup_flags].

Definition APPROVAL_CHALLENGE_TTL_MS : Z := 120000.

Record AuthenticatorDevice := mkDevice {
  d_id : string; d_userId : string; d_kind : Factor; d_credentialId : option string;
  d_publicKey : string; d_publicKeyAlg : string; d_signCount : Z; d_lastUsedAt : option Z;
  d_disabledAt : option Z; d_isPlatformBound : bool; d_platformBoundBasis : PlatformBoundBasis;
  d_attestationVerifiedAt : option Z }.

Record VerifiedFactor := mkFactor {
  f_via : Factor; f_deviceId : string; f_isPlatformBound : bool;
  f_basis : PlatformBoundBasis; f_attestationVerifiedAt : option Z; f_challengeIssuedAt : Z }.

Definition basis_trusted (f : VerifiedFactor) : bool :=
  bool_decide (f_basis f ∈ L4_TRUSTED_PLATFORM_BOUND_BASES)
  && (bool_decide (f_basis f ∈ BASES_WITHOUT_ATTESTATION_TIMESTAMP)
      || bool_decide (is_Some (f_attestationVerifiedAt f))).

(** [attestationEnforced] is the setting [authenticatorAttestationEnforced()]. *)
Definition escalateAchievedLevel (attestationEnforced : bool) (t : RiskTier) (f : VerifiedFactor)
    (reauthVerified : bool) (now : Z) : result AssuranceError Z :=
  if bool_decide (t ≠ high) && bool_decide (t ≠ critical) then Ok 2
  else
    let ageMs := now - f_challengeIssuedAt f in
    if APPROVAL_CHALLENGE_TTL_MS <? ageMs then Err (RecencyExpiredError ageMs)
    else if bool_decide (t = high) then Ok 3
    else if negb (f_isPlatformBound f) then Err (StepUpRequiredError 4 3)
    else if negb (basis_trusted f) && attestationEnforced then Err (StepUpRequiredError 4 3)
    else if negb reauthVerified then Err ReauthRequiredError
    else Ok 4.

(** ** Challenges and factors *)

(** A challenge in Redis: the value, when it was issued, when the key expires. *)
Record Challenge := mkChallenge { c_value : string; c_issuedAt : Z; c_expires : Z }.

(** The registered devices, and the challenges if Redis answers. *)
Record Authenticators := mkAuthenticators {
  devices : list AuthenticatorDevice; redis : option (gmap string Challenge) }.

Definition ASSERTION_TTL_SECONDS : Z := 120.
Definition webauthnKey (approvalId userId : string) : string := "approval-assertion:" +:+ approvalId +:+ ":" +:+ userId.
Definition mobileKey (approvalId userId : string) : string := "mobile-assertion:" +:+ approvalId +:+ ":" +:+ userId.

Definition Step (A : Type) : Type := Authenticators → result AssuranceError A * Authenticators.
Definition raise {A} (e : AssuranceError) : Step A := λ s, (Err e, s).
Definition done_with {A} (a : A) : Step A := λ s, (Ok a, s).
Definition andThen {A B} (c : Step A) (k : A → Step B) : Step B :=
  λ s, match c s with (Ok a, s') => k a s' | (Err e, s') => (Err e, s') end.

(** [storeAssertionChallenge] and [issueNonce]: [SETEX] of the value with its time. *)
Definition issueChallenge (key value : string) (now : Z) : Step unit :=
  λ s, match redis s with
       | None => (Err (Failure "redis unavailable"), s)
       | Some m => (Ok tt, mkAuthenticators (devices s)
                      (Some (<[key := mkChallenge value now (now + ASSERTION_TTL_SECONDS * 1000)]> m)))
       end.

(** [consumeAssertionChallenge] and [consumeNonce]: [GETDEL]. *)
Definition consumeChallenge (key : string) (now : Z) : Step (option Challenge) :=
  λ s, match redis s with
       | None => (Err (Failure "redis unavailable"), s)
       | Some m => (Ok (c ← m !! key; if now <? c_expires c then Some c else None),
                    mkAuthenticators (devices s) (Some (delete key m)))
       end.

Inductive ApprovalProof :=
| webauthn_proof (credentialId authenticatorData clientDataJSON signature : string) (userHandle : option string)
| mobile_proof (credentialId nonce signature : string).

Definition MOBILE_KEY_ALGS : list string := ["RS256"; "ES256"].
Definition toMobileKeyAlg (value : string) : option string :=
  if bool_decide (value ∈ MOBILE_KEY_ALGS) then Some value else None.

Definition touch (id : string) (signCount now : Z) (d : AuthenticatorDevice) : AuthenticatorDevice :=
  if bool_decide (d_id d = id)
  then mkDevice (d_id d) (d_userId d) (d_kind d) (d_credentialId d) (d_publicKey d) (d_publicKeyAlg d)
         signCount (Some now) (d_disabledAt d) (d_isPlatformBound d) (d_platformBoundBasis d) (d_attestationVerifiedAt d)
  else d.

Definition set_sign_count (id : string) (signCount now : Z) : Step unit :=
  λ s, (Ok tt, mkAuthenticators (touch id signCount now <$> devices s) (redis s)).

Definition find_device (p : AuthenticatorDevice → bool) : Step (option AuthenticatorDevice) :=
  λ s, (Ok (List.find p (devices s)), s).

(** The [WHERE] clauses of the two device reads. *)
Definition webauthn_row (userId credentialId : string) (d : AuthenticatorDevice) : bool :=
  bool_decide (d_userId d = userId) && bool_decide (d_credentialId d = Some credentialId)
  && bool_decide (d_kind d = webauthn_platform) && bool_decide (d_disabledAt d = None).
Definition mobile_row (userId credentialId : string) (d : AuthenticatorDevice) : bool :=
  bool_decide (d_id d = credentialId) && bool_decide (d_userId d = userId)
  && bool_decide (d_kind d = mobile_hw_key) && bool_decide (d_disabledAt d = None).

Definition factor_of (via : Factor) (d : AuthenticatorDevice) (issuedAt : Z) : VerifiedFactor :=
  mkFactor via (d_id d) (d_isPlatformBound d) (d_platformBoundBasis d) (d_attestationVerifiedAt d) issuedAt.

Section verification.
(** [verifyAuthenticationResponse] of the WebAuthn library: throws, or whether the
    response verifies against the challenge and the device's key, with the counter. *)
Context (verifyAuthenticationResponse : ApprovalProof → string → AuthenticatorDevice → result string (bool * Z)).
(** The signature check over the nonce, with the device's key and algorithm. *)
Context (verifyMobileSignature : string → string → string → string → bool).
(** Settings: whether attestation is enforced, the platform's date, the policies. *)
Context (attestationEnforced : bool) (defaultEnforceFrom : Z) (policies : gmap string StoredAuthenticatorPolicy).

Definition verifyWebauthnFactor (approvalId userId : string) (proof : ApprovalProof) (credentialId : string)
    (now : Z) : Step VerifiedFactor :=
  andThen (find_device (webauthn_row userId credentialId))
    (λ od, match od with
           | None => raise (Failure "authenticator device not registered or disabled")
           | Some d =>
               andThen (consumeChallenge (webauthnKey approvalId userId) now) (λ oc,
               match oc with
               | None => raise (Failure "approval assertion challenge expired or already used")
               | Some c =>
                   match verifyAuthenticationResponse proof (c_value c) d with
                   | Err m => raise (Failure m)
                   | Ok (false, _) => raise (Failure "assertion verification failed")
                   | Ok (true, newSignCount) =>
                       andThen (set_sign_count (d_id d) newSignCount now)
                         (λ _, done_with (factor_of webauthn_platform d (c_issuedAt c)))
                   end
               end)
           end).

Definition verifyMobileFactor (approvalId userId credentialId nonce signature : string) (now : Z)
    : Step VerifiedFactor :=
  andThen (find_device (mobile_row userId credentialId))
    (λ od, match od with
           | None => raise (Failure "mobile authenticator device not registered or disabled")
           | Some d =>
               andThen (consumeChallenge (mobileKey approvalId userId) now) (λ oc,
               match oc with
               | None => raise (Failure "mobile assertion nonce missing or mismatched")
               | Some c =>
                   if bool_decide (c_value c ≠ nonce) then raise (Failure "mobile assertion nonce missing or mismatched")
                   else match toMobileKeyAlg (d_publicKeyAlg d) with
                        | None => raise (Failure "mobile authenticator device has an unsupported public_key_alg")
                        | Some alg =>
                            if negb (verifyMobileSignature (d_publicKey d) (c_value c) signature alg)
                            then raise (Failure "mobile assertion signature verification failed")
                            else andThen (set_sign_count (d_id d) (d_signCount d + 1) now)
                                   (λ _, done_with (factor_of mobile_hw_key d (c_issuedAt c)))
                        end
               end)
           end).

Record AssuranceInput := mkInput {
  i_approvalId : string; i_userId : string; i_riskTier : RiskTier; i_proof : option ApprovalProof;
  i_partnerId : option string; i_approve : bool; i_reauthVerified : bool }.

(** The achieved factor: no proof is a session tap. *)
Definition achieved (i : AssuranceInput) (now : Z) : Step AssuranceDecision :=
  match i_proof i with
  | None => done_with (resolveApprovalAssurance (i_riskTier i))
  | Some proof =>
      andThen (match proof with
               | mobile_proof cred nonce sig => verifyMobileFactor (i_approvalId i) (i_userId i) cred nonce sig now
               | webauthn_proof cred _ _ _ _ => verifyWebauthnFactor (i_approvalId i) (i_userId i) proof cred now
               end)
        (λ f, match escalateAchievedLevel attestationEnforced (i_riskTier i) f (i_reauthVerified i) now with
              | Err e => raise e
              | Ok level => done_with (mkDecision (requiredLevel (resolveApprovalAssurance (i_riskTier i))) level
                                         (f_via f) (Some (f_deviceId f)) false false)
              end)
  end.

(** The partner's floor, for an approve: the policy is not read for a deny. *)
Definition apply_policy (i : AssuranceInput) (now : Z) (d0 : AssuranceDecision) : result AssuranceError AssuranceDecision :=
  let policy := if i_approve i then loadPartnerPolicy policies (i_partnerId i) else None in
  let d := with_required (requiredAssurance (i_riskTier i) (policy ≫= floorOverrides)) d0 in
  let checked d := let! _ := assertDecisionConsistent d in Ok d in
  if i_approve i && (decidedAssuranceLevel d <? requiredLevel d) then
    if isEnforcing policy now (i_riskTier i) defaultEnforceFrom
    then Err (StepUpRequiredError (requiredLevel d) (decidedAssuranceLevel d))
    else checked (with_grace d)
  else checked d.

Definition assertApprovalAssurance (i : AssuranceInput) (now : Z) : Step AssuranceDecision :=
  andThen (achieved i now) (λ d, λ s, (apply_policy i now d, s)).

(** ** What a decision's level means *)

Lemma andThen_Ok {A B} (c : Step A) (k : A → Step B) s b s' :
  andThen c k s = (Ok b, s') → ∃ a s1, c s = (Ok a, s1) ∧ k a s1 = (Ok b, s').
Proof. unfold andThen. destruct (c s) as [[a|] s1]; [eauto|done]. Qed.

Definition key_of (p : ApprovalProof) (approvalId userId : string) : string :=
  match p with
  | webauthn_proof _ _ _ _ _ => webauthnKey approvalId userId
  | mobile_proof _ _ _ => mobileKey approvalId userId
  end.
Definition via_of (p : ApprovalProof) : Factor :=
  match p with webauthn_proof _ _ _ _ _ => webauthn_platform | mobile_proof _ _ _ => mobile_hw_key end.

(** A proof accepted for a device over a challenge. *)
Definition accepts (p : ApprovalProof) (c : Challenge) (d : AuthenticatorDevice) : Prop :=
  match p with
  | webauthn_proof cred _ _ _ _ =>
      d_credentialId d = Some cred ∧ ∃ n, verifyAuthenticationResponse p (c_value c) d = Ok (true, n)
  | mobile_proof cred nonce sig =>
      d_id d = cred ∧ c_value c = nonce
      ∧ ∃ alg, toMobileKeyAlg (d_publicKeyAlg d) = Some alg
               ∧ verifyMobileSignature (d_publicKey d) nonce sig alg = true
  end.

(** The verified ceremony behind a level above 1: an enabled device of the user, and
    an unexpired challenge issued for this approval and this user, now consumed. *)
Definition ceremony (i : AssuranceInput) (now : Z) (s s' : Authenticators) (p : ApprovalProof)
    (d : AuthenticatorDevice) (c : Challenge) : Prop :=
  let key := key_of p (i_approvalId i) (i_userId i) in
  d ∈ devices s ∧ d_userId d = i_userId i ∧ d_kind d = via_of p ∧ d_disabledAt d = None
  ∧ accepts p c d
  ∧ (∃ m, redis s = Some m ∧ m !! key = Some c) ∧ now < c_expires c
  ∧ (∃ m', redis s' = Some m' ∧ m' !! key = None).

Lemma consume_Some key now s c s1 :
  consumeChallenge key now s = (Ok (Some c), s1) →
  ∃ m, redis s = Some m ∧ m !! key = Some c ∧ now < c_expires c
       ∧ s1 = mkAuthenticators (devices s) (Some (delete key m)).
Proof.
  unfold consumeChallenge. destruct (redis s) as [m|]; [|done]. intros [= Hc <-].
  destruct (m !! key) as [c'|] eqn:Em; cbn in Hc; [|done].
  destruct (now <? c_expires c') eqn:E; [|done]. injection Hc as ->. exists m. bool_hyps. auto.
Qed.

Lemma find_device_Some f s d s1 :
  find_device f s = (Ok (Some d), s1) → s1 = s ∧ d ∈ devices s ∧ f d = true.
Proof.
  unfold find_device. intros [= Hf <-]. apply find_some in Hf as [Hin Hd].
  split_and!; [done| |done]. by apply list_elem_of_In.
Qed.

Lemma webauthn_ceremony i now cred xa xb xc xh s f s' :
  verifyWebauthnFactor (i_approvalId i) (i_userId i) (webauthn_proof cred xa xb xc xh) cred now s = (Ok f, s') →
  ∃ d c, ceremony i now s s' (webauthn_proof cred xa xb xc xh) d c
         ∧ f = factor_of webauthn_platform d (c_issuedAt c).
Proof.
  unfold verifyWebauthnFactor. intros H.
  apply andThen_Ok in H as ([d|] & s1 & Hd & H); [|done].
  apply find_device_Some in Hd as (-> & Hin & Hf). unfold webauthn_row, mobile_row in Hf.
  apply andThen_Ok in H as ([c|] & s2 & Hc & H); [|done].
  apply consume_Some in Hc as (m & Hr & Hm & Hlt & ->).
  destruct (verifyAuthenticationResponse _ _ _) as [[[] n]|] eqn:Ev; try done.
  apply andThen_Ok in H as ([] & s3 & Hs & H). unfold set_sign_count in Hs. injection Hs as <-.
  unfold done_with in H. injection H as <- <-. bool_hyps. exists d, c. split; [|done].
  unfold ceremony. cbn [key_of via_of accepts redis devices].
  split_and!; eauto. eexists. split; [done|]. apply lookup_delete_eq.
Qed.

Lemma mobile_ceremony i now cred nonce sig s f s' :
  verifyMobileFactor (i_approvalId i) (i_userId i) cred nonce sig now s = (Ok f, s') →
  ∃ d c, ceremony i now s s' (mobile_proof cred nonce sig) d c
         ∧ f = factor_of mobile_hw_key d (c_issuedAt c).
Proof.
  unfold verifyMobileFactor. intros H.
  apply andThen_Ok in H as ([d|] & s1 & Hd & H); [|done].
  apply find_device_Some in Hd as (-> & Hin & Hf). unfold webauthn_row, mobile_row in Hf.
  apply andThen_Ok in H as ([c|] & s2 & Hc & H); [|done].
  apply consume_Some in Hc as (m & Hr & Hm & Hlt & ->).
  case_bool_decide as Hn; [done|].
  destruct (toMobileKeyAlg _) as [alg|] eqn:Ea; [|done].
  destruct (verifyMobileSignature _ _ _ _) eqn:Ev; [|done]. cbn [negb] in H.
  apply andThen_Ok in H as ([] & s3 & Hs & H). unfold set_sign_count in Hs. injection Hs as <-.
  unfold done_with in H. injection H as <- <-. bool_hyps. subst. exists d, c. split; [|done].
  unfold ceremony. cbn [key_of via_of accepts redis devices].
  split_and!; eauto. eexists. split; [done|]. apply lookup_delete_eq.
Qed.

(** What a level demands of the ceremony, above its signature. *)
Definition level_earned (i : AssuranceInput) (now : Z) (d : AuthenticatorDevice) (c : Challenge) (level : Z) : Prop :=
  2 ≤ level ≤ 4
  ∧ (3 ≤ level → now - c_issuedAt c ≤ APPROVAL_CHALLENGE_TTL_MS)
  ∧ (4 ≤ level → d_isPlatformBound d = true ∧ i_reauthVerified i = true
                 ∧ (attestationEnforced = true →
                    d_platformBoundBasis d ∈ L4_TRUSTED_PLATFORM_BOUND_BASES
                    ∧ (d_platformBoundBasis d = webauthn_backup_flags ∨ is_Some (d_attestationVerifiedAt d)))).

Lemma escalate_earned i now via d c level :
  escalateAchievedLevel attestationEnforced (i_riskTier i) (factor_of via d (c_issuedAt c)) (i_reauthVerified i) now
    = Ok level → level_earned i now d c level.
Proof.
  unfold escalateAchievedLevel, level_earned, basis_trusted.
  cbn [factor_of f_challengeIssuedAt f_isPlatformBound f_basis f_attestationVerifiedAt].
  destruct (bool_decide _ && bool_decide _); [intros [= <-]; lia|].
  destruct (_ <? _) eqn:Ea; [done|]. apply Z.ltb_ge in Ea.
  destruct (bool_decide _); [intros [= <-]; lia|].
  destruct (d_isPlatformBound d); [|done]. cbn [negb].
  destruct (negb _ && attestationEnforced) eqn:Eb; [done|].
  destruct (i_reauthVerified i); [|done]. intros [= <-]. split_and!; [lia|lia|done|].
  intros _. split_and!; [done|done|]. intros Hatt. rewrite Hatt, andb_true_r in Eb.
  apply negb_false_iff, andb_true_iff in Eb as [H1 H2]. apply bool_decide_eq_true in H1. split; [done|].
  apply orb_true_iff in H2 as [H2|H2]; apply bool_decide_eq_true in H2; [left|by right].
  unfold BASES_WITHOUT_ATTESTATION_TIMESTAMP in H2. by apply list_elem_of_singleton in H2.
Qed.

Lemma achieved_earned i now s d s' :
  achieved i now s = (Ok d, s') →
  (i_proof i = None ∧ s' = s ∧ d = resolveApprovalAssurance (i_riskTier i))
  ∨ ∃ p dev c, i_proof i = Some p ∧ ceremony i now s s' p dev c
      ∧ level_earned i now dev c (decidedAssuranceLevel d)
      ∧ decidedVia d = via_of p ∧ authenticatorDeviceId d = Some (d_id dev)
      ∧ graceDowngrade d = false ∧ stepUpGrantReuse d = false.
Proof.
  unfold achieved. destruct (i_proof i) as [p|] eqn:Ep; [|intros [= <- <-]; auto].
  intros H. right. apply andThen_Ok in H as (f & s1 & Hf & H).
  assert (∃ dev c, ceremony i now s s1 p dev c ∧ f = factor_of (via_of p) dev (c_issuedAt c)) as (dev & c & Hc & ->).
  { destruct p as [cred a b e h|cred nonce sig].
    - by apply webauthn_ceremony in Hf.
    - by apply mobile_ceremony in Hf. }
  destruct (escalateAchievedLevel _ _ _ _ _) as [level|] eqn:El; [|done]. unfold done_with in H. injection H as <- <-.
  apply escalate_earned in El. exists p, dev, c. cbn. split_and!; auto.
Qed.

Lemma consistent_required d r : assertDecisionConsistent (with_required r d) = assertDecisionConsistent d.
Proof. done. Qed.
Lemma consistent_grace d : assertDecisionConsistent (with_grace d) = assertDecisionConsistent d.
Proof. done. Qed.

Lemma achieved_consistent i now s d s' :
  achieved i now s = (Ok d, s') → assertDecisionConsistent d = Ok tt.
Proof.
  intros [(_ & _ & ->)|(p & dev & c & _ & _ & (Hl & _) & Hv & Hd & _)]%achieved_earned; [done|].
  unfold assertDecisionConsistent. rewrite Hv, Hd. rewrite (bool_decide_eq_false_2 (via_of p = session_tap)) by (by destruct p).
  rewrite (bool_decide_eq_false_2 (Some (d_id dev) = None)) by done.
  rewrite (proj2 (Z.eqb_neq (decidedAssuranceLevel d) 1)) by lia. done.
Qed.

Lemma apply_policy_Ok i now d0 d :
  apply_policy i now d0 = Ok d →
  decidedAssuranceLevel d = decidedAssuranceLevel d0 ∧ decidedVia d = decidedVia d0
  ∧ authenticatorDeviceId d = authenticatorDeviceId d0 ∧ stepUpGrantReuse d = stepUpGrantReuse d0
  ∧ assertDecisionConsistent d = Ok tt
  ∧ (i_approve i = true →
     requiredLevel d = requiredAssurance (i_riskTier i) (loadPartnerPolicy policies (i_partnerId i) ≫= floorOverrides)
     ∧ (requiredLevel d ≤ decidedAssuranceLevel d
        ∨ graceDowngrade d = true
          ∧ isEnforcing (loadPartnerPolicy policies (i_partnerId i)) now (i_riskTier i) defaultEnforceFrom = false)).
Proof.
  unfold apply_policy. destruct (i_approve i) eqn:Ea; cbn [andb].
  - destruct (_ <? _) eqn:El.
    + destruct (isEnforcing _ _ _ _) eqn:Ee; [done|]. cbn [rbind].
      destruct (assertDecisionConsistent _) eqn:Ec; [|done]. destruct a. intros [= <-]. cbn. auto 10.
    + cbn [rbind]. destruct (assertDecisionConsistent _) eqn:Ec; [|done]. destruct a. intros [= <-].
      apply Z.ltb_ge in El. cbn in *. auto 10.
  - cbn [rbind]. destruct (assertDecisionConsistent _) eqn:Ec; [|done]. destruct a. intros [= <-]. cbn.
    split_and!; done.
Qed.

(** The floor of the partner under an answer to an approve. *)
Lemma apply_policy_floor i now d0 d :
  apply_policy i now d0 = Ok d → i_approve i = true →
  requiredLevel d = requiredAssurance (i_riskTier i) (loadPartnerPolicy policies (i_partnerId i) ≫= floorOverrides)
  ∧ (meets_floor policies (i_partnerId i) (i_riskTier i) (decidedAssuranceLevel d)
     ∨ graceDowngrade d = true
       ∧ isEnforcing (loadPartnerPolicy policies (i_partnerId i)) now (i_riskTier i) defaultEnforceFrom = false).
Proof.
  intros (_ & _ & _ & _ & _ & H)%apply_policy_Ok Ha. destruct (H Ha) as [Hr Hl]. split; [done|].
  destruct Hl as [Hl|Hl]; [left|by right]. rewrite Hr in Hl. by apply required_meets.
Qed.

(** Where the level of an answer comes from. *)
Definition earned (i : AssuranceInput) (now : Z) (s s' : Authenticators) (d : AssuranceDecision) : Prop :=
  match i_proof i with
  | None => decidedAssuranceLevel d = 1 ∧ decidedVia d = session_tap ∧ s' = s
  | Some p => ∃ dev c, ceremony i now s s' p dev c ∧ level_earned i now dev c (decidedAssuranceLevel d)
                       ∧ decidedVia d = via_of p ∧ authenticatorDeviceId d = Some (d_id dev)
  end.

Lemma ladder_earned i now s d s' :
  assertApprovalAssurance i now s = (Ok d, s') →
  assertDecisionConsistent d = Ok tt
  ∧ (i_approve i = true →
     requiredLevel d = requiredAssurance (i_riskTier i) (loadPartnerPolicy policies (i_partnerId i) ≫= floorOverrides)
     ∧ (meets_floor policies (i_partnerId i) (i_riskTier i) (decidedAssuranceLevel d)
        ∨ graceDowngrade d = true
          ∧ isEnforcing (loadPartnerPolicy policies (i_partnerId i)) now (i_riskTier i) defaultEnforceFrom = false))
  ∧ stepUpGrantReuse d = false
  ∧ earned i now s s' d.
Proof.
  unfold assertApprovalAssurance. intros (d0 & s1 & Ha & H)%andThen_Ok. injection H as Hp <-.
  pose proof (apply_policy_floor _ _ _ _ Hp) as Hfl.
  apply apply_policy_Ok in Hp as (Hl & Hv & Hd & Hr & Hc & _). unfold earned. rewrite Hv, Hd, Hr.
  apply achieved_earned in Ha as [(-> & -> & ->)|(p & dev & c & -> & Hcer & Hlev & Hvia & Hdev & _ & Hre)].
  - by split_and!.
  - split_and!; [done..|]. exists dev, c. rewrite Hl. auto.
Qed.

(** C18: an assurance level is earned.  When the verification answers, the level an
    approve must reach is the one the partner's policy gives its tier, and the level
    reached is at least the default of the tier and the level the partner's row stores
    for it (as far as a device can reach it), or the decision is flagged as a downgrade
    under a policy that does not enforce the tier now; what is recorded is consistent;
    and either no proof was presented and the level is 1, or the proof was accepted for
    an enabled device of the caller over an unexpired challenge issued for this approval
    and this caller, which is consumed: at level 3 the challenge is at most two minutes
    old, at level 4 the device is bound to its platform, on a trusted basis where
    attestation is enforced, and the caller has authenticated again. *)
Theorem assurance_is_earned i now s d s' :
  assertApprovalAssurance i now s = (Ok d, s') →
  assertDecisionConsistent d = Ok tt
  ∧ (i_approve i = true →
     requiredLevel d = requiredAssurance (i_riskTier i) (loadPartnerPolicy policies (i_partnerId i) ≫= floorOverrides)
     ∧ (meets_floor policies (i_partnerId i) (i_riskTier i) (decidedAssuranceLevel d)
        ∨ graceDowngrade d = true
          ∧ isEnforcing (loadPartnerPolicy policies (i_partnerId i)) now (i_riskTier i) defaultEnforceFrom = false))
  ∧ stepUpGrantReuse d = false
  ∧ match i_proof i with
    | None => decidedAssuranceLevel d = 1 ∧ decidedVia d = session_tap ∧ s' = s
    | Some p => ∃ dev c, ceremony i now s s' p dev c ∧ level_earned i now dev c (decidedAssuranceLevel d)
                         ∧ decidedVia d = via_of p ∧ authenticatorDeviceId d = Some (d_id dev)
    end.
Proof. apply ladder_earned. Qed.

(** The device a proof names, as its read finds it. *)
Definition row_of (p : ApprovalProof) (userId : string) : AuthenticatorDevice → bool :=
  match p with
  | webauthn_proof cred _ _ _ _ => webauthn_row userId cred
  | mobile_proof cred _ _ => mobile_row userId cred
  end.

Lemma escalate_reaches i now via d c :
  now - c_issuedAt c ≤ APPROVAL_CHALLENGE_TTL_MS →
  (i_riskTier i = critical → d_isPlatformBound d = true ∧ i_reauthVerified i = true
                             ∧ basis_trusted (factor_of via d (c_issuedAt c)) = true) →
  ∃ level, escalateAchievedLevel attestationEnforced (i_riskTier i) (factor_of via d (c_issuedAt c))
             (i_reauthVerified i) now = Ok level
           ∧ MAX_REACHABLE_ASSURANCE (i_riskTier i) ≤ level.
Proof.
  intros Hage Hcrit. unfold escalateAchievedLevel. cbn [factor_of f_challengeIssuedAt f_isPlatformBound].
  rewrite (proj2 (Z.ltb_ge APPROVAL_CHALLENGE_TTL_MS (now - c_issuedAt c)) Hage).
  destruct (i_riskTier i); [cbn; eauto using Z.le_refl..|].
  destruct Hcrit as (-> & -> & Hb); [done|]. rewrite Hb. cbn. eauto using Z.le_refl.
Qed.

Lemma achieved_reaches i now s p d c m :
  i_proof i = Some p → List.find (row_of p (i_userId i)) (devices s) = Some d →
  redis s = Some m → m !! key_of p (i_approvalId i) (i_userId i) = Some c → now < c_expires c →
  accepts p c d → now - c_issuedAt c ≤ APPROVAL_CHALLENGE_TTL_MS →
  (i_riskTier i = critical → d_isPlatformBound d = true ∧ i_reauthVerified i = true
                             ∧ basis_trusted (factor_of (via_of p) d (c_issuedAt c)) = true) →
  ∃ d0 s', achieved i now s = (Ok d0, s') ∧ MAX_REACHABLE_ASSURANCE (i_riskTier i) ≤ decidedAssuranceLevel d0.
Proof.
  intros Hp Hf Hr Hm Hx Hacc Hage Hcrit.
  destruct (escalate_reaches i now (via_of p) d c Hage Hcrit) as (level & Hl & Hle).
  unfold achieved. rewrite Hp. destruct p as [cred xa xb xc xh|cred nonce sig]; cbn [row_of key_of via_of] in *.
  - destruct Hacc as (_ & n & Hv). unfold verifyWebauthnFactor, andThen, find_device, consumeChallenge. rewrite Hf, Hr, Hm.
    cbn [mbind option_bind]. rewrite (proj2 (Z.ltb_lt now (c_expires c)) Hx), Hv. cbn [set_sign_count done_with].
    rewrite Hl. eauto.
  - destruct Hacc as (_ & Hn & alg & Ha & Hv). unfold verifyMobileFactor, andThen, find_device, consumeChallenge.
    rewrite Hf, Hr, Hm. cbn [mbind option_bind]. rewrite (proj2 (Z.ltb_lt now (c_expires c)) Hx).
    rewrite bool_decide_eq_false_2 by (intros Hne; done). rewrite Ha, Hn, Hv. cbn [negb set_sign_count done_with].
    rewrite Hl. eauto.
Qed.

(** No partner policy locks a tier.  Whatever levels are stored for a partner, an
    approve with an accepted proof over a fresh challenge (and, for a critical
    approval, a trusted platform-bound device and a new authentication) is answered
    with at least the level the policy requires of its tier. *)
Theorem every_floor_is_reachable i now s p d c m :
  i_proof i = Some p → List.find (row_of p (i_userId i)) (devices s) = Some d →
  redis s = Some m → m !! key_of p (i_approvalId i) (i_userId i) = Some c → now < c_expires c →
  accepts p c d → now - c_issuedAt c ≤ APPROVAL_CHALLENGE_TTL_MS →
  (i_riskTier i = critical → d_isPlatformBound d = true ∧ i_reauthVerified i = true
                             ∧ basis_trusted (factor_of (via_of p) d (c_issuedAt c)) = true) →
  ∃ r s', assertApprovalAssurance i now s = (Ok r, s') ∧ requiredLevel r ≤ decidedAssuranceLevel r.
Proof.
  intros. destruct (achieved_reaches i now s p d c m) as (d0 & s' & Ha & Hle); [done..|].
  pose proof (achieved_consistent _ _ _ _ _ Ha) as Hc. unfold assertApprovalAssurance, andThen. rewrite Ha.
  assert (Hmax : requiredAssurance (i_riskTier i)
            ((if i_approve i then loadPartnerPolicy policies (i_partnerId i) else None) ≫= floorOverrides)
            ≤ decidedAssuranceLevel d0).
  { etrans; [|exact Hle]. destruct (i_approve i); [apply required_le_max|].
    cbn. unfold requiredAssurance. cbn. apply floor_le_max. }
  exists (with_required (requiredAssurance (i_riskTier i)
            ((if i_approve i then loadPartnerPolicy policies (i_partnerId i) else None) ≫= floorOverrides)) d0), s'.
  unfold apply_policy. cbn [with_required requiredLevel decidedAssuranceLevel].
  rewrite (proj2 (Z.ltb_ge _ _) Hmax), andb_false_r. cbn [rbind].
  rewrite consistent_required, Hc. done.
Qed.

End verification.

(** ** Examples *)

Definition ex_device : AuthenticatorDevice :=
  mkDevice "d" "u" mobile_hw_key None "key" "ES256" 0 None None true ios_se_p256_app_attest (Some 1).
Definition ex_auth : Authenticators :=
  mkAuthenticators [ex_device] (Some {[ mobileKey "a" "u" := mkChallenge "n" 1000 121000 ]}).
Definition ex_sig (_ _ sig _ : string) : bool := String.eqb sig "good".
Definition ex_response (_ : ApprovalProof) (_ : string) (_ : AuthenticatorDevice) : result string (bool * Z) :=
  Err "not used".
(** The partner asks for level 4 of every tier, and enforces it. *)
Definition ex_policies : gmap string StoredAuthenticatorPolicy :=
  {[ "p" := mkPolicy (Some true) None (Some [(low, 4); (medium, 4); (high, 4)]) ]}.
Definition ex_input (t : RiskTier) (proof : option ApprovalProof) : AssuranceInput :=
  mkInput "a" "u" t proof (Some "p") true true.

Example tap_is_refused :
  (assertApprovalAssurance ex_response ex_sig true 0 ex_policies (ex_input high None) 2000 ex_auth).1
    = Err (StepUpRequiredError 3 1).
Proof. vm_compute. reflexivity. Qed.

Lemma assurance_is_earned_witness :
  ∃ d s', assertApprovalAssurance ex_response ex_sig true 0 ex_policies
            (ex_input high (Some (mobile_proof "d" "n" "good"))) 2000 ex_auth = (Ok d, s')
          ∧ 3 ≤ requiredLevel d ∧ stepUpGrantReuse d = false.
Proof.
  do 2 eexists. split; [vm_compute; reflexivity|]. split; [cbn; lia|].
  eapply (assurance_is_earned ex_response ex_sig true 0 ex_policies
            (ex_input high (Some (mobile_proof "d" "n" "good"))) 2000 ex_auth).
  vm_compute. reflexivity.
Defined.

Lemma every_floor_is_reachable_witness :
  ∃ r s', assertApprovalAssurance ex_response ex_sig true 0 ex_policies
            (ex_input critical (Some (mobile_proof "d" "n" "good"))) 2000 ex_auth = (Ok r, s')
          ∧ requiredLevel r ≤ decidedAssuranceLevel r.
Proof.
  apply (every_floor_is_reachable ex_response ex_sig true 0 ex_policies
           (ex_input critical (Some (mobile_proof "d" "n" "good"))) 2000 ex_auth
           (mobile_proof "d" "n" "good") ex_device (mkChallenge "n" 1000 121000)
           {[ mobileKey "a" "u" := mkChallenge "n" 1000 121000 ]}).
  - reflexivity.
  - vm_compute. reflexivity.
  - reflexivity.
  - vm_compute. reflexivity.
  - cbn. lia.
  - cbn [accepts]. split; [reflexivity|]. split; [reflexivity|]. exists "ES256". split; vm_compute; reflexivity.
  - cbn. unfold APPROVAL_CHALLENGE_TTL_MS. lia.
  - intros _. split; [reflexivity|]. split; [reflexivity|]. vm_compute. reflexivity.
Defined.

(** A proof is good for one decision: its challenge is gone afterwards. *)
Example replay_is_refused :
  let proof := Some (mobile_proof "d" "n" "good") in
  let s1 := (assertApprovalAssurance ex_response ex_sig true 0 ex_policies (ex_input high proof) 2000 ex_auth).2 in
  (assertApprovalAssurance ex_response ex_sig true 0 ex_policies (ex_input high proof) 2001 s1).1
    = Err (Failure "mobile assertion nonce missing or mismatched").
Proof. vm_compute. reflexivity. Qed.

End Ladder.
