(* ===== verification/StepUpGrant.v ===== *)
(** * Step-up grants, and the reusable grant for approval decisions

    [services/mfaStepUpGrant.ts] ([Grants]) and
    [services/approvals/approvalDecideGrant.ts] ([DecideGrant]).  A grant is a record
    in Redis under a random id, bound to a user, an operation, the epochs and session
    of the user and a digest of the resource; most are consumed when presented, the
    one for approval decisions may be presented again within two minutes of the
    ceremony behind it.  Redis is the map of the grants it holds with the time each
    expires, or nothing when it cannot be reached; ids and the digest function are
    inputs. *)
From S2P Require Import Prelude JsText Assurance.
From stdpp Require Import base tactics list strings gmap relations.
From Stdlib Require Import ZArith Lia.
Open Scope Z_scope.

Module Grants.

Inductive StepUpOperation :=
  add_factor | rotate_recovery_codes | delete_passkey | register_approver_device | agent_rollback
| enroll_first_factor | sso_reauth_manage_factor | device_maintenance | device_move_org
| parked_device_assign | parked_device_assign_bulk | pre_assignment_enable | ai_script_lane_grant
| ai_partner_script_ceiling_grant | approval_decide | topology_arm.
#[export] Instance StepUpOperation_eq_dec : EqDecision StepUpOperation.
Proof. solve_decision. Defined.

Record GrantBind := mkBind {
  b_userId : string; b_operation : StepUpOperation; b_authEpoch : Z; b_mfaEpoch : Z; b_sid : string;
  b_resourceDigest : option string }.

Record StoredGrant := mkStored { g_bind : GrantBind; g_context : option json }.

(** The grants by key, with the time each expires. *)
Definition Store : Type := option (gmap string (StoredGrant * Z)).

Definition TTL_SECONDS : Z := 300.
Definition OPERATION_TTL_SECONDS (op : StepUpOperation) : option Z :=
  match op with approval_decide => Some 120 | _ => None end.
Definition stepUpGrantTtlSeconds (op : StepUpOperation) : Z := default TTL_SECONDS (OPERATION_TTL_SECONDS op).

Definition grantKey (id : string) : string := "mfa:stepup:" +:+ id.

Definition bindsMatch (record bind : GrantBind) : bool :=
  bool_decide (b_userId record = b_userId bind)
  && bool_decide (b_operation record = b_operation bind)
  && (b_authEpoch record =? b_authEpoch bind)
  && (b_mfaEpoch record =? b_mfaEpoch bind)
  && bool_decide (b_sid record = b_sid bind)
  && bool_decide (default "" (b_resourceDigest record) = default "" (b_resourceDigest bind)).

Definition normalized (bind : GrantBind) : GrantBind :=
  mkBind (b_userId bind) (b_operation bind) (b_authEpoch bind) (b_mfaEpoch bind) (b_sid bind)
    (Some (default "" (b_resourceDigest bind))).

Definition mintStepUpGrant (id : string) (bind : GrantBind) (context : option json) (now : Z) (redis : Store)
    : option string * Store :=
  match redis with
  | None => (None, None)
  | Some m => (Some id, Some (<[grantKey id := (mkStored (normalized bind) context,
                                               now + stepUpGrantTtlSeconds (b_operation bind) * 1000)]> m))
  end.

(** [GET]. *)
Definition get_grant (redis : Store) (id : string) (now : Z) : option StoredGrant :=
  m ← redis; e ← m !! grantKey id; if now <? e.2 then Some e.1 else None.

Definition validateStepUpGrant (redis : Store) (id : string) (bind : GrantBind) (now : Z) : bool :=
  match get_grant redis id now with
  | Some g => bindsMatch (g_bind g) bind
  | None => false
  end.

Definition readStepUpGrant (redis : Store) (id : string) (bind : GrantBind) (now : Z) : option (option json) :=
  g ← get_grant redis id now; if bindsMatch (g_bind g) bind then Some (g_context g) else None.

(** [GETDEL]. *)
Definition consumeStepUpGrant (redis : Store) (id : string) (bind : GrantBind) (now : Z) : bool * Store :=
  (match get_grant redis id now with Some g => bindsMatch (g_bind g) bind | None => false end,
   delete (grantKey id) <$> redis).

(** The resource digests. *)
Section digests.
Context (sha256 : string → string).

Definition digest_of (canonical : string) : string := "sha256:" +:+ sha256 canonical.
Definition js_bool (b : bool) : string := if b then "true" else "false".

Definition rollbackResourceDigest (deviceId currentVersion targetVersion reason : string) : string :=
  digest_of (json_object [("currentVersion", quoted currentVersion); ("deviceId", quoted deviceId);
                          ("reason", quoted reason); ("targetVersion", quoted targetVersion)]).

Definition moveOrgResourceDigest (deviceId targetOrgId targetSiteId : string)
    (acceptCurrencyMismatch : option bool) : string :=
  digest_of (json_object
    [("acceptCurrencyMismatch", js_bool (bool_decide (acceptCurrencyMismatch = Some true)));
     ("deviceId", quoted deviceId); ("targetOrgId", quoted targetOrgId); ("targetSiteId", quoted targetSiteId)]).

Definition parkedAssignResourceDigest (deviceId targetOrgId targetSiteId : string) : string :=
  digest_of (json_object
    [("kind", quoted "parked_device_assign"); ("deviceId", quoted deviceId);
     ("targetOrgId", quoted targetOrgId); ("targetSiteId", quoted targetSiteId)]).

Definition preAssignmentEnableResourceDigest (partnerId : string) : string :=
  digest_of (json_object
    [("kind", quoted "pre_assignment_enable"); ("partnerId", quoted partnerId); ("enabled", js_bool true)]).

Definition topologyArmResourceDigest (siteId action subjectId : string) : string :=
  digest_of (json_object
    [("action", quoted action); ("siteId", quoted (toLowerCase siteId)); ("subjectId", quoted (toLowerCase subjectId))]).

Definition passkeyRemovalResourceDigest (passkeyId : string) : string :=
  digest_of (json_object [("passkeyId", quoted passkeyId)]).
End digests.

Lemma bindsMatch_spec r b :
  bindsMatch r b = true →
  b_userId r = b_userId b ∧ b_operation r = b_operation b ∧ b_authEpoch r = b_authEpoch b
  ∧ b_mfaEpoch r = b_mfaEpoch b ∧ b_sid r = b_sid b
  ∧ default "" (b_resourceDigest r) = default "" (b_resourceDigest b).
Proof. unfold bindsMatch. intros. bool_hyps. auto 10. Qed.

Lemma get_grant_Some redis id now g :
  get_grant redis id now = Some g →
  ∃ m x, redis = Some m ∧ m !! grantKey id = Some (g, x) ∧ now < x.
Proof.
  unfold get_grant. destruct redis as [m|]; cbn; [|done].
  destruct (m !! grantKey id) as [[g' x]|] eqn:E; cbn; [|done].
  destruct (now <? x) eqn:Ex; [|done]. intros [= ->]. bool_hyps. eauto.
Qed.

(** A grant that is consumed answers once. *)
Lemma consumed_once redis id bind now bind' now' :
  (consumeStepUpGrant (consumeStepUpGrant redis id bind now).2 id bind' now').1 = false.
Proof.
  destruct redis as [m|]; [|done]. cbn. unfold get_grant. cbn. by rewrite lookup_delete_eq.
Qed.

End Grants.

Module DecideGrant.
Import Levels Ladder Grants.

(** [action_intents.approval_scope]. *)
Inductive ApprovalScope := supervised | four_eyes.
#[export] Instance ApprovalScope_eq_dec : EqDecision ApprovalScope.
Proof. solve_decision. Defined.

Definition APPROVAL_DECIDE_GRANT_TTL_MS : Z := stepUpGrantTtlSeconds approval_decide * 1000.
Definition MIN_GRANTABLE_LEVEL : Z := 3.

Record ApprovalDecideGrantContext := mkContext {
  x_level : Z; x_via : Factor; x_deviceId : string; x_ceremonyAt : Z }.

Record ApprovalDecideScope := mkScope {
  s_approvalScope : ApprovalScope; s_agentRunId : option string; s_aiSessionId : option string;
  s_orgId : string; s_riskTier : RiskTier }.

Definition isApprovalDecideGrantEligible (scope : ApprovalDecideScope) : bool :=
  bool_decide (s_approvalScope scope = supervised)
  && negb (bool_decide (s_riskTier scope = critical))
  && (bool_decide (is_Some (s_agentRunId scope)) || bool_decide (is_Some (s_aiSessionId scope))).

Definition scope_text (a : ApprovalScope) : string :=
  match a with supervised => "supervised" | four_eyes => "four_eyes" end.
Definition tier_text (t : RiskTier) : string :=
  match t with low => "low" | medium => "medium" | high => "high" | critical => "critical" end.
Definition factor_text (f : Factor) : string :=
  match f with
  | session_tap => "session_tap" | webauthn_platform => "webauthn_platform" | mobile_hw_key => "mobile_hw_key"
  end.

Definition scope_json (s : ApprovalDecideScope) : string :=
  json_object [("agentRunId", quoted_or_null (s_agentRunId s)); ("aiSessionId", quoted_or_null (s_aiSessionId s));
               ("approvalScope", quoted (scope_text (s_approvalScope s))); ("orgId", quoted (s_orgId s));
               ("riskTier", quoted (tier_text (s_riskTier s)))].

Section decide_grant.
Context (sha256 : string → string).

Definition approvalDecideResourceDigest (s : ApprovalDecideScope) : string := digest_of sha256 (scope_json s).

(** The epochs of the user and the session: what a grant binds besides the scope. *)
Record GrantSession := mkSession { n_authEpoch : Z; n_mfaEpoch : Z; n_sid : string }.

Definition approvalDecideGrantBinding (userId : string) (n : GrantSession) (s : ApprovalDecideScope) : GrantBind :=
  mkBind userId approval_decide (n_authEpoch n) (n_mfaEpoch n) (n_sid n) (Some (approvalDecideResourceDigest s)).

Definition context_json (c : ApprovalDecideGrantContext) : json :=
  JObj [("decidedAssuranceLevel", JNum (x_level c)); ("decidedVia", JStr (factor_text (x_via c)));
        ("authenticatorDeviceId", JStr (x_deviceId c)); ("ceremonyAt", JNum (x_ceremonyAt c))].

Definition mintApprovalDecideGrant (id userId : string) (n : GrantSession) (s : ApprovalDecideScope)
    (a : AssuranceDecision) (now : Z) (redis : Store) : option string * Store :=
  if negb (isApprovalDecideGrantEligible s) then (None, redis)
  else if stepUpGrantReuse a then (None, redis)
  else if bool_decide (decidedVia a = session_tap) then (None, redis)
  else if decidedAssuranceLevel a <? MIN_GRANTABLE_LEVEL then (None, redis)
  else match authenticatorDeviceId a with
       | None => (None, redis)
       | Some device =>
           mintStepUpGrant id (approvalDecideGrantBinding userId n s)
             (Some (context_json (mkContext (decidedAssuranceLevel a) (decidedVia a) device now))) now redis
       end.

(** The shape of the stored context: a level of 2 to 4, a device factor, a device, a
    time. *)
Definition parseGrantContext (raw : option json) : option ApprovalDecideGrantContext :=
  c ← raw;
  match jget "decidedAssuranceLevel" c, jget "decidedVia" c, jget "authenticatorDeviceId" c, jget "ceremonyAt" c with
  | Some (JNum level), Some (JStr via), Some (JStr device), Some (JNum at_) =>
      if (level =? 2) || (level =? 3) || (level =? 4) then
        f ← (if String.eqb via "webauthn_platform" then Some webauthn_platform
             else if String.eqb via "mobile_hw_key" then Some mobile_hw_key else None);
        if String.eqb device "" then None else Some (mkContext level f device at_)
      else None
  | _, _, _, _ => None
  end.

Definition device_live (devs : list AuthenticatorDevice) (device userId : string) : bool :=
  existsb (λ d, bool_decide (d_id d = device) && bool_decide (d_userId d = userId)
                && bool_decide (d_disabledAt d = None)) devs.

Definition redeemApprovalDecideGrant (redis : Store) (devs : list AuthenticatorDevice) (grantId userId : string)
    (n : GrantSession) (s : ApprovalDecideScope) (now : Z) : option ApprovalDecideGrantContext :=
  if negb (isApprovalDecideGrantEligible s) then None
  else
    record ← readStepUpGrant redis grantId (approvalDecideGrantBinding userId n s) now;
    c ← parseGrantContext record;
    if x_level c <? MIN_GRANTABLE_LEVEL then None
    else let ageMs := now - x_ceremonyAt c in
         if (ageMs <? 0) || (APPROVAL_DECIDE_GRANT_TTL_MS <? ageMs) then None
         else if device_live devs (x_deviceId c) userId then Some c else None.

(** ** Where a redeemed grant comes from *)

(** A ceremony a grant was minted from. *)
Record Minted := mkMinted {
  m_userId : string; m_session : GrantSession; m_scope : ApprovalDecideScope; m_assurance : AssuranceDecision; m_at : Z }.

Record World := mkWorld { w_redis : Store; w_devices : list AuthenticatorDevice; w_minted : list Minted }.

(** Grants are minted and consumed, devices change, Redis loses keys.  Only the
    minting of an approval grant is recorded; the other operations' grants are minted
    with any binding. *)
Inductive step : World → World → Prop :=
| step_mint_decide w id u n s a now :
    step w (mkWorld (mintApprovalDecideGrant id u n s a now (w_redis w)).2 (w_devices w)
              (mkMinted u n s a now :: w_minted w))
| step_mint_other w id bind ctx now :
    b_operation bind ≠ approval_decide →
    step w (mkWorld (mintStepUpGrant id bind ctx now (w_redis w)).2 (w_devices w) (w_minted w))
| step_consume w id bind now :
    step w (mkWorld (consumeStepUpGrant (w_redis w) id bind now).2 (w_devices w) (w_minted w))
| step_devices w devs : step w (mkWorld (w_redis w) devs (w_minted w))
| step_lose w key : step w (mkWorld (delete key <$> w_redis w) (w_devices w) (w_minted w)).

Definition initial (w : World) : Prop := (∀ m, w_redis w = Some m → m = ∅) ∧ w_minted w = [].

(** What a stored approval grant was minted from. *)
Definition from_ceremony (log : list Minted) (g : StoredGrant) : Prop :=
  ∃ k device, k ∈ log ∧ isApprovalDecideGrantEligible (m_scope k) = true
    ∧ stepUpGrantReuse (m_assurance k) = false ∧ decidedVia (m_assurance k) ≠ session_tap
    ∧ MIN_GRANTABLE_LEVEL ≤ decidedAssuranceLevel (m_assurance k)
    ∧ authenticatorDeviceId (m_assurance k) = Some device
    ∧ g_bind g = normalized (approvalDecideGrantBinding (m_userId k) (m_session k) (m_scope k))
    ∧ g_context g = Some (context_json (mkContext (decidedAssuranceLevel (m_assurance k))
                            (decidedVia (m_assurance k)) device (m_at k))).

Definition grants_minted (w : World) : Prop :=
  ∀ m key g x, w_redis w = Some m → m !! key = Some (g, x) →
    b_operation (g_bind g) = approval_decide → from_ceremony (w_minted w) g.

Lemma from_ceremony_more log k g : from_ceremony log g → from_ceremony (k :: log) g.
Proof. intros (k' & d & Hin & H). exists k', d. split; [by right|done]. Qed.

Lemma minted_insert id bind ctx now redis log :
  (∀ m key g x, redis = Some m → m !! key = Some (g, x) →
     b_operation (g_bind g) = approval_decide → from_ceremony log g) →
  (b_operation bind = approval_decide → from_ceremony log (mkStored (normalized bind) ctx)) →
  ∀ m key g x, (mintStepUpGrant id bind ctx now redis).2 = Some m → m !! key = Some (g, x) →
    b_operation (g_bind g) = approval_decide → from_ceremony log g.
Proof.
  intros Hold Hnew m key g x. destruct redis as [m0|]; cbn; [|done]. intros [= <-].
  destruct (decide (grantKey id = key)) as [<-|Hne].
  - rewrite lookup_insert_eq. intros [= <- _]. cbn. done.
  - rewrite lookup_insert_ne by done. by apply Hold.
Qed.

Lemma step_minted w w' : step w w' → grants_minted w → grants_minted w'.
Proof.
  unfold grants_minted. intros [] Hw; cbn [w_redis w_minted] in *.
  - assert (Hold : ∀ m key g x, w_redis w0 = Some m → m !! key = Some (g, x) →
              b_operation (g_bind g) = approval_decide → from_ceremony (mkMinted u n s a now :: w_minted w0) g)
      by eauto using from_ceremony_more.
    unfold mintApprovalDecideGrant. destruct (isApprovalDecideGrantEligible s) eqn:Ee; cbn [negb]; [|done].
    destruct (stepUpGrantReuse a) eqn:Er; [done|]. case_bool_decide as Hv; [done|].
    destruct (_ <? _) eqn:El; [done|]. apply Z.ltb_ge in El. destruct (authenticatorDeviceId a) as [d|] eqn:Ed; [|done].
    apply minted_insert; [done|]. intros _. eexists _, d. split; [left|]. cbn. auto 10.
  - by apply minted_insert.
  - unfold consumeStepUpGrant. cbn. intros m key g x. destruct (w_redis w0) as [m0|] eqn:E0; cbn; [|done].
    intros [= <-] [_ Hl]%lookup_delete_Some. by apply (Hw m0 key g x).
  - done.
  - intros m key' g x. destruct (w_redis w0) as [m0|] eqn:E0; cbn; [|done].
    intros [= <-] [_ Hl]%lookup_delete_Some. by apply (Hw m0 key' g x).
Qed.

Lemma reachable_minted w0 w : initial w0 → rtc step w0 w → grants_minted w.
Proof.
  intros [Hm Hl] Hr. eapply (rtc_invariant step grants_minted); [exact step_minted|exact Hr|].
  intros m key g x Hw Hg. rewrite (Hm m Hw), lookup_empty in Hg. done.
Qed.
End decide_grant.

(** *** The digest names the scope *)

Definition plain_scope (s : ApprovalDecideScope) : Prop :=
  (∀ x, s_agentRunId s = Some x → plain x) ∧ (∀ x, s_aiSessionId s = Some x → plain x) ∧ plain (s_orgId s).

Lemma scope_text_inj a b : scope_text a = scope_text b → a = b.
Proof. by destruct a, b. Qed.
Lemma tier_text_inj a b : tier_text a = tier_text b → a = b.
Proof. by destruct a, b. Qed.
Lemma scope_text_plain a : plain (scope_text a).
Proof. by apply (bool_decide_unpack _); destruct a. Qed.
Lemma tier_text_plain a : plain (tier_text a).
Proof. by apply (bool_decide_unpack _); destruct a. Qed.

Lemma scope_json_fields s :
  scope_json s =
    ("{" +:+ quoted "agentRunId" +:+ ":") +:+ quoted_or_null (s_agentRunId s)
    +:+ ("," +:+ quoted "aiSessionId" +:+ ":") +:+ quoted_or_null (s_aiSessionId s)
    +:+ ("," +:+ quoted "approvalScope" +:+ ":") +:+ quoted (scope_text (s_approvalScope s))
    +:+ ("," +:+ quoted "orgId" +:+ ":") +:+ quoted (s_orgId s)
    +:+ ("," +:+ quoted "riskTier" +:+ ":") +:+ quoted (tier_text (s_riskTier s)) +:+ "}".
Proof. reflexivity. Qed.

Lemma scope_json_inj s t : plain_scope s → plain_scope t → scope_json s = scope_json t → s = t.
Proof.
  intros (Ha & Hb & Hc) (Ha' & Hb' & Hc'). rewrite !scope_json_fields. intros H%append_cancel.
  apply quoted_or_null_inj in H as [E1 H%append_cancel]; [|done..].
  apply quoted_or_null_inj in H as [E2 H%append_cancel]; [|done..].
  apply quoted_inj in H as [E3%scope_text_inj H%append_cancel]; [|apply scope_text_plain..].
  apply quoted_inj in H as [E4 H%append_cancel]; [|done..].
  apply quoted_inj in H as [E5%tier_text_inj _]; [|apply tier_text_plain..].
  destruct s, t; cbn in *. by subst.
Qed.

Section redeem.
Context (sha256 : string → string) (sha256_inj : ∀ x y, sha256 x = sha256 y → x = y).

Lemma digest_inj s t :
  plain_scope s → plain_scope t →
  approvalDecideResourceDigest sha256 s = approvalDecideResourceDigest sha256 t → s = t.
Proof.
  intros Hs Ht H%append_cancel%sha256_inj. by apply scope_json_inj.
Qed.

(** C24: a reused approval is a recent ceremony.  Whatever grants have been minted,
    consumed or lost before, a grant is redeemed only if a decision of the same user,
    in the same session and at the same epochs, for the same conversation,
    organization and tier, was made by a device factor at level 3 or above at most two
    minutes ago and itself reused no grant; the level, factor and device it answers
    with are that ceremony's; the device is still enabled and the user's; and the
    approval is supervised and not critical. *)
Theorem reused_approval_is_a_recent_ceremony w0 w grantId userId n s now c :
  initial w0 → rtc (step sha256) w0 w →
  plain_scope s → (∀ k, k ∈ w_minted w → plain_scope (m_scope k)) →
  redeemApprovalDecideGrant sha256 (w_redis w) (w_devices w) grantId userId n s now = Some c →
  s_approvalScope s = supervised ∧ s_riskTier s ≠ critical
  ∧ (∃ d, d ∈ w_devices w ∧ d_id d = x_deviceId c ∧ d_userId d = userId ∧ d_disabledAt d = None)
  ∧ ∃ k, k ∈ w_minted w ∧ m_userId k = userId ∧ m_session k = n ∧ m_scope k = s
         ∧ stepUpGrantReuse (m_assurance k) = false
         ∧ MIN_GRANTABLE_LEVEL ≤ decidedAssuranceLevel (m_assurance k)
         ∧ x_level c = decidedAssuranceLevel (m_assurance k) ∧ x_via c = decidedVia (m_assurance k)
         ∧ authenticatorDeviceId (m_assurance k) = Some (x_deviceId c)
         ∧ m_at k ≤ now ≤ m_at k + APPROVAL_DECIDE_GRANT_TTL_MS.
Proof.
  intros Hi Hr Hs Hk. pose proof (reachable_minted _ _ _ Hi Hr) as Hw.
  unfold redeemApprovalDecideGrant. destruct (isApprovalDecideGrantEligible s) eqn:Ee; cbn [negb]; [|done].
  unfold readStepUpGrant. destruct (get_grant _ _ _) as [g|] eqn:Eg; cbn [mbind option_bind]; [|done].
  destruct (bindsMatch _ _) eqn:Eb; cbn [mbind option_bind]; [|done].
  apply bindsMatch_spec in Eb as (Bu & Bo & Ba & Bm & Bs & Bd). cbn in Bu, Bo, Ba, Bm, Bs, Bd.
  apply get_grant_Some in Eg as (m & x & Hm & Hg & _).
  destruct (Hw m _ g x Hm Hg Bo) as (k & device & Hin & Hel & Hre & Hv & Hlv & Hdev & Hb & Hc).
  rewrite Hb in *. cbn in Bu, Ba, Bm, Bs, Bd. rewrite Hc. clear Hb Hc.
  apply digest_inj in Bd; [|by apply Hk|done]. subst s userId.
  destruct (parseGrantContext _) as [c'|] eqn:Ep; cbn [mbind option_bind]; [|done].
  assert (c' = mkContext (decidedAssuranceLevel (m_assurance k)) (decidedVia (m_assurance k)) device (m_at k)) as ->.
  { unfold parseGrantContext in Ep. cbn in Ep. destruct (_ || _ || _); [|done].
    destruct (decidedVia (m_assurance k)); cbn in Ep; [done| |];
      destruct (String.eqb device "") eqn:E; by (discriminate Ep || (rewrite E in Ep; by simplify_eq Ep) || simplify_eq Ep). }
  cbn [x_level x_ceremonyAt x_deviceId]. destruct (_ <? MIN_GRANTABLE_LEVEL); [done|].
  destruct (_ || _) eqn:Ea; [done|]. apply orb_false_iff in Ea as [Ea1%Z.ltb_ge Ea2%Z.ltb_ge].
  destruct (device_live _ _ _) eqn:El; [|done]. intros [= <-]. cbn [x_level x_via x_deviceId].
  unfold isApprovalDecideGrantEligible in Hel. apply andb_true_iff in Hel as [Hel _].
  apply andb_true_iff in Hel as [H1%bool_decide_eq_true H2%negb_true_iff%bool_decide_eq_false].
  unfold device_live in El. apply existsb_exists in El as (d & Hd & Hd'). apply list_elem_of_In in Hd. bool_hyps.
  split_and!; [done|done|exists d; split_and!; done|].
  exists k. split_and!; try done; try lia. destruct (m_session k), n; cbn in *. congruence.
Qed.
End redeem.

Definition ex_scope : ApprovalDecideScope := mkScope supervised None (Some "chat") "org" high.
Definition ex_session : GrantSession := mkSession 1 1 "sid".
Definition ex_decision : AssuranceDecision := mkDecision 3 3 mobile_hw_key (Some "d") false false.
Definition ex_start : World := mkWorld (Some ∅) [ex_device] [].
Definition ex_minted : World :=
  mkWorld (mintApprovalDecideGrant id "g" "u" ex_session ex_scope ex_decision 1000 (Some ∅)).2 [ex_device]
    [mkMinted "u" ex_session ex_scope ex_decision 1000].

Lemma reused_approval_is_a_recent_ceremony_witness :
  ∃ c, redeemApprovalDecideGrant id (w_redis ex_minted) (w_devices ex_minted) "g" "u" ex_session ex_scope 60000 = Some c
       ∧ s_riskTier ex_scope ≠ critical.
Proof.
  eexists. split; [vm_compute; reflexivity|].
  refine (proj1 (proj2 (reused_approval_is_a_recent_ceremony id (λ x y H, H) ex_start ex_minted "g" "u"
            ex_session ex_scope 60000 _ _ _ _ _ _))).
  - split; [intros m [= <-]; reflexivity|reflexivity].
  - apply rtc_once. apply (step_mint_decide id ex_start).
  - split_and!; [intros x [=]|intros x [= <-]; by apply (bool_decide_unpack _)|by apply (bool_decide_unpack _)].
  - intros k Hk. apply list_elem_of_singleton in Hk as ->.
    split_and!; [intros x [=]|intros x [= <-]; by apply (bool_decide_unpack _)|by apply (bool_decide_unpack _)].
  - vm_compute. reflexivity.
Defined.

(** Two minutes after the ceremony, and in another conversation, it is refused. *)
Example grant_expires :
  redeemApprovalDecideGrant id (w_redis ex_minted) (w_devices ex_minted) "g" "u" ex_session ex_scope 121001 = None.
Proof. vm_compute. reflexivity. Qed.
Example grant_is_bound :
  redeemApprovalDecideGrant id (w_redis ex_minted) (w_devices ex_minted) "g" "u" ex_session
    (mkScope supervised None (Some "other") "org" high) 60000 = None.
Proof. vm_compute. reflexivity. Qed.

End DecideGrant.
