(* ===== verification/Intents.v ===== *)
(** * Action intents: the durable approval layer

    [services/actionIntents/intentService.ts], [policyDecide.ts],
    [exposureBudget.ts], [selfApprovalPolicy.ts], [freshApproverFactor.ts] and
    [jobs/intentExpiryReaper.ts]: a proposed tool call is a row that is created,
    fanned out to approvers as approval rows, decided, released and finished.  The
    columns a trigger of the database guards are [IntentContent], the others
    [IntentState]; of the former only the target device can change, to none.  Every writer is a function on the tables; the clock of the server
    ([now]) and of the database ([sqlNow]) are inputs, as are generated ids.  The
    deciding handler is in [ApprovalDecide], histories in [IntentHistory]. *)
From S2P Require Import Prelude JsText Assurance StepUpGrant Transaction OperatorTask OperatorDispatch.
From stdpp Require Import base tactics list strings gmap.
From Stdlib Require Import ZArith Lia.
Open Scope Z_scope.

Module Intents.
Import Levels Ladder DecideGrant.

(** ** Rows *)

Inductive Status := pending_approval | approved | executing | completed | failed | rejected | expired | cancelled.
Inductive PolicyDecisionState := unattempted | authorized | human_required.
Inductive Source := chat | mcp_api | ai_agent.
Inductive ScopeKind := device_scope | ticket_scope.
(** [decided_via]: a human's factor, or what decided in place of a human. *)
Inductive DecidedVia := by_factor (f : Factor) | by_policy | by_ticket_autonomy | by_script_reviewer.

#[export] Instance Status_eq_dec : EqDecision Status.
Proof. solve_decision. Defined.
#[export] Instance PolicyDecisionState_eq_dec : EqDecision PolicyDecisionState.
Proof. solve_decision. Defined.
#[export] Instance Source_eq_dec : EqDecision Source.
Proof. solve_decision. Defined.
#[export] Instance ScopeKind_eq_dec : EqDecision ScopeKind.
Proof. solve_decision. Defined.
#[export] Instance DecidedVia_eq_dec : EqDecision DecidedVia.
Proof. solve_decision. Defined.

Record IntentContent := mkContent {
  n_id : string; n_orgId : string;
  n_requestedByUserId : option string; n_requestingAgentRunId : option string; n_source : Source;
  n_actionName : string; n_arguments : json; n_argumentDigest : string; n_idempotencyKey : string;
  n_riskTier : Z; n_approvalScope : ApprovalScope; n_scopeKind : option ScopeKind; n_scopeDeviceId : option string;
  n_taskId : option string; n_taskStepKey : option string; n_operationKey : option string;
  n_toolSourceToolId : option string; n_toolRevision : option Z; n_expiresAt : Z }.

Record IntentState := mkState {
  n_status : Status; n_policyDecisionState : PolicyDecisionState;
  n_approvalExpiresAt : option Z; n_releaseBy : option Z;
  n_decidedAt : option Z; n_decidedByUserId : option string; n_decidedAssuranceLevel : option Z;
  n_decidedVia : option DecidedVia; n_executionStartedAt : option Z; n_executedAt : option Z;
  n_errorCode : option string }.

Record Intent := mkIntent { n_content : IntentContent; n_state : IntentState }.

Inductive ApprovalStatus := a_pending | a_approved | a_denied | a_expired | a_reported.
#[export] Instance ApprovalStatus_eq_dec : EqDecision ApprovalStatus.
Proof. solve_decision. Defined.

Record ApprovalRow := mkApprovalRow {
  a_id : string; a_userId : string; a_intentId : option string; a_elevationRequestId : option string;
  a_executionId : option string; a_toolName : string; a_arguments : json; a_riskTier : RiskTier;
  a_expiresAt : Z; a_boundArgumentDigest : option string;
  a_status : ApprovalStatus; a_decidedAt : option Z; a_decisionReason : option string;
  a_decidedAssuranceLevel : option Z; a_decidedVia : option Factor; a_authenticatorDeviceId : option string;
  a_decidedViaStepUpGrant : bool; a_refusalReason : option string }.

Inductive OutboxEvent :=
  intent_created | intent_approved | intent_completed | intent_failed | intent_rejected | intent_expired | intent_cancelled.
#[export] Instance OutboxEvent_eq_dec : EqDecision OutboxEvent.
Proof. solve_decision. Defined.

(** [ai_unattended_exposure]. *)
Inductive ExposureSource := act | policy_intent.
#[export] Instance ExposureSource_eq_dec : EqDecision ExposureSource.
Proof. solve_decision. Defined.
Record Exposure := mkExposure {
  x_orgId : string; x_agentId : string; x_deviceId : string; x_intentId : option string;
  x_source : ExposureSource; x_reservedAt : Z }.

(** [script_proposals]: what the intents read and write of it. *)
Record Proposal := mkProposal {
  p_orgId : string; p_reviewed : bool; p_expiresAt : Z; p_intentId : option string; p_strictHits : list string;
  p_acknowledgedPatterns : option (list string) }.

(** Operations are keyed, with the task and the key they were reserved for. *)
Record Db := mkDb {
  intents : gmap string Intent; approvals : gmap string ApprovalRow;
  outbox : list (string * OutboxEvent);
  taskOutbox : list (string * string * OutboxEvent);
  operations : list Dispatch.OperationRow; operationKeys : gmap (string * string * string) string;
  exposure : list Exposure; proposals : gmap string Proposal }.

Definition set_intents (m : gmap string Intent) (db : Db) : Db :=
  mkDb m (approvals db) (outbox db) (taskOutbox db) (operations db) (operationKeys db) (exposure db) (proposals db).
Definition set_approvals (m : gmap string ApprovalRow) (db : Db) : Db :=
  mkDb (intents db) m (outbox db) (taskOutbox db) (operations db) (operationKeys db) (exposure db) (proposals db).
Definition add_outbox (e : string * OutboxEvent) (db : Db) : Db :=
  mkDb (intents db) (approvals db) (outbox db ++ [e]) (taskOutbox db) (operations db) (operationKeys db) (exposure db) (proposals db).
Definition set_taskOutbox (l : list (string * string * OutboxEvent)) (db : Db) : Db :=
  mkDb (intents db) (approvals db) (outbox db) l (operations db) (operationKeys db) (exposure db) (proposals db).
Definition set_operations (l : list Dispatch.OperationRow) (db : Db) : Db :=
  mkDb (intents db) (approvals db) (outbox db) (taskOutbox db) l (operationKeys db) (exposure db) (proposals db).
Definition set_operationKeys (m : gmap (string * string * string) string) (db : Db) : Db :=
  mkDb (intents db) (approvals db) (outbox db) (taskOutbox db) (operations db) m (exposure db) (proposals db).
Definition add_exposure (x : Exposure) (db : Db) : Db :=
  mkDb (intents db) (approvals db) (outbox db) (taskOutbox db) (operations db) (operationKeys db) (x :: exposure db) (proposals db).
Definition set_proposals (m : gmap string Proposal) (db : Db) : Db :=
  mkDb (intents db) (approvals db) (outbox db) (taskOutbox db) (operations db) (operationKeys db) (exposure db) m.

(** [UPDATE … WHERE]: the rows that match. *)
Definition update_where {A} (p : A → bool) (f : A → A) (m : gmap string A) : gmap string A :=
  (λ r, if p r then f r else r) <$> m.

(** [UPDATE action_intents SET … WHERE id = … AND p RETURNING]: the row, if it matched. *)
Definition cas_intent (id : string) (p : Intent → bool) (f : IntentState → IntentState) (db : Db) : option Intent * Db :=
  match intents db !! id with
  | Some i => if p i then let i' := mkIntent (n_content i) (f (n_state i)) in (Some i', set_intents (<[id := i']> (intents db)) db)
              else (None, db)
  | None => (None, db)
  end.

Definition status (i : Intent) : Status := n_status (n_state i).
Definition status_in (l : list Status) (i : Intent) : bool := bool_decide (status i ∈ l).

Definition with_status (s : Status) (n : IntentState) : IntentState :=
  mkState s (n_policyDecisionState n) (n_approvalExpiresAt n) (n_releaseBy n) (n_decidedAt n) (n_decidedByUserId n)
    (n_decidedAssuranceLevel n) (n_decidedVia n) (n_executionStartedAt n) (n_executedAt n) (n_errorCode n).
Definition with_policy_state (p : PolicyDecisionState) (n : IntentState) : IntentState :=
  mkState (n_status n) p (n_approvalExpiresAt n) (n_releaseBy n) (n_decidedAt n) (n_decidedByUserId n)
    (n_decidedAssuranceLevel n) (n_decidedVia n) (n_executionStartedAt n) (n_executedAt n) (n_errorCode n).

(** ** Constants and classification *)

Definition CHAT_EXPIRY_MS : Z := 5 * 60 * 1000.
Definition FOUR_EYES_CHAT_EXPIRY_MS : Z := 60 * 60 * 1000.
Definition MCP_EXPIRY_MS : Z := 24 * 60 * 60 * 1000.
Definition AGENT_INTENT_EXPIRY_MS : Z := 24 * 60 * 60 * 1000.
Definition RELEASE_LEASE_MS : Z := 10 * 60 * 1000.
Definition AI_APPROVAL_TIMEOUT_MIN_MINUTES : Z := 5.
Definition AI_APPROVAL_TIMEOUT_MAX_MINUTES : Z := 60.

(** [windowMs] as the floor of the number given; absent, or not finite, is [None]. *)
Definition clampChatApprovalWindowMs (windowMs : option Z) : Z :=
  match windowMs with
  | None => CHAT_EXPIRY_MS
  | Some ms => Z.min (AI_APPROVAL_TIMEOUT_MAX_MINUTES * 60000) (Z.max (AI_APPROVAL_TIMEOUT_MIN_MINUTES * 60000) ms)
  end.

Definition computeExpiresAt (source : Source) (scope : ApprovalScope) (windowMs : option Z) (now : Z) : Z :=
  match source with
  | ai_agent => now + AGENT_INTENT_EXPIRY_MS
  | mcp_api => now + MCP_EXPIRY_MS
  | chat => now + match scope with supervised => clampChatApprovalWindowMs windowMs | four_eyes => FOUR_EYES_CHAT_EXPIRY_MS end
  end.

Definition riskTierLabel (tier : Z) : RiskTier := if 4 <=? tier then critical else if 3 <=? tier then high else medium.

Definition LIVE_INTENT_STATUSES : list Status := [pending_approval; approved; executing].

Definition isTaskLinkedIntent (c : IntentContent) : bool :=
  bool_decide (is_Some (n_taskId c)) && bool_decide (is_Some (n_taskStepKey c)) && bool_decide (is_Some (n_operationKey c)).

Definition SOLE_OPERATOR_SELF_APPROVAL_FORBIDDEN_ACTIONS : list string := ["request_elevation"].
Definition isSoleOperatorSelfApprovalForbidden (actionName : string) : bool :=
  bool_decide (actionName ∈ SOLE_OPERATOR_SELF_APPROVAL_FORBIDDEN_ACTIONS).

Definition FRESH_APPROVER_FACTOR_TOOLS : list string := ["diagnose_connectivity"].
Definition FRESH_APPROVER_FACTOR_MIN_LEVEL : Z := 3.
Definition requiresFreshApproverFactor (toolName : string) : bool := bool_decide (toolName ∈ FRESH_APPROVER_FACTOR_TOOLS).
Definition isFreshApproverFactor (d : AssuranceDecision) : bool :=
  (bool_decide (decidedVia d = webauthn_platform) || bool_decide (decidedVia d = mobile_hw_key))
  && (FRESH_APPROVER_FACTOR_MIN_LEVEL <=? decidedAssuranceLevel d) && negb (stepUpGrantReuse d).

(** The sweep's eligibility to act, as the caller assembled it. *)
Record SweepActEligibility := mkSweepAct { w_scheduleActMode : bool; w_argumentsMatchSubject : bool }.

(** [policyDecideEnabled] and [sweepActEnabled] are settings. *)
Definition resolvePolicyDecisionState (policyDecideEnabled sweepActEnabled : bool) (tier : Z) (scope : ApprovalScope)
    (agentRun : option string) (agentMode : option string) (hasScope : bool) (triggerKind : option string)
    (sweepAct : option SweepActEligibility) : PolicyDecisionState :=
  if negb policyDecideEnabled then human_required
  else if tier <? 3 then human_required
  else if hasScope && (negb sweepActEnabled || negb (bool_decide (triggerKind = Some "sweep_finding"))
                       || match sweepAct with
                          | None => true
                          | Some a => negb (w_scheduleActMode a) || negb (w_argumentsMatchSubject a)
                          end) then human_required
  else if bool_decide (agentRun = None) then human_required
  else if bool_decide (scope ≠ supervised) then human_required
  else if bool_decide (agentMode ≠ Some "act") then human_required
  else unattempted.

(** ** Terminal events *)

(** [enqueueTaskOutbox]: one row per task, intent and event. *)
Definition enqueueTaskOutbox (taskId intentId : string) (e : OutboxEvent) (db : Db) : Db :=
  if bool_decide ((taskId, intentId, e) ∈ taskOutbox db) then db
  else set_taskOutbox (taskOutbox db ++ [(taskId, intentId, e)]) db.

Definition publishIntentTerminalOutbox (intentId : string) (taskId : option string) (e : OutboxEvent) (db : Db) : Db :=
  let db1 := add_outbox (intentId, e) db in
  match taskId with Some t => enqueueTaskOutbox t intentId e db1 | None => db1 end.

(** A writer of the operation rows, from [OperatorDispatch]. *)
Definition on_operations (f : Dispatch.Db → Dispatch.Db) (db : Db) : Db :=
  set_operations (Dispatch.operations (f (Dispatch.mkDb ∅ (operations db) ∅))) db.

(** ** [transitionIntent] *)

Inductive IntentDeadlinePhase := approval_phase | release_phase.
#[export] Instance IntentDeadlinePhase_eq_dec : EqDecision IntentDeadlinePhase.
Proof. solve_decision. Defined.

Definition DEADLINE_PHASE_BY_STATUS (s : Status) : option IntentDeadlinePhase :=
  match s with
  | pending_approval => Some approval_phase
  | approved | executing => Some release_phase
  | _ => None
  end.

(** [COALESCE(release_by, expires_at)] and [COALESCE(approval_expires_at, expires_at)]. *)
Definition release_deadline (i : Intent) : Z := default (n_expiresAt (n_content i)) (n_releaseBy (n_state i)).
Definition approval_deadline (i : Intent) : Z := default (n_expiresAt (n_content i)) (n_approvalExpiresAt (n_state i)).

(** A patch: the columns it names, with what they are set to. *)
Record TransitionPatch := mkPatch {
  q_executionStartedAt : option (option Z); q_executedAt : option (option Z); q_errorCode : option (option string) }.
Definition no_patch : TransitionPatch := mkPatch None None None.

Definition apply_patch (to : Status) (q : TransitionPatch) (n : IntentState) : IntentState :=
  mkState to (n_policyDecisionState n) (n_approvalExpiresAt n) (n_releaseBy n) (n_decidedAt n) (n_decidedByUserId n)
    (n_decidedAssuranceLevel n) (n_decidedVia n)
    (default (n_executionStartedAt n) (q_executionStartedAt q)) (default (n_executedAt n) (q_executedAt q))
    (default (n_errorCode n) (q_errorCode q)).

Inductive IntentError := invalid_deadline_phase | cancel_failed | fanout_failed | intent_error (code : string).

Definition phases_are (from : list Status) (p : IntentDeadlinePhase) : bool :=
  negb (bool_decide (from = [])) && forallb (λ s, bool_decide (DEADLINE_PHASE_BY_STATUS s = Some p)) from.

Definition deadline_open (p : option IntentDeadlinePhase) (sqlNow : Z) (i : Intent) : bool :=
  match p with
  | None => true
  | Some release_phase => sqlNow <? release_deadline i
  | Some approval_phase => sqlNow <? approval_deadline i
  end.

(** Whether a row changed; a deadline that does not govern the statuses throws. *)
Definition transitionIntent (id : string) (from : list Status) (to : Status) (q : TransitionPatch)
    (requireNotExpired : option IntentDeadlinePhase) (sqlNow : Z) (db : Db) : result IntentError (bool * Db) :=
  if match requireNotExpired with Some p => negb (phases_are from p) | None => false end
  then Err invalid_deadline_phase
  else let '(r, db') := cas_intent id (λ i, status_in from i && deadline_open requireNotExpired sqlNow i)
                          (apply_patch to q) db in
       Ok (bool_decide (is_Some r), db').

(** ** Fan-out to approvers *)

Record FanoutArgs := mkFanout {
  f_riskTier : RiskTier; f_expiresAt : Z; f_agentRun : option string;
  f_eligibleApprovers : list string; f_agentEligibleApprovers : list string;
  f_requesterEligible : bool; f_requesterId : string; f_droppedBySiteCeiling : Z }.

Definition approvalRowFor (i : Intent) (f : FanoutArgs) (id userId : string) : ApprovalRow :=
  let c := n_content i in
  mkApprovalRow id userId (Some (n_id c)) None None (n_actionName c) (n_arguments c) (f_riskTier f) (f_expiresAt f)
    (Some (n_argumentDigest c)) a_pending None None None None None false None.

(** Who gets an approval row. *)
Definition fanout_users (i : Intent) (f : FanoutArgs) : list string :=
  let c := n_content i in
  match f_agentRun f with
  | Some _ => match n_approvalScope c with
              | four_eyes => f_eligibleApprovers f
              | supervised => f_agentEligibleApprovers f
              end
  | None =>
      match n_approvalScope c with
      | supervised => [f_requesterId f]
      | four_eyes =>
          if negb (bool_decide (f_eligibleApprovers f = [])) then f_eligibleApprovers f
          else if f_requesterEligible f && negb (isSoleOperatorSelfApprovalForbidden (n_actionName c))
          then [f_requesterId f] else []
      end
  end.

(** The rows inserted, with generated ids. *)
Definition fanout_rows (i : Intent) (f : FanoutArgs) (newId : nat → string) : list ApprovalRow :=
  imap (λ k u, approvalRowFor i f (newId k) u) (fanout_users i f).

Definition insert_approvals (rows : list ApprovalRow) (m : gmap string ApprovalRow) : gmap string ApprovalRow :=
  foldl (λ m r, <[a_id r := r]> m) m rows.

Definition cancelErrorCode (f : FanoutArgs) : string :=
  if 0 <? f_droppedBySiteCeiling f then "no_eligible_approvers_site_ceiling" else "no_eligible_approvers".

Definition set_no_approvers (f : FanoutArgs) (now : Z) (n : IntentState) : IntentState :=
  mkState cancelled (n_policyDecisionState n) (n_approvalExpiresAt n) (n_releaseBy n) (Some now) (n_decidedByUserId n)
    (n_decidedAssuranceLevel n) (n_decidedVia n) (n_executionStartedAt n) (n_executedAt n) (Some (cancelErrorCode f)).

(** [UPDATE … WHERE id = …], with no test of the status. *)
Definition cancel_unapprovable (i : Intent) (f : FanoutArgs) (now : Z) (db : Db) : Db :=
  let c := n_content i in
  match cas_intent (n_id c) (λ _, true) (set_no_approvers f now) db with
  | (Some _, db1) =>
      let db2 := if isTaskLinkedIntent c then on_operations (λ d, Dispatch.markOperationCancelled d (n_id c) now) db1 else db1 in
      publishIntentTerminalOutbox (n_id c) (n_taskId c) intent_cancelled db2
  | (None, db1) => db1
  end.

Definition runHumanFanout (i : Intent) (f : FanoutArgs) (newId : nat → string) (now : Z) (db : Db) : list string * Db :=
  let rows := fanout_rows i f newId in
  let db1 := set_approvals (insert_approvals rows (approvals db)) db in
  (a_id <$> rows, if bool_decide (rows = []) then cancel_unapprovable i f now db1 else db1).

(** The fan-out a policy decision that cannot authorize falls back to.  [approvers]
    are the humans resolved for the intent as it was read before. *)
Definition runDeferredHumanFanout (id : string) (runOrg : option string) (approvers : list string)
    (newId : nat → string) (now : Z) (db : Db) : Db :=
  match intents db !! id with
  | None => db
  | Some i =>
      match n_requestingAgentRunId (n_content i) with
      | None => db
      | Some run =>
          if bool_decide (runOrg ≠ Some (n_orgId (n_content i))) then db
          else
            match cas_intent id (λ i, bool_decide (n_policyDecisionState (n_state i) = unattempted))
                    (with_policy_state human_required) db with
            | (None, db1) => db1
            | (Some u, db1) =>
                (runHumanFanout u (mkFanout (riskTierLabel (n_riskTier (n_content u))) (approval_deadline u) (Some run)
                   [] approvers false "" 0) newId now db1).2
            end
      end
  end.

(** ** Cancelling *)

(** The statuses a requester, or an approver of the organization, may cancel. *)
Definition set_cancelled (n : IntentState) : IntentState := with_status cancelled n.

Inductive CancelOutcome := cancel_done | cancel_lost (current : Status) (inFlight : bool).
Inductive CancelError := ActionIntentNotFoundError | ActionIntentAuthorizationError.

(** [visible]: the row passes the caller's row-level security; [isApprover]: the
    caller's permissions in the intent's organization let them decide. *)
Definition cancelActionIntent (userId id : string) (visible : Intent → bool) (isApprover : string → bool) (now : Z)
    (db : Db) : result CancelError CancelOutcome * Db :=
  match intents db !! id with
  | Some i =>
      if negb (visible i) then (Err ActionIntentNotFoundError, db)
      else
        let c := n_content i in
        if negb (bool_decide (n_requestedByUserId c = Some userId)) && negb (isApprover (n_orgId c))
        then (Err ActionIntentAuthorizationError, db)
        else
          match cas_intent id (status_in [pending_approval; approved]) set_cancelled db with
          | (Some _, db1) =>
              let db2 := if isTaskLinkedIntent c then on_operations (λ d, Dispatch.markOperationCancelled d id now) db1 else db1 in
              (Ok cancel_done, publishIntentTerminalOutbox id (n_taskId c) intent_cancelled db2)
          | (None, db1) =>
              if isTaskLinkedIntent c && bool_decide (status i = executing)
              then (Ok (cancel_lost (status i) true),
                    on_operations (λ d, (Dispatch.markOperationCancelRequested d id now).2) db1)
              else (Ok (cancel_lost (status i) false), db1)
          end
  | None => (Err ActionIntentNotFoundError, db)
  end.

(** ** The reaper *)

Definition MAX_REAP_PER_RUN : nat := 500.
Definition STALE_EXECUTING_TIMEOUT_MINUTES : Z := 20.

Definition expiry_deadline (i : Intent) : Z :=
  match status i with pending_approval => approval_deadline i | _ => release_deadline i end.
Definition expiry_due (sqlNow : Z) (i : Intent) : bool :=
  status_in [pending_approval; approved] i && (expiry_deadline i <? sqlNow).

(** The first rows by deadline; [locked] rows are skipped. *)
Definition reap_candidates (due : Intent → bool) (deadline : Intent → Z) (locked : string → bool) (db : Db) : list Intent :=
  take MAX_REAP_PER_RUN
    (js_sort (λ a b, deadline a <=? deadline b)
       (List.filter (λ i, due i && negb (locked (n_id (n_content i)))) (map_to_list (intents db)).*2)).

Definition expire_pending (p : ApprovalRow → bool) (now : Z) (m : gmap string ApprovalRow) : gmap string ApprovalRow :=
  update_where (λ a, p a && bool_decide (a_status a = a_pending))
    (λ a, mkApprovalRow (a_id a) (a_userId a) (a_intentId a) (a_elevationRequestId a) (a_executionId a) (a_toolName a)
       (a_arguments a) (a_riskTier a) (a_expiresAt a) (a_boundArgumentDigest a) a_expired (Some now) (a_decisionReason a)
       (a_decidedAssuranceLevel a) (a_decidedVia a) (a_authenticatorDeviceId a) (a_decidedViaStepUpGrant a)
       (a_refusalReason a)) m.

Definition of_intent (id : string) (a : ApprovalRow) : bool := bool_decide (a_intentId a = Some id).

(** One intent the reaper expires: its row, its pending approvals, its events. *)
Definition expire_intent (now : Z) (db : Db) (i : Intent) : Db :=
  let id := n_id (n_content i) in
  match cas_intent id (status_in [pending_approval; approved]) (with_status expired) db with
  | (Some _, db1) =>
      publishIntentTerminalOutbox id (n_taskId (n_content i)) intent_expired
        (set_approvals (expire_pending (of_intent id) now (approvals db1)) db1)
  | (None, db1) => db1
  end.

Definition reapExpiredIntents (locked : string → bool) (now sqlNow : Z) (db : Db) : nat * Db :=
  let due := reap_candidates (expiry_due sqlNow) expiry_deadline locked db in
  (length due, foldl (expire_intent now) db due).

Definition stale_since (i : Intent) : option Z :=
  match n_executionStartedAt (n_state i) with Some t => Some t | None => n_decidedAt (n_state i) end.
Definition stale_due (sqlNow : Z) (i : Intent) : bool :=
  status_in [executing] i && bool_decide (n_executedAt (n_state i) = None)
  && match stale_since i with Some t => t <? sqlNow - STALE_EXECUTING_TIMEOUT_MINUTES * 60000 | None => false end.

Definition fail_stale (now : Z) (db : Db) (i : Intent) : Db :=
  let c := n_content i in
  match cas_intent (n_id c) (λ r, status_in [executing] r && bool_decide (n_executedAt (n_state r) = None))
          (apply_patch failed (mkPatch None None (Some (Some "execution_lost")))) db with
  | (Some _, db1) =>
      let db2 := publishIntentTerminalOutbox (n_id c) (n_taskId c) intent_failed db1 in
      match n_taskId c with
      | Some _ => on_operations (λ d, Dispatch.recordOperationResult d (n_id c) Dispatch.unknown "execution_lost" None now) db2
      | None => db2
      end
  | (None, db1) => db1
  end.

Definition reapStaleExecutingIntents (locked : string → bool) (now sqlNow : Z) (db : Db) : nat * Db :=
  let due := reap_candidates (stale_due sqlNow) (λ i, default 0 (stale_since i)) locked db in
  (length due, foldl (fail_stale now) db due).

(** ** Rejecting *)

Definition set_rejected (userId : string) (errorCode : option string) (now : Z) (n : IntentState) : IntentState :=
  mkState rejected (n_policyDecisionState n) (n_approvalExpiresAt n) (n_releaseBy n) (Some now) (Some userId)
    (n_decidedAssuranceLevel n) (n_decidedVia n) (n_executionStartedAt n) (n_executedAt n)
    (match errorCode with Some e => Some e | None => n_errorCode n end).

(** [denyIntentForProposal]: changes were requested to the script of the intent. *)
Definition denyIntentForProposal (intentId : option string) (reason decidedByUserId : string) (now : Z) (db : Db) : bool * Db :=
  match intentId with
  | None => (false, db)
  | Some id =>
      match cas_intent id (status_in [pending_approval]) (set_rejected decidedByUserId (Some reason) now) db with
      | (Some i, db1) =>
          (true, publishIntentTerminalOutbox id (n_taskId (n_content i)) intent_rejected
                   (set_approvals (expire_pending (of_intent id) now (approvals db1)) db1))
      | (None, db1) => (false, db1)
      end
  end.

(** ** Moving the target away *)

(** The content without its target device. *)
Definition without_device (c : IntentContent) : IntentContent :=
  mkContent (n_id c) (n_orgId c) (n_requestedByUserId c) (n_requestingAgentRunId c) (n_source c) (n_actionName c) (n_arguments c)
    (n_argumentDigest c) (n_idempotencyKey c) (n_riskTier c) (n_approvalScope c) (n_scopeKind c) None (n_taskId c) (n_taskStepKey c)
    (n_operationKey c) (n_toolSourceToolId c) (n_toolRevision c) (n_expiresAt c).

(** A device that moves to another organization leaves its live intents without a
    target: the one change of the content that the trigger lets through. *)
Definition detachScopeDevice (deviceId : string) (db : Db) : Db :=
  set_intents (update_where (λ i, bool_decide (n_scopeDeviceId (n_content i) = Some deviceId) && status_in LIVE_INTENT_STATUSES i)
                 (λ i, mkIntent (without_device (n_content i)) (n_state i)) (intents db)) db.

(** ** Release *)

(** The claim of an intent that no task owns; for the others see [OperatorDispatch]. *)
Definition claimForRelease (id : string) (now sqlNow : Z) (db : Db) : result IntentError (bool * Db) :=
  transitionIntent id [approved] executing (mkPatch (Some (Some now)) (Some None) None) (Some release_phase) sqlNow db.

Definition pauseIntentForKillSwitch (id : string) (sqlNow : Z) (db : Db) : result IntentError (bool * Db) :=
  transitionIntent id [executing] approved no_patch None sqlNow db.

(** [terminalizeIntent] and [transitionIntentAndPublish]: the change of status and, if
    it was made, the event. *)
Definition terminalizeIntent (c : IntentContent) (ok : bool) (q : TransitionPatch) (sqlNow : Z) (db : Db)
    : result IntentError (bool * Db) :=
  rmap (λ r : bool * Db,
          (r.1, if r.1 then publishIntentTerminalOutbox (n_id c) (n_taskId c) (if ok then intent_completed else intent_failed) r.2
                else r.2))
    (transitionIntent (n_id c) [executing] (if ok then completed else failed) q None sqlNow db).

(** ** Deciding by policy *)

(** The devices an organization has exposed in the last day, without repetitions. *)
Definition EXPOSURE_WINDOW_MS : Z := 24 * 60 * 60 * 1000.
Definition in_window (orgId : string) (sqlNow : Z) (x : Exposure) : bool :=
  bool_decide (x_orgId x = orgId) && (sqlNow - EXPOSURE_WINDOW_MS <? x_reservedAt x).
Definition exposedDevices (orgId : string) (sqlNow : Z) (l : list Exposure) : gset string :=
  list_to_set (x_deviceId <$> List.filter (in_window orgId sqlNow) l).
Definition decisionsToday (orgId agentId : string) (sqlNow : Z) (l : list Exposure) : Z :=
  Z.of_nat (length (List.filter (λ x, in_window orgId sqlNow x && bool_decide (x_agentId x = agentId)
                                      && bool_decide (x_source x = policy_intent)) l)).

Record ExposureBudget := mkBudget { u_distinctDevices : Z; u_allowance : Z; u_policyDecisionsToday : option Z }.

(** [deviceCount] is the number of contract devices of the organization. *)
Definition computeExposureBudget (orgId agentId : string) (deviceCount maxFleetPercentPerDay : Z) (deviceId : option string)
    (shortCircuit : bool) (sqlNow : Z) (l : list Exposure) : ExposureBudget :=
  let exposed := exposedDevices orgId sqlNow l in
  let allowance := deviceCount * maxFleetPercentPerDay / 100 in
  let distinct := Z.of_nat (size exposed)
                  + match deviceId with Some d => if bool_decide (d ∈ exposed) then 0 else 1 | None => 0 end in
  mkBudget distinct allowance
    (if negb shortCircuit || (distinct <=? allowance) then Some (decisionsToday orgId agentId sqlNow l) else None).

(** A write inside a transaction. *)
Definition writes {E A} (f : Db → A * Db) : Transaction Db E A := λ db, Ok (f db).

Inductive AuthorizeOutcome := authorized_now | cap_failure (reason : string).
(** [PolicyDecisionRaceLostError]: the transaction rolls back. *)
Inductive AuthorizeError := race_lost.

Definition set_authorized (now : Z) (n : IntentState) : IntentState :=
  mkState approved authorized (n_approvalExpiresAt n) (Some (now + RELEASE_LEASE_MS)) (Some now) None None (Some by_policy)
    (n_executionStartedAt n) (n_executedAt n) (n_errorCode n).

Definition runAuthorizeTransaction (i : Intent) (agentId deviceId : string)
    (deviceCount maxFleetPercentPerDay maxPolicyDecisionsPerDay now sqlNow : Z)
    : Transaction Db AuthorizeError AuthorizeOutcome :=
  let c := n_content i in
  let* b := query (λ db, computeExposureBudget (n_orgId c) agentId deviceCount maxFleetPercentPerDay (Some deviceId) true
                           sqlNow (exposure db)) in
  if u_allowance b <? u_distinctDevices b then ret (cap_failure "fleet_cap_exceeded")
  else if maxPolicyDecisionsPerDay <=? default 0 (u_policyDecisionsToday b) then ret (cap_failure "day_cap_exceeded")
  else
    let* _ := modify (add_exposure (mkExposure (n_orgId c) agentId deviceId (Some (n_id c)) policy_intent sqlNow)) in
    let* won := writes (cas_intent (n_id c)
                          (λ r, status_in [pending_approval] r
                                && bool_decide (n_policyDecisionState (n_state r) = unattempted))
                          (set_authorized now)) in
    guard* (bool_decide (is_Some won)) or race_lost in
    let* _ := modify (add_outbox (n_id c, intent_approved)) in
    ret authorized_now.

(** ** Creating *)

Record CreateInput := mkCreate {
  r_content : IntentContent; r_policyDecisionState : PolicyDecisionState;
  (** Which unattended lane granted the intent, if one did. *)
  r_granted : option DecidedVia;
  r_agentRun : option string;
  r_taskContext : option (string * string);
  r_proposalId : option string;
  r_fanout : FanoutArgs }.

Definition initial_state (r : CreateInput) (now : Z) : IntentState :=
  let exp := n_expiresAt (r_content r) in
  match r_granted r with
  | Some v => mkState approved (r_policyDecisionState r) (Some exp) (Some (now + RELEASE_LEASE_MS)) (Some now) None None (Some v)
                None None None
  | None => mkState pending_approval (r_policyDecisionState r) (Some exp) None None None None None None None None
  end.

Definition same_request (existing : IntentContent) (r : CreateInput) : bool :=
  let c := r_content r in
  let sameTaskReuse := match r_taskContext r with
                       | Some (t, k) => bool_decide (n_taskId existing = Some t) && bool_decide (n_operationKey existing = Some k)
                       | None => false
                       end in
  bool_decide (n_actionName existing = n_actionName c) && bool_decide (n_source existing = n_source c)
  && (sameTaskReuse || bool_decide (n_requestingAgentRunId existing = r_agentRun r))
  && bool_decide (n_argumentDigest existing = n_argumentDigest c)
  && bool_decide (n_toolSourceToolId existing = n_toolSourceToolId c)
  && bool_decide (n_toolRevision existing = n_toolRevision c).

(** The partial unique index on the organization and the key, over live rows. *)
Definition find_live (orgId key : string) (db : Db) : option Intent :=
  snd <$> List.find (λ p, bool_decide (n_orgId (n_content p.2) = orgId) && bool_decide (n_idempotencyKey (n_content p.2) = key)
                          && status_in LIVE_INTENT_STATUSES p.2) (map_to_list (intents db)).

(** [consumeProposalForIntent]: the proposal is claimed by one intent. *)
Definition consumeProposal (proposalId intentId : string) (sqlNow : Z) (db : Db) : bool * Db :=
  match proposals db !! proposalId with
  | Some p => if bool_decide (p_intentId p = None) && p_reviewed p && (sqlNow <? p_expiresAt p)
              then (true, set_proposals (<[proposalId := mkProposal (p_orgId p) (p_reviewed p) (p_expiresAt p) (Some intentId)
                                             (p_strictHits p) (p_acknowledgedPatterns p)]> (proposals db)) db)
              else (false, db)
  | None => (false, db)
  end.

(** [reserveOperation]: a permanent key per task and operation. *)
Definition reserveOperation (orgId taskId operationKey intentId opId : string) (planRevision : option Z) (now : Z) (db : Db)
    : result IntentError Db :=
  match operationKeys db !! (orgId, taskId, operationKey) with
  | Some other => if String.eqb other intentId then Ok db else Err (intent_error "operation_replay")
  | None => Ok (set_operations (operations db ++
                  [Dispatch.mkOp opId (Some intentId) planRevision Dispatch.reserved None None None None None Dispatch.pending "" None now])
                  (set_operationKeys (<[(orgId, taskId, operationKey) := intentId]> (operationKeys db)) db))
  end.

Inductive Creation := created (i : Intent) (approvalIds : list string) | replayed (i : Intent) (approvalIds : list string).

Definition IntentTx (A : Type) : Type := Transaction Db IntentError A.

(** The transaction of [createActionIntent].  [taskRevision] is the task's revision,
    if it is in the organization. *)
Definition createActionIntentTx (r : CreateInput) (taskRevision : option Z) (newId : nat → string) (opId : string)
    (now sqlNow : Z) : IntentTx Creation :=
  let c := r_content r in
  let* existing := query (find_live (n_orgId c) (n_idempotencyKey c)) in
  match existing with
  | Some i =>
      guard* (same_request (n_content i) r) or (intent_error "idempotency_conflict") in
      let* ids := query (λ db, a_id <$> List.filter (of_intent (n_id (n_content i))) (map_to_list (approvals db)).*2) in
      ret (replayed i ids)
  | None =>
      let i := mkIntent c (initial_state r now) in
      let* _ := modify (λ db, set_intents (<[n_id c := i]> (intents db)) db) in
      let* claimed := match r_proposalId r with
                      | Some p => writes (consumeProposal p (n_id c) sqlNow)
                      | None => ret true
                      end in
      guard* claimed or (intent_error "proposal_not_runnable") in
      let* _ := match r_taskContext r with
                | Some (t, k) =>
                    guard* (bool_decide (is_Some taskRevision)) or (intent_error "task_context_invalid") in
                    (λ db, rmap (λ db', (tt, db')) (reserveOperation (n_orgId c) t k (n_id c) opId taskRevision now db))
                | None => ret tt
                end in
      let* ids := if bool_decide (r_granted r = None) && bool_decide (r_policyDecisionState r = human_required)
                  then writes (runHumanFanout i (r_fanout r) newId now) else ret [] in
      let* _ := modify (add_outbox (n_id c, intent_created)) in
      let* _ := modify (λ db, match r_granted r with Some _ => add_outbox (n_id c, intent_approved) db | None => db end) in
      let* fin := query (λ db, default i (intents db !! n_id c)) in
      ret (created fin ids)
  end.

(** A failure is reported with its code; any other as [fanout_failed]. *)
Definition createActionIntent (r : CreateInput) (taskRevision : option Z) (newId : nat → string) (opId : string) (now sqlNow : Z)
    (db : Db) : result IntentError Creation * Db :=
  run_tx (createActionIntentTx r taskRevision newId opId now sqlNow) db.

End Intents.
