(* ===== verification/Approvers.v ===== *)
(** * Who may approve an action intent

    [services/usersWithPermission.ts], [services/siteCeilingAccess.ts],
    [services/actionIntents/intentApprovers.ts], [intentTargetScope.ts],
    [orgWideGovernanceTools.ts] and [services/approvals/strictAcknowledgement.ts].
    Two populations: for four eyes, the holders of [approvals:decide] in or over the
    organization; for an agent's supervised intent, the humans who could perform the
    action on its target themselves.  The permission tables are those of [Authority];
    the permission service is a function from a user and a context to the permissions,
    for which [resolve] is one.  The table of permissions a tool needs, and the device
    arguments a tool declares, are parameters. *)
From S2P Require Import Prelude JsText Authority Assurance StepUpGrant OperatorTask OperatorDispatch Intents.
From stdpp Require Import base tactics list strings gmap.
From Stdlib Require Import ZArith Lia.
Open Scope Z_scope.

Module Approvers.
Import Permissions Intents.

(** ** The target of an intent *)

Inductive IntentTargetDevice := t_run (deviceId : option string) | t_scope (deviceId : string) | t_tombstone.

Definition resolveIntentTargetDevice (kind : option ScopeKind) (scopeDevice : option string) (runDevice : option string)
    : IntentTargetDevice :=
  match kind with
  | Some device_scope => match scopeDevice with None => t_tombstone | Some d => t_scope d end
  | _ => t_run runDevice
  end.

Definition effectiveTargetDeviceId (t : IntentTargetDevice) : option string :=
  match t with t_tombstone => None | t_run d => d | t_scope d => Some d end.

Inductive IntentTargetTicket := k_scope (ticketId : string) | k_tombstone | k_none.
Definition resolveIntentTargetTicket (kind : option ScopeKind) (scopeTicket : option string) : IntentTargetTicket :=
  match kind with
  | Some ticket_scope => match scopeTicket with None => k_tombstone | Some t => k_scope t end
  | _ => k_none
  end.

(** An argument that is absent or null; [Err] is the mismatch. *)
Definition absent (v : option json) : bool := match v with None | Some JNull => true | _ => false end.

Definition assertArgsMatchScope (args : json) (scopeDeviceId : string) : result string unit :=
  let deviceId := jget "deviceId" args in
  let deviceIds := jget "deviceIds" args in
  if negb (absent deviceId) && match deviceId with Some (JStr d) => negb (String.eqb d scopeDeviceId) | _ => true end
  then Err "scope_argument_mismatch"
  else if negb (absent deviceIds)
          && match deviceIds with Some (JArr [JStr d]) => negb (String.eqb d scopeDeviceId) | _ => true end
  then Err "scope_argument_mismatch"
  else Ok tt.

Definition assertArgsMatchTicketScope (args : json) (scopeTicketId : string) : result string unit :=
  match jget "ticketId" args with
  | None | Some JNull => Ok tt
  | Some (JStr t) => if String.eqb t scopeTicketId then Ok tt else Err "scope_argument_mismatch"
  | Some _ => Err "scope_argument_mismatch"
  end.

Definition arg_is (k v : string) (args : json) : bool :=
  match jget k args with Some (JStr s) => String.eqb s v | _ => false end.

Definition subjectMatchesArguments (kind key toolName : string) (args : json) (scopeDeviceId : string) : bool :=
  String.eqb kind "service_down" && String.eqb toolName "manage_services" && arg_is "action" "restart" args
  && arg_is "deviceId" scopeDeviceId args && arg_is "serviceName" key args.

(** ** Ceilings and org-wide tools *)

Definition hasSiteCeiling (p : UserPermissions) : bool :=
  match scope p, allowedSiteIds p with organization, s_undefined => false | organization, _ => true | _, _ => false end.
(** Permissions of a human carry no exact-device ceiling. *)
Definition canMutateOrgWideGovernance (p : UserPermissions) : bool := negb (hasSiteCeiling p).

Definition IDENTITY_TENANT_WRITE_TOOLS : list string :=
  ["m365_disable_user"; "m365_reset_password"; "google_add_mail_delegate"; "google_add_to_group"; "google_assign_license";
   "google_disable_forwarding"; "google_move_ou"; "google_offboard_user"; "google_remove_from_group"; "google_remove_license";
   "google_remove_mail_delegate"; "google_rename_user"; "google_reset_2sv"; "google_reset_password"; "google_restore_user";
   "google_set_forwarding"; "google_set_vacation"; "google_share_calendar"; "google_signout"; "google_suspend_user";
   "google_update_user"; "google_wipe_mobile_device"].
(** A tool's actions; the empty list stands for every action. *)
Definition ORG_WIDE_GOVERNANCE_TOOL_ACTIONS (tool : string) : option (list string) :=
  if String.eqb tool "manage_ai_agents" then Some ["authorize_supervised_key"]
  else if bool_decide (tool ∈ IDENTITY_TENANT_WRITE_TOOLS) then Some [] else None.

Definition isOrgWideGovernanceIntent (tool : string) (args : json) : bool :=
  match ORG_WIDE_GOVERNANCE_TOOL_ACTIONS tool with
  | None => false
  | Some [] => true
  | Some actions => match jget "action" args with Some (JStr a) => bool_decide (a ∈ actions) | _ => false end
  end.

(** ** Holders of a permission *)

(** The tables read besides the permission tables: active users, the partner that owns
    an organization, devices (organization, site) and agent runs (organization,
    device). *)
Record Directory := mkDirectory {
  perms : Permissions.Db; activeUsers : gset string; partnerOf : gmap string string;
  devices : gmap string (string * string); runs : gmap string (string * option string) }.

Definition grants_role (db : Permissions.Db) (p : Permission) (role : string) : bool :=
  existsb (λ g, permissionGrantMatches g (resource p) (action p)) (default [] (rolePermissions db !! role)).

Definition orgMember_holds (d : Directory) (orgId : string) (p : Permission) (e : (string * string) * OrgMember) : bool :=
  String.eqb e.1.2 orgId && match om_roleId e.2 with Some r => grants_role (perms d) p r | None => false end
  && bool_decide (e.1.1 ∈ activeUsers d).

Definition covers (m : PartnerMember) (orgId : string) : bool :=
  match pm_orgAccess m with
  | oa_all => true
  | oa_selected => match pm_orgIds m with Some l => bool_decide (orgId ∈ l) | None => false end
  | oa_none => false
  end.

Definition partnerMember_holds (d : Directory) (partnerId orgId : string) (p : Permission)
    (e : (string * string) * PartnerMember) : bool :=
  String.eqb e.1.2 partnerId && match pm_roleId e.2 with Some r => grants_role (perms d) p r | None => false end
  && bool_decide (e.1.1 ∈ activeUsers d) && covers e.2 orgId.

Definition resolveUsersWithPermissionForOrg (d : Directory) (orgId : string) (p : Permission) : list string :=
  remove_dups
    (((λ e, e.1.1) <$> List.filter (orgMember_holds d orgId p) (map_to_list (organizationUsers (perms d))))
     ++ match truthy (partnerOf d !! orgId) with
        | Some partner_ => (λ e, e.1.1) <$> List.filter (partnerMember_holds d partner_ orgId p) (map_to_list (partnerUsers (perms d)))
        | None => []
        end).

Definition APPROVALS_DECIDE : Permission := mkPerm "approvals" "decide".
Definition SCRIPTS_WRITE : Permission := mkPerm "scripts" "write".

Definition userCanDecideApprovals (p : UserPermissions) : bool :=
  hasPermission p (resource APPROVALS_DECIDE) (action APPROVALS_DECIDE).

Record ApproverDiagnostics := mkDiagnostics {
  g_deciders : list string; g_droppedBySiteCeiling : Z; g_droppedUnresolvable : Z; g_orgLookupMissed : bool }.

Section approvers.
(** The permission service, [getUserPermissions]. *)
Context (getUserPermissions : string → Context → option UserPermissions).

Definition context_for (orgId : string) (partnerId : option string) : Context :=
  mkContext (truthy partnerId) (Some orgId) None.

Definition ceiling_ok (orgId : string) (partnerId : option string) (u : string) : option bool :=
  canMutateOrgWideGovernance <$> getUserPermissions u (context_for orgId partnerId).

Definition count_where (f : string → bool) (l : list string) : Z := Z.of_nat (length (List.filter f l)).

Definition resolveIntentApproversWithDiagnostics (d : Directory) (orgId : string) (alsoRequire : option Permission)
    (requireOrgWideGovernance : bool) : list string * option ApproverDiagnostics :=
  let deciders := resolveUsersWithPermissionForOrg d orgId APPROVALS_DECIDE in
  let eligible := match alsoRequire with
                  | Some p => List.filter (λ u, bool_decide (u ∈ resolveUsersWithPermissionForOrg d orgId p)) deciders
                  | None => deciders
                  end in
  if negb requireOrgWideGovernance || bool_decide (eligible = []) then (eligible, None)
  else
    let ok := ceiling_ok orgId (partnerOf d !! orgId) in
    (List.filter (λ u, bool_decide (ok u = Some true)) eligible,
     Some (mkDiagnostics eligible (count_where (λ u, bool_decide (ok u = Some false)) eligible)
             (count_where (λ u, bool_decide (ok u = None)) eligible) (bool_decide (partnerOf d !! orgId = None)))).

Definition resolveIntentApprovers (d : Directory) (orgId : string) (alsoRequire : option Permission)
    (requireOrgWideGovernance : bool) : list string :=
  (resolveIntentApproversWithDiagnostics d orgId alsoRequire requireOrgWideGovernance).1.

(** ** An agent's intent: action and target *)

Definition DEVICE_COMPLETE_TARGET_TOOLS : list string :=
  ["execute_command"; "manage_services"; "remediate_vulnerability"; "run_script"].

Inductive IntentTargetScope := devices_in (siteIds : list string) | indirect.

Context (deviceArgs : string → list string).
Context (requiredPermissionsForTool : string → json → option (list Permission)).

Definition non_empty (s : string) : bool := negb (String.eqb s "").

(** The device ids an argument names: a string, or an array of strings. *)
Definition arg_devices (v : option json) : list string :=
  match v with
  | Some (JStr s) => if non_empty s then [s] else []
  | Some (JArr l) => match mapM (λ j, match j with JStr s => Some s | _ => None end) l with
                     | Some ss => List.filter non_empty ss
                     | None => []
                     end
  | _ => []
  end.

(** [Err] names a device that is not in the organization. *)
Definition resolveIntentTargetScope (d : Directory) (toolName : string) (args : json) (target : option string) (orgId : string)
    : result string IntentTargetScope :=
  if negb (bool_decide (toolName ∈ DEVICE_COMPLETE_TARGET_TOOLS)) then Ok indirect
  else
    let named := remove_dups (deviceArgs toolName ≫= λ a, arg_devices (jget a args)) in
    let ids := match named, truthy target with
               | [], _ | _, None => named
               | _, Some t => remove_dups (named ++ [t])
               end in
    if bool_decide (ids = []) then Ok indirect
    else
      let site id := e ← devices d !! id; if String.eqb e.1 orgId then Some e.2 else None in
      match List.find (λ id, bool_decide (site id = None)) ids with
      | Some id => Err id
      | None => Ok (devices_in (remove_dups (omap site ids)))
      end.

Definition userHasActionAndTargetAuthority (userId orgId : string) (partnerId : option string)
    (required : list Permission) (target : IntentTargetScope) : bool :=
  match getUserPermissions userId (context_for orgId partnerId) with
  | None => false
  | Some p =>
      forallb (λ r, hasPermission p (resource r) (action r)) required
      && canAccessOrg p orgId
      && match target with
         | devices_in sites => forallb (canAccessSite p) sites
         | indirect => match allowedSiteIds p with s_undefined => true | _ => false end
         end
  end.

(** The active members of the organization, and of its partner with access to it. *)
Definition candidateUserIds (d : Directory) (orgId : string) : list string :=
  remove_dups
    (((λ e, e.1.1) <$> List.filter (λ e, String.eqb e.1.2 orgId && bool_decide (e.1.1 ∈ activeUsers d))
                         (map_to_list (organizationUsers (perms d))))
     ++ match truthy (partnerOf d !! orgId) with
        | Some partner_ => (λ e, e.1.1) <$> List.filter (λ e, String.eqb e.1.2 partner_ && bool_decide (e.1.1 ∈ activeUsers d)
                                                         && covers e.2 orgId) (map_to_list (partnerUsers (perms d)))
        | None => []
        end).

Definition resolveAgentIntentApprovers (d : Directory) (orgId toolName : string) (args : json) (target : IntentTargetScope)
    : list string :=
  match requiredPermissionsForTool toolName args with
  | None => []
  | Some required =>
      List.filter (λ u, userHasActionAndTargetAuthority u orgId (partnerOf d !! orgId) required target) (candidateUserIds d orgId)
  end.

(** The approvers of the intent, as the fan-out resolves them; an unresolvable target is
    indirect in the deferred fan-out. *)
Definition target_of (d : Directory) (c : IntentContent) (runDevice : option string) : result string IntentTargetScope :=
  resolveIntentTargetScope d (n_actionName c) (n_arguments c)
    (effectiveTargetDeviceId (resolveIntentTargetDevice (n_scopeKind c) (n_scopeDeviceId c) runDevice)) (n_orgId c).

Definition isAgentIntentDecideAuthorized (d : Directory) (userId : string) (c : IntentContent) : bool :=
  match n_requestingAgentRunId c with
  | None => false
  | Some run =>
      match requiredPermissionsForTool (n_actionName c) (n_arguments c) with
      | None => false
      | Some required =>
          let target := resolveIntentTargetDevice (n_scopeKind c) (n_scopeDeviceId c) None in
          match target, runs d !! run with
          | t_tombstone, _ | _, None => false
          | _, Some (runOrg, runDevice) =>
              String.eqb runOrg (n_orgId c)
              && match target with
                 | t_scope dev => match devices d !! dev with Some (o, _) => String.eqb o (n_orgId c) | None => false end
                 | _ => true
                 end
              && match target_of d c runDevice with
                 | Err _ => false
                 | Ok scope => userHasActionAndTargetAuthority userId (n_orgId c) (partnerOf d !! n_orgId c) required scope
                 end
          end
      end
  end.

(** ** Acknowledging strict patterns *)

Inductive StrictAckOutcome :=
| ack_ok (acknowledged : list string)
| ack_not_permitted (requirement : string)
| ack_incomplete (missing : list string).

(** [mfa]: the caller's session has satisfied MFA. *)
Definition resolveStrictAcknowledgement (userId : string) (partnerId : option string) (mfa : bool) (proposalOrg : string)
    (strictHits submitted : list string) : StrictAckOutcome :=
  if bool_decide (strictHits = []) then ack_ok []
  else if negb mfa then ack_not_permitted "mfa"
  else
    let canWrite := match getUserPermissions userId (mkContext partnerId (Some proposalOrg) None) with
                    | Some p => hasPermission p (resource SCRIPTS_WRITE) (action SCRIPTS_WRITE)
                    | None => false
                    end in
    if negb canWrite then ack_not_permitted "scripts:write"
    else
      let given := List.filter non_empty (trim <$> submitted) in
      let missing := List.filter (λ h, negb (bool_decide (h ∈ given))) strictHits in
      if negb (bool_decide (missing = [])) then ack_incomplete missing
      else ack_ok (List.filter (λ h, bool_decide (h ∈ given)) strictHits).

(** The fan-out and the decision agree on who may act: with the run and the target
    unchanged, the approvers of an agent's intent are the candidates that may decide. *)
Lemma agent_approvers_may_decide d u c run runDevice scope :
  n_requestingAgentRunId c = Some run → runs d !! run = Some (n_orgId c, runDevice) →
  target_of d c runDevice = Ok scope →
  resolveIntentTargetDevice (n_scopeKind c) (n_scopeDeviceId c) None ≠ t_tombstone →
  (∀ dev, resolveIntentTargetDevice (n_scopeKind c) (n_scopeDeviceId c) None = t_scope dev →
     ∃ site, devices d !! dev = Some (n_orgId c, site)) →
  u ∈ resolveAgentIntentApprovers d (n_orgId c) (n_actionName c) (n_arguments c) scope
  ↔ u ∈ candidateUserIds d (n_orgId c) ∧ isAgentIntentDecideAuthorized d u c = true.
Proof.
  intros Hr Hrun Ht Hn Hdev. unfold resolveAgentIntentApprovers, isAgentIntentDecideAuthorized.
  rewrite Hr, Hrun, Ht. destruct (requiredPermissionsForTool _ _) as [req|].
  2:{ rewrite elem_of_nil. naive_solver. }
  rewrite list_elem_of_In, filter_In, <- list_elem_of_In.
  destruct (resolveIntentTargetDevice _ _ None) as [x|dev|] eqn:E; [| |done].
  - rewrite String.eqb_refl. cbn [andb]. done.
  - destruct (Hdev dev eq_refl) as [site ->]. rewrite !String.eqb_refl. cbn [andb]. done.
Qed.

End approvers.

(** ** The resolver of holders and the permission service *)

Ltac text_eqs := repeat match goal with H : String.eqb _ _ = true |- _ => apply String.eqb_eq in H end; subst.

Lemma elem_of_holders d org p u :
  u ∈ resolveUsersWithPermissionForOrg d org p ↔
  (∃ m, organizationUsers (perms d) !! (u, org) = Some m ∧ orgMember_holds d org p ((u, org), m) = true)
  ∨ (∃ partner_ m, truthy (partnerOf d !! org) = Some partner_ ∧ partnerUsers (perms d) !! (u, partner_) = Some m
                   ∧ partnerMember_holds d partner_ org p ((u, partner_), m) = true).
Proof.
  unfold resolveUsersWithPermissionForOrg. rewrite elem_of_remove_dups, elem_of_app, list_elem_of_fmap. split.
  - intros [([[u' o] m] & -> & Hin)|Hin].
    + apply list_elem_of_In, filter_In in Hin as [Hin Hh]. apply list_elem_of_In, elem_of_map_to_list in Hin.
      pose proof Hh as Hh'. unfold orgMember_holds in Hh'. cbn in Hh'. bool_hyps. text_eqs. left. eauto.
    + destruct (truthy _) as [partner_|]; [|by apply elem_of_nil in Hin].
      apply list_elem_of_fmap in Hin as ([[u' o] m] & -> & Hin).
      apply list_elem_of_In, filter_In in Hin as [Hin Hh]. apply list_elem_of_In, elem_of_map_to_list in Hin.
      pose proof Hh as Hh'. unfold partnerMember_holds in Hh'. cbn in Hh'. bool_hyps. text_eqs. right. eauto.
  - intros [(m & Hm & Hh)|(partner_ & m & -> & Hm & Hh)]; [left|right; apply list_elem_of_fmap].
    + exists ((u, org), m). split; [done|]. apply list_elem_of_In, filter_In. split; [|done].
      by apply list_elem_of_In, elem_of_map_to_list.
    + exists ((u, partner_), m). split; [done|]. apply list_elem_of_In, filter_In. split; [|done].
      by apply list_elem_of_In, elem_of_map_to_list.
Qed.

(** Role ids are not empty texts. *)
Definition roles_named (db : Permissions.Db) : Prop :=
  (∀ k m, organizationUsers db !! k = Some m → om_roleId m ≠ Some "")
  ∧ (∀ k m, partnerUsers db !! k = Some m → pm_roleId m ≠ Some "").

Lemma truthy_role (o : option string) : o ≠ Some "" → truthy o = o.
Proof. destruct o as [[|]|]; done. Qed.

(** The permissions [q] let the user act with [p] in the organization. *)
Definition may (p : Permission) (org : string) (q : UserPermissions) : Prop :=
  canAccessOrg q org = true ∧ hasPermission q (resource p) (action p) = true.

Lemma org_axis_agrees d org p u m ctx :
  org ≠ "" → ctx_orgId ctx = Some org → organizationUsers (perms d) !! (u, org) = Some m → om_roleId m ≠ Some "" →
  orgMember_holds d org p ((u, org), m) = true ↔
  u ∈ activeUsers d ∧ ∃ q, resolveOrgAxis (perms d) ctx u org = Some q ∧ may p org q.
Proof.
  intros Horg Hctx Hm Hr. unfold orgMember_holds, resolveOrgAxis, may. rewrite Hm. cbn [fst snd mbind option_bind].
  rewrite String.eqb_refl, (truthy_role _ Hr). cbn [andb].
  destruct (om_roleId m) as [role|]; cbn [mbind option_bind]; [|naive_solver].
  unfold hasPermission, canAccessOrg, grants_role. split.
  - intros [Hg Ha]%andb_true_iff. apply bool_decide_eq_true in Ha. split; [done|]. eexists. split; [done|].
    cbn. rewrite Hctx, truthy_role by congruence. split; [by apply bool_decide_eq_true|done].
  - intros (Ha & q & [= <-] & _ & Hp). cbn in Hp. rewrite Hp. by apply bool_decide_eq_true.
Qed.

Lemma covers_canAccess db ctx role m org :
  canAccessOrg (buildPerms db ctx role partner (Some (pm_orgAccess m)) (pm_orgIds m) s_undefined) org = covers m org.
Proof.
  unfold canAccessOrg, buildPerms, covers. cbn. destruct (pm_orgAccess m); [done| |done].
  destruct (pm_orgIds m) as [l|]; [|done]. apply eq_true_iff_eq.
  rewrite bool_decide_eq_true, existsb_exists. split.
  - intros (x & Hx & E). apply String.eqb_eq in E as ->. by apply list_elem_of_In.
  - intros Hx. exists org. split; [by apply list_elem_of_In|apply String.eqb_refl].
Qed.

Lemma partner_axis_agrees d org partner_ p u m ctx :
  partnerUsers (perms d) !! (u, partner_) = Some m → pm_roleId m ≠ Some "" →
  partnerMember_holds d partner_ org p ((u, partner_), m) = true ↔
  u ∈ activeUsers d ∧ ∃ q, resolvePartnerAxis (perms d) ctx u partner_ = Some q ∧ may p org q.
Proof.
  intros Hm Hr. unfold partnerMember_holds, resolvePartnerAxis, may. rewrite Hm. cbn [fst snd mbind option_bind].
  rewrite String.eqb_refl, (truthy_role _ Hr). cbn [andb].
  destruct (pm_roleId m) as [role|]; cbn [mbind option_bind]; [|naive_solver].
  unfold hasPermission, grants_role. split.
  - intros [[Hg Ha]%andb_true_iff Hc]%andb_true_iff. apply bool_decide_eq_true in Ha. split; [done|].
    eexists. split; [done|]. by rewrite covers_canAccess.
  - intros (Ha & q & [= <-] & Hc & Hp). rewrite covers_canAccess in Hc. cbn in Hp. rewrite Hp, Hc.
    by rewrite bool_decide_eq_true_2.
Qed.

(** C25: the users counted as approvers are the users the permission service lets
    decide.  For a user without memberships on both axes, the resolver of the holders of
    a permission in an organization lists the user exactly when the user is active and
    the permissions resolved for the organization and its partner reach the
    organization and hold the permission. *)
Theorem approver_pool_agrees d org p u :
  org ≠ "" → roles_named (perms d) →
  (∀ partner_ m m', truthy (partnerOf d !! org) = Some partner_ → organizationUsers (perms d) !! (u, org) = Some m →
     partnerUsers (perms d) !! (u, partner_) = Some m' → False) →
  u ∈ resolveUsersWithPermissionForOrg d org p ↔
  u ∈ activeUsers d
  ∧ ∃ q, Permissions.resolve (perms d) u (context_for org (partnerOf d !! org)) = Some q
         ∧ canAccessOrg q org = true ∧ hasPermission q (resource p) (action p) = true.
Proof.
  intros Horg [Hro Hrp] Hone. rewrite elem_of_holders. unfold Permissions.resolve.
  cbn [context_for ctx_orgId ctx_partnerId]. rewrite (truthy_role (Some org)) by congruence. cbn [mbind option_bind].
  rewrite (truthy_role (truthy _)) by (by destruct (partnerOf d !! org) as [[|]|]).
  destruct (organizationUsers (perms d) !! (u, org)) as [m|] eqn:Em.
  - pose proof (org_axis_agrees d org p u m (context_for org (partnerOf d !! org)) Horg eq_refl Em (Hro _ _ Em)) as Ha.
    assert (Hno : ∀ partner_ m', truthy (partnerOf d !! org) = Some partner_ →
              partnerUsers (perms d) !! (u, partner_) = Some m' → False) by eauto.
    destruct (resolveOrgAxis _ _ _ _) as [q|].
    + split.
      * intros [(m0 & [= <-] & Hh)|(pp & m' & Hp & Hm' & _)]; [by apply Ha|by edestruct Hno].
      * intros H%Ha. left. eauto.
    + split.
      * intros [(m0 & [= <-] & (_ & ? & [=] & _)%Ha)|(pp & m' & Hp & Hm' & _)]. by edestruct Hno.
      * intros (_ & q & Hq & _). exfalso. destruct (truthy (partnerOf d !! org)) as [pp|]; [|done]. cbn in Hq.
        unfold resolvePartnerAxis in Hq.
        destruct (partnerUsers (perms d) !! (u, pp)) as [m'|] eqn:Em'; [by eapply Hno|done].
  - assert (resolveOrgAxis (perms d) (context_for org (partnerOf d !! org)) u org = None) as ->
      by (unfold resolveOrgAxis; by rewrite Em).
    destruct (truthy (partnerOf d !! org)) as [partner_|] eqn:Ep; cbn [mbind option_bind].
    2:{ split; [intros [(? & [=] & _)|(? & ? & [=] & _)]|intros (_ & ? & [=] & _)]. }
    destruct (partnerUsers (perms d) !! (u, partner_)) as [m'|] eqn:Em'.
    + pose proof (partner_axis_agrees d org partner_ p u m' (context_for org (partnerOf d !! org)) Em' (Hrp _ _ Em')) as Ha.
      split.
      * intros [(? & [=] & _)|(pp & m0 & [= <-] & Hm & Hh)]. rewrite Em' in Hm. injection Hm as <-. by apply Ha.
      * intros H%Ha. right. eauto.
    + unfold resolvePartnerAxis. rewrite Em'. split; [|intros (_ & ? & [=] & _)].
      intros [(? & [=] & _)|(pp & m0 & [= <-] & Hm & _)]. by rewrite Em' in Hm.
Qed.

(** A technician of the partner with access to the organization, and a member of both. *)
Definition ex_directory : Directory :=
  mkDirectory
    (Permissions.mkDb ∅ {[ ("both", "o") := mkOrgMember (Some "viewer") None ]}
       {[ ("tech", "p") := mkPartnerMember (Some "admin") oa_selected (Some ["o"]);
          ("both", "p") := mkPartnerMember (Some "admin") oa_all None ]}
       {[ "viewer" := []; "admin" := [mkPerm "approvals" "decide"] ]})
    {[ "tech"; "both" ]} {[ "o" := "p" ]} ∅ ∅.

Lemma approver_pool_agrees_witness :
  "tech" ∈ resolveUsersWithPermissionForOrg ex_directory "o" APPROVALS_DECIDE ↔
  "tech" ∈ activeUsers ex_directory
  ∧ ∃ q, Permissions.resolve (perms ex_directory) "tech" (context_for "o" (partnerOf ex_directory !! "o")) = Some q
         ∧ canAccessOrg q "o" = true ∧ hasPermission q (resource APPROVALS_DECIDE) (action APPROVALS_DECIDE) = true.
Proof.
  apply (approver_pool_agrees ex_directory "o" APPROVALS_DECIDE "tech").
  - intros [=].
  - split; cbn; intros k m Hk; [apply lookup_singleton_Some in Hk as [_ <-]; cbn; congruence|].
    rewrite lookup_insert_Some, lookup_singleton_Some in Hk.
    destruct Hk as [[_ <-]|[_ [_ <-]]]; cbn; congruence.
  - intros partner_ m m' _ Hm _. cbn in Hm. apply lookup_singleton_Some in Hm as [[=] _].
Defined.

(** A member of the organization without the permission whose partner role holds it is
    counted, and would be refused: the service looks at the organization first. *)
Lemma both_memberships_are_miscounted :
  "both" ∈ resolveUsersWithPermissionForOrg ex_directory "o" APPROVALS_DECIDE
  ∧ (λ q, hasPermission q "approvals" "decide")
      <$> Permissions.resolve (perms ex_directory) "both" (context_for "o" (Some "p")) = Some false.
Proof. split; [apply (bool_decide_unpack _); vm_compute; exact I|vm_compute; reflexivity]. Qed.

End Approvers.
