(* ===== verification/ApprovalDecide.v ===== *)
(** * Deciding an approval

    [services/approvals/decideApprovalRequest.ts], [services/approvals/batchDecide.ts]
    and [createPamDecisionIntent] of [services/pamActuationLifecycle.ts].  A decision has
    two halves, which other requests may interleave with: the gates read the approval,
    the linked intent or elevation, the decider's permissions and the assurance
    ([decideGates]), and one transaction writes the approval, the elevation, the intent
    and the outbox ([decideTx]).  The check of the requester's own permission for the
    tool ([toolPermitted]) and the permissions a tool needs are parameters; audit events
    and the response body are not modelled. *)
From S2P Require Import Prelude JsText Authority Transaction Assurance StepUpGrant OperatorTask OperatorDispatch Intents Approvers.
From stdpp Require Import base tactics list strings gmap.
From Stdlib Require Import ZArith Lia.
Open Scope Z_scope.

Module Decide.
Import Permissions Levels Ladder Grants DecideGrant Intents Approvers.

(** ** The tables of the transaction *)

(** [elevation_requests], [pam_actuations], [elevation_audit]. *)
Inductive ElevationStatus := el_pending | el_approved | el_denied | el_other.
#[export] Instance ElevationStatus_eq_dec : EqDecision ElevationStatus.
Proof. solve_decision. Defined.
Record Elevation := mkElevation {
  e_id : string; e_orgId : string; e_deviceId : string; e_revision : Z; e_targetPath : option string;
  e_targetHash : option string; e_status : ElevationStatus; e_decidedBy : option string; e_denialReason : option string;
  e_grantExpiresAt : option Z }.
Inductive DesiredState := active_state | cleanup_state.
Record Actuation := mkActuation { u_elevationId : string; u_revision : Z; u_generation : Z; u_desiredState : DesiredState }.

(** [ai_tool_executions]: the status, and the session that owns it; the sessions' users. *)
Inductive ExecutionStatus := x_pending | x_approved | x_rejected | x_other.
#[export] Instance ExecutionStatus_eq_dec : EqDecision ExecutionStatus.
Proof. solve_decision. Defined.
Record Execution := mkExecution { y_status : ExecutionStatus; y_sessionId : string; y_intentId : option string }.

Record Tables := mkTables {
  db : Intents.Db; elevations : gmap string Elevation; actuations : list Actuation;
  elevationAudit : list (string * string); pamOutbox : list (string * Z);
  executions : gmap string Execution; sessionUser : gmap string string }.

Definition on_db (f : Intents.Db → Intents.Db) (t : Tables) : Tables :=
  mkTables (f (db t)) (elevations t) (actuations t) (elevationAudit t) (pamOutbox t) (executions t) (sessionUser t).
Definition set_elevations (m : gmap string Elevation) (t : Tables) : Tables :=
  mkTables (db t) m (actuations t) (elevationAudit t) (pamOutbox t) (executions t) (sessionUser t).
Definition add_actuation (u : Actuation) (t : Tables) : Tables :=
  mkTables (db t) (elevations t) (actuations t ++ [u]) (elevationAudit t) (pamOutbox t ++ [(u_elevationId u, u_generation u)])
    (executions t) (sessionUser t).
Definition add_audit (a : string * string) (t : Tables) : Tables :=
  mkTables (db t) (elevations t) (actuations t) (elevationAudit t ++ [a]) (pamOutbox t) (executions t) (sessionUser t).
Definition set_executions (m : gmap string Execution) (t : Tables) : Tables :=
  mkTables (db t) (elevations t) (actuations t) (elevationAudit t) (pamOutbox t) m (sessionUser t).

(** ** The request *)

Record DecideInput := mkDecide {
  q_interactive : bool; q_userId : string; q_partnerId : option string; q_mfa : bool; q_session : option GrantSession;
  q_id : string; q_approve : bool; q_reason : option string; q_proof : option ApprovalProof; q_reauthVerified : bool;
  q_acknowledgedPatterns : list string; q_preverified : option AssuranceDecision; q_stepUpGrantId : option string }.

(** A refusal: the status and the error of the response. *)
Record Refusal := mkRefusal { h_status : Z; h_error : string }.
Definition GateResult (A : Type) : Type := result Refusal A.
Definition refuse {A} (s : Z) (e : string) : GateResult A := Err (mkRefusal s e).
Definition require (b : bool) (s : Z) (e : string) : GateResult unit := if b then Ok tt else refuse s e.

(** What the gates hand to the transaction. *)
Record Verdict := mkVerdict {
  v_approval : ApprovalRow; v_intent : option IntentContent; v_assurance : AssuranceDecision;
  v_acknowledged : option (string * list string) }.

Definition proposalIdOf (c : IntentContent) : option string :=
  if String.eqb (n_actionName c) "run_script"
  then match jget "proposalId" (n_arguments c) with Some (JStr s) => if String.eqb s "" then None else Some s | _ => None end
  else None.

Section decide.
Context (getUserPermissions : string → Context → option UserPermissions).
Context (deviceArgs : string → list string).
Context (requiredPermissionsForTool : string → json → option (list Permission)).
(** [buildAuthContextForIntent] and [checkToolPermission]: the requester may still run
    the tool. *)
Context (toolPermitted : IntentContent → bool).
Context (verifyAuthenticationResponse : ApprovalProof → string → AuthenticatorDevice → result string (bool * Z)).
Context (verifyMobileSignature : string → string → string → string → bool).
Context (attestationEnforced : bool) (defaultEnforceFrom : Z) (policies : gmap string StoredAuthenticatorPolicy).
Context (sha256 : string → string).

(** *** The approval, and the authority of the decider *)

Definition load_approval (q : DecideInput) (now : Z) (t : Tables) : GateResult ApprovalRow :=
  let! _ := require (q_interactive q) 403 "human_decision_required" in
  let! _ := require (negb (String.eqb (q_id q) "")) 400 "Bad request" in
  match approvals (db t) !! q_id q with
  | None => refuse 404 "Not found"
  | Some a =>
      let! _ := require (String.eqb (a_userId a) (q_userId q)) 404 "Not found" in
      let! _ := require (bool_decide (a_status a = a_pending)) 409 "Already decided" in
      let! _ := require (now <? a_expiresAt a) 410 "Expired" in
      Ok a
  end.

Definition decider_permissions (q : DecideInput) (orgId : string) : option UserPermissions :=
  getUserPermissions (q_userId q) (Permissions.mkContext (q_partnerId q) (Some orgId) None).

Definition pam_gate (q : DecideInput) (a : ApprovalRow) (t : Tables) : GateResult unit :=
  match a_elevationRequestId a, a_intentId a with
  | Some e, None =>
      match elevations t !! e with
      | None => refuse 404 "elevation_not_found"
      | Some el =>
          require match decider_permissions q (e_orgId el) with
                  | Some p => canAccessOrg p (e_orgId el) && hasPermission p "pam" "approve"
                  | None => false
                  end 403 "pam_approve_required"
      end
  | _, _ => Ok tt
  end.

Definition strict_hits (c : IntentContent) (t : Tables) : option (string * Proposal) :=
  id ← proposalIdOf c; p ← proposals (db t) !! id; if bool_decide (p_strictHits p = []) then None else Some (id, p).

(** A requester approving their own intent is its only approver. *)
Definition sole_operator_gate (d : Directory) (userId : string) (c : IntentContent) (t : Tables) : GateResult unit :=
  let! _ := require (negb (isSoleOperatorSelfApprovalForbidden (n_actionName c))) 403 "self_approval_forbidden" in
  let alsoRequire := match strict_hits c t with Some _ => Some SCRIPTS_WRITE | None => None end in
  let eligibleNow := resolveIntentApprovers getUserPermissions d (n_orgId c) alsoRequire
                       (isOrgWideGovernanceIntent (n_actionName c) (n_arguments c)) in
  require (bool_decide (List.filter (λ u, negb (String.eqb u userId)) eligibleNow = []) && bool_decide (userId ∈ eligibleNow))
    403 "not_sole_approver".

Definition four_eyes_gate (q : DecideInput) (d : Directory) (c : IntentContent) (t : Tables) : GateResult unit :=
  if negb (q_approve q) then Ok tt
  else
    match decider_permissions q (n_orgId c) with
    | None => refuse 403 "forbidden"
    | Some p =>
        let! _ := require (canAccessOrg p (n_orgId c) && userCanDecideApprovals p) 403 "forbidden" in
        let! _ := require (negb (isOrgWideGovernanceIntent (n_actionName c) (n_arguments c) && negb (canMutateOrgWideGovernance p)))
                    403 "site_ceiling" in
        if bool_decide (n_requestedByUserId c = Some (q_userId q)) then sole_operator_gate d (q_userId q) c t else Ok tt
    end.

Definition self_decide (c : IntentContent) : bool :=
  bool_decide (n_approvalScope c = supervised) && bool_decide (n_requestingAgentRunId c = None).

Definition intent_gate (q : DecideInput) (d : Directory) (a : ApprovalRow) (t : Tables) : GateResult (option IntentContent) :=
  match a_intentId a with
  | None => Ok None
  | Some id =>
      match intents (db t) !! id with
      | None => refuse 404 "intent_not_found"
      | Some i =>
          let c := n_content i in
          let! _ := require match a_boundArgumentDigest a with
                            | Some g => String.eqb g "" || String.eqb g (n_argumentDigest c)
                            | None => true
                            end 409 "digest_mismatch" in
          let! _ := match n_approvalScope c, n_requestingAgentRunId c with
                    | supervised, Some _ =>
                        require (isAgentIntentDecideAuthorized getUserPermissions deviceArgs requiredPermissionsForTool
                                   d (q_userId q) c) 403 "not_authorized_for_agent_intent"
                    | supervised, None =>
                        let! _ := require (bool_decide (n_requestedByUserId c = Some (q_userId q))) 403 "not_requester" in
                        require (negb (q_approve q) || toolPermitted c) 403 "forbidden"
                    | four_eyes, _ => four_eyes_gate q d c t
                    end in
          Ok (Some c)
      end
  end.

Definition acknowledgement_gate (q : DecideInput) (oc : option IntentContent) (t : Tables) : GateResult (option (string * list string)) :=
  match oc with
  | Some c =>
      if negb (q_approve q) then Ok None
      else match strict_hits c t with
           | None => Ok None
           | Some (id, p) =>
               match resolveStrictAcknowledgement getUserPermissions (q_userId q) (q_partnerId q) (q_mfa q) (p_orgId p)
                       (p_strictHits p) (q_acknowledgedPatterns q) with
               | ack_ok l => Ok (Some (id, l))
               | ack_not_permitted _ => refuse 422 "strict_acknowledgement_not_permitted"
               | ack_incomplete _ => refuse 422 "strict_acknowledgement_incomplete"
               end
           end
  | None => Ok None
  end.

(** *** The assurance *)

(** The scope of a grant: only of a supervised intent, with its conversation. *)
Definition resolveGrantScope (t : Tables) (oc : option IntentContent) (tier : RiskTier) : option ApprovalDecideScope :=
  c ← oc;
  if bool_decide (n_approvalScope c = supervised) then
    let session := (λ e, y_sessionId e.2) <$> List.find (λ e : string * Execution, bool_decide (y_intentId e.2 = Some (n_id c)))
                                                (map_to_list (executions t)) in
    let s := mkScope (n_approvalScope c) (n_requestingAgentRunId c) session (n_orgId c) tier in
    if isApprovalDecideGrantEligible s then Some s else None
  else None.

Definition redeemGrantForDecide (q : DecideInput) (grantId : string) (tier : RiskTier) (oc : option IntentContent) (now : Z)
    (store : Store) (s : Authenticators) (t : Tables) : option AssuranceDecision :=
  sc ← resolveGrantScope t oc tier;
  n ← q_session q;
  r ← redeemApprovalDecideGrant sha256 store (Ladder.devices s) grantId (q_userId q) n sc now;
  let policy := if q_approve q then loadPartnerPolicy policies (q_partnerId q) else None in
  let d := mkDecision (requiredAssurance tier (policy ≫= floorOverrides)) (DecideGrant.x_level r) (DecideGrant.x_via r) (Some (DecideGrant.x_deviceId r)) false true in
  if q_approve q && (decidedAssuranceLevel d <? requiredLevel d) then
    if isEnforcing policy now tier defaultEnforceFrom then None else Some (with_grace d)
  else Some d.

(** What the gate on the assurance is made of. *)
Definition enforcing_for_supervised (q : DecideInput) (a : ApprovalRow) (self : bool) (now : Z) : bool :=
  bool_decide (q_preverified q = None) && self && q_approve q
  && isEnforcing (loadPartnerPolicy policies (q_partnerId q)) now (a_riskTier a) defaultEnforceFrom.
Definition presented_grant (q : DecideInput) : option string :=
  match q_preverified q with Some _ => None | None => q_stepUpGrantId q end.
Definition skipAssuranceLadder (q : DecideInput) (a : ApprovalRow) (self : bool) (now : Z) : bool :=
  self && negb (enforcing_for_supervised q a self now) && bool_decide (q_proof q = None) && bool_decide (presented_grant q = None).

Definition tap_decision (q : DecideInput) (a : ApprovalRow) : AssuranceDecision :=
  let d := resolveApprovalAssurance (a_riskTier a) in
  if q_approve q then
    let policy := match q_preverified q with None => loadPartnerPolicy policies (q_partnerId q) | Some _ => None end in
    let d' := with_required (requiredAssurance (a_riskTier a) (policy ≫= floorOverrides)) d in
    if decidedAssuranceLevel d' <? requiredLevel d' then with_grace d' else d'
  else d.

Definition ladder_refusal (e : AssuranceError) : Refusal :=
  match e with
  | StepUpRequiredError _ _ => mkRefusal 403 "step_up_required"
  | ReauthRequiredError => mkRefusal 401 "reauth_required"
  | _ => mkRefusal 401 "assertion_failed"
  end.

Definition assurance_gate (q : DecideInput) (a : ApprovalRow) (oc : option IntentContent) (now : Z) (store : Store) (t : Tables)
    (s : Authenticators) : GateResult AssuranceDecision * Authenticators :=
  let self := match oc with Some c => self_decide c | None => false end in
  match q_preverified q with
  | Some d => (Ok d, s)
  | None =>
      if skipAssuranceLadder q a self now then (Ok (tap_decision q a), s)
      else
        match presented_grant q, q_proof q, q_approve q with
        | Some g, None, true =>
            match redeemGrantForDecide q g (a_riskTier a) oc now store s t with
            | Some d => (match assertDecisionConsistent d with Ok _ => Ok d | Err _ => refuse 500 "inconsistent" end, s)
            | None => (refuse 403 "step_up_required", s)
            end
        | _, _, _ =>
            match assertApprovalAssurance verifyAuthenticationResponse verifyMobileSignature attestationEnforced
                    defaultEnforceFrom policies
                    (mkInput (q_id q) (q_userId q) (a_riskTier a) (q_proof q) (q_partnerId q) (q_approve q) (q_reauthVerified q))
                    now s with
            | (Ok d, s') => (Ok d, s')
            | (Err e, s') => (Err (ladder_refusal e), s')
            end
        end
  end.

(** A requester deciding alone needs level 3, unless a supervised decision under a
    policy that does not enforce. *)
Definition sole_operator_step_up (q : DecideInput) (a : ApprovalRow) (oc : option IntentContent) (now : Z) (d : AssuranceDecision)
    : GateResult unit :=
  match oc with
  | None => Ok tt
  | Some c =>
      let self := self_decide c in
      if bool_decide (q_preverified q = None) && negb (skipAssuranceLadder q a self now) && q_approve q
         && bool_decide (n_requestedByUserId c = Some (q_userId q)) && (negb self || enforcing_for_supervised q a self now)
      then require (3 <=? decidedAssuranceLevel d) 403 "step_up_required" else Ok tt
  end.

Definition fresh_factor_gate (q : DecideInput) (oc : option IntentContent) (d : AssuranceDecision) : GateResult unit :=
  match oc with
  | Some c => require (negb (q_approve q && requiresFreshApproverFactor (n_actionName c) && negb (isFreshApproverFactor d)))
                403 "step_up_required"
  | None => Ok tt
  end.

Definition authority_gates (q : DecideInput) (dir : Directory) (now : Z) (t : Tables)
    : GateResult (ApprovalRow * option IntentContent * option (string * list string)) :=
  let! a := load_approval q now t in
  let! _ := pam_gate q a t in
  let! oc := intent_gate q dir a t in
  let! ack := acknowledgement_gate q oc t in
  Ok (a, oc, ack).

Definition decideGates (q : DecideInput) (dir : Directory) (now : Z) (store : Store) (t : Tables) (s : Authenticators)
    : GateResult Verdict * Authenticators :=
  match authority_gates q dir now t with
  | Err e => (Err e, s)
  | Ok (a, oc, ack) =>
      let '(r, s') := assurance_gate q a oc now store t s in
      (let! d := r in
       let! _ := sole_operator_step_up q a oc now d in
       let! _ := fresh_factor_gate q oc d in
       Ok (mkVerdict a oc d ack), s')
  end.
End decide.

(** ** The transaction *)

Definition PAM_ELEVATION_GRANT_MINUTES : Z := 15.
Definition PAM_TARGET_HASH_UNVERIFIED_REASON : string :=
  "Target identity could not be verified on the device; re-request elevation.".
Definition hasVerifiableTargetHash (hash : option string) : bool :=
  match hash with Some h => non_empty (trim h) | None => false end.

Definition DecideTx (A : Type) : Type := Transaction Tables string A.

Definition set_elevation_denied (reason : string) (e : Elevation) : Elevation :=
  mkElevation (e_id e) (e_orgId e) (e_deviceId e) (e_revision e) (e_targetPath e) (e_targetHash e) el_denied (e_decidedBy e)
    (Some reason) (e_grantExpiresAt e).

(** The desired state, or why the approve is refused. *)
Definition createPamDecisionIntent (e : Elevation) (approve : bool) (expiresAt : option Z) (now : Z)
    : DecideTx (DesiredState * option string) :=
  let* _ := guard* (negb approve || match expiresAt with Some x => now <? x | None => false end)
              or "approved PAM actuation requires a future expiry" in ret tt in
  let* locked := query (λ t, elevations t !! e_id e) in
  let* _ := guard* (match locked with
                    | Some l => String.eqb (e_orgId l) (e_orgId e) && String.eqb (e_deviceId l) (e_deviceId e)
                                && (e_revision l =? e_revision e)
                    | None => false
                    end) or "PAM request snapshot or revision changed" in ret tt in
  let* existing := query (λ t, List.find (λ u, String.eqb (u_elevationId u) (e_id e) && (u_revision u =? e_revision e))
                                 (actuations t)) in
  match existing with
  | Some u => ret (u_desiredState u, None)
  | None =>
      if approve && non_empty (default "" (e_targetPath e)) && negb (hasVerifiableTargetHash (e_targetHash e)) then
        let* _ := modify (λ t, set_elevations (alter (set_elevation_denied PAM_TARGET_HASH_UNVERIFIED_REASON) (e_id e) (elevations t)) t) in
        let* _ := modify (add_audit (e_id e, "denied")) in
        ret (cleanup_state, Some PAM_TARGET_HASH_UNVERIFIED_REASON)
      else
        let desired := if approve then active_state else cleanup_state in
        let* _ := modify (add_actuation (mkActuation (e_id e) (e_revision e) 1 desired)) in
        ret (desired, None)
  end.

Definition set_decided (q : DecideInput) (d : AssuranceDecision) (now : Z) (a : ApprovalRow) : ApprovalRow :=
  mkApprovalRow (a_id a) (a_userId a) (a_intentId a) (a_elevationRequestId a) (a_executionId a) (a_toolName a) (a_arguments a)
    (a_riskTier a) (a_expiresAt a) (a_boundArgumentDigest a) (if q_approve q then a_approved else a_denied) (Some now)
    (q_reason q) (Some (decidedAssuranceLevel d)) (Some (decidedVia d)) (authenticatorDeviceId d) (stepUpGrantReuse d)
    (a_refusalReason a).
Definition set_refused (reason : string) (a : ApprovalRow) : ApprovalRow :=
  mkApprovalRow (a_id a) (a_userId a) (a_intentId a) (a_elevationRequestId a) (a_executionId a) (a_toolName a) (a_arguments a)
    (a_riskTier a) (a_expiresAt a) (a_boundArgumentDigest a) a_denied (a_decidedAt a)
    (a_decisionReason a) (a_decidedAssuranceLevel a) (a_decidedVia a) (a_authenticatorDeviceId a) (a_decidedViaStepUpGrant a)
    (Some reason).

(** The approval, if it is still the caller's, pending and unexpired. *)
Definition cas_approval (q : DecideInput) (d : AssuranceDecision) (now : Z) : DecideTx (option ApprovalRow) :=
  λ t, match approvals (db t) !! q_id q with
       | Some a =>
           if String.eqb (a_userId a) (q_userId q) && bool_decide (a_status a = a_pending) && (now <? a_expiresAt a)
           then let a' := set_decided q d now a in
                Ok (Some a', on_db (λ b, set_approvals (<[q_id q := a']> (approvals b)) b) t)
           else Ok (None, t)
       | None => Ok (None, t)
       end.

Definition save_acknowledgement (ack : option (string * list string)) : DecideTx unit :=
  modify (λ t, match ack with
               | Some (id, (_ :: _) as l) =>
                   on_db (λ b, set_proposals (alter (λ p, mkProposal (p_orgId p) (p_reviewed p) (p_expiresAt p) (p_intentId p)
                                                           (p_strictHits p) (Some l)) id (proposals b)) b) t
               | _ => t
               end).

Definition decide_elevation_row (q : DecideInput) (expiresAt : option Z) (e : Elevation) : Elevation :=
  mkElevation (e_id e) (e_orgId e) (e_deviceId e) (e_revision e) (e_targetPath e) (e_targetHash e)
    (if q_approve q then el_approved else el_denied) (Some (q_userId q))
    (if q_approve q then e_denialReason e else q_reason q) (if q_approve q then expiresAt else e_grantExpiresAt e).

(** The linked elevation, first wins; the approval as it is left. *)
Definition decide_elevation (q : DecideInput) (now : Z) (a : ApprovalRow) : DecideTx (ApprovalRow * option string) :=
  match a_elevationRequestId a with
  | None => ret (a, None)
  | Some eid =>
      let* oe := query (λ t, elevations t !! eid) in
      match oe with
      | None => ret (a, None)
      | Some e =>
          if negb (bool_decide (e_status e = el_pending)) then ret (a, None)
          else
            let expiresAt := if q_approve q then Some (now + PAM_ELEVATION_GRANT_MINUTES * 60000) else None in
            let* _ := modify (λ t, set_elevations (<[eid := decide_elevation_row q expiresAt e]> (elevations t)) t) in
            let* _ := modify (add_audit (e_id e, if q_approve q then "approved" else "denied")) in
            let* r := createPamDecisionIntent e (q_approve q) expiresAt now in
            let* a' := match r.2 with
                       | Some reason =>
                           if q_approve q
                           then let a' := set_refused reason a in
                                let* _ := modify (on_db (λ b, set_approvals (<[a_id a := a']> (approvals b)) b)) in ret a'
                           else ret a
                       | None => ret a
                       end in
            let* _ := modify (on_db (λ b, set_approvals (expire_pending (λ x, bool_decide (a_elevationRequestId x = Some eid)
                                                                          && negb (String.eqb (a_id x) (a_id a))) now (approvals b)) b)) in
            ret (a', r.2)
      end
  end.

(** The execution the legacy bridge waits on, of a session of the decider. *)
Definition mirror_execution (q : DecideInput) (a : ApprovalRow) : DecideTx unit :=
  modify (λ t, match a_executionId a with
               | None => t
               | Some x => set_executions
                   (alter (λ e, if bool_decide (y_status e = x_pending) && bool_decide (sessionUser t !! y_sessionId e = Some (q_userId q))
                                then mkExecution (if q_approve q then x_approved else x_rejected) (y_sessionId e) (y_intentId e) else e)
                      x (executions t)) t
               end).

Definition set_intent_decided (q : DecideInput) (d : AssuranceDecision) (now : Z) (n : IntentState) : IntentState :=
  mkState (if q_approve q then approved else rejected) (n_policyDecisionState n) (n_approvalExpiresAt n)
    (if q_approve q then Some (now + RELEASE_LEASE_MS) else n_releaseBy n) (Some now) (Some (q_userId q))
    (Some (decidedAssuranceLevel d)) (Some (by_factor (decidedVia d))) (n_executionStartedAt n) (n_executedAt n) (n_errorCode n).

(** The linked intent, first wins: its decision, its other approvals, its event. *)
Definition decide_intent (q : DecideInput) (v : Verdict) (now : Z) (a : ApprovalRow) (b : Intents.Db) : bool * Intents.Db :=
  match a_intentId a, v_intent v with
  | Some id, Some c =>
      match cas_intent id (status_in [pending_approval]) (set_intent_decided q (v_assurance v) now) b with
      | (Some _, b1) =>
          let b2 := set_approvals (expire_pending (λ x, of_intent id x && negb (String.eqb (a_id x) (a_id a))) now (approvals b1)) b1 in
          (true, if q_approve q then add_outbox (id, intent_approved) b2
                 else publishIntentTerminalOutbox id (n_taskId c) intent_rejected b2)
      | (None, b1) => (false, b1)
      end
  | _, _ => (false, b)
  end.

Inductive DecideWriteResult := lostRace | written (updated : ApprovalRow) (wonIntent : bool) (refusalReason : option string).

Definition decideTx (q : DecideInput) (v : Verdict) (now : Z) : DecideTx DecideWriteResult :=
  let* _ := save_acknowledgement (v_acknowledged v) in
  let* r := cas_approval q (v_assurance v) now in
  match r with
  | None => ret lostRace
  | Some a =>
      let* e := decide_elevation q now a in
      let* _ := mirror_execution q e.1 in
      let* won := (λ t, let '(w, b) := decide_intent q v now e.1 (db t) in Ok (w, on_db (λ _, b) t)) in
      ret (written e.1 won e.2)
  end.

(** ** Reporting a request *)

Definition set_reported (now : Z) (a : ApprovalRow) : ApprovalRow :=
  mkApprovalRow (a_id a) (a_userId a) (a_intentId a) (a_elevationRequestId a) (a_executionId a) (a_toolName a) (a_arguments a)
    (a_riskTier a) (a_expiresAt a) (a_boundArgumentDigest a) a_reported (Some now) (Some "Reported as suspicious by user")
    (a_decidedAssuranceLevel a) (a_decidedVia a) (a_authenticatorDeviceId a) (a_decidedViaStepUpGrant a) (a_refusalReason a).

(** The row, if it is still pending. *)
Definition report_row (userId id : string) (now : Z) (b : Intents.Db) : Intents.Db :=
  match approvals b !! id with
  | Some a => if String.eqb (a_userId a) userId && bool_decide (a_status a = a_pending)
              then set_approvals (<[id := set_reported now a]> (approvals b)) b else b
  | None => b
  end.

(** Reporting a pending row of an intent rejects the intent: [existing] is the row as it
    was read before the transaction; the result tells whether the intent was rejected. *)
Definition reportSuspicious (userId : string) (existing : ApprovalRow) (now : Z) (b : Intents.Db) : bool * Intents.Db :=
  if negb (bool_decide (a_status existing = a_pending)) then (false, b)
  else
    let b1 := report_row userId (a_id existing) now b in
    match a_intentId existing with
    | None => (false, b1)
    | Some k =>
        match cas_intent k (status_in [pending_approval]) (set_rejected userId None now) b1 with
        | (Some i, b2) =>
            (true, publishIntentTerminalOutbox k (n_taskId (n_content i)) intent_rejected
                     (set_approvals (expire_pending (λ x, of_intent k x && negb (String.eqb (a_id x) (a_id existing))) now
                                       (approvals b2)) b2))
        | (None, b2) => (false, b2)
        end
    end.

(** The grant minted after the commit, if the decision was made with a ceremony. *)
Definition mintAfterDecide (sha256 : string → string) (grantId : string) (q : DecideInput) (v : Verdict) (won : bool) (now : Z)
    (t : Tables) (store : Store) : option string * Store :=
  if q_approve q && won && bool_decide (q_preverified q = None) && negb (stepUpGrantReuse (v_assurance v)) then
    match resolveGrantScope t (v_intent v) (a_riskTier (v_approval v)), q_session q with
    | Some sc, Some n => mintApprovalDecideGrant sha256 grantId (q_userId q) n sc (v_assurance v) now store
    | _, _ => (None, store)
    end
  else (None, store).

(** ** The whole request, and the batch *)

Section request.
Context (getUserPermissions : string → Context → option UserPermissions).
Context (deviceArgs : string → list string).
Context (requiredPermissionsForTool : string → json → option (list Permission)).
Context (toolPermitted : IntentContent → bool).
Context (verifyAuthenticationResponse : ApprovalProof → string → AuthenticatorDevice → result string (bool * Z)).
Context (verifyMobileSignature : string → string → string → string → bool).
Context (attestationEnforced : bool) (defaultEnforceFrom : Z) (policies : gmap string StoredAuthenticatorPolicy).
Context (sha256 : string → string).

Notation gates := (decideGates getUserPermissions deviceArgs requiredPermissionsForTool toolPermitted
  verifyAuthenticationResponse verifyMobileSignature attestationEnforced defaultEnforceFrom policies sha256).
Notation decide_authorized := (isAgentIntentDecideAuthorized getUserPermissions deviceArgs requiredPermissionsForTool).

(** The gates at [now] and the transaction at [txNow], with no other request between
    them. *)
Definition decideApprovalRequest (q : DecideInput) (dir : Directory) (now txNow : Z) (store : Store) (t : Tables)
    (s : Authenticators) : GateResult (Verdict * DecideWriteResult) * (Tables * Authenticators) :=
  match gates q dir now store t s with
  | (Err e, s') => (Err e, (t, s'))
  | (Ok v, s') =>
      match run_tx (decideTx q v txNow) t with
      | (Ok lostRace, t') => (refuse 409 "Already decided", (t', s'))
      | (Ok w, t') => (Ok (v, w), (t', s'))
      | (Err _, t') => (refuse 500 "decide_failed", (t', s'))
      end
  end.

(** *** Batches *)

Definition APPROVAL_BATCH_MAX : nat := 50.

(** [[...new Set(ids)]]: the first occurrences. *)
Definition unique_ids (l : list string) : list string := reverse (remove_dups (reverse l)).

Fixpoint join_comma (l : list string) : string :=
  match l with [] => "" | [x] => x | x :: r => x +:+ "," +:+ join_comma r end.

Definition batchAssertionKey (ids : list string) (approve : bool) : string :=
  "batch-" +:+ (if approve then "approved" else "denied") +:+ "-"
  +:+ sha256 (join_comma (js_sort String.leb (unique_ids ids))).

Definition BatchRow : Type := ApprovalRow * IntentContent.

Definition normalizeApprovalBatchAction (action : option json) : option string :=
  match action with Some (JStr s) => Some (toLowerCase (trim s)) | _ => None end.
Definition NUL : string := String (Ascii.ascii_of_nat 0) "".
Definition approvalBatchGroupParts (orgId : option string) (toolName : string) (action : option json) : string * string * string :=
  (default "" orgId, toolName, default "" (normalizeApprovalBatchAction action)).
Definition approvalBatchGroupKey (orgId : option string) (toolName : string) (action : option json) : string :=
  let '(a, b, c) := approvalBatchGroupParts orgId toolName action in a +:+ NUL +:+ b +:+ NUL +:+ c.
Definition batchGroupKey (r : BatchRow) : string :=
  approvalBatchGroupKey (Some (n_orgId r.2)) (a_toolName r.1) (jget "action" (a_arguments r.1)).

(** A row of the batch: pending, the caller's, of an agent's supervised intent that is
    itself pending and that the caller may decide. *)
Definition batch_row (dir : Directory) (userId : string) (t : Tables) (id : string) : option BatchRow :=
  a ← approvals (db t) !! id;
  k ← a_intentId a;
  i ← intents (db t) !! k;
  let c := n_content i in
  if String.eqb (a_userId a) userId && bool_decide (a_status a = a_pending)
     && bool_decide (n_approvalScope c = supervised) && bool_decide (is_Some (n_requestingAgentRunId c))
     && bool_decide (status i = pending_approval) && decide_authorized dir userId c
  then Some (a, c) else None.

Definition tier_rank (t : RiskTier) : Z := match t with low => 0 | medium => 1 | high => 2 | critical => 3 end.
Definition max_tier (rows : list BatchRow) : RiskTier :=
  foldl (λ acc r, if tier_rank acc <? tier_rank (a_riskTier r.1) then a_riskTier r.1 else acc) low rows.

Record BatchLoad := mkBatch { bl_ids : list string; bl_rows : list BatchRow; bl_maxRiskTier : RiskTier }.

(** The refusal carries the offending ids. *)
Definition loadHomogeneousBatch (dir : Directory) (userId : string) (requested : list string) (t : Tables)
    : result (Refusal * list string) BatchLoad :=
  let ids := unique_ids requested in
  if bool_decide (ids = []) then Err (mkRefusal 400 "batch_empty", [])
  else if (APPROVAL_BATCH_MAX <? length ids)%nat then Err (mkRefusal 400 "batch_too_large", [])
  else
    let rows := omap (batch_row dir userId t) ids in
    let bad := List.filter (λ id, bool_decide (batch_row dir userId t id = None)) ids in
    let odd := match rows with
               | [] => []
               | anchor :: _ => (λ r, a_id r.1) <$> List.filter (λ r, negb (String.eqb (batchGroupKey r) (batchGroupKey anchor))) rows
               end in
    if negb (bool_decide (bad ++ odd = []))
    then Err (mkRefusal 422 "batch_not_homogeneous", List.filter (λ id, bool_decide (id ∈ bad ++ odd)) ids)
    else Ok (mkBatch ids rows (max_tier rows)).

(** The request of one row of a batch, with the assurance of the batch. *)
Definition row_request (q : DecideInput) (d : AssuranceDecision) (id : string) : DecideInput :=
  mkDecide (q_interactive q) (q_userId q) (q_partnerId q) (q_mfa q) (q_session q) id (q_approve q) (q_reason q) None false []
    (Some d) None.

(** The rows in order; [clock k] are the times of the [k]-th row. *)
Fixpoint decide_rows (q : DecideInput) (d : AssuranceDecision) (dir : Directory) (clock : nat → Z * Z) (store : Store)
    (k : nat) (ids : list string) (t : Tables) (s : Authenticators)
    : list (string * GateResult (Verdict * DecideWriteResult)) * (Tables * Authenticators) :=
  match ids with
  | [] => ([], (t, s))
  | id :: rest =>
      let '(r, (t1, s1)) := decideApprovalRequest (row_request q d id) dir (clock k).1 (clock k).2 store t s in
      let '(rs, w) := decide_rows q d dir clock store (S k) rest t1 s1 in
      ((id, r) :: rs, w)
  end.

(** [q]: who asks, the direction, the reason and the proof; its [q_id] is not read. *)
Definition decideApprovalBatch (q : DecideInput) (requested : list string) (dir : Directory) (now : Z) (clock : nat → Z * Z)
    (store : Store) (t : Tables) (s : Authenticators)
    : result (Refusal * list string) (list (string * GateResult (Verdict * DecideWriteResult))) * (Tables * Authenticators) :=
  if negb (q_interactive q) then (Err (mkRefusal 403 "human_decision_required", []), (t, s))
  else
    match loadHomogeneousBatch dir (q_userId q) requested t with
    | Err e => (Err e, (t, s))
    | Ok b =>
        match assertApprovalAssurance verifyAuthenticationResponse verifyMobileSignature attestationEnforced
                defaultEnforceFrom policies
                (mkInput (batchAssertionKey (bl_ids b) (q_approve q)) (q_userId q) (bl_maxRiskTier b) (q_proof q)
                   (q_partnerId q) (q_approve q) false) now s with
        | (Err e, s') => (Err (ladder_refusal e, []), (t, s'))
        | (Ok d, s') =>
            let '(rs, w) := decide_rows q d dir clock store 0 ((λ r, a_id r.1) <$> bl_rows b) t s' in (Ok rs, w)
        end
    end.
End request.

End Decide.
