(* ===== verification/DecideFacts.v ===== *)
(** * What a decision guarantees

    Theorems about [ApprovalDecide]: who may approve under four eyes, that a denial
    needs no proof, what a batch covers, and how an elevation is settled. *)
From S2P Require Import Prelude JsText Authority Transaction Assurance StepUpGrant OperatorTask OperatorDispatch Intents Approvers ApprovalDecide.
From stdpp Require Import base tactics list strings gmap.
From Stdlib Require Import ZArith Lia.
Open Scope Z_scope.

Module DecideFacts.
Import Permissions Levels Ladder Grants DecideGrant Intents Approvers Decide.

(** ** Taking gates apart *)

Lemma rbind_Ok {E A B} (k : A → result E B) r b : rbind k r = Ok b → ∃ a, r = Ok a ∧ k a = Ok b.
Proof. destruct r as [a|]; [|done]. eauto. Qed.

Lemma require_Ok b s e u : require b s e = Ok u → b = true.
Proof. by destruct b. Qed.

(** Every gate an accepted request has passed, as a hypothesis. *)
Ltac gate_step :=
  match goal with
  | H : rbind _ _ = Ok _ |- _ =>
      let a := fresh "r" in let Ha := fresh "Hr" in apply rbind_Ok in H; destruct H as (a & Ha & H)
  | H : require _ _ _ = Ok _ |- _ => apply require_Ok in H
  | H : refuse _ _ = Ok _ |- _ => discriminate H
  | H : Err _ = Ok _ |- _ => discriminate H
  | H : Ok _ = Ok _ |- _ => injection H as H
  end.
Ltac gate_inv := repeat gate_step; bool_hyps; text_eqs.

Lemma load_approval_Ok q now t a :
  load_approval q now t = Ok a →
  q_interactive q = true ∧ approvals (db t) !! q_id q = Some a ∧ a_userId a = q_userId q ∧ a_status a = a_pending
  ∧ now < a_expiresAt a.
Proof.
  unfold load_approval. intros H. gate_step. gate_step. gate_step. gate_step. destruct (_ !! _) as [a0|] eqn:Ea; [|done].
  gate_inv. by subst.
Qed.

(** ** The transaction *)

Lemma publish_intents id task e b : intents (publishIntentTerminalOutbox id task e b) = intents b.
Proof. unfold publishIntentTerminalOutbox, enqueueTaskOutbox. destruct task; [|done]. by case_bool_decide. Qed.
Lemma publish_approvals id task e b : approvals (publishIntentTerminalOutbox id task e b) = approvals b.
Proof. unfold publishIntentTerminalOutbox, enqueueTaskOutbox. destruct task; [|done]. by case_bool_decide. Qed.

Lemma mirror_db q a t x t' : mirror_execution q a t = Ok (x, t') → db t' = db t.
Proof. unfold mirror_execution, modify. intros [= _ <-]. by destruct (a_executionId a). Qed.

Lemma save_approvals ack t x t' : save_acknowledgement ack t = Ok (x, t') →
  approvals (db t') = approvals (db t) ∧ intents (db t') = intents (db t) ∧ elevations t' = elevations t ∧ actuations t' = actuations t.
Proof. unfold save_acknowledgement, modify. intros [= _ <-]. by destruct ack as [[? []]|]. Qed.

Lemma cas_approval_Ok q d now t r t' : cas_approval q d now t = Ok (r, t') →
  match r with
  | None => t' = t
  | Some a' => ∃ a, approvals (db t) !! q_id q = Some a ∧ a_userId a = q_userId q ∧ a_status a = a_pending ∧ now < a_expiresAt a
      ∧ a' = set_decided q d now a ∧ t' = on_db (λ b, set_approvals (<[q_id q := a']> (approvals b)) b) t
  end.
Proof.
  unfold cas_approval. destruct (_ !! _) as [a|]; [|by intros [= <- <-]].
  destruct (_ && _) eqn:E; intros [= <- <-]; [|done]. bool_hyps. text_eqs. eauto 10.
Qed.

(** The first decision of a pending intent: its row, and what is left of its
    approvals. *)
Lemma decide_intent_first q v now a b k c i :
  a_intentId a = Some k → v_intent v = Some c → intents b !! k = Some i → status i = pending_approval →
  ∃ b', decide_intent q v now a b = (true, b')
    ∧ intents b' = <[k := mkIntent (n_content i) (set_intent_decided q (v_assurance v) now (n_state i))]> (intents b)
    ∧ approvals b' = expire_pending (λ x, of_intent k x && negb (String.eqb (a_id x) (a_id a))) now (approvals b).
Proof.
  intros Ha Hv Hi Hs. unfold decide_intent, cas_intent. rewrite Ha, Hv, Hi.
  unfold status_in. rewrite bool_decide_eq_true_2 by (rewrite Hs; left). eexists. split; [done|].
  destruct (q_approve q); [done|]. by rewrite publish_intents, publish_approvals.
Qed.

Lemma decide_intent_late q v now a b k i :
  a_intentId a = Some k → intents b !! k = Some i → status i ≠ pending_approval → decide_intent q v now a b = (false, b).
Proof.
  intros Ha Hi Hs. unfold decide_intent, cas_intent. rewrite Ha, Hi. destruct (v_intent v); [|done].
  unfold status_in. by rewrite bool_decide_eq_false_2 by (by rewrite list_elem_of_singleton).
Qed.

(** A decision on a row with no elevation. *)
Lemma decideTx_plain q v now t a :
  approvals (db t) !! q_id q = Some a → a_userId a = q_userId q → a_status a = a_pending → now < a_expiresAt a →
  a_elevationRequestId a = None →
  ∃ t1 w b, decideTx q v now t = Ok (written (set_decided q (v_assurance v) now a) w None, on_db (λ _, b) t1)
    ∧ intents (db t1) = intents (db t)
    ∧ approvals (db t1) = <[q_id q := set_decided q (v_assurance v) now a]> (approvals (db t))
    ∧ decide_intent q v now (set_decided q (v_assurance v) now a) (db t1) = (w, b).
Proof.
  intros Ha Hu Hs He Hel. unfold decideTx, bind.
  destruct (save_acknowledgement (v_acknowledged v) t) as [[[] t0]|] eqn:E0; [|discriminate E0].
  apply save_approvals in E0 as (E0 & E0' & _). unfold cas_approval. rewrite E0, Ha, Hu, String.eqb_refl, Hs.
  rewrite bool_decide_eq_true_2, (proj2 (Z.ltb_lt _ _) He) by done. cbn [andb].
  unfold decide_elevation. cbn [set_decided a_elevationRequestId]. rewrite Hel. unfold ret at 1.
  destruct (mirror_execution _ _ _) as [[[] t1]|] eqn:E1; [|discriminate E1]. apply mirror_db in E1.
  cbn [fst snd]. destruct (decide_intent _ _ _ _ (db t1)) as [w b] eqn:E2.
  exists t1, w, b. unfold ret. split_and!; try done; rewrite E1; cbn; congruence.
Qed.

Lemma expire_pending_pending p now m id a :
  expire_pending p now m !! id = Some a → a_status a = a_pending → m !! id = Some a ∧ p a = false.
Proof.
  unfold expire_pending, update_where. rewrite lookup_fmap. destruct (m !! id) as [b|]; [|done].
  cbn. intros [= <-]. destruct (p b) eqn:E; cbn [andb]; [|done]. by case_bool_decide.
Qed.

Lemma expire_pending_decided p now m id a :
  m !! id = Some a → a_status a ≠ a_pending → expire_pending p now m !! id = Some a.
Proof.
  intros Hm Hs. unfold expire_pending, update_where. rewrite lookup_fmap, Hm. cbn.
  by rewrite (bool_decide_eq_false_2 _ Hs), andb_false_r.
Qed.

(** The rows are stored under their ids. *)
Definition keyed (b : Intents.Db) : Prop := ∀ id a, approvals b !! id = Some a → a_id a = id.

(** The first decision of a pending intent leaves its row decided, the intent decided
    and none of its rows pending. *)
Lemma decideTx_first q v now t a k c i :
  approvals (db t) !! q_id q = Some a → a_userId a = q_userId q → a_status a = a_pending → now < a_expiresAt a →
  a_elevationRequestId a = None → a_intentId a = Some k → v_intent v = Some c → keyed (db t) →
  intents (db t) !! k = Some i → status i = pending_approval →
  ∃ t', decideTx q v now t = Ok (written (set_decided q (v_assurance v) now a) true None, t')
    ∧ approvals (db t') !! q_id q = Some (set_decided q (v_assurance v) now a)
    ∧ intents (db t') = <[k := mkIntent (n_content i) (set_intent_decided q (v_assurance v) now (n_state i))]> (intents (db t))
    ∧ ∀ id b, approvals (db t') !! id = Some b → a_intentId b = Some k → a_status b ≠ a_pending.
Proof.
  intros Ha Hu Hs He Hel Hk Hc Hkey Hi Hp.
  destruct (decideTx_plain q v now t a) as (t1 & w & b & -> & E1 & E2 & Hd); [done..|].
  destruct (decide_intent_first q v now (set_decided q (v_assurance v) now a) (db t1) k c i) as (b' & Hd' & Hb1 & Hb2);
    [done|done|by rewrite E1|done|].
  rewrite Hd in Hd'. injection Hd' as -> ->. eexists. split; [done|]. cbn [on_db db]. rewrite Hb1, Hb2, E1, E2. split_and!.
  - apply expire_pending_decided; [apply lookup_insert_eq|]. cbn. by destruct (q_approve q).
  - done.
  - intros id x Hx Hxk Hxp. apply expire_pending_pending in Hx as [Hx Hf]; [|done].
    unfold of_intent in Hf. rewrite bool_decide_eq_true_2 in Hf by done. cbn in Hf.
    apply negb_false_iff, String.eqb_eq in Hf. rewrite (Hkey _ _ Ha) in Hf.
    destruct (decide (id = q_id q)) as [->|Hne].
    + rewrite lookup_insert_eq in Hx. injection Hx as <-. cbn in Hxp. by destruct (q_approve q).
    + rewrite lookup_insert_ne in Hx by done. apply Hkey in Hx. congruence.
Qed.

(** *** What a decision leaves alone *)

(** The approvals with their owners and intents, and the contents of the intents. *)
Definition link (a : ApprovalRow) : string * string * option string := (a_id a, a_userId a, a_intentId a).
Definition same_links (b b' : Intents.Db) : Prop :=
  (∀ id, link <$> approvals b' !! id = link <$> approvals b !! id)
  ∧ ∀ k, n_content <$> intents b' !! k = n_content <$> intents b !! k.

#[export] Instance same_links_preorder : PreOrder same_links.
Proof.
  split; [done|]. intros x y z [H1 H2] [H3 H4]. split; intros ?; [by rewrite H3|by rewrite H4].
Qed.

Lemma same_links_eq b b' : intents b' = intents b → approvals b' = approvals b → same_links b b'.
Proof. intros H1 H2. split; intros ?; [by rewrite H2|by rewrite H1]. Qed.

Lemma same_links_approval b id a a' :
  approvals b !! id = Some a → link a' = link a → same_links b (set_approvals (<[id := a']> (approvals b)) b).
Proof.
  intros Ha Hl. split; [|done]. intros x. cbn. destruct (decide (x = id)) as [->|]; [|by rewrite lookup_insert_ne].
  rewrite lookup_insert_eq, Ha. cbn. by rewrite Hl.
Qed.

Lemma expire_pending_links p now b : same_links b (set_approvals (expire_pending p now (approvals b)) b).
Proof.
  split; [|done]. intros x. cbn. unfold expire_pending, update_where. rewrite lookup_fmap.
  destruct (approvals b !! x) as [a|]; [|done]. cbn. by destruct (_ && _).
Qed.

Lemma same_links_keyed b b' : same_links b b' → keyed b → keyed b'.
Proof.
  intros [H _] Hk id a Ha. specialize (H id). rewrite Ha in H. destruct (approvals b !! id) as [a0|] eqn:E; [|done].
  injection H as -> _ _. by apply Hk.
Qed.

Lemma createPam_db e approve x now t r t' : createPamDecisionIntent e approve x now t = Ok (r, t') → db t' = db t.
Proof.
  unfold createPamDecisionIntent. intros H. tx_inv.
  destruct (List.find _ _); [by tx_inv|]. destruct (_ && _); by tx_inv.
Qed.

Lemma decide_elevation_links q now a t a' r t' :
  approvals (db t) !! a_id a = Some a →
  decide_elevation q now a t = Ok ((a', r), t') →
  same_links (db t) (db t') ∧ link a' = link a ∧ intents (db t') = intents (db t).
Proof.
  intros Ha. unfold decide_elevation. destruct (a_elevationRequestId a) as [eid|]; [|by intros [= <- <- <-]].
  intros H. tx_step. tx_step. destruct (elevations _ !! eid) as [e|]; [|by injection H as <- <- <-].
  destruct (negb _); [by injection H as <- <- <-|].
  apply bind_Ok in H as ([] & t1 & [= <-] & H). apply bind_Ok in H as ([] & t2 & [= <-] & H).
  apply bind_Ok in H as ([d refusal] & t3 & H3%createPam_db & H). apply bind_Ok in H as (a2 & t4 & H4 & H).
  apply bind_Ok in H as ([] & t5 & [= <-] & H). injection H as <- <- <-. cbn [snd on_db db add_audit set_elevations] in *.
  assert (same_links (db t) (db t4) ∧ link a2 = link a ∧ intents (db t4) = intents (db t)) as (Hl & Hla & Hin).
  { destruct refusal as [reason|]; [|injection H4 as <- <-; by rewrite H3].
    destruct (q_approve q); [|injection H4 as <- <-; by rewrite H3].
    apply bind_Ok in H4 as ([] & t6 & [= <-] & [= <- <-]). cbn [on_db db]. rewrite H3.
    split_and!; [|done..]. by eapply same_links_approval. }
  split_and!; [|done..]. etrans; [exact Hl|]. apply expire_pending_links.
Qed.

Lemma decide_intent_links q v now a b w b' :
  decide_intent q v now a b = (w, b') →
  same_links b b' ∧ ∀ k i, intents b !! k = Some i → a_intentId a ≠ Some k → intents b' !! k = Some i.
Proof.
  unfold decide_intent. destruct (a_intentId a) as [k0|]; [|by intros [= <- <-]].
  destruct (v_intent v) as [c|]; [|by intros [= <- <-]].
  unfold cas_intent. destruct (intents b !! k0) as [i0|] eqn:Ei; [|by intros [= <- <-]].
  destruct (status_in _ _); [|by intros [= <- <-]]. intros [= _ <-].
  set (b1 := set_intents _ b).
  assert (H1 : same_links b b1).
  { split; [done|]. intros k. cbn. destruct (decide (k = k0)) as [->|]; [|by rewrite lookup_insert_ne].
    by rewrite lookup_insert_eq, Ei. }
  set (b2 := set_approvals _ b1). assert (H2 : same_links b b2) by (etrans; [exact H1|exact (expire_pending_links _ now b1)]).
  assert (H3 : ∀ k i, intents b !! k = Some i → Some k0 ≠ Some k → intents b2 !! k = Some i).
  { intros k i Hk Hne. cbn. by rewrite lookup_insert_ne by congruence. }
  destruct (q_approve q); [split; [|done]; etrans; [exact H2|by apply same_links_eq]|].
  split; [|by rewrite publish_intents].
  etrans; [exact H2|]. apply same_links_eq; [apply publish_intents|apply publish_approvals].
Qed.

Lemma decideTx_links q v now t r t' :
  keyed (db t) → decideTx q v now t = Ok (r, t') →
  same_links (db t) (db t')
  ∧ ∀ k i, intents (db t) !! k = Some i → (∀ a, approvals (db t) !! q_id q = Some a → a_intentId a ≠ Some k) →
      intents (db t') !! k = Some i.
Proof.
  intros Hkey H. unfold decideTx in H.
  apply bind_Ok in H as ([] & t0 & (E1 & E2 & _)%save_approvals & H).
  apply bind_Ok in H as (o & t1 & Hc%cas_approval_Ok & H).
  assert (H0 : same_links (db t) (db t0)) by (by apply same_links_eq).
  destruct o as [a'|]; [|injection H as <- <-; subst t1; split; [done|by rewrite E2]].
  destruct Hc as (a & Ha & _ & _ & _ & -> & ->). rewrite E1 in Ha.
  apply bind_Ok in H as ([a2 refusal] & t2 & He & H). apply decide_elevation_links in He as (L1 & L2 & L3).
  2:{ cbn. rewrite (Hkey _ _ Ha). apply lookup_insert_eq. }
  apply bind_Ok in H as ([] & t3 & Hm%mirror_db & H). apply bind_Ok in H as (won & t4 & Hd & [= <- <-]).
  cbn [fst] in Hd. destruct (decide_intent _ _ _ a2 (db t3)) as [w b] eqn:Edi. injection Hd as <- <-.
  apply decide_intent_links in Edi as [L4 L5]. cbn [on_db db] in *. rewrite Hm in *. split.
  - etrans; [exact H0|]. etrans; [|exact L4]. etrans; [|exact L1]. eapply same_links_approval; [by rewrite E1|done].
  - intros k i Hi Hne. apply L5; [by rewrite L3; cbn; rewrite E2|]. injection L2 as _ _ ->. cbn. by apply Hne.
Qed.

(** *** The key of a group *)

(** Neither an identifier nor a column of the database holds a NUL. *)
Definition nul_free (s : string) : Prop := Ascii.zero ∉ chars s.

Lemma nul_split a a' r r' :
  nul_free a → nul_free a' → a +:+ NUL +:+ r = a' +:+ NUL +:+ r' → a = a' ∧ r = r'.
Proof.
  unfold nul_free. revert a'. induction a as [|x a IH]; intros [|y a'] Ha Ha'; cbn.
  - intros [= H]. by split.
  - intros [= <- _]. destruct Ha'. left.
  - intros [= -> _]. destruct Ha. left.
  - intros [= <- H]. destruct (IH a') as [-> ->]; [intros ?; apply Ha; by right|intros ?; apply Ha'; by right|done|done].
Qed.

Lemma batchGroupKey_parts r r' :
  nul_free (n_orgId r.2) → nul_free (n_orgId r'.2) → nul_free (a_toolName r.1) → nul_free (a_toolName r'.1) →
  batchGroupKey r = batchGroupKey r' →
  n_orgId r.2 = n_orgId r'.2 ∧ a_toolName r.1 = a_toolName r'.1
  ∧ default "" (normalizeApprovalBatchAction (jget "action" (a_arguments r.1)))
    = default "" (normalizeApprovalBatchAction (jget "action" (a_arguments r'.1))).
Proof.
  intros H1 H2 H3 H4. unfold batchGroupKey, approvalBatchGroupKey, approvalBatchGroupParts. cbn [default].
  intros [E H]%nul_split; [|done..]. by apply nul_split in H as [E' ->].
Qed.

Section gates.
Context (getUserPermissions : string → Context → option UserPermissions).
Context (deviceArgs : string → list string).
Context (requiredPermissionsForTool : string → json → option (list Permission)).
Context (toolPermitted : IntentContent → bool).
Context (verifyAuthenticationResponse : ApprovalProof → string → AuthenticatorDevice → result string (bool * Z)).
Context (verifyMobileSignature : string → string → string → string → bool).
Context (attestationEnforced : bool) (defaultEnforceFrom : Z) (policies : gmap string StoredAuthenticatorPolicy).
Context (sha256 : string → string).

Notation gates := (decideGates getUserPermissions deviceArgs requiredPermissionsForTool toolPermitted
  verifyAuthenticationResponse verifyMobileSignature attestationEnforced defaultEnforceFrom policies sha256).
Notation assurance := (assurance_gate verifyAuthenticationResponse verifyMobileSignature attestationEnforced
  defaultEnforceFrom policies sha256).
Notation ladder_input q a := (mkInput (q_id q) (q_userId q) (a_riskTier a) (q_proof q) (q_partnerId q) (q_approve q)
  (q_reauthVerified q)).

Lemma decideGates_Ok q dir now store t s v s' :
  gates q dir now store t s = (Ok v, s') →
  authority_gates getUserPermissions deviceArgs requiredPermissionsForTool toolPermitted q dir now t
    = Ok (v_approval v, v_intent v, v_acknowledged v)
  ∧ assurance q (v_approval v) (v_intent v) now store t s = (Ok (v_assurance v), s')
  ∧ sole_operator_step_up defaultEnforceFrom policies q (v_approval v) (v_intent v) now (v_assurance v) = Ok tt
  ∧ fresh_factor_gate q (v_intent v) (v_assurance v) = Ok tt.
Proof.
  unfold decideGates. destruct (authority_gates _ _ _ _ _ _ _ _) as [[[a oc] ack]|] eqn:Ea; [|done].
  destruct (assurance_gate _ _ _ _ _ _ _ _ _ _ _ _ _) as [r s1] eqn:Er. intros [= H <-].
  destruct r as [d|]; [|done]. cbn [rbind] in H.
  destruct (sole_operator_step_up _ _ _ _ _ _ _) as [[]|] eqn:E1; [|done]. cbn [rbind] in H.
  destruct (fresh_factor_gate _ _ _) as [[]|] eqn:E2; [|done]. cbn [rbind] in H. injection H as <-. done.
Qed.

Lemma intent_gate_Some q dir a t c :
  intent_gate getUserPermissions deviceArgs requiredPermissionsForTool toolPermitted q dir a t = Ok (Some c) →
  ∃ k i, a_intentId a = Some k ∧ intents (db t) !! k = Some i ∧ n_content i = c
    ∧ (∀ g, a_boundArgumentDigest a = Some g → g ≠ "" → g = n_argumentDigest c)
    ∧ match n_approvalScope c, n_requestingAgentRunId c with
      | supervised, Some _ =>
          isAgentIntentDecideAuthorized getUserPermissions deviceArgs requiredPermissionsForTool dir (q_userId q) c = true
      | supervised, None => n_requestedByUserId c = Some (q_userId q) ∧ (q_approve q = true → toolPermitted c = true)
      | four_eyes, _ => four_eyes_gate getUserPermissions q dir c t = Ok tt
      end.
Proof.
  unfold intent_gate. destruct (a_intentId a) as [k|]; [|done]. destruct (intents (db t) !! k) as [i|] eqn:Ei; [|done].
  intros H. gate_step. gate_step. gate_step. cbn [rbind] in *. destruct r0. injection H as <-.
  exists k, i. split_and!; try done.
  - intros g Hg Hne. rewrite Hg in Hr. apply orb_true_iff in Hr as [E|E]; apply String.eqb_eq in E; congruence.
  - destruct (n_approvalScope (n_content i)); [|done]. destruct (n_requestingAgentRunId (n_content i)).
    + by gate_inv.
    + gate_step. gate_step. gate_inv. split; [done|]. intros E. rewrite E in Hr0. by destruct (toolPermitted _).
Qed.

Lemma four_eyes_gate_Ok q dir c t :
  q_approve q = true → four_eyes_gate getUserPermissions q dir c t = Ok tt →
  (∃ p, decider_permissions getUserPermissions q (n_orgId c) = Some p ∧ canAccessOrg p (n_orgId c) = true
        ∧ userCanDecideApprovals p = true
        ∧ (isOrgWideGovernanceIntent (n_actionName c) (n_arguments c) = true → canMutateOrgWideGovernance p = true))
  ∧ (n_requestedByUserId c = Some (q_userId q) →
     isSoleOperatorSelfApprovalForbidden (n_actionName c) = false
     ∧ ∀ u, u ∈ resolveIntentApprovers getUserPermissions dir (n_orgId c)
                  (match strict_hits c t with Some _ => Some SCRIPTS_WRITE | None => None end)
                  (isOrgWideGovernanceIntent (n_actionName c) (n_arguments c)) ↔ u = q_userId q).
Proof.
  intros Happ. unfold four_eyes_gate. rewrite Happ. cbn [negb].
  destruct (decider_permissions _ _ _) as [p|]; [|done]. intros H. gate_step. gate_step. gate_step. gate_step.
  apply andb_true_iff in Hr as [Ho Hd]. apply negb_true_iff in Hr0. split.
  - exists p. split_and!; [done..|]. intros E. rewrite E in Hr0. by destruct (canMutateOrgWideGovernance p).
  - intros Hreq. rewrite bool_decide_eq_true_2 in H by done. unfold sole_operator_gate in H. gate_step. gate_step. gate_step.
    apply negb_true_iff in Hr. split; [done|]. apply andb_true_iff in H as [H1%bool_decide_eq_true H2%bool_decide_eq_true].
    intros u. split; [|by intros ->]. intros Hu. destruct (decide (u = q_userId q)) as [|Hne]; [done|]. exfalso.
    eapply (not_elem_of_nil u). rewrite <- H1. apply list_elem_of_In, filter_In. split; [by apply list_elem_of_In|].
    by apply negb_true_iff, String.eqb_neq.
Qed.

(** Under four eyes the assurance is the ladder's: no tap and no grant stand in for it. *)
Lemma assurance_of_four_eyes q a c now store t s d s' :
  q_approve q = true → q_preverified q = None → n_approvalScope c = four_eyes →
  assurance q a (Some c) now store t s = (Ok d, s') →
  assertApprovalAssurance verifyAuthenticationResponse verifyMobileSignature attestationEnforced defaultEnforceFrom policies
    (ladder_input q a) now s = (Ok d, s').
Proof.
  intros Ha Hp Hc. unfold assurance_gate. rewrite Hp. unfold skipAssuranceLadder, self_decide.
  rewrite (bool_decide_eq_false_2 (n_approvalScope c = supervised)) by congruence. cbn [andb].
  destruct (presented_grant q) as [g|].
  - destruct (q_proof q); [|rewrite Ha].
    + destruct (assertApprovalAssurance _ _ _ _ _ _ _ _) as [[x|e] s1]; [by intros [= -> ->]|intros H; discriminate H].
    + unfold redeemGrantForDecide, resolveGrantScope. cbn [mbind option_bind].
      by rewrite (bool_decide_eq_false_2 (n_approvalScope c = supervised)) by congruence.
  - destruct (assertApprovalAssurance _ _ _ _ _ _ _ _) as [[x|e] s1]; [by intros [= -> ->]|intros H; discriminate H].
Qed.

(** The authority of whoever passes the gates of a four-eyes approve. *)
Lemma four_eyes_authority q dir now store t s v s' c :
  gates q dir now store t s = (Ok v, s') →
  q_approve q = true → q_preverified q = None → v_intent v = Some c → n_approvalScope c = four_eyes →
  (approvals (db t) !! q_id q = Some (v_approval v) ∧ a_userId (v_approval v) = q_userId q
   ∧ a_status (v_approval v) = a_pending ∧ now < a_expiresAt (v_approval v))
  ∧ (∀ g, a_boundArgumentDigest (v_approval v) = Some g → g ≠ "" → g = n_argumentDigest c)
  ∧ (∃ p, decider_permissions getUserPermissions q (n_orgId c) = Some p ∧ canAccessOrg p (n_orgId c) = true
          ∧ userCanDecideApprovals p = true
          ∧ (isOrgWideGovernanceIntent (n_actionName c) (n_arguments c) = true → canMutateOrgWideGovernance p = true))
  ∧ (n_requestedByUserId c = Some (q_userId q) →
     isSoleOperatorSelfApprovalForbidden (n_actionName c) = false
     ∧ 3 ≤ decidedAssuranceLevel (v_assurance v)
     ∧ ∀ u, u ∈ resolveIntentApprovers getUserPermissions dir (n_orgId c)
                  (match strict_hits c t with Some _ => Some SCRIPTS_WRITE | None => None end)
                  (isOrgWideGovernanceIntent (n_actionName c) (n_arguments c)) ↔ u = q_userId q).
Proof.
  intros (Hau & _ & Hso & _)%decideGates_Ok Happ Hpre Hoc Hc. rewrite Hoc in *.
  unfold authority_gates in Hau. do 4 gate_step. injection Hau as -> -> _.
  apply load_approval_Ok in Hr as (_ & Hl & Hu & Hp & He).
  apply intent_gate_Some in Hr1 as (k & i & _ & _ & _ & Hdig & Hscope). rewrite Hc in Hscope.
  apply four_eyes_gate_Ok in Hscope as [Hperm Hsole]; [|done]. split_and!; try done.
  intros Hreq. destruct (Hsole Hreq) as [Hf Hall]. split_and!; [done| |done].
  unfold sole_operator_step_up, self_decide, skipAssuranceLadder in Hso.
  rewrite (bool_decide_eq_false_2 (n_approvalScope c = supervised)), (bool_decide_eq_true_2 (q_preverified q = None)),
    Happ, (bool_decide_eq_true_2 _ Hreq) in Hso by congruence. cbn in Hso. gate_inv. done.
Qed.

(** C5: an approval under four eyes is authorized and earned.  A request of its own (not
    a row of a batch, whose assurance is verified before and which takes no intent of this
    scope) to approve an intent of the four-eyes scope passes the gates only if the
    approval is the caller's, pending, unexpired and bound to the intent's arguments; the
    caller may decide approvals in the intent's organization, with no site ceiling if the
    action is org-wide; a caller who requested the intent is its only eligible approver,
    the action allows it and the level is 3 or above; the level required is the one the
    partner's policy gives the approval's tier, and the level reached is at least the
    tier's default and what the partner's row stores for the tier, or is flagged as a
    downgrade under a policy that does not enforce the tier now; and a level above 1 comes
    from a proof accepted over an unexpired challenge issued for this approval and this
    caller. *)
Theorem four_eyes_approval_is_earned q dir now store t s v s' c :
  gates q dir now store t s = (Ok v, s') →
  q_approve q = true → q_preverified q = None → v_intent v = Some c → n_approvalScope c = four_eyes →
  (approvals (db t) !! q_id q = Some (v_approval v) ∧ a_userId (v_approval v) = q_userId q
   ∧ a_status (v_approval v) = a_pending ∧ now < a_expiresAt (v_approval v)
   ∧ ∀ g, a_boundArgumentDigest (v_approval v) = Some g → g ≠ "" → g = n_argumentDigest c)
  ∧ (∃ p, decider_permissions getUserPermissions q (n_orgId c) = Some p ∧ canAccessOrg p (n_orgId c) = true
          ∧ userCanDecideApprovals p = true
          ∧ (isOrgWideGovernanceIntent (n_actionName c) (n_arguments c) = true → canMutateOrgWideGovernance p = true))
  ∧ (n_requestedByUserId c = Some (q_userId q) →
     isSoleOperatorSelfApprovalForbidden (n_actionName c) = false
     ∧ 3 ≤ decidedAssuranceLevel (v_assurance v)
     ∧ ∀ u, u ∈ resolveIntentApprovers getUserPermissions dir (n_orgId c)
                  (match strict_hits c t with Some _ => Some SCRIPTS_WRITE | None => None end)
                  (isOrgWideGovernanceIntent (n_actionName c) (n_arguments c)) ↔ u = q_userId q)
  ∧ requiredLevel (v_assurance v)
    = requiredAssurance (a_riskTier (v_approval v)) (loadPartnerPolicy policies (q_partnerId q) ≫= floorOverrides)
  ∧ (meets_floor policies (q_partnerId q) (a_riskTier (v_approval v)) (decidedAssuranceLevel (v_assurance v))
     ∨ graceDowngrade (v_assurance v) = true
       ∧ isEnforcing (loadPartnerPolicy policies (q_partnerId q)) now (a_riskTier (v_approval v)) defaultEnforceFrom = false)
  ∧ (decidedAssuranceLevel (v_assurance v) ≠ 1 →
     ∃ proof dev ch, q_proof q = Some proof
       ∧ ceremony verifyAuthenticationResponse verifyMobileSignature (ladder_input q (v_approval v)) now s s' proof dev ch).
Proof.
  intros Hg Happ Hpre Hoc Hc.
  destruct (four_eyes_authority _ _ _ _ _ _ _ _ _ Hg Happ Hpre Hoc Hc) as (Hl & Hdig & Hperm & Hsole).
  apply decideGates_Ok in Hg as (_ & Has & _). rewrite Hoc in *.
  apply assurance_of_four_eyes, ladder_earned in Has as (_ & Hfl & _ & He); [|done..].
  destruct (Hfl Happ) as [Hreq Hfloor]. destruct Hl as (Hl1 & Hl2 & Hl3 & Hl4). split_and!; try done.
  intros Hne. unfold earned in He. cbn [i_proof] in He. destruct (q_proof q) as [p|]; [|by destruct He].
  destruct He as (dev & ch & Hcer & _). by exists p, dev, ch.
Qed.

(** *** Denials *)

Definition owner_may_deny (userId : string) (c : IntentContent) : Prop :=
  n_approvalScope c = four_eyes
  ∨ n_approvalScope c = supervised ∧ n_requestingAgentRunId c = None ∧ n_requestedByUserId c = Some userId.

Lemma deny_authority q dir now t a k i :
  q_interactive q = true → q_id q ≠ "" → q_approve q = false →
  approvals (db t) !! q_id q = Some a → a_userId a = q_userId q → a_status a = a_pending → now < a_expiresAt a →
  a_intentId a = Some k → intents (db t) !! k = Some i →
  a_boundArgumentDigest a = Some (n_argumentDigest (n_content i)) → owner_may_deny (q_userId q) (n_content i) →
  authority_gates getUserPermissions deviceArgs requiredPermissionsForTool toolPermitted q dir now t
    = Ok (a, Some (n_content i), None).
Proof.
  intros Hin Hid Hd Ha Hu Hs He Hk Hi Hg Hown. unfold authority_gates.
  assert (load_approval q now t = Ok a) as ->.
  { unfold load_approval. rewrite Hin, (proj2 (String.eqb_neq _ _) Hid), Ha, Hu, String.eqb_refl, Hs.
    rewrite bool_decide_eq_true_2, (proj2 (Z.ltb_lt _ _) He) by done. done. }
  cbn [rbind]. assert (pam_gate getUserPermissions q a t = Ok tt) as ->.
  { unfold pam_gate. rewrite Hk. by destruct (a_elevationRequestId a). }
  cbn [rbind]. assert (intent_gate getUserPermissions deviceArgs requiredPermissionsForTool toolPermitted q dir a t
    = Ok (Some (n_content i))) as ->.
  { unfold intent_gate. rewrite Hk, Hi, Hg, String.eqb_refl, orb_true_r. cbn [require rbind].
    destruct Hown as [->|(-> & -> & Hr)].
    - unfold four_eyes_gate. by rewrite Hd.
    - by rewrite (bool_decide_eq_true_2 _ Hr), Hd. }
  cbn [rbind]. unfold acknowledgement_gate. by rewrite Hd.
Qed.

Lemma deny_assurance q a c now store t s :
  q_approve q = false → q_preverified q = None → q_proof q = None →
  ∃ d, assurance q a (Some c) now store t s = (Ok d, s) ∧ decidedAssuranceLevel d = 1.
Proof.
  intros Hd Hp Hpr. unfold assurance_gate. rewrite Hp. destruct (skipAssuranceLadder _ _ _ _ _ _).
  - eexists. split; [done|]. unfold tap_decision. by rewrite Hd.
  - rewrite Hpr, Hd. unfold assertApprovalAssurance, achieved, andThen. cbn [i_proof]. unfold done_with, apply_policy.
    cbn [i_approve andb]. rewrite consistent_required. destruct (presented_grant q); eexists; split; try done.
Qed.

(** A denial needs no proof.  Whoever holds a pending, unexpired row of a pending
    intent of the four-eyes scope, or of their own supervised intent, can deny it with
    no permission, no grant and no proof, at level 1: the row ends denied, the intent
    rejected, and no row of the intent stays pending. *)
Theorem denial_needs_no_proof q dir now txNow store t s a k i :
  q_interactive q = true → q_id q ≠ "" → q_approve q = false → q_preverified q = None → q_proof q = None →
  keyed (db t) →
  approvals (db t) !! q_id q = Some a → a_userId a = q_userId q → a_status a = a_pending →
  now < a_expiresAt a → txNow < a_expiresAt a →
  a_elevationRequestId a = None → a_intentId a = Some k → intents (db t) !! k = Some i → status i = pending_approval →
  a_boundArgumentDigest a = Some (n_argumentDigest (n_content i)) → owner_may_deny (q_userId q) (n_content i) →
  ∃ v w t', decideApprovalRequest getUserPermissions deviceArgs requiredPermissionsForTool toolPermitted
              verifyAuthenticationResponse verifyMobileSignature attestationEnforced defaultEnforceFrom policies sha256
              q dir now txNow store t s = (Ok (v, w), (t', s))
    ∧ decidedAssuranceLevel (v_assurance v) = 1
    ∧ a_status <$> approvals (db t') !! q_id q = Some a_denied
    ∧ status <$> intents (db t') !! k = Some rejected
    ∧ ∀ id b, approvals (db t') !! id = Some b → a_intentId b = Some k → a_status b ≠ a_pending.
Proof.
  intros Hin Hid Hd Hp Hpr Hkey Ha Hu Hs He He' Hel Hk Hi Hst Hg Hown.
  destruct (deny_assurance q a (n_content i) now store t s Hd Hp Hpr) as (d & Has & Hlv).
  destruct (decideTx_first q (mkVerdict a (Some (n_content i)) d None) txNow t a k (n_content i) i)
    as (t' & Htx & Hap & Hint & Hpend); [done..|].
  unfold decideApprovalRequest, decideGates. rewrite (deny_authority q dir now t a k i) by done. rewrite Has.
  cbn [rbind]. unfold sole_operator_step_up, fresh_factor_gate. rewrite Hd, !andb_false_r. cbn [negb andb require rbind].
  unfold run_tx. rewrite Htx. eexists _, _, t'. split; [done|]. cbn [v_assurance].
  rewrite Hap, Hint, lookup_insert_eq. cbn. rewrite Hd. done.
Qed.

(** *** Batches *)

Notation request := (decideApprovalRequest getUserPermissions deviceArgs requiredPermissionsForTool toolPermitted
  verifyAuthenticationResponse verifyMobileSignature attestationEnforced defaultEnforceFrom policies sha256).
Notation rows_decided := (decide_rows getUserPermissions deviceArgs requiredPermissionsForTool toolPermitted
  verifyAuthenticationResponse verifyMobileSignature attestationEnforced defaultEnforceFrom policies sha256).
Notation row_for := (batch_row getUserPermissions deviceArgs requiredPermissionsForTool).

Lemma request_links q dir now txNow store t s r t' s' :
  keyed (db t) → request q dir now txNow store t s = (r, (t', s')) →
  same_links (db t) (db t')
  ∧ ∀ k i, intents (db t) !! k = Some i → (∀ a, approvals (db t) !! q_id q = Some a → a_intentId a ≠ Some k) →
      intents (db t') !! k = Some i.
Proof.
  intros Hkey. unfold decideApprovalRequest. destruct (decideGates _ _ _ _ _ _ _ _ _ _ _ _ _ _ _ _) as [[v|e] s1].
  2:{ intros [= _ <- _]. done. }
  destruct (run_tx _ t) as [[w|e] t1] eqn:E.
  - apply run_tx_Ok, (decideTx_links _ _ _ _ _ _ Hkey) in E. by destruct w; intros [= _ <- _].
  - apply run_tx_Err in E as [-> _]. by intros [= _ <- _].
Qed.

Lemma rows_links q d dir clock store n ids t s rs t' s' :
  keyed (db t) → rows_decided q d dir clock store n ids t s = (rs, (t', s')) →
  rs.*1 = ids
  ∧ ∀ k i, intents (db t) !! k = Some i →
      (∀ id a, id ∈ ids → approvals (db t) !! id = Some a → a_intentId a ≠ Some k) → intents (db t') !! k = Some i.
Proof.
  revert n t s rs. induction ids as [|id ids IH]; intros n t s rs Hkey; cbn [decide_rows].
  { intros [= <- <- _]. done. }
  destruct (decideApprovalRequest _ _ _ _ _ _ _ _ _ _ _ _ _ _ _ _ _) as [r [t1 s1]] eqn:Er.
  destruct (decide_rows _ _ _ _ _ _ _ _ _ _ _ _ _ _ _ _ _ _ _) as [rs1 w1] eqn:Ers. intros [= <- ->].
  apply (request_links _ _ _ _ _ _ _ _ _ _ Hkey) in Er as [Hl Ho]. cbn [row_request q_id] in Ho.
  apply IH in Ers as [E1 E2]; [|by eapply same_links_keyed]. split; [cbn; by rewrite E1|].
  intros k i Hi Hne. apply E2.
  - apply Ho; [done|]. intros a Ha. eapply Hne; [left|done].
  - intros id' a Hin Ha Hk. destruct Hl as [Hl _]. specialize (Hl id'). rewrite Ha in Hl.
    destruct (approvals (db t) !! id') as [a0|] eqn:E0; [|done]. injection Hl as _ _ Hl.
    apply (Hne id' a0); [by right|done|congruence].
Qed.

Lemma row_for_Some dir u t id r :
  row_for dir u t id = Some r →
  ∃ k i, approvals (db t) !! id = Some r.1 ∧ a_intentId r.1 = Some k ∧ intents (db t) !! k = Some i ∧ n_content i = r.2
    ∧ a_userId r.1 = u ∧ a_status r.1 = a_pending ∧ n_approvalScope r.2 = supervised
    ∧ is_Some (n_requestingAgentRunId r.2) ∧ status i = pending_approval
    ∧ isAgentIntentDecideAuthorized getUserPermissions deviceArgs requiredPermissionsForTool dir u r.2 = true.
Proof.
  unfold batch_row. destruct (approvals _ !! id) as [a|]; cbn [mbind option_bind]; [|done].
  destruct (a_intentId a) as [k|] eqn:Ek; cbn [mbind option_bind]; [|done].
  destruct (intents _ !! k) as [i|] eqn:Ei; cbn [mbind option_bind]; [|done].
  destruct (_ && _) eqn:E; [|done]. intros [= <-]. cbn [fst snd]. bool_hyps. text_eqs. exists k, i. split_and!; done.
Qed.

Lemma elem_of_unique x l : x ∈ unique_ids l ↔ x ∈ l.
Proof. unfold unique_ids. by rewrite elem_of_reverse, elem_of_remove_dups, elem_of_reverse. Qed.

Lemma max_tier_ge_from rows acc :
  tier_rank acc ≤ tier_rank (foldl (λ acc (r : BatchRow), if tier_rank acc <? tier_rank (a_riskTier r.1)
                                                           then a_riskTier r.1 else acc) acc rows)
  ∧ ∀ r, r ∈ rows → tier_rank (a_riskTier r.1)
      ≤ tier_rank (foldl (λ acc (r : BatchRow), if tier_rank acc <? tier_rank (a_riskTier r.1)
                                                 then a_riskTier r.1 else acc) acc rows).
Proof.
  revert acc. induction rows as [|r rows IH]; intros acc; cbn [foldl].
  { split; [lia|]. intros r H. by apply not_elem_of_nil in H. }
  destruct (_ <? _) eqn:E; bool_hyps.
  - destruct (IH (a_riskTier r.1)) as [H1 H2]. split; [lia|]. intros r' [->|H]%elem_of_cons; auto.
  - destruct (IH acc) as [H1 H2]. split; [lia|]. intros r' [->|H]%elem_of_cons; [lia|auto].
Qed.
Lemma max_tier_ge rows r : r ∈ rows → tier_rank (a_riskTier r.1) ≤ tier_rank (max_tier rows).
Proof. apply (max_tier_ge_from rows low). Qed.

Lemma required_monotone partner x y :
  tier_rank x ≤ tier_rank y →
  requiredAssurance x (loadPartnerPolicy policies partner ≫= floorOverrides)
  ≤ requiredAssurance y (loadPartnerPolicy policies partner ≫= floorOverrides).
Proof.
  intros Hr. destruct (decide (x = y)) as [->|Hne]; [lia|].
  pose proof (required_le_max policies partner x). pose proof (required_ge_floor y (loadPartnerPolicy policies partner ≫= floorOverrides)).
  assert (MAX_REACHABLE_ASSURANCE x ≤ DEFAULT_ASSURANCE_FLOOR y) by (destruct x, y; cbn in *; first [lia|done]). lia.
Qed.

Lemma enforcing_monotone p now x y :
  tier_rank x ≤ tier_rank y → isEnforcing p now y defaultEnforceFrom = false → isEnforcing p now x defaultEnforceFrom = false.
Proof.
  intros Hr. unfold isEnforcing. destruct (bool_decide (_ = enforcing)); cbn [andb]; [|done].
  intros Hy%bool_decide_eq_false. apply bool_decide_eq_false. intros Hx. apply Hy.
  unfold resolveEffectivePolicy in *. destruct p as [[[req|] from o]|]; cbn [e_enforcedTiers] in *.
  - destruct y; apply (bool_decide_unpack _); vm_compute; exact I.
  - destruct x, y; try (cbn in Hr; lia); try (apply (bool_decide_unpack _); vm_compute; exact I); 
      apply (bool_decide_pack _) in Hx; vm_compute in Hx; done.
  - destruct x, y; try (cbn in Hr; lia); try (apply (bool_decide_unpack _); vm_compute; exact I); 
      apply (bool_decide_pack _) in Hx; vm_compute in Hx; done.
Qed.

(** What a row is decided with is what the verdict carries. *)
Lemma elevation_recorded q now a t e x t' :
  decide_elevation q now a t = Ok ((e, x), t') →
  a_decidedAssuranceLevel e = a_decidedAssuranceLevel a ∧ a_decidedVia e = a_decidedVia a.
Proof.
  unfold decide_elevation. destruct (a_elevationRequestId a) as [k|]; [|by intros [= <- _ _]].
  unfold bind at 1, query at 1. destruct (elevations t !! k) as [el|]; [|by intros [= <- _ _]].
  destruct (negb _); [by intros [= <- _ _]|]. intros (y1 & t1 & _ & H)%bind_Ok. apply bind_Ok in H as (y2 & t2 & _ & H).
  apply bind_Ok in H as ([st [why|]] & t3 & _ & H); cbn [snd] in H; [destruct (q_approve q)|];
    apply bind_Ok in H as (b & t4 & Hb & H); apply bind_Ok in H as (y3 & t5 & _ & [= <- _ _]);
    [apply bind_Ok in Hb as (y4 & t6 & _ & [= <- _])|by injection Hb as <- _|by injection Hb as <- _]; done.
Qed.

Lemma decideTx_recorded q v now t row won x t' :
  decideTx q v now t = Ok (written row won x, t') →
  a_decidedAssuranceLevel row = Some (decidedAssuranceLevel (v_assurance v)) ∧ a_decidedVia row = Some (decidedVia (v_assurance v)).
Proof.
  unfold decideTx. intros (y & t1 & _ & H)%bind_Ok. apply bind_Ok in H as (r & t2 & Hc & H). destruct r as [a|]; [|done].
  apply bind_Ok in H as ([e z] & t3 & He & H). apply bind_Ok in H as (y2 & t4 & _ & H). apply bind_Ok in H as (w & t5 & _ & [= <- _ _ _]).
  apply elevation_recorded in He as [-> ->]. unfold cas_approval in Hc. destruct (approvals _ !! _) as [b|]; [|done].
  destruct (_ && _); [|done]. injection Hc as <- _. done.
Qed.

Lemma preverified_gates q dir now store t s d v s' :
  gates q dir now store t s = (Ok v, s') → q_preverified q = Some d → v_assurance v = d ∧ s' = s.
Proof. intros (_ & Ha & _)%decideGates_Ok Hp. unfold assurance_gate in Ha. rewrite Hp in Ha. by injection Ha as <- <-. Qed.

Lemma preverified_state q dir now store t s d r s' :
  gates q dir now store t s = (r, s') → q_preverified q = Some d → s' = s.
Proof.
  unfold decideGates. destruct (authority_gates _ _ _ _ _ _ _ _) as [[[a oc] ack]|]; [|by intros [= _ <-]].
  unfold assurance_gate. intros H Hp. rewrite Hp in H. by injection H.
Qed.

(** A result of a row: the verdict carries the assurance of the batch, and so does the
    row that was written. *)
Definition decided_with (d : AssuranceDecision) (v : Verdict) (w : DecideWriteResult) : Prop :=
  v_assurance v = d ∧ ∃ row won x, w = written row won x
    ∧ a_decidedAssuranceLevel row = Some (decidedAssuranceLevel d) ∧ a_decidedVia row = Some (decidedVia d).

Lemma rows_decided_with q d dir clock store n ids t s rs t' s' :
  rows_decided q d dir clock store n ids t s = (rs, (t', s')) →
  s' = s ∧ ∀ id v w, (id, Ok (v, w)) ∈ rs → decided_with d v w.
Proof.
  revert n t s rs. induction ids as [|id ids IH]; intros n t s rs; cbn [decide_rows].
  { intros [= <- _ <-]. split; [done|]. by intros id v w ?%not_elem_of_nil. }
  destruct (decideApprovalRequest _ _ _ _ _ _ _ _ _ _ _ _ _ _ _ _ _) as [r [t1 s1]] eqn:Er.
  destruct (decide_rows _ _ _ _ _ _ _ _ _ _ _ _ _ _ _ _ _ _ _) as [rs1 w1] eqn:Ers. intros [= <- ->].
  apply IH in Ers as [-> Hrs]. unfold decideApprovalRequest in Er.
  destruct (decideGates _ _ _ _ _ _ _ _ _ _ _ _ _ _ _ _) as [[v|e] s2] eqn:Eg; pose proof (preverified_state _ _ _ _ _ _ d _ _ Eg eq_refl) as ->.
  - apply (preverified_gates _ _ _ _ _ _ d) in Eg as [Hv _]; [|done].
    destruct (run_tx _ t) as [[[|row won x]|e] t2] eqn:Et; injection Er as <- _ <-; (split; [done|]);
      intros id' v' w' [E|Hin]%elem_of_cons; try (by apply (Hrs id' v' w')); try done.
    injection E as -> -> ->. split; [done|]. exists row, won, x. split; [done|]. apply run_tx_Ok, decideTx_recorded in Et. by rewrite <- Hv.
  - injection Er as <- _ <-. split; [done|]. intros id' v' w' [E|Hin]%elem_of_cons; [done|by apply (Hrs id' v' w')].
Qed.

Notation load := (loadHomogeneousBatch getUserPermissions deviceArgs requiredPermissionsForTool).

Lemma load_Ok dir u requested t b :
  keyed (db t) → load dir u requested t = Ok b →
  bl_ids b = unique_ids requested ∧ (0 < length (bl_ids b) ≤ APPROVAL_BATCH_MAX)%nat
  ∧ (λ r, a_id r.1) <$> bl_rows b = bl_ids b
  ∧ (∀ id, id ∈ requested → ∃ r, r ∈ bl_rows b ∧ row_for dir u t id = Some r)
  ∧ (∀ r r', r ∈ bl_rows b → r' ∈ bl_rows b → batchGroupKey r = batchGroupKey r')
  ∧ bl_maxRiskTier b = max_tier (bl_rows b).
Proof.
  intros Hkey. unfold loadHomogeneousBatch. set (ids := unique_ids requested).
  case_bool_decide as Hne; [done|]. destruct (_ <? _)%nat eqn:El; [done|]. apply Nat.ltb_ge in El.
  set (rows := omap _ ids). destruct (negb _) eqn:Eb; [done|]. intros [= <-]. cbn [bl_ids bl_rows bl_maxRiskTier].
  apply negb_false_iff, bool_decide_eq_true, app_eq_nil in Eb as [Eb Eo].
  assert (Hall : ∀ id, id ∈ ids → ∃ r, row_for dir u t id = Some r).
  { intros id Hid. destruct (row_for dir u t id) as [r|] eqn:E; [eauto|]. exfalso. apply (not_elem_of_nil id).
    rewrite <- Eb. apply list_elem_of_In, filter_In. split; [by apply list_elem_of_In|]. by rewrite bool_decide_eq_true. }
  split_and!; [done| |done| | | |done].
  - destruct ids; [done|cbn; lia].
  - clear -Hall Hkey. subst rows. induction ids as [|id ids IH]; [done|].
    destruct (Hall id) as [r Hr]; [left|]. cbn. rewrite Hr. cbn. f_equal; [|apply IH; intros; apply Hall; by right].
    apply row_for_Some in Hr as (_ & _ & Ha & _). by apply Hkey.
  - intros id Hid%elem_of_unique. destruct (Hall id Hid) as [r Hr]. exists r. split; [|done].
    apply list_elem_of_omap. eauto.
  - destruct rows as [|anchor rest] eqn:Erows; [intros r r' H; by apply not_elem_of_nil in H|].
    assert (Hk : ∀ r, r ∈ anchor :: rest → batchGroupKey r = batchGroupKey anchor).
    { intros r Hr. destruct (String.eqb (batchGroupKey r) (batchGroupKey anchor)) eqn:E; [by apply String.eqb_eq|]. exfalso.
      apply (not_elem_of_nil (a_id r.1)). rewrite <- Eo.
      apply (list_elem_of_fmap_2 (λ r : BatchRow, a_id r.1)). apply list_elem_of_In, filter_In.
      split; [by apply list_elem_of_In|]. by rewrite E. }
    intros r r' Hr Hr'. by rewrite (Hk r), (Hk r').
Qed.

(** An approval and its intent, as a batch takes them. *)
Definition batch_member (dir : Directory) (u : string) (t : Tables) (id : string) (a : ApprovalRow) (i : Intent) : Prop :=
  approvals (db t) !! id = Some a ∧ (∃ k, a_intentId a = Some k ∧ intents (db t) !! k = Some i)
  ∧ a_userId a = u ∧ a_status a = a_pending ∧ n_approvalScope (n_content i) = supervised
  ∧ is_Some (n_requestingAgentRunId (n_content i)) ∧ status i = pending_approval
  ∧ isAgentIntentDecideAuthorized getUserPermissions deviceArgs requiredPermissionsForTool dir u (n_content i) = true.

(** C19: a batch is one decision, and never a four-eyes one.  On tables whose rows are
    under their ids, with no NUL in tool names and organizations, a batch that is decided
    has between one and fifty rows, a result for each id asked for once; every row is the
    caller's, pending, of a pending supervised intent of an agent that the caller may
    decide; the rows share the organization, the tool and the normalized action.  There is
    one assurance: it is a tap, or comes from a proof accepted over the challenge issued
    to the caller for this set of ids and this direction; every row that is decided is
    decided and recorded with it; and for an approve it meets the partner's floor for
    every row's tier, or is flagged as a downgrade under a policy that does not enforce
    that tier.  No intent outside the agents' supervised ones is changed. *)
Theorem batch_is_one_decision q requested dir now clock store t s rs t' s' :
  decideApprovalBatch getUserPermissions deviceArgs requiredPermissionsForTool toolPermitted
    verifyAuthenticationResponse verifyMobileSignature attestationEnforced defaultEnforceFrom policies sha256
    q requested dir now clock store t s = (Ok rs, (t', s')) →
  keyed (db t) →
  (∀ id a, approvals (db t) !! id = Some a → nul_free (a_toolName a)) →
  (∀ k i, intents (db t) !! k = Some i → nul_free (n_orgId (n_content i))) →
  rs.*1 = unique_ids requested ∧ (0 < length rs ≤ APPROVAL_BATCH_MAX)%nat
  ∧ (∃ d tier,
       earned verifyAuthenticationResponse verifyMobileSignature attestationEnforced
         (mkInput (batchAssertionKey sha256 (unique_ids requested) (q_approve q)) (q_userId q) tier (q_proof q) (q_partnerId q)
            (q_approve q) false) now s s' d
       ∧ (∀ id v w, (id, Ok (v, w)) ∈ rs → decided_with d v w)
       ∧ ∀ id, id ∈ requested → ∃ a i, batch_member dir (q_userId q) t id a i
           ∧ (q_approve q = true →
              meets_floor policies (q_partnerId q) (a_riskTier a) (decidedAssuranceLevel d)
              ∨ graceDowngrade d = true
                ∧ isEnforcing (loadPartnerPolicy policies (q_partnerId q)) now (a_riskTier a) defaultEnforceFrom = false))
  ∧ (∀ id id' a a' i i', id ∈ requested → id' ∈ requested →
       batch_member dir (q_userId q) t id a i → batch_member dir (q_userId q) t id' a' i' →
       n_orgId (n_content i) = n_orgId (n_content i') ∧ a_toolName a = a_toolName a'
       ∧ default "" (normalizeApprovalBatchAction (jget "action" (a_arguments a)))
         = default "" (normalizeApprovalBatchAction (jget "action" (a_arguments a'))))
  ∧ (∀ k i, intents (db t) !! k = Some i →
       n_approvalScope (n_content i) = four_eyes ∨ n_requestingAgentRunId (n_content i) = None →
       intents (db t') !! k = Some i).
Proof.
  unfold decideApprovalBatch. destruct (q_interactive q); cbn [negb]; [|done].
  destruct (load dir (q_userId q) requested t) as [b|] eqn:El; [|done].
  destruct (assertApprovalAssurance _ _ _ _ _ _ _ _) as [[d|e] s1] eqn:Ea; [|done].
  destruct (rows_decided _ _ _ _ _ _ _ _ _) as [rs0 w] eqn:Er. intros [= -> ->] Hkey Htool Horg.
  apply (load_Ok _ _ _ _ _ Hkey) in El as (Hids & Hlen & Hrows & Hmem & Hgroup & Hmax).
  destruct (rows_decided_with _ _ _ _ _ _ _ _ _ _ _ _ Er) as [-> Hwith].
  apply (rows_links _ _ _ _ _ _ _ _ _ _ _ _ Hkey) in Er as [Hrs Hother]. rewrite Hrows, Hids in *.
  pose proof Ea as (_ & _ & _ & Hearned)%ladder_earned. apply andThen_Ok in Ea as (d0 & s2 & _ & Ea). injection Ea as Hpol _.
  apply apply_policy_Ok in Hpol as (_ & _ & _ & _ & _ & Hfloor). cbn [i_approve i_partnerId i_riskTier] in Hfloor.
  assert (Hrow : ∀ id a i, id ∈ requested → batch_member dir (q_userId q) t id a i →
            (a, n_content i) ∈ bl_rows b).
  { intros id a i Hid (Ha & (k & Hk & Hi) & _). destruct (Hmem id Hid) as (r & Hr & Hf).
    apply row_for_Some in Hf as (k' & i' & Ha' & Hk' & Hi' & Hc & _). destruct r as [a0 c0]. cbn [fst snd] in *.
    assert (a0 = a) as -> by congruence. assert (k' = k) as -> by congruence. assert (i' = i) as -> by congruence. by subst c0. }
  split_and!; [by rewrite Hrs|by rewrite <- (length_fmap fst), Hrs; lia|by rewrite <- (length_fmap fst), Hrs; lia| | |].
  - exists d, (bl_maxRiskTier b). split_and!; [done..|]. intros id Hid. destruct (Hmem id Hid) as (r & Hr & Hf).
    apply row_for_Some in Hf as (k & i & Ha & Hk & Hi & Hc & Hf). exists r.1, i. split; [|].
    { rewrite <- Hc in Hf. unfold batch_member. naive_solver. }
    intros Happ. destruct (Hfloor Happ) as [Hreq Hlv]. rewrite Hmax in *. pose proof (max_tier_ge _ _ Hr) as Hge.
    destruct Hlv as [Hlv|[Hgr Hlv]]; [left|right; split; [done|by eapply enforcing_monotone]]. apply required_meets.
    pose proof (required_monotone (q_partnerId q) _ _ Hge). lia.
  - intros id id' a a' i i' Hid Hid' Hm Hm'. pose proof (Hrow _ _ _ Hid Hm) as H1. pose proof (Hrow _ _ _ Hid' Hm') as H2.
    destruct Hm as (Ha & (k & _ & Hi) & _), Hm' as (Ha' & (k' & _ & Hi') & _).
    apply (batchGroupKey_parts (a, n_content i) (a', n_content i')); cbn [fst snd]; eauto.
  - intros k i Hi Hscope. apply Hother; [done|]. intros id a Hid Ha Hk.
    destruct (Hmem id) as (r & _ & Hf); [by apply elem_of_unique|].
    apply row_for_Some in Hf as (k' & i' & Ha' & Hk' & Hi' & Hc & _ & _ & Hsup & Hrun & _).
    assert (i' = i) as -> by congruence. rewrite <- Hc in Hsup, Hrun. destruct Hscope as [Hs|Hs]; [congruence|].
    rewrite Hs in Hrun. by destruct Hrun.
Qed.

End gates.
(** ** Elevations *)

(** An approve of a path whose hash the device cannot verify. *)
Definition unverifiable (q : DecideInput) (e : Elevation) : bool :=
  q_approve q && non_empty (default "" (e_targetPath e)) && negb (hasVerifiableTargetHash (e_targetHash e)).

Definition no_actuation (t : Tables) (e : Elevation) : Prop :=
  List.find (λ u, String.eqb (u_elevationId u) (e_id e) && (u_revision u =? e_revision e)) (actuations t) = None.

(** The decision of a pending elevation whose revision has no actuation yet. *)
Lemma createPam_fresh q e now t :
  elevations t !! e_id e = Some (decide_elevation_row q (if q_approve q then Some (now + PAM_ELEVATION_GRANT_MINUTES * 60000) else None) e) →
  no_actuation t e →
  createPamDecisionIntent e (q_approve q) (if q_approve q then Some (now + PAM_ELEVATION_GRANT_MINUTES * 60000) else None) now t
  = Ok (if unverifiable q e
        then ((cleanup_state, Some PAM_TARGET_HASH_UNVERIFIED_REASON),
              add_audit (e_id e, "denied")
                (set_elevations (alter (set_elevation_denied PAM_TARGET_HASH_UNVERIFIED_REASON) (e_id e) (elevations t)) t))
        else ((if q_approve q then active_state else cleanup_state, None),
              add_actuation (mkActuation (e_id e) (e_revision e) 1 (if q_approve q then active_state else cleanup_state)) t)).
Proof.
  intros He Hn. unfold createPamDecisionIntent, bind, query, ret. unfold no_actuation in Hn.
  assert (negb (q_approve q) || match (if q_approve q then Some (now + PAM_ELEVATION_GRANT_MINUTES * 60000) else None) with
                                | Some x => now <? x | None => false end = true) as ->.
  { destruct (q_approve q); [|done]. cbn. apply Z.ltb_lt. unfold PAM_ELEVATION_GRANT_MINUTES. lia. }
  rewrite He. cbn [decide_elevation_row e_orgId e_deviceId e_revision]. rewrite !String.eqb_refl, Z.eqb_refl. cbn [andb].
  rewrite Hn. unfold unverifiable, modify. by destruct (q_approve q && _ && _).
Qed.

(** What is left of a settled elevation, its row and its other rows. *)
Definition settled (q : DecideInput) (e : Elevation) (now : Z) (t : Tables) (row : ApprovalRow) (e' : Elevation) (t' : Tables) : Prop :=
  (a_status row, e_status e') = (if q_approve q && negb (unverifiable q e) then (a_approved, el_approved) else (a_denied, el_denied))
  ∧ (unverifiable q e = true → actuations t' = actuations t ∧ e_denialReason e' = Some PAM_TARGET_HASH_UNVERIFIED_REASON)
  ∧ (unverifiable q e = false →
     actuations t' = actuations t ++ [mkActuation (e_id e) (e_revision e) 1 (if q_approve q then active_state else cleanup_state)]
     ∧ (q_approve q = true → e_grantExpiresAt e' = Some (now + 15 * 60000)))
  ∧ ∀ id b, approvals (db t') !! id = Some b → a_elevationRequestId b = Some (e_id e) → a_status b ≠ a_pending.

(** Only the row itself can stay pending when the others of the elevation expire. *)
Lemma elevation_rows_expire a eid now (m : gmap string ApprovalRow) row :
  (∀ id b, m !! id = Some b → a_id b = id) → m !! a_id a = Some row → a_status row ≠ a_pending →
  ∀ id b, expire_pending (λ x, bool_decide (a_elevationRequestId x = Some eid) && negb (String.eqb (a_id x) (a_id a))) now m !! id = Some b →
    a_elevationRequestId b = Some eid → a_status b ≠ a_pending.
Proof.
  intros Hkey Hrow Hs id b Hb He Hp. apply expire_pending_pending in Hb as [Hb Hf]; [|done].
  rewrite bool_decide_eq_true_2 in Hf by done. cbn in Hf. apply negb_false_iff, String.eqb_eq in Hf.
  pose proof (Hkey _ _ Hb) as Hid. assert (id = a_id a) as -> by congruence. congruence.
Qed.

Lemma decide_elevation_fresh q now a e t :
  keyed (db t) → approvals (db t) !! a_id a = Some a → a_status a = (if q_approve q then a_approved else a_denied) →
  a_elevationRequestId a = Some (e_id e) →
  elevations t !! e_id e = Some e → e_status e = el_pending → no_actuation t e →
  ∃ row e' t',
    decide_elevation q now a t = Ok ((row, if unverifiable q e then Some PAM_TARGET_HASH_UNVERIFIED_REASON else None), t')
    ∧ approvals (db t') !! a_id a = Some row ∧ elevations t' !! e_id e = Some e' ∧ a_intentId row = a_intentId a
    ∧ settled q e now t row e' t'.
Proof.
  intros Hkey Ha Hs Hel He Hp Hno. unfold decide_elevation. rewrite Hel. unfold bind at 1, query at 1. rewrite He, Hp.
  rewrite bool_decide_eq_true_2 by done. cbn [negb]. unfold bind at 1, modify at 1. set (t2 := set_elevations _ t).
  unfold bind at 1, modify at 1. set (t3 := add_audit _ t2). unfold bind at 1.
  rewrite (createPam_fresh q e now t3) by (done || apply lookup_insert_eq).
  destruct (unverifiable q e) eqn:Eu; cbn [snd].
  - assert (q_approve q = true) as Hq by (unfold unverifiable in Eu; by destruct (q_approve q)). rewrite Hq in *.
    set (a' := set_refused PAM_TARGET_HASH_UNVERIFIED_REASON a).
    eexists a', _, _. unfold bind, modify, ret. split; [done|]. cbn. split_and!.
    + apply expire_pending_decided; [apply lookup_insert_eq|done].
    + by rewrite lookup_alter_eq, lookup_insert_eq.
    + done.
    + unfold settled. rewrite Hq, Eu. cbn. split_and!; [done|done|done|].
      apply (elevation_rows_expire a (e_id e) now _ a'); [|apply lookup_insert_eq|done].
      intros id b [[<- <-]|[_ Hb]]%lookup_insert_Some; [done|by apply Hkey].
  - eexists a, _, _. unfold bind, modify, ret. split; [done|]. cbn. split_and!.
    + apply expire_pending_decided; [done|]. rewrite Hs. by destruct (q_approve q).
    + apply lookup_insert_eq.
    + done.
    + unfold settled. rewrite Eu. cbn [negb]. rewrite andb_true_r. split_and!.
      * rewrite Hs. unfold decide_elevation_row. cbn [e_status]. by destruct (q_approve q).
      * done.
      * intros _. split; [done|]. cbn. intros ->. done.
      * apply (elevation_rows_expire a (e_id e) now _ a); [done|done|]. rewrite Hs. by destruct (q_approve q).
Qed.

Lemma mirror_frame q a t x t' : mirror_execution q a t = Ok (x, t') →
  db t' = db t ∧ elevations t' = elevations t ∧ actuations t' = actuations t.
Proof. unfold mirror_execution, modify. intros [= _ <-]. by destruct (a_executionId a). Qed.

(** An elevation is settled with its approval.  Deciding the pending row of a
    pending elevation whose revision has no actuation yet answers.  An approve of a path
    without a verifiable hash ends as a denial: elevation and row are denied with the
    reason, and nothing is sent to the device.  Any other approve grants fifteen minutes
    and asks the device to activate; a deny asks it to clean up; elevation and row say the
    same.  No other row of the elevation stays pending. *)
Theorem elevation_settles_with_its_row q v now t a e :
  keyed (db t) → approvals (db t) !! q_id q = Some a → a_userId a = q_userId q → a_status a = a_pending →
  now < a_expiresAt a → a_intentId a = None → a_elevationRequestId a = Some (e_id e) →
  elevations t !! e_id e = Some e → e_status e = el_pending → no_actuation t e →
  ∃ row e' t', decideTx q v now t = Ok (written row false (if unverifiable q e then Some PAM_TARGET_HASH_UNVERIFIED_REASON else None), t')
    ∧ approvals (db t') !! q_id q = Some row ∧ elevations t' !! e_id e = Some e'
    ∧ settled q e now t row e' t'.
Proof.
  intros Hkey Ha Hu Hs He Hint Hel Hrow Hest Hno. unfold decideTx.
  destruct (save_acknowledgement (v_acknowledged v) t) as [[[] t0]|] eqn:E0; [|discriminate E0].
  unfold bind at 1. rewrite E0. apply save_approvals in E0 as (A0 & _ & El0 & Ac0).
  unfold bind at 1, cas_approval. rewrite A0, Ha, Hu, String.eqb_refl, Hs.
  rewrite bool_decide_eq_true_2, (proj2 (Z.ltb_lt _ _) He) by done. cbn [andb].
  set (a1 := set_decided q (v_assurance v) now a). set (t1 := on_db _ t0).
  assert (a_id a1 = q_id q) as Hid by (cbn; by apply Hkey).
  destruct (decide_elevation_fresh q now a1 e t1) as (row & e' & t2 & Hde & Hap & Hee & Hin & Hset); try done.
  { intros id b Hb. cbn in Hb. rewrite A0 in Hb.
    apply lookup_insert_Some in Hb as [[<- <-]|[_ Hb]]; [done|by apply Hkey]. }
  { rewrite Hid. cbn. apply lookup_insert_eq. }
  { cbn. by rewrite El0. }
  { unfold no_actuation. cbn. by rewrite Ac0. }
  unfold bind at 1. rewrite Hde. cbn [fst snd]. unfold bind at 1.
  destruct (mirror_execution q row t2) as [[[] t3]|] eqn:Em; [|discriminate Em]. apply mirror_frame in Em as (M1 & M2 & M3).
  unfold bind. assert (decide_intent q v now row (db t3) = (false, db t3)) as ->.
  { unfold decide_intent. rewrite Hin. cbn. by rewrite Hint. }
  exists row, e', (on_db (λ _, db t3) t3). unfold ret. split; [done|]. cbn [on_db db elevations].
  rewrite M1, M2, <- Hid. split_and!; [done|done|]. destruct Hset as (S1 & S2 & S3 & S4). unfold settled. cbn [on_db db actuations].
  rewrite M3. split_and!; [done| | |done].
  - intros Hun. destruct (S2 Hun) as [S2' ?]. by rewrite S2'; cbn; rewrite Ac0.
  - intros Hun. destruct (S3 Hun) as [S3' ?]. by rewrite S3'; cbn; rewrite Ac0.
Qed.

(** ** Examples *)

(** A technician of the partner that owns the organization, a device, and the run of an
    agent on it. *)
Definition ex_dir : Directory :=
  mkDirectory
    (Permissions.mkDb ∅ ∅ {[ ("u", "p") := mkPartnerMember (Some "admin") oa_all None ]}
       {[ "admin" := [mkPerm "approvals" "decide"; mkPerm "devices" "execute"] ]})
    {[ "u" ]} {[ "o" := "p" ]} {[ "dev" := ("o", "site") ]} {[ "run" := ("o", Some "dev") ]}.
Definition ex_perms (u : string) (ctx : Context) : option UserPermissions := Permissions.resolve (perms ex_dir) u ctx.
Definition ex_args (_ : string) : list string := ["deviceId"].
Definition ex_needs (_ : string) (_ : json) : option (list Permission) := Some [mkPerm "devices" "execute"].

Definition ex_content (id : string) (scope : ApprovalScope) (run : option string) : IntentContent :=
  mkContent id "o" (if bool_decide (run = None) then Some "requester" else None) run (if bool_decide (run = None) then chat else ai_agent)
    "manage_services" (JObj [("action", JStr "restart"); ("deviceId", JStr "dev")]) "digest" id 3 scope None None None None None None None 900000.
Definition ex_intent (id : string) (scope : ApprovalScope) (run : option string) : Intent :=
  mkIntent (ex_content id scope run) (mkState pending_approval human_required (Some 900000) None None None None None None None None).
Definition ex_approval (id u : string) (intent elevation : option string) : ApprovalRow :=
  mkApprovalRow id u intent elevation None "manage_services" (JObj [("action", JStr " Restart")]) high 900000
    (if bool_decide (intent = None) then None else Some "digest") a_pending None None None None None false None.
Definition ex_elevation : Elevation :=
  mkElevation "e" "o" "dev" 1 (Some "/bin/tool") (Some " ") el_pending None None None.

Definition ex_tables : Tables :=
  mkTables
    (mkDb {[ "i" := ex_intent "i" four_eyes None; "j1" := ex_intent "j1" supervised (Some "run");
             "j2" := ex_intent "j2" supervised (Some "run") ]}
       {[ "a" := ex_approval "a" "u" (Some "i") None; "a2" := ex_approval "a2" "v" (Some "i") None;
          "b1" := ex_approval "b1" "u" (Some "j1") None; "b2" := ex_approval "b2" "u" (Some "j2") None;
          "e1" := ex_approval "e1" "u" None (Some "e"); "e2" := ex_approval "e2" "v" None (Some "e") ]}
       [] [] [] ∅ [] ∅)
    {[ "e" := ex_elevation ]} [] [] [] ∅ ∅.

Definition ex_request (id : string) (approve : bool) (proof : option ApprovalProof) : DecideInput :=
  mkDecide true "u" (Some "p") true None id approve None proof false [] None None.
Definition ex_proof : option ApprovalProof := Some (mobile_proof "d" "n" "good").

Lemma ex_keyed : keyed (db ex_tables).
Proof.
  enough (map_Forall (λ id a, a_id a = id) (approvals (db ex_tables))) as H by exact H.
  apply (bool_decide_unpack _). vm_compute. exact I.
Qed.

Lemma four_eyes_approval_is_earned_witness :
  ∃ v s', decideGates ex_perms ex_args ex_needs (λ _, true) ex_response ex_sig true 0 ex_policies id
            (ex_request "a" true ex_proof) ex_dir 2000 None ex_tables ex_auth = (Ok v, s')
          ∧ a_userId (v_approval v) = "u".
Proof.
  eexists _, _. split; [vm_compute; reflexivity|].
  refine (proj1 (proj2 (proj1 (four_eyes_approval_is_earned ex_perms ex_args ex_needs (λ _, true) ex_response ex_sig true 0
    ex_policies id (ex_request "a" true ex_proof) ex_dir 2000 None ex_tables ex_auth _ _ (ex_content "i" four_eyes None)
    _ _ _ _ _)))).
  - vm_compute. reflexivity.
  - reflexivity.
  - reflexivity.
  - reflexivity.
  - reflexivity.
Defined.

Lemma denial_needs_no_proof_witness :
  ∃ v w t', decideApprovalRequest ex_perms ex_args ex_needs (λ _, true) ex_response ex_sig true 0 ex_policies id
              (ex_request "a" false None) ex_dir 2000 2001 None ex_tables ex_auth = (Ok (v, w), (t', ex_auth))
    ∧ decidedAssuranceLevel (v_assurance v) = 1
    ∧ a_status <$> approvals (db t') !! "a" = Some a_denied
    ∧ status <$> intents (db t') !! "i" = Some rejected
    ∧ ∀ id b, approvals (db t') !! id = Some b → a_intentId b = Some "i" → a_status b ≠ a_pending.
Proof.
  apply (denial_needs_no_proof ex_perms ex_args ex_needs (λ _, true) ex_response ex_sig true 0 ex_policies id
           (ex_request "a" false None) ex_dir 2000 2001 None ex_tables ex_auth
           (ex_approval "a" "u" (Some "i") None) "i" (ex_intent "i" four_eyes None));
    [reflexivity|intros [=]|reflexivity|reflexivity|reflexivity|exact ex_keyed|vm_compute; reflexivity|reflexivity|reflexivity
    |cbn; lia|cbn; lia|reflexivity|reflexivity|vm_compute; reflexivity|reflexivity|reflexivity|left; reflexivity].
Defined.

(** Two cards of one sweep, approved with one proof over the batch's challenge. *)
Definition ex_batch_auth : Authenticators :=
  mkAuthenticators [ex_device]
    (Some {[ mobileKey (batchAssertionKey id ["b1"; "b2"] true) "u" := mkChallenge "n" 1000 121000 ]}).

Lemma batch_is_one_decision_witness :
  ∃ rs t' s', decideApprovalBatch ex_perms ex_args ex_needs (λ _, true) ex_response ex_sig true 0 ex_policies id
                (ex_request "" true ex_proof) ["b2"; "b1"; "b2"] ex_dir 2000 (λ _, (2000, 2001)) None ex_tables ex_batch_auth
              = (Ok rs, (t', s'))
    ∧ rs.*1 = ["b2"; "b1"]
    ∧ status <$> intents (db t') !! "j1" = Some approved
    ∧ intents (db t') !! "i" = Some (ex_intent "i" four_eyes None).
Proof.
  eexists _, _, _. split; [vm_compute; reflexivity|].
  pose proof (batch_is_one_decision ex_perms ex_args ex_needs (λ _, true) ex_response ex_sig true 0 ex_policies id
    (ex_request "" true ex_proof) ["b2"; "b1"; "b2"] ex_dir 2000 (λ _, (2000, 2001)) None ex_tables ex_batch_auth) as H.
  edestruct H as (H1 & _ & _ & _ & H2); [vm_compute; reflexivity|exact ex_keyed| | |].
  - enough (map_Forall (λ _ a, nul_free (a_toolName a)) (approvals (db ex_tables))) as Hm by exact Hm.
    apply (bool_decide_unpack _). vm_compute. exact I.
  - enough (map_Forall (λ _ i, nul_free (n_orgId (n_content i))) (intents (db ex_tables))) as Hm by exact Hm.
    apply (bool_decide_unpack _). vm_compute. exact I.
  - split; [exact H1|]. split; [vm_compute; reflexivity|]. apply H2; [vm_compute; reflexivity|left; reflexivity].
Defined.

(** The elevation of a path with a blank hash is approved, and ends denied. *)
Lemma elevation_settles_with_its_row_witness :
  let v := mkVerdict (ex_approval "e1" "u" None (Some "e")) None (mkDecision 3 3 mobile_hw_key (Some "d") false false) None in
  ∃ row e' t', decideTx (ex_request "e1" true ex_proof) v 2000 ex_tables
      = Ok (written row false (Some PAM_TARGET_HASH_UNVERIFIED_REASON), t')
    ∧ approvals (db t') !! "e1" = Some row ∧ elevations t' !! "e" = Some e'
    ∧ settled (ex_request "e1" true ex_proof) ex_elevation 2000 ex_tables row e' t'.
Proof.
  apply (elevation_settles_with_its_row (ex_request "e1" true ex_proof)
    (mkVerdict (ex_approval "e1" "u" None (Some "e")) None (mkDecision 3 3 mobile_hw_key (Some "d") false false) None) 2000 ex_tables
    (ex_approval "e1" "u" None (Some "e")) ex_elevation);
    [exact ex_keyed|vm_compute; reflexivity|reflexivity|reflexivity|cbn; lia|reflexivity|reflexivity|vm_compute; reflexivity
    |reflexivity|reflexivity].
Defined.

End DecideFacts.
