(* ===== verification/IntentHistory.v ===== *)
(** * Histories of action intents

    The writers of [Intents] and [ApprovalDecide] in any order: a request to decide is
    two steps, the gates and the transaction, between which anything may happen.  Every
    writer is a sequence of the elementary changes of [change], which is the life cycle
    of an intent; the invariants are shown of those.  Intents in the lane of a policy
    decision ([deferred]) are tracked: the deferred fan-out may cancel them in any
    status. *)
From S2P Require Import Prelude JsText Authority Transaction Assurance StepUpGrant OperatorTask OperatorDispatch Intents Approvers ApprovalDecide DecideFacts.
From stdpp Require Import base tactics list strings gmap relations.
From Stdlib Require Import ZArith Lia.
Open Scope Z_scope.

Module History.
Import Permissions Levels Ladder Grants DecideGrant Intents Approvers Decide DecideFacts.

(** ** The life cycle of an intent *)

Definition terminal (s : Status) : bool := negb (bool_decide (s ∈ LIVE_INTENT_STATUSES)).
Definition terminal_event (e : OutboxEvent) : bool :=
  match e with intent_created | intent_approved => false | _ => true end.

(** A request that passed the gates, with its verdict. *)
Definition Gated : Type := DecideInput * Verdict.

Definition same_decision (n n' : IntentState) : Prop :=
  n_decidedVia n' = n_decidedVia n ∧ n_decidedByUserId n' = n_decidedByUserId n
  ∧ n_decidedAssuranceLevel n' = n_decidedAssuranceLevel n ∧ n_policyDecisionState n' = n_policyDecisionState n.

Section life.
(** The ids created in the policy lane, and the gated requests. *)
Context (deferred : gset string) (gated : list Gated).

(** What one change does to the state of the intent [k] with the content [c]: the new
    state, the events, and whether the pending rows of the intent are closed. *)
Inductive change (k : string) (c : IntentContent) (n : IntentState) : IntentState → list OutboxEvent → bool → Prop :=
| c_decide q v now :
    (q, v) ∈ gated → without_device <$> v_intent v = Some (without_device c) → n_status n = pending_approval →
    change k c n (set_intent_decided q (v_assurance v) now n) [if q_approve q then intent_approved else intent_rejected] true
| c_reject (n' : IntentState) :
    n_status n = pending_approval → n_status n' = rejected → n_policyDecisionState n' = n_policyDecisionState n →
    change k c n n' [intent_rejected] true
| c_authorize now :
    n_status n = pending_approval → n_policyDecisionState n = unattempted →
    change k c n (set_authorized now n) [intent_approved] false
| c_cancel (n' : IntentState) :
    n_status n ∈ [pending_approval; approved] ∨ k ∈ deferred →
    n_status n' = cancelled → n_policyDecisionState n' = n_policyDecisionState n →
    change k c n n' [intent_cancelled] false
| c_expire (n' : IntentState) :
    n_status n ∈ [pending_approval; approved] → n_status n' = expired →
    n_policyDecisionState n' = n_policyDecisionState n →
    change k c n n' [intent_expired] true
| c_finish (n' : IntentState) (ok : bool) :
    n_status n = executing → n_status n' = (if ok then completed else failed) → same_decision n n' →
    change k c n n' [if ok then intent_completed else intent_failed] false
| c_release (n' : IntentState) :
    n_status n = approved → n_status n' = executing → same_decision n n' → change k c n n' [] false
| c_pause (n' : IntentState) :
    n_status n = executing → n_status n' = approved → same_decision n n' → change k c n n' [] false
| c_flag :
    n_policyDecisionState n = unattempted → change k c n (with_policy_state human_required n) [] false.

(** No approval row appears, changes hands or becomes pending. *)
Definition rows_older (b b' : Db) : Prop :=
  (∀ id, link <$> approvals b' !! id = link <$> approvals b !! id)
  ∧ ∀ id a', approvals b' !! id = Some a' → a_status a' = a_pending → ∃ a, approvals b !! id = Some a ∧ a_status a = a_pending.

Definition no_pending (k : string) (b : Db) : Prop :=
  ∀ id a, approvals b !! id = Some a → a_intentId a = Some k → a_status a ≠ a_pending.

(** The elementary changes of the tables. *)
Inductive micro (b b' : Db) : Prop :=
| m_change k i n' evs closes :
    intents b !! k = Some i → change k (n_content i) (n_state i) n' evs closes →
    intents b' = <[k := mkIntent (n_content i) n']> (intents b) → outbox b' = outbox b ++ ((λ e, (k, e)) <$> evs) →
    rows_older b b' → (closes = true → no_pending k b') → micro b b'
| m_rows evs :
    intents b' = intents b → outbox b' = outbox b ++ evs → Forall (λ e, terminal_event e.2 = false) evs →
    rows_older b b' → micro b b'
| m_add k i rows :
    intents b !! k = Some i → k ∈ deferred ∨ status i = pending_approval →
    intents b' = intents b → outbox b' = outbox b → approvals b' = insert_approvals rows (approvals b) →
    Forall (λ a, a_intentId a = Some k ∧ approvals b !! a_id a = None) rows → micro b b'
| m_detach d :
    intents b' = intents (detachScopeDevice d b) → outbox b' = outbox b → approvals b' = approvals b → micro b b'
| m_new i :
    intents b !! n_id (n_content i) = None → intents b' = <[n_id (n_content i) := i]> (intents b) →
    outbox b' = outbox b → approvals b' = approvals b →
    (status i = pending_approval ∨ status i = approved ∧ n_decidedVia (n_state i) ∈ [Some by_ticket_autonomy; Some by_script_reviewer]) →
    (n_policyDecisionState (n_state i) = unattempted → n_id (n_content i) ∈ deferred ∧ n_approvalScope (n_content i) = supervised) →
    micro b b'.

(** ** The invariant *)

(** The decision on record of an intent that was released to execution. *)
Definition decided (i : Intent) : Prop :=
  match n_decidedVia (n_state i) with
  | Some (by_factor f) =>
      ∃ q v, (q, v) ∈ gated ∧ q_approve q = true ∧ without_device <$> v_intent v = Some (without_device (n_content i))
        ∧ n_decidedByUserId (n_state i) = Some (q_userId q) ∧ decidedVia (v_assurance v) = f
        ∧ n_decidedAssuranceLevel (n_state i) = Some (decidedAssuranceLevel (v_assurance v))
  | Some by_policy => n_approvalScope (n_content i) = supervised
  | Some by_ticket_autonomy | Some by_script_reviewer => True
  | None => False
  end.

Definition released_statuses : list Status := [approved; executing; completed; failed].

Definition terminal_events (k : string) (l : list (string * OutboxEvent)) : nat :=
  length (List.filter (λ e, String.eqb e.1 k && terminal_event e.2) l).

Record inv (b : Db) : Prop := mkInv {
  inv_ids : ∀ k i, intents b !! k = Some i → n_id (n_content i) = k;
  inv_rows : ∀ id a, approvals b !! id = Some a → a_id a = id ∧ ∀ k, a_intentId a = Some k → is_Some (intents b !! k);
  inv_lane : ∀ k i, intents b !! k = Some i → n_policyDecisionState (n_state i) = unattempted →
    k ∈ deferred ∧ n_approvalScope (n_content i) = supervised;
  inv_decided : ∀ k i, intents b !! k = Some i → status i ∈ released_statuses → decided i;
  inv_events : ∀ k, k ∉ deferred →
    terminal_events k (outbox b) = match intents b !! k with Some i => if terminal (status i) then 1%nat else 0%nat | None => 0%nat end;
  inv_closed : ∀ k i, k ∉ deferred → intents b !! k = Some i → status i ∉ [pending_approval; cancelled] → no_pending k b }.

(** ** Rows *)

#[export] Instance rows_older_preorder : PreOrder rows_older.
Proof.
  split; [split; eauto|]. intros x y z [H1 H2] [H3 H4]. split; [intros id; by rewrite H3|].
  intros id a Ha Hp. destruct (H4 id a Ha Hp) as (a1 & Ha1 & Hp1). eauto.
Qed.

Lemma rows_older_eq b b' : approvals b' = approvals b → rows_older b b'.
Proof. intros H. split; rewrite H; eauto. Qed.

Lemma rows_older_insert b id a a' :
  approvals b !! id = Some a → link a' = link a → a_status a' ≠ a_pending →
  rows_older b (set_approvals (<[id := a']> (approvals b)) b).
Proof.
  intros Ha Hl Hp. split; cbn.
  - intros x. destruct (decide (x = id)) as [->|]; [|by rewrite lookup_insert_ne]. rewrite lookup_insert_eq, Ha. cbn. by rewrite Hl.
  - intros x a0 [[<- <-]|[Hne Hx]]%lookup_insert_Some Hpe; [done|eauto].
Qed.

Lemma rows_older_expire p now b : rows_older b (set_approvals (expire_pending p now (approvals b)) b).
Proof.
  split; [apply expire_pending_links|]. intros id a Ha Hp. apply expire_pending_pending in Ha as [Ha _]; [eauto|done].
Qed.

Lemma rows_older_row b b' id a' :
  rows_older b b' → approvals b' !! id = Some a' → ∃ a, approvals b !! id = Some a ∧ link a = link a'.
Proof.
  intros [H _] Ha. specialize (H id). rewrite Ha in H. destruct (approvals b !! id) as [a|]; [|done]. exists a. split; [done|]. cbn in H. congruence.
Qed.

Lemma no_pending_older k b b' : rows_older b b' → no_pending k b → no_pending k b'.
Proof.
  intros Ho Hn id a' Ha Hk Hp. destruct (rows_older_row _ _ _ _ Ho Ha) as (a & Ha0 & Hl). injection Hl as _ _ Hl.
  destruct Ho as [_ Ho]. destruct (Ho id a' Ha Hp) as (a1 & Ha1 & Hp1). apply (Hn id a1); congruence.
Qed.

Lemma insert_approvals_Some rows m id a :
  insert_approvals rows m !! id = Some a → m !! id = Some a ∨ a ∈ rows ∧ a_id a = id.
Proof.
  revert m. induction rows as [|r rows IH]; intros m; cbn; [auto|]. intros [H|[H E]]%IH.
  - apply lookup_insert_Some in H as [[<- <-]|[_ H]]; [right; split; [left|done]|auto].
  - right. split; [by right|done].
Qed.

Lemma insert_approvals_ne rows m id : Forall (λ a, a_id a ≠ id) rows → insert_approvals rows m !! id = m !! id.
Proof.
  revert m. induction rows as [|r rows IH]; intros m Hf; [done|]. apply Forall_cons in Hf as [Hr Hf].
  transitivity ((<[a_id r := r]> m) !! id); [by apply IH|]. by rewrite lookup_insert_ne.
Qed.

(** ** Each change keeps the invariant *)

Lemma terminal_events_app k l l' : terminal_events k (l ++ l') = (terminal_events k l + terminal_events k l')%nat.
Proof. unfold terminal_events. by rewrite List.filter_app, length_app. Qed.

Lemma terminal_events_none k l : Forall (λ e, terminal_event e.2 = false) l → terminal_events k l = 0%nat.
Proof.
  unfold terminal_events. induction 1 as [|e l He _ IH]; [done|]. cbn. by rewrite He, andb_false_r.
Qed.

Lemma terminal_events_other k k' (evs : list OutboxEvent) : k ≠ k' → terminal_events k' ((λ e, (k, e)) <$> evs) = 0%nat.
Proof.
  intros Hne. unfold terminal_events. induction evs as [|e l IH]; [done|]. cbn. by rewrite (proj2 (String.eqb_neq k k') Hne).
Qed.

(** Outside the policy lane a change ends the intent exactly if it says so. *)
Lemma change_events k c n n' evs cl :
  k ∉ deferred → change k c n n' evs cl →
  (terminal_events k ((λ e, (k, e)) <$> evs) + (if terminal (n_status n) then 1 else 0)
   = if terminal (n_status n') then 1 else 0)%nat.
Proof.
  intros Hd [q v now _ _ Hs|n1 Hs Hs' _|now Hs _|n1 [Hs|Hs] Hs' _|n1 Hs Hs' _|n1 ok Hs Hs' _|n1 Hs Hs' _|n1 Hs Hs' _|Hp];
    unfold terminal_events; cbn; rewrite ?String.eqb_refl; cbn [andb].
  - rewrite Hs. by destruct (q_approve q).
  - by rewrite Hs, Hs'.
  - by rewrite Hs.
  - rewrite Hs'. apply elem_of_cons in Hs as [->|Hs%list_elem_of_singleton]; [done|by rewrite Hs].
  - done.
  - rewrite Hs'. apply elem_of_cons in Hs as [->|Hs%list_elem_of_singleton]; [done|by rewrite Hs].
  - rewrite Hs, Hs'. by destruct ok.
  - by rewrite Hs, Hs'.
  - by rewrite Hs, Hs'.
  - done.
Qed.

Lemma decided_same c n n' : same_decision n n' → decided (mkIntent c n) → decided (mkIntent c n').
Proof. intros (H1 & H2 & H3 & _). unfold decided. cbn [n_state n_content]. by rewrite H1, H2, H3. Qed.

Lemma released_iff s : s ∈ released_statuses ↔ s = approved ∨ s = executing ∨ s = completed ∨ s = failed.
Proof. unfold released_statuses. rewrite !elem_of_cons, elem_of_nil. naive_solver. Qed.

Lemma change_decided k c n n' evs cl :
  change k c n n' evs cl →
  (n_policyDecisionState n = unattempted → n_approvalScope c = supervised) →
  (n_status n ∈ released_statuses → decided (mkIntent c n)) →
  n_status n' ∈ released_statuses → decided (mkIntent c n').
Proof.
  intros [q v now Hq Hv Hs|n1 Hs Hs' _|now Hs Hp|n1 Hs Hs' _|n1 Hs Hs' _|n1 ok Hs Hs' Hd|n1 Hs Hs' Hd|n1 Hs Hs' Hd|Hp] Hlane Hdec;
    rewrite released_iff.
  - unfold decided. cbn. destruct (q_approve q) eqn:Ea; [|naive_solver]. intros _. exists q, v. done.
  - rewrite Hs'. naive_solver.
  - intros _. unfold decided. cbn. auto.
  - rewrite Hs'. naive_solver.
  - rewrite Hs'. naive_solver.
  - intros _. eapply decided_same; [done|]. apply Hdec. rewrite Hs. apply released_iff. auto.
  - intros _. eapply decided_same; [done|]. apply Hdec. rewrite Hs. apply released_iff. auto.
  - intros _. eapply decided_same; [done|]. apply Hdec. rewrite Hs. apply released_iff. auto.
  - cbn. intros Hst. apply Hdec. by apply released_iff.
Qed.

Lemma change_lane k c n n' evs cl :
  change k c n n' evs cl → n_policyDecisionState n' = unattempted → n_policyDecisionState n = unattempted.
Proof. intros [] Hp; cbn in *; unfold same_decision in *; destruct_and?; congruence. Qed.

(** A change that closes no rows leaves the intent open, or finds it settled. *)
Lemma change_settled k c n n' evs cl :
  change k c n n' evs cl → cl = false → k ∉ deferred → (n_policyDecisionState n = unattempted → k ∈ deferred) →
  n_status n' ∉ [pending_approval; cancelled] → n_status n ∉ [pending_approval; cancelled].
Proof.
  intros [q v now _ _ Hs|n1 Hs Hs' _|now Hs Hp|n1 Hs Hs' _|n1 Hs Hs' _|n1 ok Hs Hs' Hd|n1 Hs Hs' Hd|n1 Hs Hs' Hd|Hp] Hcl Hk Hlane Hn;
    try discriminate Hcl.
  - by destruct Hk; auto.
  - destruct Hn. rewrite Hs'. by right; left.
  - rewrite Hs. by apply (bool_decide_unpack _).
  - rewrite Hs. by apply (bool_decide_unpack _).
  - rewrite Hs. by apply (bool_decide_unpack _).
  - by destruct Hk; auto.
Qed.

Lemma inv_change b b' k i n' evs cl :
  intents b !! k = Some i → change k (n_content i) (n_state i) n' evs cl →
  intents b' = <[k := mkIntent (n_content i) n']> (intents b) → outbox b' = outbox b ++ ((λ e, (k, e)) <$> evs) →
  rows_older b b' → (cl = true → no_pending k b') → inv b → inv b'.
Proof.
  intros Hi Hc Hin Hout Hrows Hcl [Hids Hrw Hlane Hdec Hev Hclo]. split; rewrite ?Hin.
  - intros k' i' [[<- <-]|[_ Hk]]%lookup_insert_Some; [by apply (Hids k i)|eauto].
  - intros id a' Ha. destruct (rows_older_row _ _ _ _ Hrows Ha) as (a & Ha0 & Hl). injection Hl as <- _ Hl.
    destruct (Hrw id a Ha0) as [Hid Hk]. split; [done|]. intros k' Hk'. rewrite <- Hl in Hk'.
    destruct (decide (k' = k)) as [->|]; [rewrite lookup_insert_eq; eauto|]. rewrite lookup_insert_ne; auto.
  - intros k' i' [[<- <-]|[_ Hk]]%lookup_insert_Some Hp; [|eauto]. apply (change_lane _ _ _ _ _ _ Hc) in Hp. by apply (Hlane k i).
  - intros k' i' [[<- <-]|[_ Hk]]%lookup_insert_Some Hs; [|eauto].
    eapply change_decided; [exact Hc| | |exact Hs].
    + intros Hp. by apply (Hlane k i).
    + intros Hst. destruct i as [ci ni]. by apply (Hdec k (mkIntent ci ni)).
  - intros k' Hd. rewrite Hout, terminal_events_app, (Hev k' Hd). destruct (decide (k = k')) as [->|Hne].
    + rewrite Hi, lookup_insert_eq. pose proof (change_events _ _ _ _ _ _ Hd Hc). unfold status. cbn [n_state]. lia.
    + rewrite lookup_insert_ne, terminal_events_other by done. lia.
  - intros k' i' Hd [[<- <-]|[_ Hk]]%lookup_insert_Some Hs.
    + destruct cl; [auto|]. eapply no_pending_older; [done|]. apply (Hclo k i); [done|done|].
      eapply change_settled; [exact Hc|done|done| |exact Hs]. intros Hp. by apply (Hlane k i).
    + eapply no_pending_older; [done|]. eauto.
Qed.

Lemma inv_same_intents b b' evs :
  intents b' = intents b → outbox b' = outbox b ++ evs → Forall (λ e, terminal_event e.2 = false) evs →
  rows_older b b' → inv b → inv b'.
Proof.
  intros Hin Hout Hev Hrows [Hids Hrw Hlane Hdec Hevs Hclo]. split; rewrite ?Hin; eauto.
  - intros id a' Ha. destruct (rows_older_row _ _ _ _ Hrows Ha) as (a & Ha0 & Hl). injection Hl as <- _ <-. eauto.
  - intros k Hd. rewrite Hout, terminal_events_app, (terminal_events_none k evs) by done. rewrite Nat.add_0_r. eauto.
  - intros k i Hd Hi Hs. eapply no_pending_older; [done|]. eauto.
Qed.

Lemma inv_add b b' k i rows :
  intents b !! k = Some i → k ∈ deferred ∨ status i = pending_approval →
  intents b' = intents b → outbox b' = outbox b → approvals b' = insert_approvals rows (approvals b) →
  Forall (λ a, a_intentId a = Some k ∧ approvals b !! a_id a = None) rows → inv b → inv b'.
Proof.
  intros Hi Hk Hin Hout Hap Hf [Hids Hrw Hlane Hdec Hevs Hclo]. rewrite Forall_forall in Hf. split; rewrite ?Hin, ?Hout; eauto.
  - rewrite Hap. intros id a [Ha|[Ha <-]]%insert_approvals_Some; [eauto|]. split; [done|].
    intros k' Hk'. destruct (Hf a Ha) as [Hk0 _]. assert (k' = k) as -> by congruence. eauto.
  - intros k' i' Hd Hi' Hs. intros id a. rewrite Hap. intros [Ha|[Ha _]]%insert_approvals_Some Hka; [by eapply Hclo|].
    destruct (Hf a Ha) as [Hk0 _]. assert (k' = k) as -> by congruence. destruct Hk as [Hk|Hk]; [done|].
    assert (i' = i) as -> by congruence. destruct Hs. rewrite Hk. left.
Qed.

Lemma inv_new b b' i :
  intents b !! n_id (n_content i) = None → intents b' = <[n_id (n_content i) := i]> (intents b) →
  outbox b' = outbox b → approvals b' = approvals b →
  (status i = pending_approval ∨ status i = approved ∧ n_decidedVia (n_state i) ∈ [Some by_ticket_autonomy; Some by_script_reviewer]) →
  (n_policyDecisionState (n_state i) = unattempted → n_id (n_content i) ∈ deferred ∧ n_approvalScope (n_content i) = supervised) →
  inv b → inv b'.
Proof.
  intros Hn Hin Hout Hap Hst Hp [Hids Hrw Hlane Hdec Hevs Hclo]. split; rewrite ?Hin, ?Hout.
  - intros k i' [[<- <-]|[_ Hk]]%lookup_insert_Some; eauto.
  - rewrite Hap. intros id a Ha. destruct (Hrw id a Ha) as [Hid Hk]. split; [done|]. intros k Hk'.
    destruct (decide (k = n_id (n_content i))) as [->|]; [rewrite lookup_insert_eq; eauto|]. rewrite lookup_insert_ne; auto.
  - intros k i' [[<- <-]|[_ Hk]]%lookup_insert_Some; eauto.
  - intros k i' [[<- <-]|[_ Hk]]%lookup_insert_Some Hs; [|eauto]. unfold decided.
    destruct Hst as [Hst|[_ Hst]]; [rewrite Hst, released_iff in Hs; naive_solver|].
    apply elem_of_cons in Hst as [->|Hst%list_elem_of_singleton]; [done|by rewrite Hst].
  - intros k Hd. rewrite (Hevs k Hd). destruct (decide (k = n_id (n_content i))) as [->|Hne].
    + rewrite Hn, lookup_insert_eq. by destruct Hst as [->|[-> _]].
    + by rewrite lookup_insert_ne.
  - intros k i' Hd [[<- <-]|[Hne Hk]]%lookup_insert_Some Hs id a; rewrite Hap; intros Ha Hk'; [|by eapply Hclo].
    destruct (Hrw id a Ha) as [_ Hsome]. destruct (Hsome _ Hk') as [x Hx]. congruence.
Qed.

Lemma detached_lookup d b k :
  intents (detachScopeDevice d b) !! k
  = (λ i, if bool_decide (n_scopeDeviceId (n_content i) = Some d) && status_in LIVE_INTENT_STATUSES i
          then mkIntent (without_device (n_content i)) (n_state i) else i) <$> intents b !! k.
Proof. cbn. unfold update_where. by rewrite lookup_fmap. Qed.

(** A detached intent keeps its state and, but for the device, its content. *)
Lemma detached_Some d b k i' :
  intents (detachScopeDevice d b) !! k = Some i' →
  ∃ i, intents b !! k = Some i ∧ n_state i' = n_state i ∧ (n_content i' = n_content i ∨ n_content i' = without_device (n_content i)).
Proof.
  rewrite detached_lookup. destruct (intents b !! k) as [i|]; [|done]. cbn. intros [= <-]. exists i. destruct (_ && _); auto.
Qed.

Lemma decided_core c c' n : without_device c' = without_device c → decided (mkIntent c n) → decided (mkIntent c' n).
Proof.
  intros Hc. unfold decided. cbn [n_state n_content]. rewrite Hc.
  assert (n_approvalScope c' = n_approvalScope c) as -> by (by apply (f_equal n_approvalScope) in Hc). done.
Qed.

Lemma inv_detach b b' d :
  intents b' = intents (detachScopeDevice d b) → outbox b' = outbox b → approvals b' = approvals b → inv b → inv b'.
Proof.
  intros Hin Hout Hap [Hids Hrw Hlane Hdec Hevs Hclo]. split; rewrite ?Hin, ?Hout.
  - intros k i' (i & Hi & _ & [->| ->])%detached_Some; [by apply Hids|exact (Hids k i Hi)].
  - rewrite Hap. intros id a Ha. destruct (Hrw id a Ha) as [Hid Hk]. split; [done|]. intros k Hk'.
    rewrite detached_lookup. by apply fmap_is_Some, Hk.
  - intros k i' (i & Hi & -> & [->| ->])%detached_Some Hp; apply (Hlane k i Hi Hp).
  - intros k i' (i & Hi & Hst & Hc)%detached_Some Hs. unfold status in Hs. rewrite Hst in Hs. specialize (Hdec k i Hi Hs).
    destruct i' as [c' n'], i as [c n]. cbn [n_state n_content] in *. subst n'. by destruct Hc as [->| ->]; eapply decided_core.
  - intros k Hk. rewrite (Hevs k Hk), detached_lookup. destruct (intents b !! k) as [i|]; [|done]. cbn. by destruct (bool_decide _ && _).
  - intros k i' Hk (i & Hi & Hst & _)%detached_Some Hs id a. rewrite Hap. intros Ha Hak. unfold status in Hs. rewrite Hst in Hs.
    by apply (Hclo k i Hk Hi Hs id a).
Qed.

Lemma micro_inv b b' : micro b b' → inv b → inv b'.
Proof.
  intros []; [by eapply inv_change|by eapply inv_same_intents|by eapply inv_add|by eapply inv_detach|by eapply inv_new].
Qed.

Lemma micros_inv b b' : rtc micro b b' → inv b → inv b'.
Proof. apply rtc_invariant, micro_inv. Qed.

(** ** What is never forgotten *)

(** Rows keep their owner and intent, intents their content. *)
Definition extends (b b' : Db) : Prop :=
  (∀ id a, approvals b !! id = Some a → ∃ a', approvals b' !! id = Some a' ∧ link a' = link a)
  ∧ ∀ k i, intents b !! k = Some i → ∃ i', intents b' !! k = Some i' ∧ without_device (n_content i') = without_device (n_content i).

#[export] Instance extends_preorder : PreOrder extends.
Proof.
  split; [split; eauto|]. intros x y z [H1 H2] [H3 H4]. split.
  - intros id a Ha. destruct (H1 id a Ha) as (a1 & Ha1 & <-). eauto.
  - intros k i Hi. destruct (H2 k i Hi) as (i1 & Hi1 & <-). eauto.
Qed.

Lemma rows_older_extends b b' id a :
  rows_older b b' → approvals b !! id = Some a → ∃ a', approvals b' !! id = Some a' ∧ link a' = link a.
Proof.
  intros [H _] Ha. specialize (H id). rewrite Ha in H. destruct (approvals b' !! id) as [a'|]; [|done]. cbn in H. eexists. split; [done|congruence].
Qed.

Lemma micro_extends b b' : micro b b' → extends b b'.
Proof.
  intros [k i n' evs cl Hi _ Hin _ Hr _|evs Hin _ _ Hr|k i rows _ _ Hin _ Hap Hf|d Hin _ Hap|i Hn Hin _ Hap _ _].
  - split; [intros id a; by apply rows_older_extends|]. intros k' i' Hi'. rewrite Hin.
    destruct (decide (k' = k)) as [->|]; [|rewrite lookup_insert_ne; eauto]. rewrite lookup_insert_eq. eexists. split; [done|]. cbn. congruence.
  - split; [intros id a; by apply rows_older_extends|]. rewrite Hin. eauto.
  - rewrite Forall_forall in Hf. split; [|rewrite Hin; eauto]. intros id a Ha. rewrite Hap, insert_approvals_ne; [eauto|].
    apply Forall_forall. intros r Hr Heq. destruct (Hf r Hr) as [_ Hnone]. rewrite Heq in Hnone. congruence.
  - split; [rewrite Hap; eauto|]. intros k' i' Hi'. rewrite Hin, (detached_lookup d b k'), Hi'. cbn. eexists. split; [done|]. by destruct (_ && _).
  - split; [rewrite Hap; eauto|]. intros k' i' Hi'. rewrite Hin, lookup_insert_ne by congruence. eauto.
Qed.

Lemma micros_extends b b' : rtc micro b b' → extends b b'.
Proof. induction 1 as [|x y z H%micro_extends _ IH]; [done|]. by etrans. Qed.

(** ** The writers are sequences of changes *)

Definition quiet (b b' : Db) : Prop := intents b' = intents b ∧ approvals b' = approvals b ∧ outbox b' = outbox b.

Lemma quiet_micro b b' : quiet b b' → micro b b'.
Proof.
  intros (H1 & H2 & H3). apply (m_rows b b' []); [done|by rewrite app_nil_r|done|by apply rows_older_eq].
Qed.

Lemma operations_intents f b : intents (on_operations f b) = intents b.
Proof. done. Qed.
Lemma operations_approvals f b : approvals (on_operations f b) = approvals b.
Proof. done. Qed.
Lemma operations_outbox f b : outbox (on_operations f b) = outbox b.
Proof. done. Qed.

Lemma publish_outbox id task e b : outbox (publishIntentTerminalOutbox id task e b) = outbox b ++ [(id, e)].
Proof. unfold publishIntentTerminalOutbox, enqueueTaskOutbox. destruct task; [|done]. by case_bool_decide. Qed.

Lemma cas_intent_cases k p f b o b' :
  cas_intent k p f b = (o, b') →
  o = None ∧ b' = b
  ∨ ∃ i, intents b !! k = Some i ∧ p i = true ∧ o = Some (mkIntent (n_content i) (f (n_state i)))
      ∧ b' = set_intents (<[k := mkIntent (n_content i) (f (n_state i))]> (intents b)) b.
Proof.
  unfold cas_intent. destruct (intents b !! k) as [i|]; [|intros [= <- <-]; auto].
  destruct (p i) eqn:Ep; intros [= <- <-]; eauto 10.
Qed.

(** The tables after a compare-and-set of one intent, its rows and its event. *)
Lemma change_micro b b' k i n' e cl :
  intents b !! k = Some i → change k (n_content i) (n_state i) n' [e] cl →
  intents b' = <[k := mkIntent (n_content i) n']> (intents b) → outbox b' = outbox b ++ [(k, e)] →
  rows_older b b' → (cl = true → no_pending k b') → rtc micro b b'.
Proof. intros. apply rtc_once. by eapply (m_change b b' k i n' [e]). Qed.

Lemma status_in_true l i : status_in l i = true → n_status (n_state i) ∈ l.
Proof. by intros ?%bool_decide_eq_true. Qed.

Lemma expire_closes k now b : no_pending k (set_approvals (expire_pending (of_intent k) now (approvals b)) b).
Proof.
  intros id a Ha Hk Hp. apply expire_pending_pending in Ha as [_ Hf]; [|done].
  unfold of_intent in Hf. by rewrite bool_decide_eq_true_2 in Hf.
Qed.

Lemma cancel_micro userId id visible isApprover now b r b' :
  cancelActionIntent userId id visible isApprover now b = (r, b') → rtc micro b b'.
Proof.
  unfold cancelActionIntent. destruct (intents b !! id) as [i|] eqn:Ei; [|by intros [= _ <-]].
  destruct (negb (visible i)); [by intros [= _ <-]|]. destruct (negb _ && _); [by intros [= _ <-]|].
  destruct (cas_intent _ _ _ _) as [o b1] eqn:Ec. apply cas_intent_cases in Ec as [[-> ->]|(i0 & Hi0 & Hp & -> & ->)].
  - destruct (_ && _); intros [= _ <-]; [|done]. by apply rtc_once, quiet_micro.
  - intros [= _ <-]. apply status_in_true in Hp.
    eapply (change_micro _ _ id i0 (set_cancelled (n_state i0)) intent_cancelled); [done|by apply c_cancel; [left|..]| | | |done].
    + rewrite publish_intents. by destruct (isTaskLinkedIntent _).
    + rewrite publish_outbox. by destruct (isTaskLinkedIntent _).
    + apply rows_older_eq. rewrite publish_approvals. by destruct (isTaskLinkedIntent _).
Qed.

Lemma expire_micro now b i : rtc micro b (expire_intent now b i).
Proof.
  unfold expire_intent. destruct (cas_intent _ _ _ _) as [o b1] eqn:Ec.
  apply cas_intent_cases in Ec as [[-> ->]|(i0 & Hi0 & Hp & -> & ->)]; [done|]. apply status_in_true in Hp.
  eapply (change_micro _ _ _ i0 (with_status expired (n_state i0)) intent_expired true); [done|by apply c_expire|by rewrite publish_intents|by rewrite publish_outbox| |].
  - etrans; [apply (rows_older_expire (of_intent (n_id (n_content i))) now b)|]. apply rows_older_eq. by rewrite publish_approvals.
  - intros _ id a. rewrite publish_approvals. apply (expire_closes _ now (set_intents _ b)).
Qed.

Lemma fail_stale_micro now b i : rtc micro b (fail_stale now b i).
Proof.
  unfold fail_stale. destruct (cas_intent _ _ _ _) as [o b1] eqn:Ec.
  apply cas_intent_cases in Ec as [[-> ->]|(i0 & Hi0 & Hp & -> & ->)]; [done|].
  apply andb_true_iff in Hp as [Hp%status_in_true%list_elem_of_singleton _].
  eapply (change_micro _ _ _ i0 (apply_patch failed (mkPatch None None (Some (Some "execution_lost"))) (n_state i0)) intent_failed false); [done|by apply (c_finish _ _ _ _ false)| | | |done].
  - destruct (n_taskId _); by rewrite ?operations_intents, publish_intents.
  - destruct (n_taskId _); by rewrite ?operations_outbox, publish_outbox.
  - apply rows_older_eq. destruct (n_taskId _); by rewrite ?operations_approvals, publish_approvals.
Qed.

Lemma foldl_micro (f : Db → Intent → Db) l b : (∀ b i, rtc micro b (f b i)) → rtc micro b (foldl f b l).
Proof. intros Hf. revert b. induction l as [|i l IH]; intros b; cbn; [done|]. etrans; [apply Hf|apply IH]. Qed.

Lemma transition_cases id from to q ph sqlNow b r b' :
  transitionIntent id from to q ph sqlNow b = Ok (r, b') →
  r = false ∧ b' = b
  ∨ r = true ∧ ∃ i, intents b !! id = Some i ∧ n_status (n_state i) ∈ from
      ∧ b' = set_intents (<[id := mkIntent (n_content i) (apply_patch to q (n_state i))]> (intents b)) b.
Proof.
  unfold transitionIntent. destruct (match ph with Some _ => _ | None => _ end); [done|].
  destruct (cas_intent _ _ _ _) as [o b1] eqn:Ec. intros [= <- <-].
  apply cas_intent_cases in Ec as [[-> ->]|(i & Hi & Hp & -> & ->)]; [by left|right].
  apply andb_true_iff in Hp as [Hp%status_in_true _]. eauto.
Qed.

Lemma claim_micro id now sqlNow b r b' : claimForRelease id now sqlNow b = Ok (r, b') → rtc micro b b'.
Proof.
  unfold claimForRelease. intros [[_ ->]|(_ & i & Hi & Hs%list_elem_of_singleton & ->)]%transition_cases; [done|].
  apply rtc_once. eapply (m_change _ _ id i (apply_patch executing (mkPatch (Some (Some now)) (Some None) None) (n_state i)) []); [done|by apply c_release|done|by rewrite app_nil_r|by apply rows_older_eq|done].
Qed.

Lemma pause_micro id sqlNow b r b' : pauseIntentForKillSwitch id sqlNow b = Ok (r, b') → rtc micro b b'.
Proof.
  unfold pauseIntentForKillSwitch. intros [[_ ->]|(_ & i & Hi & Hs%list_elem_of_singleton & ->)]%transition_cases; [done|].
  apply rtc_once. eapply (m_change _ _ id i (apply_patch approved no_patch (n_state i)) []); [done|by apply c_pause|done|by rewrite app_nil_r|by apply rows_older_eq|done].
Qed.

Lemma terminalize_micro c ok q sqlNow b r b' : terminalizeIntent c ok q sqlNow b = Ok (r, b') → rtc micro b b'.
Proof.
  unfold terminalizeIntent. destruct (transitionIntent _ _ _ _ _ _ _) as [[r0 b0]|] eqn:E; [|done]. cbn. intros [= -> <-].
  apply transition_cases in E as [[-> ->]|(-> & i & Hi & Hs%list_elem_of_singleton & ->)]; [done|].
  eapply (change_micro _ _ (n_id c) i (apply_patch (if ok then completed else failed) q (n_state i)) (if ok then intent_completed else intent_failed) false);
    [done|by apply (c_finish _ _ _ _ ok)|by rewrite publish_intents|by rewrite publish_outbox| |done].
  apply rows_older_eq. by rewrite publish_approvals.
Qed.

Lemma deny_micro o reason u now b r b' : denyIntentForProposal o reason u now b = (r, b') → rtc micro b b'.
Proof.
  unfold denyIntentForProposal. destruct o as [k|]; [|by intros [= _ <-]].
  destruct (cas_intent _ _ _ _) as [o b1] eqn:Ec.
  apply cas_intent_cases in Ec as [[-> ->]|(i & Hi & Hp & -> & ->)]; intros [= _ <-]; [done|].
  apply status_in_true, list_elem_of_singleton in Hp.
  eapply (change_micro _ _ k i (set_rejected u (Some reason) now (n_state i)) intent_rejected true); [done|by apply c_reject|by rewrite publish_intents|by rewrite publish_outbox| |].
  - etrans; [apply (rows_older_expire (of_intent k) now b)|]. apply rows_older_eq. by rewrite publish_approvals.
  - intros _ id a. rewrite publish_approvals. apply (expire_closes _ now (set_intents _ b)).
Qed.

Lemma authorize_micro i agentId deviceId dc mf mp now sqlNow b r b' :
  run_tx (runAuthorizeTransaction i agentId deviceId dc mf mp now sqlNow) b = (r, b') → rtc micro b b'.
Proof.
  destruct r as [r|e]; [intros H%run_tx_Ok|by intros [-> _]%run_tx_Err]. unfold runAuthorizeTransaction in H.
  apply bind_Ok in H as (u & b0 & [= <- <-] & H). destruct (_ <? _); [by injection H as _ <-|].
  destruct (_ <=? _); [by injection H as _ <-|]. apply bind_Ok in H as ([] & b1 & [= <-] & H).
  apply bind_Ok in H as (o & b2 & Hw & H). unfold writes in Hw. injection Hw as Hw.
  apply cas_intent_cases in Hw as [[-> ->]|(i0 & Hi0 & Hp & -> & ->)]; [done|].
  rewrite bool_decide_eq_true_2 in H by eauto. apply bind_Ok in H as ([] & b3 & [= <-] & [= _ <-]).
  apply andb_true_iff in Hp as [Hp%status_in_true%list_elem_of_singleton Hu%bool_decide_eq_true].
  eapply (change_micro _ _ _ i0 (set_authorized now (n_state i0)) intent_approved false); [done|by apply c_authorize|done|done|by apply rows_older_eq|done].
Qed.

Lemma fanout_rows_fresh i f newId (m : gmap string ApprovalRow) :
  (∀ n, m !! newId n = None) →
  Forall (λ a, a_intentId a = Some (n_id (n_content i)) ∧ m !! a_id a = None) (fanout_rows i f newId).
Proof.
  intros Hn. apply Forall_forall. intros a [n Ha]%list_elem_of_lookup. unfold fanout_rows in Ha.
  apply list_lookup_imap_Some in Ha as (u & _ & ->). cbn. auto.
Qed.

Lemma unapprovable_micro i f now b i0 :
  intents b !! n_id (n_content i) = Some i0 →
  n_status (n_state i0) ∈ [pending_approval; approved] ∨ n_id (n_content i) ∈ deferred →
  rtc micro b (cancel_unapprovable i f now b).
Proof.
  intros Hi Hk. unfold cancel_unapprovable. destruct (cas_intent _ _ _ _) as [o b1] eqn:Ec.
  apply cas_intent_cases in Ec as [[-> ->]|(i1 & Hi1 & _ & -> & ->)]; [done|]. assert (i1 = i0) as -> by congruence.
  eapply (change_micro _ _ _ i0 (set_no_approvers f now (n_state i0)) intent_cancelled false); [done|by apply c_cancel| | | |done].
  - rewrite publish_intents. by destruct (isTaskLinkedIntent _).
  - rewrite publish_outbox. by destruct (isTaskLinkedIntent _).
  - apply rows_older_eq. rewrite publish_approvals. by destruct (isTaskLinkedIntent _).
Qed.

Lemma fanout_micro i f newId now b i0 :
  intents b !! n_id (n_content i) = Some i0 → n_id (n_content i) ∈ deferred ∨ status i0 = pending_approval →
  (∀ n, approvals b !! newId n = None) → rtc micro b (runHumanFanout i f newId now b).2.
Proof.
  intros Hi Hk Hn. unfold runHumanFanout. cbn [snd].
  assert (H1 : micro b (set_approvals (insert_approvals (fanout_rows i f newId) (approvals b)) b)).
  { eapply (m_add _ _ _ i0 (fanout_rows i f newId)); [done..|]. by apply fanout_rows_fresh. }
  case_bool_decide; [|by apply rtc_once]. eapply rtc_l; [exact H1|]. eapply unapprovable_micro; [done|].
  destruct Hk as [|Hk]; [by right|left]. unfold status in Hk. rewrite Hk. left.
Qed.

Lemma deferred_micro id runOrg approvers newId now b :
  inv b → (∀ n, approvals b !! newId n = None) → rtc micro b (runDeferredHumanFanout id runOrg approvers newId now b).
Proof.
  intros Hinv Hn. unfold runDeferredHumanFanout. destruct (intents b !! id) as [i|] eqn:Ei; [|done].
  destruct (n_requestingAgentRunId _) as [run|]; [|done]. case_bool_decide; [done|].
  destruct (cas_intent _ _ _ _) as [o b1] eqn:Ec. apply cas_intent_cases in Ec as [[-> ->]|(i0 & Hi0 & Hp & -> & ->)]; [done|].
  apply bool_decide_eq_true in Hp. destruct (inv_lane _ Hinv _ _ Hi0 Hp) as [Hd _].
  set (u := mkIntent (n_content i0) (with_policy_state human_required (n_state i0))).
  assert (n_id (n_content u) = id) as Hu by (cbn; by apply (inv_ids _ Hinv)).
  eapply rtc_l; [eapply (m_change b (set_intents (<[id := u]> (intents b)) b) id i0 _ []);
    [done|by apply c_flag|done|by cbn; rewrite app_nil_r|by apply rows_older_eq|done]|].
  eapply fanout_micro; [rewrite Hu; apply lookup_insert_eq|left; by rewrite Hu|done].
Qed.

(** What a creation is given: a fresh id, fresh row ids, the lane computed by
    [resolvePolicyDecisionState], and at most one of the unattended lanes. *)
Definition create_ok (r : CreateInput) (newId : nat → string) (b : Db) : Prop :=
  intents b !! n_id (r_content r) = None ∧ (∀ n, approvals b !! newId n = None)
  ∧ (r_policyDecisionState r = unattempted → n_id (r_content r) ∈ deferred ∧ n_approvalScope (r_content r) = supervised)
  ∧ r_granted r ∈ [None; Some by_ticket_autonomy; Some by_script_reviewer].

Lemma consume_quiet p k sqlNow b r b' : consumeProposal p k sqlNow b = (r, b') → quiet b b'.
Proof. unfold consumeProposal. destruct (_ !! _); [destruct (_ && _)|]; by intros [= _ <-]. Qed.

Lemma reserve_quiet o t k i op rev now b b' : reserveOperation o t k i op rev now b = Ok b' → quiet b b'.
Proof. unfold reserveOperation. destruct (_ !! _); [destruct (String.eqb _ _)|]; by intros [= <-]. Qed.

Lemma quiet_trans b1 b2 b3 : quiet b1 b2 → quiet b2 b3 → quiet b1 b3.
Proof. intros (H1 & H2 & H3) (H4 & H5 & H6). by split_and!; etrans. Qed.

Lemma create_micro r rev newId opId now sqlNow b x b' :
  create_ok r newId b → createActionIntent r rev newId opId now sqlNow b = (x, b') → rtc micro b b'.
Proof.
  intros (Hnew & Hn & Hlane & Hgr). unfold createActionIntent. destruct x as [x|]; [intros H%run_tx_Ok|by intros [-> _]%run_tx_Err].
  unfold createActionIntentTx in H. apply bind_Ok in H as (ex & b0 & [= <- <-] & H).
  destruct (find_live _ _ _) as [e|].
  { destruct (same_request _ _); [|done]. by apply bind_Ok in H as (ids & b1 & [= <- <-] & [= _ <-]). }
  set (i := mkIntent (r_content r) (initial_state r now)) in *.
  apply bind_Ok in H as ([] & b1 & [= <-] & H). set (b1 := set_intents _ b) in *.
  assert (H1 : micro b b1).
  { apply (m_new b b1 i); [done..| |].
    - cbn. unfold status, initial_state. cbn. unfold initial_state.
      destruct (r_granted r) as [v|]; [right|by left]. split; [done|]. cbn. by apply elem_of_cons in Hgr as [|Hgr].
    - cbn. unfold initial_state. destruct (r_granted r); cbn; auto. }
  apply bind_Ok in H as (cl & b2 & H2 & H).
  assert (Q2 : quiet b1 b2).
  { destruct (r_proposalId r); [|by injection H2 as _ <-]. unfold writes in H2. injection H2 as H2. by apply consume_quiet in H2. }
  destruct cl; [|done]. apply bind_Ok in H as ([] & b3 & H3 & H).
  assert (Q3 : quiet b2 b3).
  { destruct (r_taskContext r) as [[t k]|]; [|by injection H3 as <-]. destruct (bool_decide (is_Some rev)); [|discriminate H3].
    destruct (reserveOperation _ _ _ _ _ _ _ b2) as [b3'|] eqn:E; [|done]. injection H3 as <-. by apply reserve_quiet in E. }
  pose proof (quiet_trans _ _ _ Q2 Q3) as Q. apply bind_Ok in H as (ids & b4 & H4 & H).
  assert (H5 : rtc micro b3 b4).
  { destruct (bool_decide (r_granted r = None) && _) eqn:Eg; [|by injection H4 as _ <-].
    apply andb_true_iff in Eg as [Eg%bool_decide_eq_true _]. unfold writes in H4.
    destruct (runHumanFanout i (r_fanout r) newId now b3) as [ids' b4'] eqn:Ef. injection H4 as _ <-.
    destruct Q as (Qi & Qa & _). replace b4' with (runHumanFanout i (r_fanout r) newId now b3).2 by (by rewrite Ef).
    apply (fanout_micro i (r_fanout r) newId now b3 i); [by rewrite Qi; apply lookup_insert_eq| |by rewrite Qa].
    right. cbn. unfold status, initial_state. cbn. unfold initial_state. by rewrite Eg. }
  apply bind_Ok in H as ([] & b5 & [= <-] & H). apply bind_Ok in H as ([] & b6 & [= <-] & H).
  apply bind_Ok in H as (fin & b7 & [= <- <-] & [= _ <-]).
  eapply rtc_l; [exact H1|]. eapply rtc_l; [by apply quiet_micro|]. etrans; [exact H5|]. apply rtc_once.
  destruct (r_granted r).
  - by apply (m_rows _ _ [(n_id (r_content r), intent_created); (n_id (r_content r), intent_approved)]);
      [|cbn; rewrite <- app_assoc|repeat constructor|apply rows_older_eq].
  - by apply (m_rows _ _ [(n_id (r_content r), intent_created)]); [| |repeat constructor|apply rows_older_eq].
Qed.

(** *** Deciding and reporting *)

Definition not_pending (id : string) (b : Db) : Prop := ∀ a, approvals b !! id = Some a → a_status a ≠ a_pending.

Lemma inv_keyed b : inv b → keyed b.
Proof. intros Hinv id a Ha. by apply (inv_rows _ Hinv). Qed.

Lemma expire_others_closes k now b id0 :
  keyed b → not_pending id0 b →
  no_pending k (set_approvals (expire_pending (λ x, of_intent k x && negb (String.eqb (a_id x) id0)) now (approvals b)) b).
Proof.
  intros Hkey H0 id a Ha Hk Hp. apply expire_pending_pending in Ha as [Ha Hf]; [|done].
  unfold of_intent in Hf. rewrite bool_decide_eq_true_2 in Hf by done. cbn in Hf. apply negb_false_iff, String.eqb_eq in Hf.
  apply (H0 a); [|done]. by rewrite <- Hf, (Hkey _ _ Ha).
Qed.

Lemma not_pending_older id b b' : rows_older b b' → not_pending id b → not_pending id b'.
Proof. intros [_ Ho] Hn a Ha Hp. destruct (Ho id a Ha Hp) as (a0 & Ha0 & Hp0). by apply (Hn a0). Qed.

Lemma rows_micro b b' : intents b' = intents b → outbox b' = outbox b → rows_older b b' → micro b b'.
Proof. intros H1 H2 H3. apply (m_rows b b' []); [done|by rewrite app_nil_r|done|done]. Qed.

(** A row that somebody read before: the same owner and intent now. *)
Definition row_known (b : Db) (a : ApprovalRow) : Prop := ∃ a', approvals b !! a_id a = Some a' ∧ link a' = link a.

Lemma report_row_older u id now b : rows_older b (report_row u id now b).
Proof.
  unfold report_row. destruct (approvals b !! id) as [a|] eqn:Ea; [|done]. destruct (_ && _); [|done].
  by eapply rows_older_insert.
Qed.

Lemma report_micro u existing now b r b' :
  inv b → row_known b existing → a_userId existing = u →
  reportSuspicious u existing now b = (r, b') → rtc micro b b'.
Proof.
  intros Hinv (a & Ha & Hl) Hu. injection Hl as Hid Hau Hk. unfold reportSuspicious. destruct (negb _); [by intros [= _ <-]|].
  pose proof (report_row_older u (a_id existing) now b) as Hold.
  assert (Hin : intents (report_row u (a_id existing) now b) = intents b ∧ outbox (report_row u (a_id existing) now b) = outbox b).
  { unfold report_row. rewrite Ha. by destruct (_ && _). }
  assert (Hnp : not_pending (a_id existing) (report_row u (a_id existing) now b)).
  { unfold report_row. rewrite Ha, Hau, Hu, String.eqb_refl. cbn [andb]. case_bool_decide as Hp.
    - intros x. cbn. rewrite lookup_insert_eq. by intros [= <-].
    - intros x Hx. congruence. }
  set (b1 := report_row _ _ _ _) in *. destruct Hin as [Hin Hout].
  assert (H1 : micro b b1) by (by apply rows_micro). assert (Hkey : keyed b1) by (apply inv_keyed; by eapply micro_inv).
  destruct (a_intentId existing) as [k|]; [|intros [= _ <-]; by apply rtc_once].
  destruct (cas_intent _ _ _ _) as [o b2] eqn:Ec.
  apply cas_intent_cases in Ec as [[-> ->]|(i & Hi & Hp & -> & ->)]; intros [= _ <-]; [by apply rtc_once|].
  apply status_in_true, list_elem_of_singleton in Hp. eapply rtc_l; [exact H1|].
  eapply (change_micro _ _ k i (set_rejected u None now (n_state i)) intent_rejected true);
    [done|by apply c_reject|by rewrite publish_intents|by rewrite publish_outbox| |].
  - etrans; [apply (rows_older_expire (λ x, of_intent k x && negb (String.eqb (a_id x) (a_id existing))) now b1)|].
    apply rows_older_eq. by rewrite publish_approvals.
  - intros _ id x. rewrite publish_approvals. by apply (expire_others_closes k now b1 (a_id existing)).
Qed.

Lemma decide_elevation_older q now a t a' r t' :
  approvals (db t) !! a_id a = Some a → a_status a ≠ a_pending →
  decide_elevation q now a t = Ok ((a', r), t') →
  rows_older (db t) (db t') ∧ intents (db t') = intents (db t) ∧ outbox (db t') = outbox (db t).
Proof.
  intros Ha Hs. unfold decide_elevation. destruct (a_elevationRequestId a) as [eid|]; [|by intros [= <- <- <-]].
  intros H. apply bind_Ok in H as (oe & t0 & [= <- <-] & H). destruct (elevations t !! eid) as [e|]; [|by injection H as <- <- <-].
  destruct (negb _); [by injection H as <- <- <-|].
  apply bind_Ok in H as ([] & t1 & [= <-] & H). apply bind_Ok in H as ([] & t2 & [= <-] & H).
  apply bind_Ok in H as ([d refusal] & t3 & H3%createPam_db & H). apply bind_Ok in H as (a2 & t4 & H4 & H).
  apply bind_Ok in H as ([] & t5 & [= <-] & H). injection H as <- <- <-. cbn [snd on_db db add_audit set_elevations] in *.
  assert (rows_older (db t) (db t4) ∧ intents (db t4) = intents (db t) ∧ outbox (db t4) = outbox (db t)) as (Hl & Hin & Hout).
  { destruct refusal as [reason|]; [|injection H4 as <- <-; by rewrite H3].
    destruct (q_approve q); [|injection H4 as <- <-; by rewrite H3].
    apply bind_Ok in H4 as ([] & t6 & [= <-] & [= <- <-]). cbn [on_db db]. rewrite H3.
    split_and!; [|done..]. by eapply rows_older_insert. }
  split_and!; [|done..]. etrans; [exact Hl|]. apply rows_older_expire.
Qed.

(** A gated request, in terms of the tables now: its row and its intent are still the
    ones the gates read. *)
Definition gate_known (b : Db) (g : Gated) : Prop :=
  (∃ a, approvals b !! q_id g.1 = Some a ∧ link a = link (v_approval g.2))
  ∧ ∀ c, v_intent g.2 = Some c → ∃ k i, a_intentId (v_approval g.2) = Some k ∧ intents b !! k = Some i
      ∧ without_device (n_content i) = without_device c.

Lemma extends_gate_known b b' g : extends b b' → gate_known b g → gate_known b' g.
Proof.
  intros [H1 H2] [(a & Ha & Hl) Hc]. split.
  - destruct (H1 _ _ Ha) as (a' & Ha' & Hl'). exists a'. split; [done|congruence].
  - intros c Hv. destruct (Hc c Hv) as (k & i & Hk & Hi & Hci). destruct (H2 _ _ Hi) as (i' & Hi' & Hci').
    exists k, i'. split_and!; [done|done|congruence].
Qed.

Lemma extends_row_known b b' a : extends b b' → row_known b a → row_known b' a.
Proof. intros [H1 _] (a0 & Ha & Hl). destruct (H1 _ _ Ha) as (a' & Ha' & Hl'). exists a'. split; [done|congruence]. Qed.

Lemma decide_intent_micro q v now a b w b' k :
  inv b → (q, v) ∈ gated → a_intentId a = Some k → (∀ c, v_intent v = Some c → ∃ i, intents b !! k = Some i ∧ without_device (n_content i) = without_device c) →
  not_pending (a_id a) b → decide_intent q v now a b = (w, b') → rtc micro b b'.
Proof.
  intros Hinv Hg Hk Hc Hnp. unfold decide_intent. rewrite Hk. destruct (v_intent v) as [c|] eqn:Ev; [|by intros [= _ <-]].
  destruct (cas_intent _ _ _ _) as [o b1] eqn:Ec.
  apply cas_intent_cases in Ec as [[-> ->]|(i & Hi & Hp & -> & ->)]; intros [= _ <-]; [done|].
  apply status_in_true, list_elem_of_singleton in Hp. destruct (Hc c eq_refl) as (i' & Hi' & Hci).
  assert (i' = i) as -> by congruence.
  set (b2 := set_approvals _ _).
  assert (Hold : rows_older b b2) by apply (rows_older_expire (λ x, of_intent k x && negb (String.eqb (a_id x) (a_id a))) now b).
  assert (Hcl : no_pending k b2) by (apply (expire_others_closes k now b (a_id a)); [by apply inv_keyed|done]).
  eapply (change_micro _ _ k i (set_intent_decided q (v_assurance v) now (n_state i))
    (if q_approve q then intent_approved else intent_rejected) true); [done|apply c_decide; [done|rewrite Ev; cbn; congruence|done]| | | |].
  - destruct (q_approve q); [done|by rewrite publish_intents].
  - destruct (q_approve q); [done|by rewrite publish_outbox].
  - etrans; [exact Hold|]. apply rows_older_eq. destruct (q_approve q); [done|by rewrite publish_approvals].
  - intros _. destruct (q_approve q); [done|]. intros id x. rewrite publish_approvals. apply Hcl.
Qed.

Lemma commit_micro q v now t r t' :
  inv (db t) → (q, v) ∈ gated → gate_known (db t) (q, v) → decideTx q v now t = Ok (r, t') → rtc micro (db t) (db t').
Proof.
  intros Hinv Hg [(a0 & Ha0 & Hl0) Hc] H. cbn [fst snd] in *. unfold decideTx in H.
  apply bind_Ok in H as ([] & t0 & H0 & H).
  assert (Q0 : quiet (db t) (db t0)).
  { unfold save_acknowledgement, modify in H0. injection H0 as <-. by destruct (v_acknowledged v) as [[? []]|]. }
  assert (M0 : micro (db t) (db t0)) by (by apply quiet_micro). pose proof (micro_inv _ _ M0 Hinv) as Hinv0.
  apply bind_Ok in H as (o & t1 & Hcas%cas_approval_Ok & H). destruct Q0 as (Qi & Qa & Qo).
  destruct o as [a'|]; [|injection H as <- <-; subst t1; by apply rtc_once].
  destruct Hcas as (a & Ha & _ & _ & _ & -> & ->). assert (a = a0) as -> by congruence.
  apply bind_Ok in H as ([a2 refusal] & t2 & He & H).
  set (a1 := set_decided q (v_assurance v) now a0) in *. set (b1 := set_approvals (<[q_id q := a1]> (approvals (db t0))) (db t0)) in *.
  assert (Hs1 : a_status a1 ≠ a_pending) by (cbn; by destruct (q_approve q)).
  assert (Hid : a_id a1 = q_id q) by (cbn; by apply (inv_rows _ Hinv)).
  assert (M1 : micro (db t0) b1) by (apply rows_micro; [done|done|by eapply rows_older_insert]).
  pose proof (micro_inv _ _ M1 Hinv0) as Hinv1.
  assert (Ha1 : approvals (db (on_db (λ b, set_approvals (<[q_id q := a1]> (approvals b)) b) t0)) !! a_id a1 = Some a1)
    by (rewrite Hid; apply lookup_insert_eq).
  pose proof (decide_elevation_links _ _ _ _ _ _ _ Ha1 He) as (_ & L2 & _).
  apply decide_elevation_older in He as (O2 & I2 & E2); [|done|done].
  assert (M2 : micro b1 (db t2)) by (by apply rows_micro). pose proof (micro_inv _ _ M2 Hinv1) as Hinv2.
  apply bind_Ok in H as ([] & t3 & Hm%mirror_db & H). apply bind_Ok in H as (won & t4 & Hd & [= _ <-]).
  cbn [fst] in Hd. destruct (decide_intent _ _ _ a2 (db t3)) as [w b] eqn:Edi. injection Hd as _ <-. cbn [on_db db].
  rewrite Hm in Edi. eapply rtc_l; [exact M0|]. eapply rtc_l; [exact M1|]. eapply rtc_l; [exact M2|].
  injection L2 as L2 _ L3. injection Hl0 as _ _ Hl0. assert (a_intentId a1 = a_intentId a0) as Hk1 by done.
  destruct (a_intentId a2) as [k|] eqn:Ek.
  2:{ unfold decide_intent in Edi. rewrite Ek in Edi. by injection Edi as _ <-. }
  eapply decide_intent_micro; [exact Hinv2|exact Hg|exact Ek| | |exact Edi].
  - intros c Hv. destruct (Hc c Hv) as (k' & i & Hk' & Hi & Hci). assert (k' = k) as -> by congruence.
    exists i. rewrite I2. split; [|done]. cbn. by rewrite Qi.
  - rewrite L2. eapply not_pending_older; [exact O2|]. intros x Hx. pose proof (eq_trans (eq_sym Hx) Ha1) as Hx1. injection Hx1 as ->. done.
Qed.

End life.
(** More ids in the lane and more gated requests only weaken the invariant. *)
Lemma inv_mono D D' G G' b : D ⊆ D' → (∀ g, g ∈ G → g ∈ G') → inv D G b → inv D' G' b.
Proof.
  intros HD HG [Hids Hrw Hlane Hdec Hevs Hclo]. split; [done|done| | | |].
  - intros k i Hi Hp. destruct (Hlane k i Hi Hp). auto.
  - intros k i Hi Hs. specialize (Hdec k i Hi Hs). unfold decided in *. destruct (n_decidedVia _) as [[]|]; try done.
    destruct Hdec as (q & v & Hin & Hrest). eauto.
  - intros k Hk. apply Hevs. set_solver.
  - intros k i Hk. apply Hclo. set_solver.
Qed.

(** ** Histories *)

(** Rows of no intent, and the other tables, change freely. *)
Definition unlinked_change (b b' : Db) : Prop :=
  intents b' = intents b ∧ outbox b' = outbox b ∧ keyed b'
  ∧ (∀ id a, a_intentId a ≠ None → approvals b' !! id = Some a ↔ approvals b !! id = Some a)
  ∧ ∀ id a, approvals b !! id = Some a → ∃ a', approvals b' !! id = Some a' ∧ link a' = link a.

(** The writers other than creation and decision. *)
Inductive writer (b : Db) : Db → Prop :=
| w_fanout id runOrg approvers newId now :
    (∀ n, approvals b !! newId n = None) → writer b (runDeferredHumanFanout id runOrg approvers newId now b)
| w_cancel userId id visible isApprover now : writer b (cancelActionIntent userId id visible isApprover now b).2
| w_expire locked now sqlNow : writer b (reapExpiredIntents locked now sqlNow b).2
| w_stale locked now sqlNow : writer b (reapStaleExecutingIntents locked now sqlNow b).2
| w_claim id now sqlNow r b' : claimForRelease id now sqlNow b = Ok (r, b') → writer b b'
| w_pause id sqlNow r b' : pauseIntentForKillSwitch id sqlNow b = Ok (r, b') → writer b b'
| w_finish c ok patch sqlNow r b' : terminalizeIntent c ok patch sqlNow b = Ok (r, b') → writer b b'
| w_detach d : writer b (detachScopeDevice d b)
| w_deny o reason u now : writer b (denyIntentForProposal o reason u now b).2
| w_authorize i agentId deviceId count fleet decisions now sqlNow :
    writer b (run_tx (runAuthorizeTransaction i agentId deviceId count fleet decisions now sqlNow) b).2.

(** The tables, the ids created in the policy lane, the requests that passed the gates,
    the rows loaded for a batch, and the rows read for a report. *)
Record World := mkWorld {
  w_tables : Tables; w_deferred : gset string; w_gated : list Gated; w_batch : list string; w_read : list ApprovalRow }.
Definition w_db (w : World) : Db := db (w_tables w).
Definition with_tables (t : Tables) (w : World) : World := mkWorld t (w_deferred w) (w_gated w) (w_batch w) (w_read w).
Definition with_db (b : Db) (w : World) : World := with_tables (on_db (λ _, b) (w_tables w)) w.

Section history.
Context (getUserPermissions : string → Context → option UserPermissions).
Context (deviceArgs : string → list string).
Context (requiredPermissionsForTool : string → json → option (list Permission)).
Context (toolPermitted : IntentContent → bool).
Context (verifyAuthenticationResponse : ApprovalProof → string → AuthenticatorDevice → result string (bool * Z)).
Context (verifyMobileSignature : string → string → string → string → bool).
Context (attestationEnforced : bool) (defaultEnforceFrom : Z) (policies : gmap string StoredAuthenticatorPolicy).
Context (sha256 : string → string).

Notation gates := (decideGates getUserPermissions deviceArgs requiredPermissionsForTool toolPermitted
  verifyAuthenticationResponse verifyMobileSignature attestationEnforced defaultEnforceFrom policies sha256).

Inductive step (w : World) : World → Prop :=
| st_create r rev newId opId now sqlNow enabled sweepEnabled mode hasScope trigger sweep :
    intents (w_db w) !! n_id (r_content r) = None → (∀ n, approvals (w_db w) !! newId n = None) →
    r_policyDecisionState r = resolvePolicyDecisionState enabled sweepEnabled (n_riskTier (r_content r))
      (n_approvalScope (r_content r)) (r_agentRun r) mode hasScope trigger sweep →
    r_granted r ∈ [None; Some by_ticket_autonomy; Some by_script_reviewer] →
    step w (mkWorld (on_db (λ _, (createActionIntent r rev newId opId now sqlNow (w_db w)).2) (w_tables w))
              (if bool_decide (r_policyDecisionState r = unattempted) then {[ n_id (r_content r) ]} ∪ w_deferred w else w_deferred w)
              (w_gated w) (w_batch w) (w_read w))
| st_write b' : writer (w_db w) b' → step w (with_db b' w)
| st_load dir u requested b :
    loadHomogeneousBatch getUserPermissions deviceArgs requiredPermissionsForTool dir u requested (w_tables w) = Ok b →
    step w (mkWorld (w_tables w) (w_deferred w) (w_gated w) (bl_ids b ++ w_batch w) (w_read w))
| st_gate q dir now store s v s' :
    gates q dir now store (w_tables w) s = (Ok v, s') → q_preverified q = None ∨ q_id q ∈ w_batch w →
    step w (mkWorld (w_tables w) (w_deferred w) ((q, v) :: w_gated w) (w_batch w) (w_read w))
| st_commit q v now :
    (q, v) ∈ w_gated w → step w (with_tables (run_tx (decideTx q v now) (w_tables w)).2 w)
| st_read id a :
    approvals (w_db w) !! id = Some a →
    step w (mkWorld (w_tables w) (w_deferred w) (w_gated w) (w_batch w) (a :: w_read w))
| st_report a now :
    a ∈ w_read w → step w (with_db (reportSuspicious (a_userId a) a now (w_db w)).2 w)
| st_other t' : unlinked_change (w_db w) (db t') → step w (with_tables t' w).

Definition initial (w : World) : Prop :=
  intents (w_db w) = ∅ ∧ approvals (w_db w) = ∅ ∧ outbox (w_db w) = [] ∧ w_gated w = [] ∧ w_batch w = [] ∧ w_read w = [].

(** What the gates established of a four-eyes approve. *)
Definition authorized_four_eyes (q : DecideInput) (v : Verdict) (c : IntentContent) : Prop :=
  (∃ p, decider_permissions getUserPermissions q (n_orgId c) = Some p ∧ canAccessOrg p (n_orgId c) = true
        ∧ userCanDecideApprovals p = true
        ∧ (isOrgWideGovernanceIntent (n_actionName c) (n_arguments c) = true → canMutateOrgWideGovernance p = true))
  ∧ (n_requestedByUserId c = Some (q_userId q) →
     isSoleOperatorSelfApprovalForbidden (n_actionName c) = false ∧ 3 ≤ decidedAssuranceLevel (v_assurance v)).
Definition gate_fact (g : Gated) : Prop :=
  ∀ c, v_intent g.2 = Some c → n_approvalScope c = four_eyes → q_approve g.1 = true → authorized_four_eyes g.1 g.2 c.

Lemma authorized_core q v c c' :
  without_device c = without_device c' → authorized_four_eyes q v c → authorized_four_eyes q v c'.
Proof.
  intros Hc. unfold authorized_four_eyes.
  pose proof (f_equal n_orgId Hc) as H1. pose proof (f_equal n_actionName Hc) as H2.
  pose proof (f_equal n_arguments Hc) as H3. pose proof (f_equal n_requestedByUserId Hc) as H4. cbn in H1, H2, H3, H4.
  by rewrite H1, H2, H3, H4.
Qed.

Definition supervised_row (b : Db) (id : string) : Prop :=
  ∃ a k i, approvals b !! id = Some a ∧ a_intentId a = Some k ∧ intents b !! k = Some i ∧ n_approvalScope (n_content i) = supervised.

Record world_inv (w : World) : Prop := mkWorldInv {
  wi_inv : inv (w_deferred w) (w_gated w) (w_db w);
  wi_gated : ∀ g, g ∈ w_gated w → gate_known (w_db w) g ∧ gate_fact g;
  wi_batch : ∀ id, id ∈ w_batch w → supervised_row (w_db w) id;
  wi_read : ∀ a, a ∈ w_read w → row_known (w_db w) a }.

Lemma extends_supervised b b' id : extends b b' → supervised_row b id → supervised_row b' id.
Proof.
  intros [H1 H2] (a & k & i & Ha & Hk & Hi & Hs). destruct (H1 _ _ Ha) as (a' & Ha' & Hl). injection Hl as _ _ Hl.
  destruct (H2 _ _ Hi) as (i' & Hi' & Hc). exists a', k, i'. split_and!; [done|congruence|done|]. apply (f_equal n_approvalScope) in Hc. cbn in Hc. congruence.
Qed.

(** The invariant after tables that extend the ones before. *)
Lemma world_inv_extends w t' D :
  extends (w_db w) (db t') → inv D (w_gated w) (db t') → world_inv w →
  world_inv (mkWorld t' D (w_gated w) (w_batch w) (w_read w)).
Proof.
  intros He Hi [H1 H2 H3 H4]. split; cbn; [done| | |].
  - intros g Hg. destruct (H2 g Hg). split; [by eapply extends_gate_known|done].
  - intros id Hid. eapply extends_supervised; eauto.
  - intros a Ha. eapply extends_row_known; eauto.
Qed.

Lemma writer_micro D G b b' : inv D G b → writer b b' → rtc (micro D G) b b'.
Proof.
  intros Hinv [id runOrg approvers newId now Hn|userId id visible isApprover now|locked now sqlNow|locked now sqlNow
    |id now sqlNow r b1 H|id sqlNow r b1 H|c ok patch sqlNow r b1 H|d|o reason u now|i agentId deviceId count fleet decisions now sqlNow].
  - by apply deferred_micro.
  - destruct (cancelActionIntent _ _ _ _ _ _) as [r b1] eqn:E. by eapply cancel_micro.
  - apply foldl_micro. apply expire_micro.
  - apply foldl_micro. apply fail_stale_micro.
  - by eapply claim_micro.
  - by eapply pause_micro.
  - by eapply terminalize_micro.
  - apply rtc_once. by apply (m_detach _ _ _ _ d).
  - destruct (denyIntentForProposal _ _ _ _ _) as [r b1] eqn:E. by eapply deny_micro.
  - destruct (run_tx _ b) as [r b1] eqn:E. by eapply authorize_micro.
Qed.

Lemma unattempted_supervised enabled sweepEnabled tier scope run mode hasScope trigger sweep :
  resolvePolicyDecisionState enabled sweepEnabled tier scope run mode hasScope trigger sweep = unattempted → scope = supervised.
Proof.
  unfold resolvePolicyDecisionState. intros H. destruct (decide (scope = supervised)) as [|Hne]; [done|].
  rewrite (bool_decide_eq_true_2 (scope ≠ supervised)) in H by done.
  repeat match type of H with (if ?x then _ else _) = _ => destruct x; [discriminate H|] end. discriminate H.
Qed.

Lemma gates_read q dir now store t s v s' :
  gates q dir now store t s = (Ok v, s') →
  approvals (db t) !! q_id q = Some (v_approval v)
  ∧ ∀ c, v_intent v = Some c → ∃ k i, a_intentId (v_approval v) = Some k ∧ intents (db t) !! k = Some i ∧ n_content i = c.
Proof.
  intros (Hau & _)%decideGates_Ok. unfold authority_gates in Hau. do 4 gate_step. injection Hau as -> -> _.
  apply load_approval_Ok in Hr as (_ & Hl & _). split; [done|]. intros c Hc. rewrite Hc in Hr1.
  apply intent_gate_Some in Hr1 as (k & i & Hk & Hi & Hn & _). eauto.
Qed.

Lemma gates_fact q dir now store t s v s' :
  gates q dir now store t s = (Ok v, s') → q_preverified q = None ∨ supervised_row (db t) (q_id q) → gate_fact (q, v).
Proof.
  intros Hg Hor c Hc Hf Happ. cbn [fst snd] in *. destruct Hor as [Hp|(a & k & i & Ha & Hk & Hi & Hs)].
  - destruct (four_eyes_authority _ _ _ _ _ _ _ _ _ _ _ _ _ _ _ _ _ _ _ Hg Happ Hp Hc Hf) as (_ & _ & Hperm & Hsole).
    split; [done|]. intros Hreq. by destruct (Hsole Hreq) as (? & ? & _).
  - apply gates_read in Hg as [Hv Hin]. destruct (Hin c Hc) as (k' & i' & Hk' & Hi' & Hn). congruence.
Qed.

Lemma unlinked_extends b b' : unlinked_change b b' → extends b b'.
Proof. intros (Hin & _ & _ & _ & H). split; [done|]. rewrite Hin. eauto. Qed.

Lemma inv_unlinked D G b b' : unlinked_change b b' → inv D G b → inv D G b'.
Proof.
  intros (Hin & Hout & Hkey & Hl & Hx) [Hids Hrw Hlane Hdec Hevs Hclo]. split; rewrite ?Hin, ?Hout; try done.
  - intros id a Ha. split; [by apply Hkey|]. intros k Hk. apply Hl in Ha; [|congruence]. by apply (Hrw id a Ha).
  - intros k i Hd Hi Hs id a Ha Hk. apply Hl in Ha; [|congruence]. by apply (Hclo k i Hd Hi Hs id a).
Qed.

Lemma load_supervised dir u requested t b id :
  keyed (db t) → loadHomogeneousBatch getUserPermissions deviceArgs requiredPermissionsForTool dir u requested t = Ok b →
  id ∈ bl_ids b → supervised_row (db t) id.
Proof.
  intros Hkey Hl Hid. apply load_Ok in Hl as (E & _ & _ & Hmem & _); [|done]. rewrite E, elem_of_unique in Hid.
  destruct (Hmem id Hid) as (r & _ & Hr). apply row_for_Some in Hr as (k & i & Ha & Hk & Hi & Hc & _ & _ & Hs & _).
  exists r.1, k, i. split_and!; [done|done|done|congruence].
Qed.

(** A run of changes, as a step of the world. *)
Lemma world_inv_micros w t' D :
  w_deferred w ⊆ D → rtc (micro D (w_gated w)) (w_db w) (db t') → world_inv w →
  world_inv (mkWorld t' D (w_gated w) (w_batch w) (w_read w)).
Proof.
  intros HD Hm Hw. apply world_inv_extends; [by eapply micros_extends| |done].
  eapply micros_inv; [done|]. eapply inv_mono; [exact HD| |by apply wi_inv]. done.
Qed.

Lemma create_world w r rev newId opId now sqlNow enabled sweepEnabled mode hasScope trigger sweep D x b' :
  D = (if bool_decide (r_policyDecisionState r = unattempted) then {[ n_id (r_content r) ]} ∪ w_deferred w else w_deferred w) →
  intents (w_db w) !! n_id (r_content r) = None → (∀ n, approvals (w_db w) !! newId n = None) →
  r_policyDecisionState r = resolvePolicyDecisionState enabled sweepEnabled (n_riskTier (r_content r))
      (n_approvalScope (r_content r)) (r_agentRun r) mode hasScope trigger sweep →
  r_granted r ∈ [None; Some by_ticket_autonomy; Some by_script_reviewer] →
  createActionIntent r rev newId opId now sqlNow (w_db w) = (x, b') →
  w_deferred w ⊆ D ∧ rtc (micro D (w_gated w)) (w_db w) b'.
Proof.
  intros -> Hn Hf Hp Hg Hc. split; [case_bool_decide; set_solver|]. eapply create_micro; [|exact Hc]. split_and!; [done|done| |done].
  intros Hu. rewrite bool_decide_eq_true_2 by done. split; [set_solver|]. rewrite Hp in Hu. by eapply unattempted_supervised.
Qed.

Lemma step_inv w w' : step w w' → world_inv w → world_inv w'.
Proof.
  intros [r rev newId opId now sqlNow enabled sweepEnabled mode hasScope trigger sweep Hn Hf Hp Hg
    |b' Hw|dir u requested b Hl|q dir now store s v s' Hg Hor|q v now Hg|id a Ha|a now Ha|t' Hu] HI.
  - destruct (createActionIntent _ _ _ _ _ _ _) as [x b'] eqn:E. cbn [snd].
    edestruct create_world as [H1 H2]; [reflexivity|exact Hn|exact Hf|exact Hp|exact Hg|exact E|].
    by apply world_inv_micros.
  - apply (world_inv_micros w); [done| |done]. apply writer_micro; [by apply wi_inv|done].
  - destruct HI as [H1 H2 H3 H4]. split; [done|done| |done]. cbn. intros id [Hid|Hid]%elem_of_app; [|auto].
    eapply load_supervised; [by eapply inv_keyed|done|done].
  - destruct HI as [H1 H2 H3 H4]. split; cbn; [| |done|done].
    + eapply inv_mono; [| |exact H1]; [done|]. intros g Hin. by right.
    + intros g [->|Hin]%elem_of_cons; [|auto]. pose proof (gates_read _ _ _ _ _ _ _ _ Hg) as [Hr Hi]. split.
      * split; cbn; [eauto|]. intros c Hc. destruct (Hi c Hc) as (k & i & ? & ? & <-). eauto.
      * eapply gates_fact; [exact Hg|]. destruct Hor; auto.
  - destruct (run_tx _ _) as [[r|e] t'] eqn:E; cbn [snd].
    + apply run_tx_Ok in E. apply (world_inv_micros w); [done| |done].
      eapply commit_micro; [by apply wi_inv|exact Hg|by apply (wi_gated _ HI)|exact E].
    + apply run_tx_Err in E as [-> _]. by destruct w, HI.
  - destruct HI as [H1 H2 H3 H4]. split; [done|done|done|]. cbn. intros x [->|Hx]%elem_of_cons; [|auto].
    exists a. split; [|done]. by rewrite (inv_keyed _ _ _ H1 _ _ Ha).
  - destruct (reportSuspicious _ _ _ _) as [r b'] eqn:E. cbn [snd]. apply (world_inv_micros w); [done| |done].
    eapply report_micro; [by apply wi_inv|by apply (wi_read _ HI)|done|exact E].
  - apply (world_inv_extends w); [by apply unlinked_extends| |done]. eapply inv_unlinked; [done|by apply wi_inv].
Qed.

Lemma initial_inv w : initial w → world_inv w.
Proof.
  intros (Hi & Ha & Ho & Hg & Hb & Hr). split; rewrite ?Hg, ?Hb, ?Hr; try (intros ? []%not_elem_of_nil).
  split; rewrite ?Hi, ?Ha, ?Ho; try (intros k i; rewrite lookup_empty; done).
Qed.

Lemma reachable_inv w0 w : initial w0 → rtc step w0 w → world_inv w.
Proof. intros H0 Hr. eapply (rtc_invariant step world_inv); [exact step_inv|exact Hr|by apply initial_inv]. Qed.

(** C3: a four-eyes intent is released only on an authorized approval.  In every history
    of creations, fan-outs, decisions, batches, reports, cancellations, expiries, policy
    decisions and releases, in which other requests run between the gates of a decision
    and its transaction, an intent of the four-eyes scope that is approved, executing,
    completed or failed, and was not granted by one of the two unattended lanes when it
    was created, was approved by a request that passed the gates for this very content, whose
    target device may have been detached since:
    its caller is on record, could decide approvals in the organization, and, if they
    requested the intent, approved at level 3 or above an action that allows it. *)
Theorem four_eyes_release_was_authorized w0 w k i :
  initial w0 → rtc step w0 w → intents (w_db w) !! k = Some i →
  n_approvalScope (n_content i) = four_eyes → status i ∈ released_statuses →
  n_decidedVia (n_state i) ∉ [Some by_ticket_autonomy; Some by_script_reviewer] →
  ∃ q v, (q, v) ∈ w_gated w ∧ q_approve q = true ∧ without_device <$> v_intent v = Some (without_device (n_content i))
    ∧ n_decidedByUserId (n_state i) = Some (q_userId q)
    ∧ n_decidedAssuranceLevel (n_state i) = Some (decidedAssuranceLevel (v_assurance v))
    ∧ n_decidedVia (n_state i) = Some (by_factor (decidedVia (v_assurance v)))
    ∧ authorized_four_eyes q v (n_content i).
Proof.
  intros H0 Hr Hi Hs Hst Hv. pose proof (reachable_inv _ _ H0 Hr) as HI.
  pose proof (inv_decided _ _ _ (wi_inv _ HI) k i Hi Hst) as Hd. unfold decided in Hd.
  destruct (n_decidedVia (n_state i)) as [[f| | |]|] eqn:Ev; [|congruence| | |done].
  - destruct Hd as (q & v & Hg & Happ & Hvi & Hu & <- & Hl). exists q, v. split_and!; try done.
    destruct (v_intent v) as [c|] eqn:Ec; [|done]. cbn [fmap option_fmap option_map] in Hvi. assert (without_device c = without_device (n_content i)) as Hc by congruence.
    eapply authorized_core; [exact Hc|].
    apply (wi_gated _ HI _ Hg); [done| |done]. apply (f_equal n_approvalScope) in Hc. cbn in Hc. congruence.
  - destruct Hv. left.
  - destruct Hv. right. left.
Qed.

(** A terminal status is never left, outside the policy lane. *)
Lemma status_final D G k c n n' evs cl :
  change D G k c n n' evs cl → k ∉ D → terminal (n_status n) = true → n_status n' = n_status n.
Proof.
  intros [q v now _ _ Hs|n1 Hs Hs' _|now Hs _|n1 [Hs|Hs] Hs' _|n1 Hs Hs' _|n1 ok Hs Hs' _|n1 Hs Hs' _|n1 Hs Hs' _|Hp] Hk Ht;
    try (rewrite Hs in Ht; discriminate Ht); try done.
  - apply elem_of_cons in Hs as [Hs|Hs%list_elem_of_singleton]; rewrite Hs in Ht; discriminate Ht.
  - apply elem_of_cons in Hs as [Hs|Hs%list_elem_of_singleton]; rewrite Hs in Ht; discriminate Ht.
Qed.

Definition final_kept (k : string) (b b' : Db) : Prop :=
  ∀ i, intents b !! k = Some i → terminal (status i) = true → ∃ i', intents b' !! k = Some i' ∧ status i' = status i.

Lemma micro_final D G b b' k : micro D G b b' → k ∉ D → final_kept k b b'.
Proof.
  intros [k0 i0 n' evs cl Hi0 Hc Hin _ _ _|evs Hin _ _ _|k0 i0 rows _ _ Hin _ _ _|d Hin _ _|i0 Hn Hin _ _ _ _] Hk i Hi Ht; rewrite Hin; eauto.
  - destruct (decide (k = k0)) as [->|]; [|rewrite lookup_insert_ne; eauto]. rewrite lookup_insert_eq. eexists. split; [done|].
    assert (i = i0) as -> by congruence. by apply (status_final _ _ _ _ _ _ _ _ Hc).
  - rewrite detached_lookup, Hi. cbn. eexists. split; [done|]. by destruct (_ && _).
  - rewrite lookup_insert_ne by congruence. eauto.
Qed.

Lemma micros_final D G b b' k : rtc (micro D G) b b' → k ∉ D → final_kept k b b'.
Proof.
  intros Hm Hk. induction Hm as [|x y z H _ IH]; intros i Hi Ht; [eauto|].
  destruct (micro_final _ _ _ _ _ H Hk i Hi Ht) as (i1 & Hi1 & Hs1). destruct (IH i1 Hi1) as (i2 & Hi2 & Hs2); [by rewrite Hs1|].
  exists i2. split; [done|congruence].
Qed.

Lemma step_final w w' k :
  step w w' → world_inv w → k ∉ w_deferred w' → w_deferred w ⊆ w_deferred w' ∧ final_kept k (w_db w) (w_db w').
Proof.
  intros [r rev newId opId now sqlNow enabled sweepEnabled mode hasScope trigger sweep Hn Hf Hp Hg
    |b' Hw|dir u requested b Hl|q dir now store s v s' Hg Hor|q v now Hg|id a Ha|a now Ha|t' Hu] HI Hk.
  - destruct (createActionIntent _ _ _ _ _ _ _) as [x b'] eqn:E. cbn [snd w_deferred w_db w_tables on_db db] in *.
    edestruct create_world as [H1 H2]; [reflexivity|exact Hn|exact Hf|exact Hp|exact Hg|exact E|].
    split; [exact H1|by eapply micros_final].
  - split; [done|]. apply (micros_final (w_deferred w) (w_gated w)); [|exact Hk]. apply writer_micro; [by apply wi_inv|done].
  - split; [done|]. intros i. eauto.
  - split; [done|]. intros i. eauto.
  - split; [done|]. destruct (run_tx _ _) as [[r|e] t'] eqn:E; cbn [snd with_tables w_db w_tables].
    + apply run_tx_Ok in E. apply (micros_final (w_deferred w) (w_gated w)); [|exact Hk].
      eapply commit_micro; [by apply wi_inv|exact Hg|by apply (wi_gated _ HI)|exact E].
    + apply run_tx_Err in E as [-> _]. intros i. eauto.
  - split; [done|]. intros i. eauto.
  - split; [done|]. destruct (reportSuspicious _ _ _ _) as [r b'] eqn:E. cbn [snd].
    apply (micros_final (w_deferred w) (w_gated w)); [|exact Hk]. eapply report_micro; [by apply wi_inv|by apply (wi_read _ HI)|done|exact E].
  - split; [done|]. destruct Hu as (Hin & _). intros i Hi Ht. exists i. split; [|done]. change (intents (db t') !! k = Some i). by rewrite Hin.
Qed.

Lemma steps_final w w' k :
  rtc step w w' → world_inv w → k ∉ w_deferred w' → w_deferred w ⊆ w_deferred w' ∧ final_kept k (w_db w) (w_db w').
Proof.
  induction 1 as [w|x y z H Hr IH]; intros HI Hk; [split; [done|intros i; eauto]|].
  destruct IH as [H1 H2]; [by eapply step_inv|done|]. destruct (step_final _ _ k H HI) as [H3 H4]; [set_solver|].
  split; [set_solver|]. intros i Hi Ht. destruct (H4 i Hi Ht) as (i1 & Hi1 & Hs1).
  destruct (H2 i1 Hi1) as (i2 & Hi2 & Hs2); [by rewrite Hs1|]. exists i2. split; [done|congruence].
Qed.

(** C4: an intent ends once.  Outside the lane of policy decisions, an intent that has
    ended (completed, failed, rejected, expired or cancelled) has published exactly one
    terminal event and a live one none; and an intent that has ended keeps its status
    and its one event whatever happens next. *)
Theorem intent_ends_once w0 w w' k i :
  initial w0 → rtc step w0 w → rtc step w w' → k ∉ w_deferred w' → intents (w_db w) !! k = Some i →
  terminal_events k (outbox (w_db w)) = (if terminal (status i) then 1 else 0)%nat
  ∧ (terminal (status i) = true →
     ∃ i', intents (w_db w') !! k = Some i' ∧ status i' = status i ∧ terminal_events k (outbox (w_db w')) = 1%nat).
Proof.
  intros H0 Hr Hr' Hk Hi. pose proof (reachable_inv _ _ H0 Hr) as HI.
  destruct (steps_final _ _ _ Hr' HI Hk) as [HD Hfin]. split.
  - rewrite (inv_events _ _ _ (wi_inv _ HI)) by set_solver. by rewrite Hi.
  - intros Ht. destruct (Hfin i Hi Ht) as (i' & Hi' & Hs). exists i'. split_and!; [done|done|].
    assert (world_inv w') as HI' by (eapply reachable_inv; [done|by etrans]).
    rewrite (inv_events _ _ _ (wi_inv _ HI')) by done. by rewrite Hi', Hs, Ht.
Qed.

(** A decided intent has no card left.  Outside the lane of policy decisions, no
    approval row of an intent that is neither pending nor cancelled is pending: it cannot
    be decided a second time. *)
Theorem settled_intent_has_no_pending_row w0 w k i id a :
  initial w0 → rtc step w0 w → k ∉ w_deferred w → intents (w_db w) !! k = Some i →
  status i ≠ pending_approval → status i ≠ cancelled →
  approvals (w_db w) !! id = Some a → a_intentId a = Some k → a_status a ≠ a_pending.
Proof.
  intros H0 Hr Hk Hi H1 H2 Ha Hak. pose proof (reachable_inv _ _ H0 Hr) as HI.
  apply (inv_closed _ _ _ (wi_inv _ HI) k i Hk Hi) with (id := id); [|done|done].
  intros [?|?%list_elem_of_singleton]%elem_of_cons; done.
Qed.

End history.
(** ** The budget of policy decisions *)

Lemma exposed_add org agent d k sqlNow l :
  exposedDevices org sqlNow (mkExposure org agent d (Some k) policy_intent sqlNow :: l) = {[ d ]} ∪ exposedDevices org sqlNow l
  ∧ decisionsToday org agent sqlNow (mkExposure org agent d (Some k) policy_intent sqlNow :: l) = decisionsToday org agent sqlNow l + 1.
Proof.
  assert (in_window org sqlNow (mkExposure org agent d (Some k) policy_intent sqlNow) = true) as Hw.
  { unfold in_window. cbn. rewrite bool_decide_eq_true_2 by done. apply Z.ltb_lt. unfold EXPOSURE_WINDOW_MS. lia. }
  unfold exposedDevices, decisionsToday. cbn [List.filter]. rewrite Hw. cbn [andb x_agentId x_source].
  rewrite !bool_decide_eq_true_2 by done. cbn [andb length]. split; [done|lia].
Qed.


(** ** Examples *)

(** A chat asks for an action under four eyes; the technician approves it. *)
Definition ex_create (scope : ApprovalScope) (run : option string) (state : PolicyDecisionState) : CreateInput :=
  mkCreate (ex_content "i" scope run) state None run None None
    (mkFanout high 900000 run ["u"] ["u"] false "requester" 0).
Definition ex_empty : Tables := mkTables (mkDb ∅ ∅ [] [] [] ∅ [] ∅) ∅ [] [] [] ∅ ∅.
Definition ex_start : World := mkWorld ex_empty ∅ [] [] [].
Definition ex_created : World :=
  mkWorld (on_db (λ _, (createActionIntent (ex_create four_eyes None human_required) None (λ _, "a") "op" 1000 1000 (w_db ex_start)).2)
             (w_tables ex_start)) ∅ [] [] [].
Definition ex_q : DecideInput := ex_request "a" true ex_proof.
Definition ex_gate : GateResult Verdict * Authenticators :=
  decideGates ex_perms ex_args ex_needs (λ _, true) ex_response ex_sig true 0 ex_policies id
    ex_q ex_dir 2000 None (w_tables ex_created) ex_auth.
Definition ex_no_verdict : Verdict := mkVerdict (ex_approval "" "" None None) None (mkDecision 0 0 session_tap None false false) None.
Definition ex_verdict : Verdict := match ex_gate.1 with Ok v => v | Err _ => ex_no_verdict end.
Definition ex_gated : World := mkWorld (w_tables ex_created) ∅ [(ex_q, ex_verdict)] [] [].
Definition ex_decided : World := with_tables (run_tx (decideTx ex_q ex_verdict 2001) (w_tables ex_gated)).2 ex_gated.

Notation ex_step := (step ex_perms ex_args ex_needs (λ _, true) ex_response ex_sig true 0 ex_policies id).

Lemma ex_history_initial : initial ex_start.
Proof. repeat split. Qed.

Lemma ex_run : rtc ex_step ex_start ex_decided.
Proof.
  eapply rtc_l with ex_created.
  { refine (st_create _ _ _ _ _ _ _ _ _ _ ex_start (ex_create four_eyes None human_required) None (λ _, "a") "op" 1000 1000
      false false None false None None _ _ _ _); [reflexivity|reflexivity|reflexivity|left]. }
  eapply rtc_l with ex_gated.
  { refine (st_gate _ _ _ _ _ _ _ _ _ _ ex_created ex_q ex_dir 2000 None ex_auth ex_verdict ex_gate.2 _ _);
      [vm_compute; reflexivity|left; reflexivity]. }
  apply rtc_once. apply (st_commit _ _ _ _ _ _ _ _ _ _ ex_gated ex_q ex_verdict 2001). left.
Qed.

Lemma four_eyes_release_was_authorized_witness :
  ∃ i q v, intents (w_db ex_decided) !! "i" = Some i ∧ status i = approved ∧ (q, v) ∈ w_gated ex_decided
           ∧ authorized_four_eyes ex_perms q v (n_content i).
Proof.
  destruct (intents (w_db ex_decided) !! "i") as [i|] eqn:E; [|vm_compute in E; discriminate E].
  destruct (four_eyes_release_was_authorized ex_perms ex_args ex_needs (λ _, true) ex_response ex_sig true 0 ex_policies id
              ex_start ex_decided "i" i ex_history_initial ex_run E) as (q & v & Hg & _ & _ & _ & _ & _ & Ha).
  - vm_compute in E. injection E as <-. reflexivity.
  - vm_compute in E. injection E as <-. apply (bool_decide_unpack _). vm_compute. exact I.
  - vm_compute in E. injection E as <-. apply (bool_decide_unpack _). vm_compute. exact I.
  - exists i, q, v. split; [reflexivity|]. split; [|split; [exact Hg|exact Ha]].
    vm_compute in E. injection E as <-. reflexivity.
Defined.

Lemma intent_ends_once_witness :
  ∃ i, intents (w_db ex_decided) !! "i" = Some i
       ∧ terminal_events "i" (outbox (w_db ex_decided)) = (if terminal (status i) then 1 else 0)%nat.
Proof.
  destruct (intents (w_db ex_decided) !! "i") as [i|] eqn:E; [|vm_compute in E; discriminate E].
  exists i. split; [reflexivity|].
  refine (proj1 (intent_ends_once ex_perms ex_args ex_needs (λ _, true) ex_response ex_sig true 0 ex_policies id
            ex_start ex_decided ex_decided "i" i ex_history_initial ex_run (rtc_refl _ _) _ E)).
  apply not_elem_of_empty.
Defined.

Lemma settled_intent_has_no_pending_row_witness :
  ∃ i a, intents (w_db ex_decided) !! "i" = Some i ∧ approvals (w_db ex_decided) !! "a" = Some a ∧ a_status a ≠ a_pending.
Proof.
  destruct (intents (w_db ex_decided) !! "i") as [i|] eqn:E; [|vm_compute in E; discriminate E].
  destruct (approvals (w_db ex_decided) !! "a") as [a|] eqn:Ea; [|vm_compute in Ea; discriminate Ea].
  exists i, a. split; [reflexivity|]. split; [reflexivity|].
  apply (settled_intent_has_no_pending_row ex_perms ex_args ex_needs (λ _, true) ex_response ex_sig true 0 ex_policies id
           ex_start ex_decided "i" i "a" a ex_history_initial ex_run); [apply not_elem_of_empty|exact E| | |exact Ea|].
  - vm_compute in E. injection E as <-. intros [=].
  - vm_compute in E. injection E as <-. intros [=].
  - vm_compute in Ea. injection Ea as <-. reflexivity.
Defined.

(** In the policy lane an intent can end twice: the reaper expires it, and the deferred
    fan-out, which finds no approver, cancels it again. *)
Lemma deferred_intent_ends_twice :
  let b0 := (createActionIntent (ex_create supervised (Some "run") unattempted) None (λ _, "a") "op" 1000 1000 (w_db ex_start)).2 in
  let b1 := (reapExpiredIntents (λ _, false) 900001 900001 b0).2 in
  let b2 := runDeferredHumanFanout "i" (Some "o") [] (λ _, "a") 900002 b1 in
  status <$> intents b1 !! "i" = Some expired ∧ status <$> intents b2 !! "i" = Some cancelled
  ∧ terminal_events "i" (outbox b2) = 2%nat.
Proof. vm_compute. auto. Qed.

Definition ex_lane : Intent :=
  mkIntent (ex_content "i" supervised (Some "run")) (mkState pending_approval unattempted (Some 900000) None None None None None None None None).
Definition ex_lane_db : Db := mkDb {[ "i" := ex_lane ]} ∅ [] [] [] ∅ [mkExposure "o" "agent" "dev2" None act 500] ∅.


End History.
