(* ===== verification/MonitorEpisodes.v ===== *)
(** * Monitor episodes and the recurrence latch

    [services/monitors/episodeService.ts], [episodeReset.ts] and
    [escalationLatch.ts].  A monitor observed on a device opens an episode when it
    breaches and closes it when it recovers; when enough episodes fall in a window
    the pair escalates once, its automatic responses are held and a human is told.
    [Db] is the two tables; each exported function is one transaction on it, and
    generated ids and the clock are inputs.  What the service promises is in
    [MonitorHistory]. *)
From S2P Require Import Prelude Transaction.
From stdpp Require Import base tactics list strings gmap.
From Stdlib Require Import ZArith Lia.
Open Scope Z_scope.

Module MonitorEpisodes.

Inductive Observation := breach | ok | unknown.
Inductive EndReason := recovered | device_deleted | monitor_detached.
Inductive ResponseOutcome := queued | completed | failed | skipped_paused | skipped_no_response.
#[export] Instance Observation_eq_dec : EqDecision Observation.
Proof. solve_decision. Defined.
#[export] Instance EndReason_eq_dec : EqDecision EndReason.
Proof. solve_decision. Defined.
#[export] Instance ResponseOutcome_eq_dec : EqDecision ResponseOutcome.
Proof. solve_decision. Defined.

(** [monitor_episodes], by id. *)
Record Episode := mkEpisode {
  ep_monitorId : string; ep_deviceId : string; ep_orgId : string; ep_startedAt : Z;
  ep_endedAt : option Z; ep_endReason : option EndReason; ep_alertId : option string;
  ep_responseRunId : option string; ep_responseOutcome : option ResponseOutcome }.

(** [monitor_device_state], by monitor and device. *)
Record DeviceState := mkDeviceState {
  ds_orgId : string; ds_currentEpisodeId : option string; ds_episodesInWindow : Z; ds_windowStartedAt : option Z;
  ds_escalatedAt : option Z; ds_escalationAlertId : option string; ds_responsesPaused : bool;
  ds_resetAt : option Z; ds_resetBy : option string; ds_lastEvaluatedAt : option Z; ds_lastState : Observation }.

Record Db := mkDb { episodes : gmap string Episode; states : gmap (string * string) DeviceState }.

(** What the service reads of a monitor definition. *)
Record Monitor := mkMonitor {
  m_id : string; recurrenceThreshold : option Z; recurrenceWindowHours : option Z;
  pauseResponsesOnEscalation : bool }.

Notation Tx := (Transaction Db string).

Definition pair_of (e : Episode) : string * string := (ep_monitorId e, ep_deviceId e).
Definition is_open (e : Episode) : bool := bool_decide (ep_endedAt e = None).
Definition open_of (p : string * string) (e : Episode) : bool := bool_decide (pair_of e = p) && is_open e.

Definition on_episodes (f : gmap string Episode → gmap string Episode) (db : Db) : Db :=
  mkDb (f (episodes db)) (states db).
Definition on_state (p : string * string) (f : DeviceState → DeviceState) (db : Db) : Db :=
  mkDb (episodes db) (alter f p (states db)).

(** ** The statements *)

Definition fresh_state (orgId : string) : DeviceState :=
  mkDeviceState orgId None 0 None None None false None None None unknown.

Definition upsert_state (p : string * string) (orgId : string) (db : Db) : Db :=
  match states db !! p with
  | Some _ => db
  | None => mkDb (episodes db) (<[p := fresh_state orgId]> (states db))
  end.

Definition open_episode (p : string * string) (db : Db) : option string :=
  fst <$> List.find (λ ke, open_of p ke.2) (map_to_list (episodes db)).

(** The insert, [ON CONFLICT DO NOTHING]: the id and the index on open episodes. *)
Definition insert_episode (p : string * string) (orgId newId : string) (now : Z) (db : Db) : option string * Db :=
  match open_episode p db, episodes db !! newId with
  | None, None => (Some newId, on_episodes <[newId := mkEpisode p.1 p.2 orgId now None None None None None]> db)
  | _, _ => (None, db)
  end.

Definition insert_or_adopt (p : string * string) (orgId newId : string) (now : Z) (message : string) : Tx (string * bool) :=
  let* inserted := λ db, Ok (insert_episode p orgId newId now db) in
  match inserted with
  | Some id => ret (id, true)
  | None =>
      let* existing := query (open_episode p) in
      match existing with Some id => ret (id, false) | None => throw message end
  end.

Definition close (now : Z) (r : EndReason) (e : Episode) : Episode :=
  mkEpisode (ep_monitorId e) (ep_deviceId e) (ep_orgId e) (ep_startedAt e) (Some now) (Some r)
    (ep_alertId e) (ep_responseRunId e) (ep_responseOutcome e).

(** The columns every observation writes. *)
Definition observed (o : Observation) (now : Z) (s : DeviceState) : DeviceState :=
  mkDeviceState (ds_orgId s) (ds_currentEpisodeId s) (ds_episodesInWindow s) (ds_windowStartedAt s) (ds_escalatedAt s)
    (ds_escalationAlertId s) (ds_responsesPaused s) (ds_resetAt s) (ds_resetBy s) (Some now) o.
Definition with_current (c : option string) (s : DeviceState) : DeviceState :=
  mkDeviceState (ds_orgId s) c (ds_episodesInWindow s) (ds_windowStartedAt s) (ds_escalatedAt s)
    (ds_escalationAlertId s) (ds_responsesPaused s) (ds_resetAt s) (ds_resetBy s) (ds_lastEvaluatedAt s) (ds_lastState s).
Definition with_window (n : Z) (w : option Z) (s : DeviceState) : DeviceState :=
  mkDeviceState (ds_orgId s) (ds_currentEpisodeId s) n w (ds_escalatedAt s)
    (ds_escalationAlertId s) (ds_responsesPaused s) (ds_resetAt s) (ds_resetBy s) (ds_lastEvaluatedAt s) (ds_lastState s).
Definition with_latch (at_ : Z) (paused : bool) (s : DeviceState) : DeviceState :=
  mkDeviceState (ds_orgId s) (ds_currentEpisodeId s) (ds_episodesInWindow s) (ds_windowStartedAt s) (Some at_)
    (ds_escalationAlertId s) paused (ds_resetAt s) (ds_resetBy s) (ds_lastEvaluatedAt s) (ds_lastState s).
Definition with_alert (a : option string) (s : DeviceState) : DeviceState :=
  mkDeviceState (ds_orgId s) (ds_currentEpisodeId s) (ds_episodesInWindow s) (ds_windowStartedAt s) (ds_escalatedAt s)
    a (ds_responsesPaused s) (ds_resetAt s) (ds_resetBy s) (ds_lastEvaluatedAt s) (ds_lastState s).
Definition reset_state (now : Z) (by_ : option string) (s : DeviceState) : DeviceState :=
  mkDeviceState (ds_orgId s) (ds_currentEpisodeId s) 0 None None None false (Some now) by_
    (ds_lastEvaluatedAt s) (ds_lastState s).

(** ** The operations *)

Record RecordEvaluationResult := mkEvaluation {
  r_episodeId : option string; r_episodeOpened : bool; r_episodeClosed : bool; r_episodesInWindow : Z;
  r_latched : bool; r_needsEscalationAlert : bool; r_responsesPaused : bool }.

Definition allocateSubjectEpisode (m : Monitor) (deviceId orgId newId : string) (now : Z) : Tx string :=
  let p := (m_id m, deviceId) in
  let* _ := modify (upsert_state p orgId) in
  let* r := insert_or_adopt p orgId newId now "Subject episode allocation lost its open episode" in
  ret r.1.

(** The recurrence counter is on with a threshold and a window that is not zero. *)
Definition counter (m : Monitor) : option (Z * Z) :=
  match recurrenceThreshold m, recurrenceWindowHours m with
  | Some n, Some h => if h =? 0 then None else Some (n, h)
  | _, _ => None
  end.
Definition cutoff (now windowHours : Z) (resetAt : option Z) : Z :=
  let windowStart := now - windowHours * 60 * 60 * 1000 in
  match resetAt with Some r => if windowStart <? r then r else windowStart | None => windowStart end.
Definition started_since (p : string * string) (since : Z) (db : Db) : list Z :=
  filter (λ t, since ≤ t)
    ((λ ke, ep_startedAt ke.2) <$> filter (λ ke : string * Episode, pair_of ke.2 = p) (map_to_list (episodes db))).
Definition oldest_start (l : list Z) : option Z :=
  foldl (λ acc t, match acc with Some a => if t <? a then Some t else acc | None => Some t end) None l.

Definition open_or_adopt (m : Monitor) (deviceId orgId newId : string) (now : Z) (current : DeviceState) : Tx RecordEvaluationResult :=
  let p := (m_id m, deviceId) in
  let* opened := insert_or_adopt p orgId newId now "Admitted breach has no open episode" in
  let* rows := query (λ db, match counter m with
                            | Some (_, h) => started_since p (cutoff now h (ds_resetAt current)) db
                            | None => []
                            end) in
  let episodesInWindow := Z.of_nat (length rows) in
  let alreadyEscalated := bool_decide (is_Some (ds_escalatedAt current)) in
  let latched := match counter m with
                 | Some (n, _) => negb alreadyEscalated && (n <=? episodesInWindow)
                 | None => false
                 end in
  let paused := if latched then pauseResponsesOnEscalation m else ds_responsesPaused current in
  let* _ := modify (on_state p (λ s,
              let s1 := observed breach now (with_window episodesInWindow (oldest_start rows) (with_current (Some opened.1) s)) in
              if latched then with_latch now paused s1 else s1)) in
  ret (mkEvaluation (Some opened.1) opened.2 false episodesInWindow latched
         (alreadyEscalated && bool_decide (ds_escalationAlertId current = None)) paused).

Definition recordMonitorEvaluation (m : Monitor) (deviceId orgId : string) (o : Observation) (newId : string) (now : Z)
    : Tx RecordEvaluationResult :=
  let p := (m_id m, deviceId) in
  let* _ := modify (upsert_state p orgId) in
  let* state := query (λ db, states db !! p) in
  let current := default (fresh_state orgId) state in
  let unchanged opened closed needs :=
    mkEvaluation opened false closed (ds_episodesInWindow current) false needs (ds_responsesPaused current) in
  match o, ds_currentEpisodeId current with
  | unknown, c =>
      let* _ := modify (on_state p (observed unknown now)) in ret (unchanged c false false)
  | ok, c =>
      let* _ := modify (on_episodes (λ es, match c with
                          | Some id => alter (λ e, if is_open e then close now recovered e else e) id es
                          | None => es
                          end)) in
      let* _ := modify (on_state p (λ s, observed ok now (with_current None s))) in
      ret (unchanged None (bool_decide (is_Some c)) false)
  | breach, Some id =>
      let* _ := modify (on_state p (observed breach now)) in
      ret (unchanged (Some id) false
             (bool_decide (is_Some (ds_escalatedAt current)) && bool_decide (ds_escalationAlertId current = None)))
  | breach, None => open_or_adopt m deviceId orgId newId now current
  end.

Definition detachMonitorFromDevice (monitorId deviceId : string) (now : Z) (db : Db) : Db :=
  let p := (monitorId, deviceId) in
  let closed := on_episodes (fmap (λ e, if open_of p e then close now monitor_detached e else e)) db in
  match open_episode p db with
  | Some _ => on_state p (with_current None) closed
  | None => closed
  end.

Definition set_alert (a : option string) (e : Episode) : Episode :=
  mkEpisode (ep_monitorId e) (ep_deviceId e) (ep_orgId e) (ep_startedAt e) (ep_endedAt e) (ep_endReason e) a
    (ep_responseRunId e) (ep_responseOutcome e).

(** The first alert to reach the episode owns its responses. *)
Definition linkEpisodeAlert (episodeId alertId : string) (db : Db) : bool * Db :=
  match episodes db !! episodeId with
  | Some e => if bool_decide (ep_alertId e = None)
              then (true, on_episodes <[episodeId := set_alert (Some alertId) e]> db) else (false, db)
  | None => (false, db)
  end.

Definition set_response (o : ResponseOutcome) (run : option string) (e : Episode) : Episode :=
  mkEpisode (ep_monitorId e) (ep_deviceId e) (ep_orgId e) (ep_startedAt e) (ep_endedAt e) (ep_endReason e) (ep_alertId e)
    (match run with Some r => Some r | None => ep_responseRunId e end) (Some o).

Definition recordEpisodeResponse (monitorId deviceId : string) (run : option string) (o : ResponseOutcome) (db : Db) : Db :=
  on_episodes (fmap (λ e,
    if open_of (monitorId, deviceId) e
       && (bool_decide (o ≠ queued) || bool_decide (ep_responseOutcome e = None)
           || bool_decide (ep_responseOutcome e = Some queued))
    then set_response o run e else e)) db.

(** [visible] is the caller's condition on the organization. *)
Definition resetMonitorEscalation (monitorId deviceId : string) (userId : option string) (visible : string → bool) (now : Z)
    (db : Db) : bool * Db :=
  let p := (monitorId, deviceId) in
  match states db !! p with
  | Some s => if bool_decide (is_Some (ds_escalatedAt s)) && visible (ds_orgId s)
              then (true, on_state p (reset_state now userId) db) else (false, db)
  | None => (false, db)
  end.

(** ** The escalation alert *)

Inductive AlertSeverity := info | low | medium | high | critical.
#[export] Instance AlertSeverity_eq_dec : EqDecision AlertSeverity.
Proof. solve_decision. Defined.

Definition SEVERITY_LADDER : list AlertSeverity := [info; low; medium; high; critical].
Definition index_of (s : AlertSeverity) : nat := default 0%nat (fst <$> list_find (s =.) SEVERITY_LADDER).
Definition escalationSeverityFor (base : AlertSeverity) : AlertSeverity :=
  let bumped := default critical (SEVERITY_LADDER !! Nat.min (index_of base + 1) (length SEVERITY_LADDER - 1)) in
  if (index_of high <=? index_of bumped)%nat then bumped else high.

(** [created] is what [createSourcedAlert] answered: the id of a published alert. *)
Definition fireEscalationLatch (monitorId deviceId : string) (created : option string) (db : Db) : Db :=
  match created with
  | Some id => on_state (monitorId, deviceId) (with_alert (Some id)) db
  | None => db
  end.

(** The outbox of component alerts ([services/subjectAlertOutbox.ts]) stamps the alert it
    stages on an escalated pair that is still in breach, and takes an alert back whose
    publication failed. *)
Definition escalation_due (s : DeviceState) : option string :=
  match ds_lastState s with
  | breach => if bool_decide (is_Some (ds_escalatedAt s)) && bool_decide (ds_escalationAlertId s = None)
              then ds_currentEpisodeId s else None
  | _ => None
  end.
Definition stampEscalation (monitorId deviceId alertId : string) (db : Db) : Db :=
  match states db !! (monitorId, deviceId) ≫= escalation_due with
  | Some _ => on_state (monitorId, deviceId) (with_alert (Some alertId)) db
  | None => db
  end.

Definition unlink (id : string) (e : Episode) : Episode :=
  if bool_decide (ep_alertId e = Some id) then set_alert None e else e.
Definition unstamp (id : string) (s : DeviceState) : DeviceState :=
  if bool_decide (ds_escalationAlertId s = Some id) then with_alert None s else s.
Definition takeBackAlert (alertId : string) (episodeId : option string) (db : Db) : Db :=
  mkDb (match episodeId with Some e => alter (unlink alertId) e (episodes db) | None => episodes db end)
    (unstamp alertId <$> states db).

End MonitorEpisodes.
