(* ===== verification/MonitorHistory.v ===== *)
(** * What the episode service promises

    [Spec] is the promise for one pair of a monitor and a device: the list of its runs
    of breaches and a latch.  The theorems show that every sequence of the operations
    of [MonitorEpisodes] implements it and never throws, that a pair escalates at most
    once between two resets, and that a human is told. *)
From S2P Require Import Prelude Transaction MonitorEpisodes.
From stdpp Require Import base tactics list strings gmap.
From Stdlib Require Import ZArith Lia.
Open Scope Z_scope.

Module MonitorHistory.
Import MonitorEpisodes.

(** A run of breaches: when it was first seen, and when and why it ended. *)
Definition Run : Type := Z * option (Z * EndReason).

(** The runs, newest first; whether the newest is being followed (an allocated episode
    is open but not yet followed); the latch, with the time of the last reset; the
    organization the pair is kept under. *)
Record Latch := mkLatch { l_escalated : bool; l_paused : bool; l_reset : option Z }.
Record Spec := mkSpec { sp_runs : list Run; sp_followed : bool; sp_latch : Latch; sp_org : option string }.

Definition spec_init : Spec := mkSpec [] false (mkLatch false false None) None.

Definition is_running (rs : list Run) : bool := match rs with (_, None) :: _ => true | _ => false end.
Definition begin_run (now : Z) (rs : list Run) : list Run := if is_running rs then rs else (now, None) :: rs.
Definition close_run (now : Z) (r : EndReason) (x : Run) : Run :=
  match x with (s, None) => (s, Some (now, r)) | _ => x end.
Definition end_run (now : Z) (r : EndReason) (rs : list Run) : list Run :=
  match rs with x :: rs' => close_run now r x :: rs' | [] => [] end.
Definition runs_since (since : Z) (rs : list Run) : nat := length (filter (λ t, since ≤ t) rs.*1).
Definition known_org (o : option string) (orgId : string) : option string :=
  match o with Some _ => o | None => Some orgId end.

Definition latches (m : Monitor) (now : Z) (rs : list Run) (l : Latch) : bool :=
  match counter m with
  | Some (n, h) => negb (l_escalated l) && (n <=? Z.of_nat (runs_since (cutoff now h (l_reset l)) rs))
  | None => false
  end.

(** An observation: the new state, and whether the pair escalates now. *)
Definition spec_observe (m : Monitor) (orgId : string) (o : Observation) (now : Z) (s : Spec) : Spec * bool :=
  let org := known_org (sp_org s) orgId in
  match o with
  | unknown => (mkSpec (sp_runs s) (sp_followed s) (sp_latch s) org, false)
  | ok => (mkSpec (if sp_followed s then end_run now recovered (sp_runs s) else sp_runs s) false (sp_latch s) org, false)
  | breach =>
      if sp_followed s then (mkSpec (sp_runs s) true (sp_latch s) org, false)
      else
        let rs := begin_run now (sp_runs s) in
        let now_latches := latches m now rs (sp_latch s) in
        (mkSpec rs true
           (if now_latches then mkLatch true (pauseResponsesOnEscalation m) (l_reset (sp_latch s)) else sp_latch s) org,
         now_latches)
  end.

(** ** Sequences of operations *)

Inductive Op :=
| op_observe (m : Monitor) (deviceId orgId : string) (o : Observation) (newId : string) (now : Z)
| op_allocate (m : Monitor) (deviceId orgId newId : string) (now : Z)
| op_detach (monitorId deviceId : string) (now : Z)
| op_link (episodeId alertId : string)
| op_response (monitorId deviceId : string) (run : option string) (o : ResponseOutcome)
| op_reset (monitorId deviceId : string) (userId : option string) (visible : string → bool) (now : Z)
| op_fire (monitorId deviceId : string) (created : option string)
| op_stamp (monitorId deviceId alertId : string)
| op_take_back (alertId : string) (episodeId : option string).

Definition apply_op (db : Db) (op : Op) : Db :=
  match op with
  | op_observe m d org o newId now => (run_tx (recordMonitorEvaluation m d org o newId now) db).2
  | op_allocate m d org newId now => (run_tx (allocateSubjectEpisode m d org newId now) db).2
  | op_detach m d now => detachMonitorFromDevice m d now db
  | op_link e a => (linkEpisodeAlert e a db).2
  | op_response m d run o => recordEpisodeResponse m d run o db
  | op_reset m d u visible now => (resetMonitorEscalation m d u visible now db).2
  | op_fire m d created => fireEscalationLatch m d created db
  | op_stamp m d a => stampEscalation m d a db
  | op_take_back a e => takeBackAlert a e db
  end.
Definition run_ops (ops : list Op) : Db := foldl apply_op (mkDb ∅ ∅) ops.

Definition ids_of (op : Op) : list string :=
  match op with op_observe _ _ _ _ id _ | op_allocate _ _ _ id _ => [id] | _ => [] end.
Definition new_ids (ops : list Op) : list string := ops ≫= ids_of.

(** What an operation means for a pair. *)
Definition spec_op (p : string * string) (s : Spec) (op : Op) : Spec :=
  match op with
  | op_observe m d org o _ now => if bool_decide ((m_id m, d) = p) then (spec_observe m org o now s).1 else s
  | op_allocate m d org _ now =>
      if bool_decide ((m_id m, d) = p)
      then mkSpec (begin_run now (sp_runs s)) (sp_followed s) (sp_latch s) (known_org (sp_org s) org) else s
  | op_detach m d now =>
      if bool_decide ((m, d) = p) && is_running (sp_runs s)
      then mkSpec (end_run now monitor_detached (sp_runs s)) false (sp_latch s) (sp_org s) else s
  | op_reset m d _ visible now =>
      if bool_decide ((m, d) = p) && l_escalated (sp_latch s) && from_option visible false (sp_org s)
      then mkSpec (sp_runs s) (sp_followed s) (mkLatch false false (Some now)) (sp_org s) else s
  | op_link _ _ | op_response _ _ _ _ | op_fire _ _ _ | op_stamp _ _ _ | op_take_back _ _ => s
  end.
Definition spec_run (p : string * string) (ops : list Op) : Spec := foldl (spec_op p) spec_init ops.

(** ** The tables implement the promise *)

Definition view (e : Episode) : Run :=
  (ep_startedAt e, match ep_endedAt e, ep_endReason e with Some t, Some r => Some (t, r) | _, _ => None end).
Definition views (p : string * string) (es : gmap string Episode) : list Run :=
  (λ ke, view ke.2) <$> filter (λ ke : string * Episode, pair_of ke.2 = p) (map_to_list es).
Definition ended (x : Run) : Prop := is_Some x.2.

(** The row of the pair, if there is one. *)
Definition row_matches (p : string * string) (s : Spec) (es : gmap string Episode) (r : option DeviceState) : Prop :=
  match r with
  | None => s = mkSpec (sp_runs s) false (mkLatch false false None) None
  | Some d => sp_followed s = bool_decide (is_Some (ds_currentEpisodeId d))
              ∧ sp_latch s = mkLatch (bool_decide (is_Some (ds_escalatedAt d))) (ds_responsesPaused d) (ds_resetAt d)
              ∧ sp_org s = Some (ds_orgId d)
              ∧ ∀ k, ds_currentEpisodeId d = Some k → ∃ e, es !! k = Some e ∧ pair_of e = p ∧ is_open e = true
  end.

(** Both columns of an end are set, or none. *)
Definition ends_ok (es : gmap string Episode) : Prop :=
  ∀ k e, es !! k = Some e → (ep_endedAt e = None ↔ ep_endReason e = None).

(** The episodes of the pair are its runs, all
    but the newest of which have ended. *)
Record refines (db : Db) (p : string * string) (s : Spec) : Prop := mkRefines {
  rf_ends : ends_ok (episodes db);
  rf_views : views p (episodes db) ≡ₚ sp_runs s;
  rf_closed : Forall ended (tail (sp_runs s));
  rf_row : row_matches p s (episodes db) (states db !! p) }.

(** *** Views under the changes of the tables *)

Lemma view_open e : (ep_endedAt e = None ↔ ep_endReason e = None) → is_open e = bool_decide ((view e).2 = None).
Proof.
  intros H. unfold is_open, view. apply bool_decide_ext. cbn.
  destruct (ep_endedAt e), (ep_endReason e); split; intros E; try done; destruct H as [H1 H2]; [by apply H2|by specialize (H1 eq_refl)..].
Qed.

Lemma views_insert_new p es k e :
  es !! k = None → views p (<[k := e]> es) ≡ₚ (if bool_decide (pair_of e = p) then [view e] else []) ++ views p es.
Proof.
  intros Hk. unfold views. rewrite map_to_list_insert by done. rewrite filter_cons.
  case_decide as H; cbn in H; [rewrite bool_decide_eq_true_2 by done|rewrite bool_decide_eq_false_2 by done]; done.
Qed.

Lemma views_fmap p f g es :
  (∀ k e, es !! k = Some e → pair_of (f e) = pair_of e) →
  (∀ k e, es !! k = Some e → pair_of e = p → view (f e) = g (view e)) →
  views p (f <$> es) = g <$> views p es.
Proof.
  intros Hp Hv. unfold views. rewrite map_to_list_fmap.
  assert (∀ x, x ∈ map_to_list es → es !! x.1 = Some x.2) as Hin by (intros [k e]; apply elem_of_map_to_list).
  induction (map_to_list es) as [|[k e] l IH]; [done|].
  pose proof (Hin (k, e) ltac:(left)) as Hke. cbn in Hke. cbn [fmap list_fmap prod_map fst snd id]. rewrite !filter_cons. cbn [snd].
  rewrite (Hp _ _ Hke). case_decide; [cbn [fmap list_fmap snd]; rewrite (Hv _ _ Hke) by done; f_equal|];
    apply IH; intros; apply Hin; by right.
Qed.

Lemma views_same p f es :
  (∀ k e, es !! k = Some e → pair_of (f e) = pair_of e) →
  (∀ k e, es !! k = Some e → pair_of e = p → view (f e) = view e) →
  views p (f <$> es) = views p es.
Proof. intros Hp Hv. rewrite (views_fmap p f id) by done. apply list_fmap_id. Qed.

(** *** The open episode *)

Lemma open_of_spec p e : open_of p e = true ↔ pair_of e = p ∧ is_open e = true.
Proof. unfold open_of. by rewrite andb_true_iff, bool_decide_eq_true. Qed.

Lemma open_episode_Some p db k :
  open_episode p db = Some k → ∃ e, episodes db !! k = Some e ∧ open_of p e = true.
Proof.
  unfold open_episode. intros H. apply fmap_Some in H as ([k' e] & H & ->). apply List.find_some in H as [Hin Ho].
  exists e. split; [|done]. apply elem_of_map_to_list. by apply list_elem_of_In.
Qed.

Lemma open_episode_None p db k e :
  open_episode p db = None → episodes db !! k = Some e → open_of p e = false.
Proof.
  unfold open_episode. intros H%fmap_None Hk. apply (List.find_none _ _ H (k, e)).
  by apply list_elem_of_In, elem_of_map_to_list.
Qed.

Definition opens (rs : list Run) : nat := length (filter (λ x : Run, x.2 = None) rs).

Lemma opens_ended rs : Forall ended rs → opens rs = 0%nat.
Proof.
  unfold opens. induction 1 as [|x rs [y Hx] _ IH]; [done|]. rewrite filter_cons, decide_False by congruence. done.
Qed.

Lemma opens_at_most rs : Forall ended (tail rs) → (opens rs ≤ 1)%nat.
Proof.
  destruct rs as [|x rs]; [cbn; lia|]. cbn [tail]. intros H%opens_ended. unfold opens in *. rewrite filter_cons.
  case_decide; cbn [length]; lia.
Qed.

Lemma opens_perm rs rs' : rs ≡ₚ rs' → opens rs = opens rs'.
Proof. unfold opens. by intros ->. Qed.

Lemma views_delete p es k e :
  es !! k = Some e → views p es ≡ₚ (if bool_decide (pair_of e = p) then [view e] else []) ++ views p (delete k es).
Proof. intros Hk. rewrite <- views_insert_new by apply lookup_delete_eq. by rewrite insert_delete_id. Qed.

Section one.
Context (db : Db) (p : string * string) (s : Spec) (H : refines db p s).

Lemma ends_view k e : episodes db !! k = Some e → is_open e = bool_decide ((view e).2 = None).
Proof. intros Hk. apply view_open. by eapply rf_ends. Qed.

Lemma one_open k e k' e' :
  episodes db !! k = Some e → open_of p e = true → episodes db !! k' = Some e' → open_of p e' = true → k = k'.
Proof.
  intros Hk [Hp Ho]%open_of_spec Hk' [Hp' Ho']%open_of_spec. destruct (decide (k = k')) as [|Hne]; [done|exfalso].
  pose proof (opens_at_most _ (rf_closed _ _ _ H)) as Hle. rewrite <- (opens_perm _ _ (rf_views _ _ _ H)) in Hle.
  rewrite (ends_view _ _ Hk), bool_decide_eq_true in Ho. rewrite (ends_view _ _ Hk'), bool_decide_eq_true in Ho'.
  rewrite (opens_perm _ _ (views_delete p _ _ _ Hk)), bool_decide_eq_true_2 in Hle by done.
  assert (delete k (episodes db) !! k' = Some e') as Hd by (by rewrite lookup_delete_ne).
  unfold opens in Hle. cbn [app] in Hle. rewrite filter_cons, decide_True in Hle by done. cbn [length] in Hle.
  pose proof (opens_perm _ _ (views_delete p _ _ _ Hd)) as Hs. rewrite bool_decide_eq_true_2 in Hs by done.
  unfold opens in Hs. cbn [app] in Hs. rewrite filter_cons, decide_True in Hs by done. cbn [length] in Hs. lia.
Qed.

Lemma running_opens : opens (sp_runs s) = (if is_running (sp_runs s) then 1 else 0)%nat.
Proof.
  pose proof (rf_closed _ _ _ H) as Hc. destruct (sp_runs s) as [|[t [x|]] rs]; [done| |]; cbn [tail is_running] in *;
    apply opens_ended in Hc; unfold opens in *; rewrite filter_cons; cbn [snd]; case_decide; try done; cbn [length]; lia.
Qed.

(** The pair has an open episode exactly when its newest run goes on. *)
Lemma running_open : is_running (sp_runs s) = bool_decide (is_Some (open_episode p db)).
Proof.
  pose proof running_opens as Hr. rewrite <- (opens_perm _ _ (rf_views _ _ _ H)) in Hr.
  destruct (open_episode p db) as [k|] eqn:E.
  - apply open_episode_Some in E as (e & He & [Hp Ho]%open_of_spec).
    rewrite bool_decide_eq_true_2 by eauto. rewrite (ends_view _ _ He), bool_decide_eq_true in Ho.
    rewrite (opens_perm _ _ (views_delete p _ _ _ He)), bool_decide_eq_true_2 in Hr by done.
    unfold opens in Hr. cbn [app] in Hr. rewrite filter_cons, decide_True in Hr by done. cbn [length] in Hr.
    by destruct (is_running _).
  - rewrite bool_decide_eq_false_2 by (by intros []). destruct (is_running _); [|done]. exfalso.
    unfold opens, views in Hr.
    destruct (filter _ _) as [|x l] eqn:Ef; [cbn in Hr; lia|].
    assert (x ∈ filter (λ y : Run, y.2 = None) ((λ ke, view ke.2) <$> filter (λ ke : string * Episode, pair_of ke.2 = p) (map_to_list (episodes db))))
      as [Hx Hin]%list_elem_of_filter by (rewrite Ef; left).
    apply list_elem_of_fmap in Hin as ([k e] & -> & [Hp Hm]%list_elem_of_filter). apply elem_of_map_to_list in Hm.
    apply (open_episode_None _ _ _ _ E) in Hm as Hno. cbn in Hp, Hx. unfold open_of in Hno.
    rewrite bool_decide_eq_true_2, (ends_view _ _ Hm), bool_decide_eq_true_2 in Hno by done. done.
Qed.
End one.

(** *** What leaves a pair alone *)

Definition kept (p : string * string) (es es' : gmap string Episode) : Prop :=
  ∀ k e, es !! k = Some e → open_of p e = true → ∃ e', es' !! k = Some e' ∧ open_of p e' = true.

Lemma row_kept p s es es' r : kept p es es' → row_matches p s es r → row_matches p s es' r.
Proof.
  intros Hk. destruct r as [d|]; [|done]. intros (H1 & H2 & H3 & H4). split_and!; try done. intros k Hc.
  destruct (H4 k Hc) as (e & He & Hp & Ho). destruct (Hk k e He) as (e' & He' & [? ?]%open_of_spec); [by apply open_of_spec|eauto].
Qed.

Lemma frame db db' p s :
  refines db p s → ends_ok (episodes db') → views p (episodes db') ≡ₚ views p (episodes db) →
  kept p (episodes db) (episodes db') → states db' !! p = states db !! p → refines db' p s.
Proof.
  intros [He Hv Hc Hr] He' Hv' Hk Hs. split; [done|by rewrite Hv'|done|]. rewrite Hs. by eapply row_kept.
Qed.

Lemma kept_refl p es : kept p es es.
Proof. intros k e ? ?. eauto. Qed.

Lemma on_state_other p q f db s : q ≠ p → refines db p s → refines (on_state q f db) p s.
Proof.
  intros Hne H. eapply frame; [exact H|apply (rf_ends _ _ _ H)|done|apply kept_refl|]. cbn. by apply lookup_alter_ne.
Qed.

Lemma on_state_same p f db s s' d :
  refines db p s → states db !! p = Some d → sp_runs s' = sp_runs s →
  row_matches p s' (episodes db) (Some (f d)) → refines (on_state p f db) p s'.
Proof.
  intros [He Hv Hc Hr] Hd Hruns Hrow. split; [done|by rewrite Hruns|by rewrite Hruns|]. cbn. by rewrite lookup_alter_eq, Hd.
Qed.

Definition known (s : Spec) (orgId : string) : Spec :=
  mkSpec (sp_runs s) (sp_followed s) (sp_latch s) (known_org (sp_org s) orgId).

Lemma upsert_same p org db s :
  refines db p s → refines (upsert_state p org db) p (known s org) ∧ is_Some (states (upsert_state p org db) !! p)
                   ∧ episodes (upsert_state p org db) = episodes db.
Proof.
  intros [He Hv Hc Hr]. unfold upsert_state. destruct (states db !! p) as [d|] eqn:Ed.
  - split_and!; [|by rewrite Ed|done]. destruct Hr as (H1 & H2 & H3 & H4). split; [done|done|done|].
    rewrite Ed. unfold known. rewrite H3. cbn. done.
  - split_and!; [|cbn; rewrite lookup_insert_eq; eauto|done]. split; [done|done|done|]. cbn. rewrite lookup_insert_eq.
    unfold row_matches in Hr. rewrite Hr. cbn. split_and!; try done.
Qed.

Lemma upsert_other p q org db s : q ≠ p → refines db p s → refines (upsert_state q org db) p s.
Proof.
  intros Hne H. unfold upsert_state. destruct (states db !! q); [done|].
  eapply frame; [exact H|apply (rf_ends _ _ _ H)|done|apply kept_refl|]. cbn. by apply lookup_insert_ne.
Qed.

(** *** Closing *)

Definition close_open (p : string * string) (now : Z) (r : EndReason) (e : Episode) : Episode :=
  if open_of p e then close now r e else e.

Lemma pair_close p now r e : pair_of (close_open p now r e) = pair_of e.
Proof. unfold close_open. by destruct (open_of p e). Qed.

Lemma close_run_ended now r rs : Forall ended rs → close_run now r <$> rs = rs.
Proof. induction 1 as [|[t x] rs [y Hx] _ IH]; [done|]. cbn in *. by rewrite Hx, IH. Qed.

Lemma end_run_map now r rs : Forall ended (tail rs) → close_run now r <$> rs = end_run now r rs.
Proof. destruct rs as [|x rs]; [done|]. cbn. intros H. by rewrite close_run_ended. Qed.

Lemma tail_end now r rs : tail (end_run now r rs) = tail rs.
Proof. by destruct rs. Qed.

Lemma close_ends p now r es : ends_ok es → ends_ok (close_open p now r <$> es).
Proof.
  intros H k e. rewrite lookup_fmap. intros (e0 & He0 & ->)%fmap_Some. unfold close_open.
  destruct (open_of p e0); [done|by eapply H].
Qed.

Lemma views_close p now r es : ends_ok es → views p (close_open p now r <$> es) = close_run now r <$> views p es.
Proof.
  intros He. apply views_fmap; [intros; apply pair_close|]. intros k e Hk Hp. unfold close_open, open_of.
  rewrite bool_decide_eq_true_2 by done. cbn. unfold is_open. apply He in Hk as Hke.
  unfold view. destruct (ep_endedAt e) as [t|] eqn:Et; cbn.
  - destruct (ep_endReason e) eqn:Er; [by rewrite ?Et, ?Er|]. destruct Hke as [_ Hke]. by specialize (Hke eq_refl).
  - done.
Qed.

Lemma close_other p q now r db s :
  q ≠ p → refines db p s → refines (on_episodes (fmap (close_open q now r)) db) p s.
Proof.
  intros Hne H. eapply frame; [exact H| | | |done]; cbn.
  - apply close_ends, (rf_ends _ _ _ H).
  - rewrite views_same; [done|intros; apply pair_close|]. intros k e _ Hp. unfold close_open, open_of.
    by rewrite bool_decide_eq_false_2 by congruence.
  - intros k e He [Hp Ho]%open_of_spec. exists e. split; [|by apply open_of_spec]. rewrite lookup_fmap, He. cbn.
    unfold close_open, open_of. by rewrite bool_decide_eq_false_2 by congruence.
Qed.

(** Closing the episode that is followed closes the open episodes of its pair. *)
Lemma alter_close db p s k now r :
  refines db p s → (∃ e, episodes db !! k = Some e ∧ pair_of e = p ∧ is_open e = true) →
  alter (λ e, if is_open e then close now r e else e) k (episodes db) = close_open p now r <$> episodes db.
Proof.
  intros H (e & He & Hp & Ho). apply map_eq. intros k'. rewrite lookup_fmap. destruct (decide (k = k')) as [<-|Hne].
  - rewrite lookup_alter_eq, He. cbn. unfold close_open, open_of. by rewrite bool_decide_eq_true_2, Ho.
  - rewrite lookup_alter_ne by done. destruct (episodes db !! k') as [e'|] eqn:Ek; [|done]. cbn. f_equal. unfold close_open.
    destruct (open_of p e') eqn:Eo; [|done]. exfalso. apply Hne. eapply one_open; eauto. by apply open_of_spec.
Qed.

(** *** Opening *)

Lemma not_running_ended rs : is_running rs = false → Forall ended (tail rs) → Forall ended rs.
Proof. destruct rs as [|[t [x|]] rs]; [done| |done]. intros _ H. constructor; [by eexists|done]. Qed.

Lemma tail_begin now rs : Forall ended (tail rs) → Forall ended (tail (begin_run now rs)).
Proof. unfold begin_run. destruct (is_running rs) eqn:E; [done|]. intros. by apply not_running_ended. Qed.

(** The tables after an episode was opened or adopted for the pair. *)
Record opened_for (db db' : Db) (p : string * string) (s : Spec) (newId id : string) (now : Z) : Prop := mkOpened {
  of_states : states db' = states db;
  of_ends : ends_ok (episodes db');
  of_views : views p (episodes db') ≡ₚ begin_run now (sp_runs s);
  of_open : ∃ e, episodes db' !! id = Some e ∧ pair_of e = p ∧ is_open e = true;
  of_kept : kept p (episodes db) (episodes db');
  of_others : ∀ q t, q ≠ p → refines db q t → refines db' q t;
  of_dom : ∀ k, is_Some (episodes db' !! k) → k = newId ∨ is_Some (episodes db !! k) }.

Lemma insert_new_kept q es k e : es !! k = None → kept q es (<[k := e]> es).
Proof. intros Hk k' e' He' Ho. exists e'. split; [|done]. by rewrite lookup_insert_ne by congruence. Qed.

Lemma insert_or_adopt_ok p org newId now msg db s :
  refines db p s → episodes db !! newId = None →
  ∃ id db', insert_or_adopt p org newId now msg db = Ok ((id, negb (is_running (sp_runs s))), db')
            ∧ opened_for db db' p s newId id now.
Proof.
  intros H Hnew. unfold insert_or_adopt, bind, insert_episode, begin_run. rewrite (running_open _ _ _ H).
  destruct (open_episode p db) as [k|] eqn:E.
  - exists k, db. unfold query. rewrite E. split; [done|]. apply open_episode_Some in E as (e & He & [Hp Ho]%open_of_spec).
    assert (begin_run now (sp_runs s) = sp_runs s) as Hb.
    { unfold begin_run. rewrite (running_open _ _ _ H). rewrite bool_decide_eq_true_2; [done|].
      destruct (open_episode p db) eqn:E'; [eauto|]. eapply open_episode_None in E'; [|exact He].
      exfalso. unfold open_of in E'. by rewrite bool_decide_eq_true_2, Ho in E' by done. }
    split; [done|apply (rf_ends _ _ _ H)|rewrite Hb; apply (rf_views _ _ _ H)|eauto|apply kept_refl|done|eauto].
  - rewrite Hnew. set (e := mkEpisode p.1 p.2 org now None None None None None).
    exists newId, (on_episodes <[newId := e]> db). split; [done|].
    assert (pair_of e = p) as Hpe by (by destruct p).
    assert (ends_ok (<[newId := e]> (episodes db))) as Hends.
    { intros k e' [[<- <-]|[_ Hk]]%lookup_insert_Some; [done|by eapply (rf_ends _ _ _ H)]. }
    split; cbn; [done|done| |exists e; rewrite lookup_insert_eq; done|by apply insert_new_kept| |].
    + rewrite (views_insert_new p _ _ e Hnew), bool_decide_eq_true_2 by done.
      unfold begin_run. rewrite (running_open _ _ _ H), E. cbn. by rewrite (rf_views _ _ _ H).
    + intros q t Hne Hq. eapply frame; [exact Hq|done| |by apply insert_new_kept|done]. cbn.
      rewrite (views_insert_new q _ _ e Hnew). by rewrite bool_decide_eq_false_2 by congruence.
    + intros k [e' [[-> _]|[_ Hk]]%lookup_insert_Some]; [by left|right; eauto].
Qed.

Lemma opened_refines db db' p s newId id now s' :
  refines db p s → opened_for db db' p s newId id now → sp_runs s' = begin_run now (sp_runs s) →
  row_matches p s' (episodes db') (states db' !! p) → refines db' p s'.
Proof.
  intros H Ho Hr Hrow. split; [apply (of_ends _ _ _ _ _ _ _ Ho)| | |done]; rewrite Hr.
  - apply (of_views _ _ _ _ _ _ _ Ho).
  - apply tail_begin, (rf_closed _ _ _ H).
Qed.

(** Episodes started since a time, as runs. *)
Lemma started_since_runs p since db rs :
  views p (episodes db) ≡ₚ rs → length (started_since p since db) = runs_since since rs.
Proof.
  intros H. unfold started_since, runs_since. apply Permutation_length. rewrite <- H. unfold views.
  by rewrite <- list_fmap_compose.
Qed.

(** *** The observation *)

(** What the answer says of the new state. *)
Definition answer_matches (r : RecordEvaluationResult) (x : Spec * bool) : Prop :=
  r_latched r = x.2 ∧ r_responsesPaused r = l_paused (sp_latch x.1)
  ∧ bool_decide (is_Some (r_episodeId r)) = sp_followed x.1.

Lemma observe_known m org o now s : spec_observe m org o now (known s org) = spec_observe m org o now s.
Proof. unfold spec_observe, known. destruct (sp_org s); cbn; done. Qed.

Section observe.
Context (m : Monitor) (d org newId : string) (now : Z) (db : Db) (s : Spec) (row : DeviceState).
Let p := (m_id m, d).
Context (H : refines db p s) (Hrow : states db !! p = Some row) (Horg : is_Some (sp_org s)).

Lemma row_facts :
  sp_followed s = bool_decide (is_Some (ds_currentEpisodeId row))
  ∧ sp_latch s = mkLatch (bool_decide (is_Some (ds_escalatedAt row))) (ds_responsesPaused row) (ds_resetAt row)
  ∧ sp_org s = Some (ds_orgId row)
  ∧ ∀ k, ds_currentEpisodeId row = Some k → ∃ e, episodes db !! k = Some e ∧ pair_of e = p ∧ is_open e = true.
Proof. pose proof (rf_row _ _ _ H) as Hr. by rewrite Hrow in Hr. Qed.

Lemma known_self : known_org (sp_org s) org = Some (ds_orgId row).
Proof. destruct row_facts as (_ & _ & -> & _). done. Qed.

(** An observation that only notes itself. *)
Lemma noted o : refines (on_state p (observed o now) db) p (mkSpec (sp_runs s) (sp_followed s) (sp_latch s) (Some (ds_orgId row))).
Proof. eapply on_state_same; [exact H|exact Hrow|done|]. destruct row_facts as (H1 & H2 & H3 & H4). cbn. done. Qed.

Lemma recovered_ok :
  let es := match ds_currentEpisodeId row with
            | Some id => alter (λ e, if is_open e then close now recovered e else e) id (episodes db)
            | None => episodes db
            end in
  let db' := on_state p (λ x, observed ok now (with_current None x)) (mkDb es (states db)) in
  refines db' p (spec_observe m org ok now s).1 ∧ (∀ q t, q ≠ p → refines db q t → refines db' q t)
  ∧ dom es = dom (episodes db).
Proof.
  destruct row_facts as (H1 & H2 & H3 & H4). destruct (ds_currentEpisodeId row) as [k|] eqn:Ek; cbn zeta.
  - rewrite (alter_close _ _ _ k now recovered H) by eauto. rewrite bool_decide_eq_true_2 in H1 by eauto.
    split_and!; [|intros q t Hne Hq; apply on_state_other; [done|]; by apply (close_other q p now recovered db)|by rewrite dom_fmap_L].
    cbn [spec_observe fst]. rewrite H1, known_self. split; cbn [episodes states on_state sp_runs].
    + apply close_ends, (rf_ends _ _ _ H).
    + rewrite (views_close p) by apply (rf_ends _ _ _ H). rewrite (rf_views _ _ _ H).
      by rewrite end_run_map by apply (rf_closed _ _ _ H).
    + rewrite tail_end. apply (rf_closed _ _ _ H).
    + rewrite lookup_alter_eq, Hrow. cbn. split_and!; done.
  - rewrite bool_decide_eq_false_2 in H1 by (by intros []).
    split_and!; [|intros q t Hne Hq; apply on_state_other; [done|]; by destruct db|done].
    cbn [spec_observe fst]. rewrite H1, known_self. destruct db as [es ss]. eapply on_state_same; [exact H|exact Hrow|done|].
    cbn. split_and!; done.
Qed.

Lemma opening_ok :
  episodes db !! newId = None → ds_currentEpisodeId row = None →
  ∃ r db', open_or_adopt m d org newId now row db = Ok (r, db')
    ∧ refines db' p (spec_observe m org breach now s).1 ∧ (∀ q t, q ≠ p → refines db q t → refines db' q t)
    ∧ answer_matches r (spec_observe m org breach now s)
    ∧ ∀ k, is_Some (episodes db' !! k) → k = newId ∨ is_Some (episodes db !! k).
Proof.
  intros Hnew Hc. destruct row_facts as (H1 & H2 & H3 & H4). rewrite Hc, bool_decide_eq_false_2 in H1 by (by intros []).
  destruct (insert_or_adopt_ok p org newId now "Admitted breach has no open episode" db s H Hnew) as (id & db1 & Hi & Ho).
  unfold open_or_adopt. unfold bind at 1. fold p. rewrite Hi. cbn [fst snd]. unfold bind at 1, query. unfold bind at 1, modify, ret.
  set (rows := match counter m with Some (_, h) => _ | None => [] end).
  assert (latches m now (begin_run now (sp_runs s)) (sp_latch s)
          = match counter m with
            | Some (n, _) => negb (bool_decide (is_Some (ds_escalatedAt row))) && (n <=? Z.of_nat (length rows))
            | None => false end) as Hl.
  { unfold latches, rows. destruct (counter m) as [[n h]|]; [|done]. rewrite H2. cbn.
    by rewrite (started_since_runs p _ db1 _ (of_views _ _ _ _ _ _ _ Ho)). }
  rewrite <- Hl. set (l := latches _ _ _ _) in *. eexists _, _. split; [reflexivity|].
  cbn [spec_observe fst snd]. rewrite H1. fold l. rewrite known_self. split_and!.
  - destruct (of_open _ _ _ _ _ _ _ Ho) as (e & He & Hp & Hop).
    assert (refines db1 p (mkSpec (begin_run now (sp_runs s)) false (sp_latch s) (sp_org s))) as H1db.
    { eapply opened_refines; [exact H|exact Ho|done|]. rewrite (of_states _ _ _ _ _ _ _ Ho), Hrow. cbn.
      rewrite Hc, bool_decide_eq_false_2 by (by intros []). split_and!; try done. }
    eapply on_state_same; [exact H1db|by rewrite (of_states _ _ _ _ _ _ _ Ho)|done|]. cbn.
    split_and!; [by destruct l| |by destruct l|destruct l; cbn; intros k [= <-]; eauto].
    rewrite H2. by destruct l.
  - intros q t Hne Hq. apply on_state_other; [done|]. by eapply (of_others _ _ _ _ _ _ _ Ho).
  - unfold answer_matches. cbn. rewrite H2. by destruct l.
  - apply (of_dom _ _ _ _ _ _ _ Ho).
Qed.
End observe.

Definition dom_grows (newId : string) (db db' : Db) : Prop :=
  ∀ k, is_Some (episodes db' !! k) → k = newId ∨ is_Some (episodes db !! k).

(** An observation never throws, moves every pair as promised, and says so. *)
Lemma observe_ok m d org o newId now db (σ : string * string → Spec) :
  (∀ q, refines db q (σ q)) → episodes db !! newId = None →
  ∃ r db', recordMonitorEvaluation m d org o newId now db = Ok (r, db')
    ∧ (∀ q, refines db' q (spec_op q (σ q) (op_observe m d org o newId now)))
    ∧ answer_matches r (spec_observe m org o now (σ (m_id m, d))) ∧ dom_grows newId db db'.
Proof.
  intros Hall Hnew. set (p := (m_id m, d)).
  destruct (upsert_same p org db (σ p) (Hall p)) as (H1 & [row Hrow] & Hes).
  set (db1 := upsert_state p org db) in *.
  assert (∀ q, q ≠ p → refines db1 q (σ q)) as Hoth by (intros q Hq; by apply upsert_other).
  assert (∀ db', refines db' p (spec_observe m org o now (known (σ p) org)).1 →
                 (∀ q t, q ≠ p → refines db1 q t → refines db' q t) →
                 ∀ q, refines db' q (spec_op q (σ q) (op_observe m d org o newId now))) as Hfin.
  { intros db' Hp Hq q. rewrite observe_known in Hp. cbn [spec_op]. destruct (decide (p = q)) as [<-|Hne].
    - by rewrite bool_decide_eq_true_2.
    - rewrite bool_decide_eq_false_2 by done. eauto. }
  rewrite <- (observe_known m org o now (σ p)).
  unfold recordMonitorEvaluation. unfold bind at 1, modify at 1. fold p db1. unfold bind at 1, query at 1. rewrite Hrow. cbn [default from_option id].
  destruct (row_facts m d db1 _ row H1 Hrow) as (F1 & F2 & F3 & F4). pose proof (known_self m d org db1 _ row H1 Hrow) as Hks.
  destruct o; [destruct (ds_currentEpisodeId row) as [k|] eqn:Ek|..].
  - eexists _, _. split; [reflexivity|]. rewrite bool_decide_eq_true_2 in F1 by eauto. split_and!.
    + apply Hfin; [|intros q t ? ?; by apply on_state_other]. cbn [spec_observe]. rewrite F1, Hks. cbn [fst].
      pose proof (noted m d now db1 _ row H1 Hrow breach) as Hn. by rewrite F1 in Hn.
    + unfold answer_matches. cbn [spec_observe]. rewrite F1. cbn in F2 |- *. by rewrite F2.
    + intros k'. cbn. rewrite Hes. eauto.
  - destruct (opening_ok m d org newId now db1 _ row H1 Hrow) as (r & db' & -> & Hp & Ho & Ha & Hd); [by rewrite Hes|done|].
    eexists r, db'. split; [done|]. split_and!; [by apply Hfin|done|]. intros k. rewrite <- Hes. apply Hd.
  - destruct (recovered_ok m d org now db1 _ row H1 Hrow) as (Hp & Ho & Hd). eexists _, _. split; [reflexivity|]. split_and!.
    + by apply Hfin.
    + unfold answer_matches. cbn in F2 |- *. by rewrite F2.
    + intros k. cbn [on_state on_episodes episodes]. rewrite <- !elem_of_dom. rewrite Hd, Hes. eauto.
  - eexists _, _. split; [reflexivity|]. split_and!.
    + apply Hfin; [|intros q t ? ?; by apply on_state_other]. cbn [spec_observe]. rewrite Hks. cbn [fst].
      exact (noted m d now db1 _ row H1 Hrow unknown).
    + unfold answer_matches. cbn in F1, F2 |- *. by rewrite F1, F2.
    + intros k'. cbn. rewrite Hes. eauto.
Qed.

Lemma allocate_ok m d org newId now db (σ : string * string → Spec) :
  (∀ q, refines db q (σ q)) → episodes db !! newId = None →
  ∃ r db', allocateSubjectEpisode m d org newId now db = Ok (r, db')
    ∧ (∀ q, refines db' q (spec_op q (σ q) (op_allocate m d org newId now))) ∧ dom_grows newId db db'.
Proof.
  intros Hall Hnew. set (p := (m_id m, d)).
  destruct (upsert_same p org db (σ p) (Hall p)) as (H1 & [row Hrow] & Hes). set (db1 := upsert_state p org db) in *.
  destruct (insert_or_adopt_ok p org newId now "Subject episode allocation lost its open episode" db1 _ H1)
    as (id & db' & Hi & Ho); [by rewrite Hes|].
  unfold allocateSubjectEpisode. unfold bind at 1, modify at 1. fold p db1. unfold bind at 1. rewrite Hi.
  eexists _, db'. split; [reflexivity|]. split; [|intros k; rewrite <- Hes; apply (of_dom _ _ _ _ _ _ _ Ho)].
  intros q. cbn [spec_op]. destruct (decide (p = q)) as [<-|Hne].
  - rewrite bool_decide_eq_true_2 by done. eapply opened_refines; [exact H1|exact Ho|done|].
    rewrite (of_states _ _ _ _ _ _ _ Ho), Hrow. eapply row_kept; [apply (of_kept _ _ _ _ _ _ _ Ho)|].
    destruct (row_facts m d db1 _ row H1 Hrow) as (F1 & F2 & F3 & F4). done.
  - rewrite bool_decide_eq_false_2 by done. eapply (of_others _ _ _ _ _ _ _ Ho); [done|]. by apply upsert_other.
Qed.

Lemma detach_ok m d now db p s :
  refines db p s → refines (detachMonitorFromDevice m d now db) p (spec_op p s (op_detach m d now)).
Proof.
  intros H. unfold detachMonitorFromDevice. cbn [spec_op]. change (λ e, if open_of (m, d) e then _ else e) with (close_open (m, d) now monitor_detached).
  destruct (decide ((m, d) = p)) as [<-|Hne].
  - rewrite bool_decide_eq_true_2 by done. cbn [andb]. rewrite (running_open _ _ _ H).
    set (p := (m, d)) in *. destruct (open_episode p db) as [k|] eqn:E.
    + rewrite bool_decide_eq_true_2 by eauto. split; cbn [on_state on_episodes episodes states sp_runs].
      * apply close_ends, (rf_ends _ _ _ H).
      * rewrite (views_close p) by apply (rf_ends _ _ _ H). rewrite (rf_views _ _ _ H).
        by rewrite end_run_map by apply (rf_closed _ _ _ H).
      * rewrite tail_end. apply (rf_closed _ _ _ H).
      * rewrite lookup_alter_eq. pose proof (rf_row _ _ _ H) as Hr. destruct (states db !! p) as [row|]; cbn.
        -- destruct Hr as (F1 & F2 & F3 & F4). split_and!; done.
        -- unfold row_matches in Hr. by rewrite Hr.
    + rewrite bool_decide_eq_false_2 by (by intros []). replace (on_episodes _ db) with db; [done|].
      destruct db as [es ss]. unfold on_episodes. cbn. f_equal. symmetry. apply map_eq. intros k. rewrite lookup_fmap.
      destruct (es !! k) as [e|] eqn:Ek; [|done]. cbn. f_equal. unfold close_open.
      by rewrite (open_episode_None p (mkDb es ss) k e E Ek).
  - rewrite bool_decide_eq_false_2 by done. cbn [andb].
    destruct (open_episode (m, d) db); [apply on_state_other; [done|]|]; by apply close_other.
Qed.

(** *** Writes that move no run *)

Lemma link_ok e a db p s : refines db p s → refines (linkEpisodeAlert e a db).2 p s.
Proof.
  intros H. unfold linkEpisodeAlert. destruct (episodes db !! e) as [x|] eqn:Ex; [|done]. case_bool_decide; [|done]. cbn.
  assert (∀ q, pair_of (set_alert (Some a) x) = q ↔ pair_of x = q) as Hp by done.
  eapply frame; [exact H| | | |done]; cbn.
  - intros k y [[<- <-]|[_ Hk]]%lookup_insert_Some; [exact (rf_ends _ _ _ H e x Ex)|exact (rf_ends _ _ _ H k y Hk)].
  - rewrite <- insert_delete_eq, (views_insert_new p) by apply lookup_delete_eq. by rewrite <- (views_delete p (episodes db) e x Ex).
  - intros k y Hk Ho. destruct (decide (e = k)) as [<-|]; [|exists y; by rewrite lookup_insert_ne].
    rewrite lookup_insert_eq. eexists. split; [done|]. by replace y with x in Ho by congruence.
Qed.

Lemma response_ok m d run o db p s : refines db p s → refines (recordEpisodeResponse m d run o db) p s.
Proof.
  intros H. unfold recordEpisodeResponse.
  match goal with |- context [fmap ?g] => set (f := g) end.
  assert (∀ e, pair_of (f e) = pair_of e ∧ view (f e) = view e ∧ open_of p (f e) = open_of p e
               ∧ ep_endedAt (f e) = ep_endedAt e ∧ ep_endReason (f e) = ep_endReason e) as Hf.
  { intros e. unfold f. by destruct (_ && _). }
  eapply frame; [exact H| | | |done]; cbn.
  - intros k e. rewrite lookup_fmap. intros (e0 & He0 & ->)%fmap_Some. destruct (Hf e0) as (_ & _ & _ & -> & ->).
    by eapply (rf_ends _ _ _ H).
  - rewrite views_same; [done|intros; apply Hf|intros; apply Hf].
  - intros k e He Ho. exists (f e). rewrite lookup_fmap, He. split; [done|]. by destruct (Hf e) as (_ & _ & -> & _).
Qed.

Lemma reset_ok m d u visible now db p s :
  refines db p s → refines (resetMonitorEscalation m d u visible now db).2 p (spec_op p s (op_reset m d u visible now)).
Proof.
  intros H. unfold resetMonitorEscalation. cbn [spec_op]. destruct (decide ((m, d) = p)) as [<-|Hne].
  - rewrite bool_decide_eq_true_2 by done. cbn [andb]. pose proof (rf_row _ _ _ H) as Hr.
    destruct (states db !! (m, d)) as [row|] eqn:Er; [|assert (l_escalated (sp_latch s) = false) as -> by (by rewrite Hr); done].
    destruct Hr as (F1 & F2 & F3 & F4). rewrite F2, F3. cbn [l_escalated from_option].
    destruct (bool_decide _ && visible _); [|done]. eapply on_state_same; [exact H|exact Er|done|]. cbn. split_and!; done.
  - rewrite bool_decide_eq_false_2 by done. cbn [andb].
    destruct (states db !! (m, d)) as [row|]; [|done]. destruct (_ && _); [|done]. by apply on_state_other.
Qed.

Lemma fire_ok m d a db p s : refines db p s → refines (fireEscalationLatch m d a db) p s.
Proof.
  intros H. unfold fireEscalationLatch. destruct a as [a|]; [|done]. destruct (decide ((m, d) = p)) as [<-|]; [|by apply on_state_other].
  destruct (states db !! (m, d)) as [row|] eqn:Er.
  - eapply on_state_same; [exact H|exact Er|done|]. pose proof (rf_row _ _ _ H) as Hr. by rewrite Er in Hr.
  - eapply frame; [exact H|apply (rf_ends _ _ _ H)|done|apply kept_refl|]. cbn. by rewrite lookup_alter_eq, Er.
Qed.

Lemma alter_absent {A} (f : A → A) (m : gmap string A) k : m !! k = None → alter f k m = m.
Proof.
  intros Hk. apply map_eq. intros j. destruct (decide (k = j)) as [<-|Hne]; [by rewrite lookup_alter_eq, Hk|by rewrite lookup_alter_ne].
Qed.

Lemma stamp_ok m d a db p s : refines db p s → refines (stampEscalation m d a db) p s.
Proof.
  intros H. unfold stampEscalation. destruct (_ ≫= _); [|done]. apply (fire_ok m d (Some a) db p s H).
Qed.

Lemma row_matches_unstamped p s es a r : row_matches p s es r → row_matches p s es (unstamp a <$> r).
Proof. destruct r as [d|]; [|done]. cbn [fmap option_fmap option_map]. unfold unstamp. case_bool_decide; intros Hr; exact Hr. Qed.

Lemma take_back_ok a e db p s : refines db p s → refines (takeBackAlert a e db) p s.
Proof.
  intros H.
  assert (refines (mkDb (match e with Some k => alter (unlink a) k (episodes db) | None => episodes db end) (states db)) p s) as [H1 H2 H3 H4].
  { destruct e as [k|]; [|by destruct db].
    assert (Hu : ∀ x, pair_of (unlink a x) = pair_of x ∧ view (unlink a x) = view x ∧ open_of p (unlink a x) = open_of p x
                      ∧ ep_endedAt (unlink a x) = ep_endedAt x ∧ ep_endReason (unlink a x) = ep_endReason x)
      by (intros x; unfold unlink; by case_bool_decide).
    eapply frame; [exact H| | | |done]; cbn [episodes].
    - intros j x Hj. destruct (decide (k = j)) as [<-|Hne].
      + rewrite lookup_alter_eq in Hj. apply fmap_Some in Hj as (y & Hy & ->). destruct (Hu y) as (_ & _ & _ & -> & ->). by apply (rf_ends _ _ _ H k).
      + rewrite lookup_alter_ne in Hj by done. by apply (rf_ends _ _ _ H j).
    - destruct (episodes db !! k) as [y|] eqn:Ey; [|by rewrite alter_absent].
      rewrite (views_delete p (episodes db) k y Ey).
      assert (alter (unlink a) k (episodes db) = <[k := unlink a y]> (delete k (episodes db))) as ->.
      { apply map_eq. intros j. destruct (decide (k = j)) as [<-|Hne].
        - by rewrite lookup_alter_eq, Ey, lookup_insert_eq.
        - by rewrite lookup_alter_ne, lookup_insert_ne, lookup_delete_ne by done. }
      rewrite views_insert_new by apply lookup_delete_eq. destruct (Hu y) as (-> & -> & _). done.
    - intros j x Hj Ho. destruct (decide (k = j)) as [<-|Hne].
      + exists (unlink a x). rewrite lookup_alter_eq, Hj. destruct (Hu x) as (_ & _ & -> & _). done.
      + exists x. by rewrite lookup_alter_ne. }
  split; [done..|]. cbn [takeBackAlert episodes states] in *. rewrite lookup_fmap. by apply row_matches_unstamped.
Qed.

(** ** Every sequence of operations *)

Definition implements (db : Db) (σ : string * string → Spec) : Prop := ∀ p, refines db p (σ p).

Lemma op_ok op db σ :
  implements db σ → (∀ k, k ∈ ids_of op → episodes db !! k = None) →
  implements (apply_op db op) (λ p, spec_op p (σ p) op)
  ∧ ∀ k, is_Some (episodes (apply_op db op) !! k) → k ∈ ids_of op ∨ is_Some (episodes db !! k).
Proof.
  intros H Hfresh. destruct op as [m d org o id now|m d org id now|m d now|e a|m d run o|m d u vis now|m d a|m d a|a e]; cbn [apply_op ids_of] in *.
  - destruct (observe_ok m d org o id now db σ H) as (r & db' & Hr & Hi & _ & Hd); [apply Hfresh; left|].
    unfold run_tx. rewrite Hr. split; [done|]. intros k [->|]%Hd; [left; left|by right].
  - destruct (allocate_ok m d org id now db σ H) as (r & db' & Hr & Hi & Hd); [apply Hfresh; left|].
    unfold run_tx. rewrite Hr. split; [done|]. intros k [->|]%Hd; [left; left|by right].
  - split; [intros p; by apply detach_ok|]. intros k Hk. right. unfold detachMonitorFromDevice in Hk.
    destruct (open_episode _ _); cbn in Hk; by rewrite <- elem_of_dom, dom_fmap, elem_of_dom in Hk.
  - split; [intros p; by apply link_ok|]. intros k Hk. right. unfold linkEpisodeAlert in Hk.
    destruct (episodes db !! e) as [x|] eqn:Ex; [|done]. case_bool_decide; [|done]. cbn in Hk.
    destruct Hk as [y [[<- _]|[_ Hy]]%lookup_insert_Some]; eauto.
  - split; [intros p; by apply response_ok|]. intros k Hk. right. cbn in Hk. by rewrite <- elem_of_dom, dom_fmap, elem_of_dom in Hk.
  - split; [intros p; by apply reset_ok|]. intros k Hk. right. unfold resetMonitorEscalation in Hk.
    destruct (states db !! _); [|done]. by destruct (_ && _).
  - split; [intros p; by apply fire_ok|]. intros k Hk. right. by destruct a.
  - split; [intros p; by apply stamp_ok|]. intros k Hk. right. unfold stampEscalation in Hk. by destruct (_ ≫= _).
  - split; [intros p; by apply take_back_ok|]. intros k Hk. right. destruct e as [e|]; [|done]. cbn in Hk.
    rewrite <- elem_of_dom, dom_alter, elem_of_dom in Hk. done.
Qed.

Lemma run_ok ops :
  NoDup (new_ids ops) →
  implements (run_ops ops) (λ p, spec_run p ops) ∧ ∀ k, is_Some (episodes (run_ops ops) !! k) → k ∈ new_ids ops.
Proof.
  unfold run_ops, spec_run. induction ops as [|op ops IH] using rev_ind; intros Hnd.
  - split; [intros p|intros k [x Hx]; cbn in Hx; by rewrite lookup_empty in Hx].
    split; cbn; [by intros k e; rewrite lookup_empty|unfold views; by rewrite map_to_list_empty|done|by rewrite lookup_empty].
  - unfold new_ids in *. rewrite bind_app in *. cbn [mbind list_bind] in *. rewrite app_nil_r in *.
    apply NoDup_app in Hnd as (Hnd & Hdis & _). destruct (IH Hnd) as [Hi Hd]. rewrite foldl_snoc.
    destruct (op_ok op (foldl apply_op (mkDb ∅ ∅) ops) (λ p, foldl (spec_op p) spec_init ops) Hi) as [Hi' Hd'].
    { intros k Hk. destruct (episodes _ !! k) eqn:E; [|done]. exfalso. eapply Hdis; [apply Hd; eauto|done]. }
    split; [intros p; rewrite foldl_snoc; apply Hi'|]. intros k [?|?]%Hd'; apply elem_of_app; eauto.
Qed.


(** A disk monitor: breach, unknown, breach, recovery, breach again. *)
Definition ex_monitor : Monitor := mkMonitor "m" (Some 2) (Some 24) true.
Definition ex_ops : list Op :=
  [op_observe ex_monitor "d" "o" breach "e1" 1000; op_observe ex_monitor "d" "o" unknown "e2" 2000;
   op_observe ex_monitor "d" "o" breach "e3" 3000; op_observe ex_monitor "d" "o" ok "e4" 4000].


Example ex_runs : sp_runs (spec_run ("m", "d") ex_ops) = [(1000, Some (4000, recovered))].
Proof. reflexivity. Qed.

(** ** The latch *)

Lemma spec_app p ops ops' : spec_run p (ops ++ ops') = foldl (spec_op p) (spec_run p ops) ops'.
Proof. apply foldl_app. Qed.

Lemma observe_latch m org o now s :
  (spec_observe m org o now s).2 = true → l_escalated (sp_latch s) = false ∧ l_escalated (sp_latch (spec_observe m org o now s).1) = true.
Proof.
  unfold spec_observe, latches. destruct o; try done. destruct (sp_followed s); [done|]. cbn.
  destruct (counter m) as [[n h]|]; [|done]. destruct (l_escalated (sp_latch s)); [done|]. cbn. by intros ->.
Qed.

(** The latch opens only by a reset; only a reset moves its time. *)
Lemma latch_op p s op :
  (∃ u vis t, op = op_reset p.1 p.2 u vis t ∧ l_escalated (sp_latch s) = true ∧ from_option vis false (sp_org s) = true
              ∧ sp_latch (spec_op p s op) = mkLatch false false (Some t))
  ∨ l_reset (sp_latch (spec_op p s op)) = l_reset (sp_latch s)
    ∧ (l_escalated (sp_latch s) = true → l_escalated (sp_latch (spec_op p s op)) = true).
Proof.
  destruct op as [m d org o id now|m d org id now|m d now|e a|m d run o|m d u vis now|m d a|m d a|a e]; cbn [spec_op]; try (right; done).
  - right. case_bool_decide; [|done]. unfold spec_observe. destruct o; [|done|done]. destruct (sp_followed s); [done|].
    cbn. destruct (latches _ _ _ _); done.
  - right. by case_bool_decide.
  - right. by destruct (_ && _).
  - destruct (bool_decide ((m, d) = p)) eqn:E; [|by right]. apply bool_decide_eq_true in E as <-. cbn [andb].
    destruct (l_escalated (sp_latch s)) eqn:El; [|by right]. cbn [andb].
    destruct (from_option vis false (sp_org s)) eqn:Ev; [|right; by rewrite El]. left. eauto 10.
Qed.

Lemma last_reset p s mid :
  l_escalated (sp_latch s) = true → l_escalated (sp_latch (foldl (spec_op p) s mid)) = false →
  ∃ m1 u vis t m2, mid = m1 ++ op_reset p.1 p.2 u vis t :: m2
    ∧ l_escalated (sp_latch (foldl (spec_op p) s m1)) = true
    ∧ from_option vis false (sp_org (foldl (spec_op p) s m1)) = true
    ∧ l_reset (sp_latch (foldl (spec_op p) s mid)) = Some t.
Proof.
  intros Hs. induction mid as [|z mid IH] using rev_ind; [cbn; congruence|]. rewrite foldl_snoc. intros Hf.
  destruct (latch_op p (foldl (spec_op p) s mid) z) as [(u & vis & t & -> & He & Hv & Hl)|[Hr Hk]].
  - exists mid, u, vis, t, []. rewrite Hl. done.
  - destruct (l_escalated (sp_latch (foldl (spec_op p) s mid))) eqn:El; [by rewrite Hk in Hf|].
    destruct (IH eq_refl) as (m1 & u & vis & t & m2 & -> & H1 & H2 & H3).
    exists m1, u, vis, t, (m2 ++ [z]). rewrite <- (assoc_L (++)). split_and!; [done..|]. by rewrite Hr.
Qed.

(** The observation of the pair that escalates it. *)
Definition escalates (p : string * string) (db : Db) (op : Op) : Prop :=
  ∃ m d org o id now r db', op = op_observe m d org o id now ∧ (m_id m, d) = p
    ∧ recordMonitorEvaluation m d org o id now db = Ok (r, db') ∧ r_latched r = true.

Lemma new_ids_app a b : new_ids (a ++ b) = new_ids a ++ new_ids b.
Proof. apply bind_app. Qed.

Lemma escalates_spec p ops m d org o id now r db' :
  NoDup (new_ids (ops ++ [op_observe m d org o id now])) → (m_id m, d) = p →
  recordMonitorEvaluation m d org o id now (run_ops ops) = Ok (r, db') → r_latched r = true →
  (spec_observe m org o now (spec_run p ops)).2 = true
  ∧ spec_run p (ops ++ [op_observe m d org o id now]) = (spec_observe m org o now (spec_run p ops)).1
  ∧ refines db' p (spec_observe m org o now (spec_run p ops)).1.
Proof.
  intros Hnd <- Hr Hl. rewrite new_ids_app in Hnd. apply NoDup_app in Hnd as (Hnd & Hdis & _). destruct (run_ok ops Hnd) as [Hi Hd].
  destruct (observe_ok m d org o id now (run_ops ops) _ Hi) as (r' & db1 & Hr' & Hi' & (Ha & _) & _).
  { destruct (episodes _ !! id) eqn:E; [|done]. exfalso. eapply Hdis; [apply Hd; eauto|cbn; left]. }
  rewrite Hr in Hr'. injection Hr' as <- <-. specialize (Hi' (m_id m, d)). cbn [spec_op] in Hi'.
  rewrite bool_decide_eq_true_2 in Hi' by done. rewrite spec_app. cbn [foldl spec_op]. rewrite bool_decide_eq_true_2 by done.
  by rewrite <- Ha.
Qed.

Lemma runs_since_mono a b rs : a ≤ b → (runs_since b rs ≤ runs_since a rs)%nat.
Proof.
  intros Hab. unfold runs_since. induction rs as [|x rs IH]; [done|]. cbn [fmap list_fmap]. rewrite !filter_cons.
  repeat case_decide; cbn [length]; lia.
Qed.

Lemma cutoff_after_reset now h t : t ≤ cutoff now h (Some t).
Proof. unfold cutoff. destruct (Z.ltb_spec (now - h * 60 * 60 * 1000) t); lia. Qed.

(** Enough runs since the last reset when the pair escalates. *)
Lemma latched_count m org o now s t :
  (spec_observe m org o now s).2 = true → l_reset (sp_latch s) = Some t →
  ∃ n h, counter m = Some (n, h) ∧ n ≤ Z.of_nat (runs_since t (sp_runs (spec_observe m org o now s).1)).
Proof.
  unfold spec_observe, latches. destruct o; try done. destruct (sp_followed s); [done|]. cbn [fst snd sp_runs].
  destruct (counter m) as [[n h]|]; [|done]. intros [_ Hn%Z.leb_le]%andb_true_iff Hr. exists n, h. split; [done|].
  rewrite Hr in Hn. pose proof (runs_since_mono t _ (begin_run now (sp_runs s)) (cutoff_after_reset now h t)). lia.
Qed.

Lemma reset_answers p db s u vis t :
  refines db p s → l_escalated (sp_latch s) = true → from_option vis false (sp_org s) = true →
  (resetMonitorEscalation p.1 p.2 u vis t db).1 = true.
Proof.
  intros H He Hv. pose proof (rf_row _ _ _ H) as Hr. unfold resetMonitorEscalation. rewrite <- surjective_pairing.
  destruct (states db !! p) as [row|]; [|by rewrite Hr in He]. destruct Hr as (_ & F2 & F3 & _).
  rewrite F2 in He. rewrite F3 in Hv. cbn in He, Hv. by rewrite He, Hv.
Qed.

Lemma new_ids_prefix a b ops : ops = a ++ b → NoDup (new_ids ops) → NoDup (new_ids a).
Proof. intros ->. rewrite new_ids_app. by intros []%NoDup_app. Qed.

(** C17: a pair escalates once between resets.  If two observations of a monitor on a
    device both escalate it, a reset that answered lies between them, and at the second
    one at least as many episodes as the monitor's threshold have started at or after
    that reset. *)
Theorem escalates_once_between_resets p pre x mid y :
  NoDup (new_ids (pre ++ x :: mid ++ [y])) → escalates p (run_ops pre) x → escalates p (run_ops (pre ++ x :: mid)) y →
  ∃ m1 u vis t m2, mid = m1 ++ op_reset p.1 p.2 u vis t :: m2
    ∧ (resetMonitorEscalation p.1 p.2 u vis t (run_ops (pre ++ x :: m1))).1 = true
    ∧ ∃ m d org o id now n h, y = op_observe m d org o id now ∧ counter m = Some (n, h)
        ∧ n ≤ Z.of_nat (length (started_since p t (apply_op (run_ops (pre ++ x :: mid)) y))).
Proof.
  intros Hnd (m & d & org & o & id & now & r & db1 & -> & Hp & Hr & Hl) (m' & d' & org' & o' & id' & now' & r' & db2 & -> & Hp' & Hr' & Hl').
  assert (NoDup (new_ids (pre ++ [op_observe m d org o id now]))) as Hnd1.
  { eapply (new_ids_prefix _ (mid ++ [_])); [|exact Hnd]. by rewrite <- (assoc_L (++)). }
  destruct (escalates_spec _ _ _ _ _ _ _ _ _ _ Hnd1 Hp Hr Hl) as (Hx & Hsx & _). apply observe_latch in Hx as [_ Hx].
  assert (pre ++ op_observe m d org o id now :: mid = (pre ++ [op_observe m d org o id now]) ++ mid) as Hcat by (by rewrite <- (assoc_L (++))).
  rewrite app_comm_cons, (assoc_L (++)) in Hnd.
  destruct (escalates_spec _ _ _ _ _ _ _ _ _ _ Hnd Hp' Hr' Hl') as (Hy & _ & Href). apply observe_latch in Hy as [Hy0 _].
  rewrite Hcat, spec_app, Hsx in Hy0. destruct (last_reset p _ mid Hx Hy0) as (m1 & u & vis & t & m2 & -> & He & Hv & Ht).
  exists m1, u, vis, t, m2. split; [done|]. rewrite <- Hsx, <- spec_app, <- (assoc_L (++)) in He, Hv. cbn [app] in He, Hv. split.
  - eapply reset_answers; [|exact He|exact Hv]. apply run_ok.
    eapply (new_ids_prefix _ (op_reset p.1 p.2 u vis t :: m2 ++ [_])); [|exact Hnd]. by rewrite <- !(assoc_L (++)), <- !app_comm_cons, <- (assoc_L (++)).
  - destruct (latched_count m' org' o' now' (spec_run p (pre ++ op_observe m d org o id now :: m1 ++ op_reset p.1 p.2 u vis t :: m2)) t)
      as (n & h & Hc & Hn).
    { eapply escalates_spec; eauto. }
    { by rewrite Hcat, spec_app, Hsx. }
    exists m', d', org', o', id', now', n, h. split_and!; [done..|]. cbn [apply_op]. unfold run_tx. rewrite Hr'. cbn [snd].
    by rewrite (started_since_runs p t db2 _ (rf_views _ _ _ Href)).
Qed.

(** Two episodes escalate, a technician resets, two more escalate again. *)
Definition ex_at (o : Observation) (id : string) (t : Z) : Op := op_observe ex_monitor "d" "o" o id t.
Definition ex_pre : list Op := [ex_at breach "e1" 1000; ex_at ok "e2" 2000].
Definition ex_mid : list Op :=
  [ex_at ok "e4" 4000; op_reset "m" "d" (Some "tech") (λ _, true) 5000; ex_at breach "e5" 6000; ex_at ok "e6" 7000].

Lemma escalates_once_between_resets_witness :
  ∃ m1 u vis t m2, ex_mid = m1 ++ op_reset ("m", "d").1 ("m", "d").2 u vis t :: m2
    ∧ (resetMonitorEscalation ("m", "d").1 ("m", "d").2 u vis t (run_ops (ex_pre ++ ex_at breach "e3" 3000 :: m1))).1 = true
    ∧ ∃ m d org o id now n h, ex_at breach "e7" 8000 = op_observe m d org o id now ∧ counter m = Some (n, h)
        ∧ n ≤ Z.of_nat (length (started_since ("m", "d") t
                 (apply_op (run_ops (ex_pre ++ ex_at breach "e3" 3000 :: ex_mid)) (ex_at breach "e7" 8000)))).
Proof.
  apply (escalates_once_between_resets ("m", "d") ex_pre (ex_at breach "e3" 3000) ex_mid (ex_at breach "e7" 8000)).
  - apply (bool_decide_unpack _). vm_compute. exact I.
  - do 8 eexists. split_and!; [reflexivity|reflexivity|vm_compute; reflexivity|reflexivity].
  - do 8 eexists. split_and!; [reflexivity|reflexivity|vm_compute; reflexivity|reflexivity].
Defined.

(** ** A human is told *)

(** The pair is escalated and its alert has not been raised. *)
Definition untold (p : string * string) (db : Db) : Prop :=
  ∃ row, states db !! p = Some row ∧ is_Some (ds_escalatedAt row) ∧ ds_escalationAlertId row = None.

(** Operations that neither reset the pair nor raise its alert. *)
Definition leaves_untold (p : string * string) (op : Op) : Prop :=
  match op with
  | op_reset m d _ _ _ => (m, d) ≠ p
  | op_fire m d (Some _) | op_stamp m d _ => (m, d) ≠ p
  | _ => True
  end.

Lemma untold_state p f db : untold p db →
  (∀ row, states db !! p = Some row → ds_escalationAlertId (f row) = ds_escalationAlertId row
                                      ∧ (is_Some (ds_escalatedAt row) → is_Some (ds_escalatedAt (f row)))) →
  ∀ q, untold p (on_state q f db).
Proof.
  intros (row & Hr & He & Ha) Hf q. destruct (decide (q = p)) as [->|Hne].
  - destruct (Hf row Hr) as [H1 H2]. exists (f row). cbn. rewrite lookup_alter_eq, Hr, H1. auto.
  - exists row. cbn. by rewrite lookup_alter_ne.
Qed.

Lemma untold_same p db db' : states db' = states db → untold p db → untold p db'.
Proof. unfold untold. by intros ->. Qed.

Lemma untold_upsert p q org db : untold p db → untold p (upsert_state q org db).
Proof.
  intros (row & Hr & H). unfold upsert_state. destruct (states db !! q) eqn:E; [by exists row|].
  exists row. cbn. rewrite lookup_insert_ne by congruence. done.
Qed.

Lemma adopt_states p org id now msg db x db' : insert_or_adopt p org id now msg db = Ok (x, db') → states db' = states db.
Proof.
  unfold insert_or_adopt, bind, insert_episode, query, ret, throw.
  destruct (open_episode p db) as [k|] eqn:E; [rewrite E; by intros [= _ <-]|].
  destruct (episodes db !! id) eqn:Ei; [by rewrite E|]. by intros [= _ <-].
Qed.

Lemma untold_opening p m d org id now row db r db' :
  untold p db → open_or_adopt m d org id now row db = Ok (r, db') → untold p db'.
Proof.
  unfold open_or_adopt. intros Hu (x & db1 & Hi & H)%bind_Ok. apply adopt_states in Hi.
  unfold bind, query, modify, ret in H. injection H as _ <-. apply untold_state; [by eapply untold_same|].
  intros row' _. destruct (match counter m with Some _ => _ | None => _ end); cbn; eauto.
Qed.

Lemma untold_observe p m d org o id now db r db' :
  untold p db → recordMonitorEvaluation m d org o id now db = Ok (r, db') → untold p db'.
Proof.
  intros Hu H. unfold recordMonitorEvaluation in H. apply bind_Ok in H as (? & db1 & [= <- <-] & H).
  apply bind_Ok in H as (row & db2 & [= <- <-] & H). pose proof (untold_upsert p (m_id m, d) org db Hu) as Hu1.
  set (db1 := upsert_state _ _ _) in *. destruct o; [destruct (ds_currentEpisodeId _) as [k|]|..].
  - apply bind_Ok in H as (? & ? & [= <- <-] & [= _ <-]). apply untold_state; cbn; auto.
  - by eapply untold_opening.
  - apply bind_Ok in H as (? & ? & [= <- <-] & H). apply bind_Ok in H as (? & ? & [= <- <-] & [= _ <-]).
    apply untold_state; cbn; auto.
  - apply bind_Ok in H as (? & ? & [= <- <-] & [= _ <-]). apply untold_state; cbn; auto.
Qed.

Lemma untold_op p op db : untold p db → leaves_untold p op → untold p (apply_op db op).
Proof.
  intros Hu Hl. destruct op as [m d org o id now|m d org id now|m d now|e a|m d run o|m d u vis now|m d a|m d a|a e]; cbn [apply_op].
  - unfold run_tx. destruct (recordMonitorEvaluation _ _ _ _ _ _ _) as [[r db']|] eqn:E; [|done]. by eapply untold_observe.
  - unfold run_tx. destruct (allocateSubjectEpisode _ _ _ _ _ _) as [[r db']|] eqn:E; [|done].
    unfold allocateSubjectEpisode in E. apply bind_Ok in E as (? & db1 & [= <- <-] & E).
    apply bind_Ok in E as (? & ? & Hi & [= _ <-]). apply adopt_states in Hi. by eapply untold_same, untold_upsert.
  - unfold detachMonitorFromDevice. destruct (open_episode _ _); [apply untold_state; cbn; auto|done].
  - unfold linkEpisodeAlert. destruct (episodes db !! e); [|done]. by case_bool_decide.
  - done.
  - unfold resetMonitorEscalation. destruct (states db !! (m, d)); [|done]. destruct (_ && _); [|done].
    destruct Hu as (row & Hr & H). exists row. cbn. by rewrite lookup_alter_ne.
  - destruct a as [a|]; [|done]. destruct Hu as (row & Hr & H). exists row. cbn. by rewrite lookup_alter_ne.
  - unfold stampEscalation. destruct (_ ≫= _); [|done]. destruct Hu as (row & Hr & H). exists row. cbn. by rewrite lookup_alter_ne.
  - destruct Hu as (row & Hr & He & Ha). exists row. cbn. rewrite lookup_fmap, Hr. cbn. unfold unstamp.
    by rewrite bool_decide_eq_false_2 by congruence.
Qed.

(** Escalating sets the latch and not the alert. *)
Lemma escalates_untold p db x :
  (∀ row, states db !! p = Some row → ds_escalationAlertId row = None) → escalates p db x → untold p (apply_op db x).
Proof.
  intros Ha (m & d & org & o & id & now & r & db' & -> & <- & Hr & Hl). cbn [apply_op]. unfold run_tx. rewrite Hr. cbn [snd].
  unfold recordMonitorEvaluation in Hr. apply bind_Ok in Hr as (? & db1 & [= <- <-] & H).
  apply bind_Ok in H as (row & db2 & [= <- <-] & H). set (p := (m_id m, d)) in *.
  assert (∃ row, states (upsert_state p org db) !! p = Some row ∧ ds_escalationAlertId row = None) as (row & Hrow & Hal).
  { unfold upsert_state. destruct (states db !! p) as [row|] eqn:E; [exists row; auto|]. eexists. cbn. by rewrite lookup_insert_eq. }
  rewrite Hrow in H. change (default (fresh_state org) (Some row)) with row in H.
  destruct o; [destruct (ds_currentEpisodeId row)|..].
  - apply bind_Ok in H as (? & ? & [= <- <-] & [= <- _]). done.
  - unfold open_or_adopt in H. apply bind_Ok in H as (y & db1 & Hi & H). apply adopt_states in Hi.
    unfold bind, query, modify, ret in H. injection H as <- <-. cbn [r_latched] in Hl. rewrite Hl.
    unfold untold, on_state. cbn [states]. rewrite lookup_alter_eq, Hi. fold p. rewrite Hrow. eexists. split; [reflexivity|]. cbn. eauto.
  - apply bind_Ok in H as (? & ? & [= <- <-] & H). apply bind_Ok in H as (? & ? & [= <- <-] & [= <- _]). done.
  - apply bind_Ok in H as (? & ? & [= <- <-] & [= <- _]). done.
Qed.

(** A breach of an untold pair asks for the alert, and names the episode it follows. *)
Lemma untold_asks m d org id now db r db' :
  untold (m_id m, d) db → recordMonitorEvaluation m d org breach id now db = Ok (r, db') →
  r_needsEscalationAlert r = true
  ∧ ∃ k row, r_episodeId r = Some k ∧ states db' !! (m_id m, d) = Some row ∧ ds_currentEpisodeId row = Some k.
Proof.
  intros Hu H. unfold recordMonitorEvaluation in H. apply bind_Ok in H as (? & db1 & [= <- <-] & H).
  apply bind_Ok in H as (row & db2 & [= <- <-] & H).
  destruct (untold_upsert _ (m_id m, d) org db Hu) as (row & Hrow & He & Ha). rewrite Hrow in H. change (default (fresh_state org) (Some row)) with row in H.
  destruct (ds_currentEpisodeId row) as [k|] eqn:Ek.
  - apply bind_Ok in H as (? & ? & [= <- <-] & [= <- <-]). cbn. rewrite !bool_decide_eq_true_2 by done. split; [done|].
    exists k, (observed breach now row). rewrite lookup_alter_eq, Hrow. done.
  - unfold open_or_adopt in H. apply bind_Ok in H as (y & db1 & Hi & H). apply adopt_states in Hi.
    unfold bind, query, modify, ret in H. injection H as <- <-.
    cbn. rewrite !bool_decide_eq_true_2 by done. split; [done|]. rewrite lookup_alter_eq, Hi, Hrow. cbn.
    eexists _, _. split_and!; [done..|]. by destruct (match counter m with Some _ => _ | None => _ end).
Qed.

(** *** Alerts recorded in time *)

(** The pair has an alert only while it is escalated. *)
Definition told_in_time (p : string * string) (db : Db) : Prop :=
  ∀ row, states db !! p = Some row → is_Some (ds_escalationAlertId row) → is_Some (ds_escalatedAt row).

(** No alert of the pair was recorded after a reset had overtaken the raising of it. *)
Definition not_overtaken (p : string * string) (ops : list Op) : Prop :=
  ∀ a m d x b, ops = a ++ op_fire m d (Some x) :: b → (m, d) = p →
    ∃ row, states (run_ops a) !! p = Some row ∧ is_Some (ds_escalatedAt row).

Lemma in_time_state p q f db : told_in_time p db →
  (∀ row, states db !! p = Some row → q = p → (is_Some (ds_escalationAlertId (f row)) → is_Some (ds_escalationAlertId row))
                                      ∧ (is_Some (ds_escalatedAt row) → is_Some (ds_escalatedAt (f row)))) →
  told_in_time p (on_state q f db).
Proof.
  intros Ht Hf row Hr Ha. cbn in Hr. destruct (decide (q = p)) as [->|Hne].
  - rewrite lookup_alter_eq in Hr. apply fmap_Some in Hr as (row0 & H0 & ->). destruct (Hf _ H0 eq_refl) as [F1 F2]. eauto.
  - rewrite lookup_alter_ne in Hr by done. eauto.
Qed.

Lemma in_time_same p db db' : states db' = states db → told_in_time p db → told_in_time p db'.
Proof. unfold told_in_time. by intros ->. Qed.

Lemma in_time_upsert p q org db : told_in_time p db → told_in_time p (upsert_state q org db).
Proof.
  intros Ht. unfold upsert_state. destruct (states db !! q) eqn:E; [done|]. intros row. cbn. rewrite lookup_insert_Some.
  intros [[<- <-]|[_ Hr]]; [by intros []|by apply Ht].
Qed.

Lemma in_time_observe p m d org o id now db r db' :
  told_in_time p db → recordMonitorEvaluation m d org o id now db = Ok (r, db') → told_in_time p db'.
Proof.
  intros Ht H. unfold recordMonitorEvaluation in H. apply bind_Ok in H as (? & db1 & [= <- <-] & H).
  apply bind_Ok in H as (row & db2 & [= <- <-] & H). apply (in_time_upsert p (m_id m, d) org) in Ht.
  set (db1 := upsert_state _ _ _) in *. destruct o; [destruct (ds_currentEpisodeId _) as [k|]|..].
  - apply bind_Ok in H as (? & ? & [= <- <-] & [= _ <-]). apply in_time_state; cbn; auto.
  - unfold open_or_adopt in H. apply bind_Ok in H as (x & db2 & Hi & H). apply adopt_states in Hi.
    unfold bind, query, modify, ret in H. injection H as _ <-. apply in_time_state; [by eapply in_time_same|].
    intros row' _ _. destruct (match counter m with Some _ => _ | None => _ end); cbn; eauto.
  - apply bind_Ok in H as (? & ? & [= <- <-] & H). apply bind_Ok in H as (? & ? & [= <- <-] & [= _ <-]).
    apply in_time_state; cbn; auto.
  - apply bind_Ok in H as (? & ? & [= <- <-] & [= _ <-]). apply in_time_state; cbn; auto.
Qed.

Lemma in_time_op p op db :
  told_in_time p db →
  (∀ m d x, op = op_fire m d (Some x) → (m, d) = p → ∃ row, states db !! p = Some row ∧ is_Some (ds_escalatedAt row)) →
  told_in_time p (apply_op db op).
Proof.
  intros Ht Hf. destruct op as [m d org o id now|m d org id now|m d now|e a|m d run o|m d u vis now|m d a|m d a|a e]; cbn [apply_op].
  - unfold run_tx. destruct (recordMonitorEvaluation _ _ _ _ _ _ _) as [[r db']|] eqn:E; [|done]. by eapply in_time_observe.
  - unfold run_tx. destruct (allocateSubjectEpisode _ _ _ _ _ _) as [[r db']|] eqn:E; [|done].
    unfold allocateSubjectEpisode in E. apply bind_Ok in E as (? & db1 & [= <- <-] & E).
    apply bind_Ok in E as (? & ? & Hi & [= _ <-]). apply adopt_states in Hi. by eapply in_time_same, in_time_upsert.
  - unfold detachMonitorFromDevice. destruct (open_episode _ _); [apply in_time_state; cbn; auto|done].
  - unfold linkEpisodeAlert. destruct (episodes db !! e); [|done]. by case_bool_decide.
  - done.
  - unfold resetMonitorEscalation. destruct (states db !! (m, d)); [|done]. destruct (_ && _); [|done].
    intros row Hr. cbn in Hr. destruct (decide ((m, d) = p)) as [<-|Hne].
    + rewrite lookup_alter_eq in Hr. apply fmap_Some in Hr as (row0 & _ & ->). by intros [].
    + rewrite lookup_alter_ne in Hr by done. by apply Ht.
  - destruct a as [a|]; [|done]. cbn. intros row Hr Ha. destruct (decide ((m, d) = p)) as [E|Hne].
    + destruct (Hf m d a eq_refl E) as (row0 & H0 & He). subst p. cbn in Hr. rewrite lookup_alter_eq, H0 in Hr. by injection Hr as <-.
    + cbn in Hr. rewrite lookup_alter_ne in Hr by done. by apply (Ht row).
  - unfold stampEscalation. destruct (states db !! (m, d)) as [row0|] eqn:E0; [|done]. cbn.
    destruct (escalation_due row0) as [k|] eqn:Ed; [|done]. intros row Hr Ha. cbn in Hr. destruct (decide ((m, d) = p)) as [<-|Hne].
    + rewrite lookup_alter_eq, E0 in Hr. injection Hr as <-. unfold escalation_due in Ed. destruct (ds_lastState row0); [|done..].
      destruct (bool_decide (is_Some (ds_escalatedAt row0))) eqn:Eb; [|done]. by apply bool_decide_eq_true in Eb.
    + rewrite lookup_alter_ne in Hr by done. by eapply Ht.
  - intros row Hr. cbn in Hr. rewrite lookup_fmap in Hr. apply fmap_Some in Hr as (row0 & H0 & ->). unfold unstamp.
    case_bool_decide; [by intros []|by apply Ht].
Qed.

Lemma in_time_run p ops : not_overtaken p ops → told_in_time p (run_ops ops).
Proof.
  induction ops as [|op ops IH] using rev_ind; intros Hn.
  { intros row. cbn. by rewrite lookup_empty. }
  unfold run_ops. rewrite foldl_snoc. fold (run_ops ops). apply in_time_op.
  - apply IH. intros a m d x b -> Hp. apply (Hn a m d x (b ++ [op])); [|done]. by rewrite <- (assoc_L (++)).
  - intros m d x -> Hp. by apply (Hn ops m d x []).
Qed.

(** A pair that escalates had no alert of an earlier escalation. *)
Lemma escalates_unalerted p db x row :
  told_in_time p db → escalates p db x → states db !! p = Some row → ds_escalationAlertId row = None.
Proof.
  intros Ht (m & d & org & o & id & now & r & db' & -> & <- & Hr & Hl) Hrow. destruct (ds_escalationAlertId row) as [a|] eqn:Ea; [|done].
  exfalso. assert (is_Some (ds_escalatedAt row)) as He by (apply (Ht row Hrow); by rewrite Ea).
  unfold recordMonitorEvaluation in Hr. apply bind_Ok in Hr as (? & db1 & [= <- <-] & H).
  apply bind_Ok in H as (row' & db2 & [= <- <-] & H).
  assert (states (upsert_state (m_id m, d) org db) !! (m_id m, d) = Some row) as E by (unfold upsert_state; by rewrite Hrow).
  rewrite E in H. change (default (fresh_state org) (Some row)) with row in H. destruct o; [destruct (ds_currentEpisodeId row)|..].
  - apply bind_Ok in H as (? & ? & [= <- <-] & [= <- _]). done.
  - unfold open_or_adopt in H. apply bind_Ok in H as (y & db1 & Hi & H). unfold bind, query, modify, ret in H. injection H as <- _.
    cbn [r_latched] in Hl. rewrite bool_decide_eq_true_2 in Hl by done. by destruct (counter m) as [[n h]|].
  - apply bind_Ok in H as (? & ? & [= <- <-] & H). apply bind_Ok in H as (? & ? & [= <- <-] & [= <- _]). done.
  - apply bind_Ok in H as (? & ? & [= <- <-] & [= <- _]). done.
Qed.

(** C21: an escalation reaches a human.  In a history whose generated ids are new and in
    which no alert was recorded on the pair after a reset had overtaken the raising of it, once the pair has escalated,
    whatever happens next other than a reset or the recording of the alert (recoveries,
    unknown results, failed attempts to raise the alert, alerts taken back, other pairs),
    the next breach is answered, names the episode of the pair that is open, and asks for
    the alert again; raising it records it on the escalated pair. *)
Theorem escalation_reaches_a_human p pre x mid m d org id now alert :
  NoDup (new_ids (pre ++ x :: mid ++ [op_observe m d org breach id now])) →
  not_overtaken p pre → escalates p (run_ops pre) x → Forall (leaves_untold p) mid → (m_id m, d) = p →
  ∃ r db', recordMonitorEvaluation m d org breach id now (run_ops (pre ++ x :: mid)) = Ok (r, db')
    ∧ r_needsEscalationAlert r = true
    ∧ (∃ k e, r_episodeId r = Some k ∧ episodes db' !! k = Some e ∧ pair_of e = p ∧ is_open e = true)
    ∧ ∃ row, states (fireEscalationLatch (m_id m) d (Some alert) db') !! p = Some row
             ∧ ds_escalationAlertId row = Some alert ∧ is_Some (ds_escalatedAt row).
Proof.
  intros Hnd Hover Hx Hmid Hp. rewrite app_comm_cons, (assoc_L (++)) in Hnd.
  assert (untold p (run_ops (pre ++ x :: mid))) as Hu.
  { unfold run_ops. rewrite foldl_app. cbn [foldl].
    pose proof (escalates_untold p _ _ (λ row, escalates_unalerted p _ x row (in_time_run p pre Hover) Hx) Hx) as Hu. unfold run_ops in Hu. revert Hu.
    generalize (apply_op (foldl apply_op (mkDb ∅ ∅) pre) x). clear - Hmid.
    induction Hmid as [|z mid Hz _ IH]; intros db Hu; [done|]. cbn. by apply IH, untold_op. }
  assert (NoDup (new_ids (pre ++ x :: mid))) as Hnd' by (by eapply new_ids_prefix).
  destruct (run_ok _ Hnd') as [Hi Hd]. rewrite new_ids_app in Hnd. apply NoDup_app in Hnd as (_ & Hdis & _).
  destruct (observe_ok m d org breach id now _ _ Hi) as (r & db' & Hr & Himp & _).
  { destruct (episodes _ !! id) eqn:E; [|done]. exfalso. eapply Hdis; [apply Hd; eauto|cbn; left]. }
  exists r, db'. subst p. destruct (untold_asks _ _ _ _ _ _ _ _ Hu Hr) as (Hn & k & row1 & Hk & Hrow1 & Hcur). split_and!; [done..| |].
  - pose proof (rf_row _ _ _ (Himp (m_id m, d))) as Hrm. rewrite Hrow1 in Hrm. destruct Hrm as (_ & _ & _ & Hopen).
    destruct (Hopen k Hcur) as (e & ? & ? & ?). eauto 10.
  - destruct (untold_observe _ _ _ _ _ _ _ _ _ _ Hu Hr) as (row & Hrow & Hes & _).
    eexists. cbn. rewrite lookup_alter_eq, Hrow. split; [reflexivity|]. done.
Qed.

Lemma escalation_reaches_a_human_witness :
  ∃ r db', recordMonitorEvaluation ex_monitor "d" "o" breach "e7" 8000
             (run_ops (ex_pre ++ ex_at breach "e3" 3000 :: [ex_at ok "e4" 4000; op_fire "m" "d" None])) = Ok (r, db')
    ∧ r_needsEscalationAlert r = true
    ∧ (∃ k e, r_episodeId r = Some k ∧ episodes db' !! k = Some e ∧ pair_of e = ("m", "d") ∧ is_open e = true)
    ∧ ∃ row, states (fireEscalationLatch "m" "d" (Some "a1") db') !! ("m", "d") = Some row
             ∧ ds_escalationAlertId row = Some "a1" ∧ is_Some (ds_escalatedAt row).
Proof.
  apply (escalation_reaches_a_human ("m", "d") ex_pre (ex_at breach "e3" 3000) [ex_at ok "e4" 4000; op_fire "m" "d" None]
           ex_monitor "d" "o" "e7" 8000 "a1").
  - apply (bool_decide_unpack _). vm_compute. exact I.
  - intros [|y [|z a]] m d x b E Hp; unfold ex_pre, ex_at in E; cbn in E; by simplify_eq; destruct a.
  - do 8 eexists. split_and!; [reflexivity|reflexivity|vm_compute; reflexivity|reflexivity].
  - repeat constructor.
  - reflexivity.
Defined.

(** The write of the alert's id does not look at the latch.  A reset that comes between
    the creation of the alert and that write leaves the id on a pair that is not
    escalated; when the pair escalates again and the first attempt to raise the new alert
    fails, no breach asks for it any more. *)
Definition ex_overtaken : list Op :=
  ex_pre ++ [ex_at breach "e3" 3000; op_reset "m" "d" (Some "tech") (λ _, true) 3500; op_fire "m" "d" (Some "a1");
             ex_at ok "e4" 4000; ex_at breach "e5" 5000; ex_at ok "e6" 6000; ex_at breach "e7" 7000; op_fire "m" "d" None].
Example overtaken_alert_silences :
  let db := run_ops ex_overtaken in
  escalates ("m", "d") (run_ops (take 8 ex_overtaken)) (ex_at breach "e7" 7000)
  ∧ ∃ r db', recordMonitorEvaluation ex_monitor "d" "o" breach "e8" 8000 db = Ok (r, db')
      ∧ r_needsEscalationAlert r = false ∧ r_latched r = false ∧ r_responsesPaused r = true.
Proof.
  split; [do 8 eexists; split_and!; [reflexivity|reflexivity|vm_compute; reflexivity|reflexivity]|].
  eexists _, _. split; [vm_compute; reflexivity|]. split_and!; reflexivity.
Qed.

(** A severity is raised by a step and never below high. *)
Lemma escalation_severity base :
  (index_of base ≤ index_of (escalationSeverityFor base))%nat ∧ (index_of high ≤ index_of (escalationSeverityFor base))%nat.
Proof. destruct base; vm_compute; lia. Qed.

End MonitorHistory.
