(* ===== verification/AlertNoise.v ===== *)
(** * Alert noise controls

    [services/alertCooldown.ts]: after an alert fires or resolves, its rule is quiet on
    the device (or the component) for a while, longer when it keeps firing; and a rule
    that changes state too often is flapping.  Both live in Redis, against the class of
    [Redis]; a process without Redis keeps cooldowns in its memory.  [now] is the clock
    of the process, [t] that of Redis; a call that is rejected throws.  The functions
    that scan the key space are not modelled, but for the key a move writes. *)
From S2P Require Import Prelude JsText Redis RateLimit.
From stdpp Require Import base tactics list strings gmap.
From Stdlib Require Import ZArith Lia Ascii.
Open Scope Z_scope.

Module Noise.

(** ** Keys *)

Definition COOLDOWN_PREFIX : string := "breeze:alerts:cooldown".
Definition FLAP_PREFIX : string := "breeze:alerts:flap".

Definition subjectIdentity (ruleId deviceId : string) (subjectKey : option string) : string :=
  ruleId +:+ ":" +:+ deviceId +:+ match subjectKey with Some s => ":" +:+ s | None => "" end.
Definition buildCooldownKey (ruleId deviceId : string) (subjectKey : option string) : string :=
  COOLDOWN_PREFIX +:+ ":" +:+ subjectIdentity ruleId deviceId subjectKey.
Definition adaptiveKey (ruleId deviceId : string) (subjectKey : option string) : string :=
  COOLDOWN_PREFIX +:+ ":adaptive:" +:+ subjectIdentity ruleId deviceId subjectKey.
Definition flapKey (ruleId deviceId : string) (subjectKey : option string) : string :=
  FLAP_PREFIX +:+ ":" +:+ subjectIdentity ruleId deviceId subjectKey.

(** [moveCooldownKeys] reads the device off the end of a key. *)
Definition last_segment (key : string) : string := default "" (last (js_split ":"%char key)).
Definition rekeyed (toRuleId key : string) : string := buildCooldownKey toRuleId (last_segment key) None.

Section noise.
Context {R : Type} `{Redis R}.

(** A rejected command throws: an error reply, or no reply. *)
Definition call (r : R) (t : Z) (k : string) (c : Cmd) (l : Landed) : result string Reply * R :=
  let '(r1, a) := exec r t k c in
  match l, a with
  | lost applied, _ => (Err "connection lost", if applied then r1 else r)
  | replied, RErr => (Err "ReplyError", r1)
  | replied, _ => (Ok a, r1)
  end.

Record Store := mkStore { redis : option R; memoryCooldowns : gmap string Z }.

(** ** Cooldowns *)

Definition memoryHasCooldown (now : Z) (key : string) (m : gmap string Z) : bool * gmap string Z :=
  match m !! key with
  | None => (false, m)
  | Some expiry => if expiry <=? now then (false, delete key m) else (true, m)
  end.
Definition memorySetCooldown (now : Z) (key : string) (cooldownMinutes : Z) (m : gmap string Z) : gmap string Z :=
  <[key := now + cooldownMinutes * 60 * 1000]> m.

Definition isCooldownActive (ruleId deviceId : string) (subjectKey : option string) (now t : Z) (l : Landed) (s : Store)
    : result string bool * Store :=
  match redis s with
  | None => let '(b, m) := memoryHasCooldown now (subjectIdentity ruleId deviceId subjectKey) (memoryCooldowns s) in
            (Ok b, mkStore None m)
  | Some r => let '(a, r1) := call r t (buildCooldownKey ruleId deviceId subjectKey) EXISTS l in
              (rmap (λ x, match x with RInt n => n =? 1 | _ => false end) a, mkStore (Some r1) (memoryCooldowns s))
  end.

Definition cooldown_json (now multiplier : Z) : json := JObj [("setAt", JNum now); ("multiplier", JNum multiplier)].

(** The multiplier of the next cooldown: doubled, up to four, within an hour. *)
Definition next_multiplier (now : Z) (got : result string Reply) : Z :=
  match got with
  | Ok (RBulk (VJson j)) =>
      match jget "multiplier" j, jget "setAt" j with
      | Some (JNum m), Some (JNum setAt) => if negb (m =? 0) && (now - setAt <? 3600000) then Z.min (m * 2) 4 else 1
      | _, _ => 1
      end
  | _ => 1
  end.

Definition setCooldown (ruleId deviceId : string) (cooldownMinutes : Z) (subjectKey : option string) (now t : Z)
    (get set track : Landed) (s : Store) : result string unit * Store :=
  match redis s with
  | None => (Ok tt, mkStore None (memorySetCooldown now (subjectIdentity ruleId deviceId subjectKey) cooldownMinutes (memoryCooldowns s)))
  | Some r =>
      let ak := adaptiveKey ruleId deviceId subjectKey in
      let '(got, r1) := call r t ak GET get in
      let multiplier := next_multiplier now got in
      let '(a, r2) := call r1 t (buildCooldownKey ruleId deviceId subjectKey)
                        (SETEX (cooldownMinutes * multiplier * 60) (VJson (cooldown_json now multiplier))) set in
      match a with
      | Err e => (Err e, mkStore (Some r2) (memoryCooldowns s))
      | Ok _ => let '(b, r3) := call r2 t ak (SETEX 3600 (VJson (cooldown_json now multiplier))) track in
                (rmap (λ _, tt) b, mkStore (Some r3) (memoryCooldowns s))
      end
  end.

Definition clearCooldown (ruleId deviceId : string) (t : Z) (l : Landed) (s : Store) : result string unit * Store :=
  match redis s with
  | None => (Ok tt, s)
  | Some r => let '(a, r1) := call r t (buildCooldownKey ruleId deviceId None) DEL l in
              (rmap (λ _, tt) a, mkStore (Some r1) (memoryCooldowns s))
  end.

Definition getCooldownRemaining (ruleId deviceId : string) (t : Z) (l : Landed) (s : Store) : result string Z * Store :=
  match redis s with
  | None => (Ok (-1), s)
  | Some r => let '(a, r1) := call r t (buildCooldownKey ruleId deviceId None) TTL l in
              (rmap (λ x, match x with RInt n => n | _ => 0 end) a, mkStore (Some r1) (memoryCooldowns s))
  end.

Definition extendCooldown (ruleId deviceId : string) (additionalMinutes now t : Z) (ttl extend get set track : Landed) (s : Store)
    : result string unit * Store :=
  match redis s with
  | None => (Ok tt, s)
  | Some r =>
      match getCooldownRemaining ruleId deviceId t ttl s with
      | (Err e, s1) => (Err e, s1)
      | (Ok currentTtl, s1) =>
          if 0 <? currentTtl then
            match redis s1 with
            | Some r1 => let '(a, r2) := call r1 t (buildCooldownKey ruleId deviceId None)
                                           (EXPIRE (currentTtl + additionalMinutes * 60)) extend in
                         (rmap (λ _, tt) a, mkStore (Some r2) (memoryCooldowns s1))
            | None => (Ok tt, s1)
            end
          else setCooldown ruleId deviceId additionalMinutes None now t get set track s1
      end
  end.

(** ** Flapping *)

Inductive Transition := triggered | resolved.
Definition transition_text (x : Transition) : string := match x with triggered => "triggered" | resolved => "resolved" end.
Definition transition_json (x : Transition) (now : Z) : json :=
  JObj [("state", JStr (transition_text x)); ("timestamp", JNum now)].

Definition recordStateTransition (ruleId deviceId : string) (x : Transition) (subjectKey : option string) (now t : Z)
    (push trim keep : Landed) (s : Store) : result string unit * Store :=
  match redis s with
  | None => (Ok tt, s)
  | Some r =>
      let key := flapKey ruleId deviceId subjectKey in
      let '(a, r1) := call r t key (RPUSH (transition_json x now)) push in
      match a with
      | Err e => (Err e, mkStore (Some r1) (memoryCooldowns s))
      | Ok _ =>
          let '(b, r2) := call r1 t key (LTRIM_last 20) trim in
          match b with
          | Err e => (Err e, mkStore (Some r2) (memoryCooldowns s))
          | Ok _ => let '(c, r3) := call r2 t key (EXPIRE 1800) keep in
                    (rmap (λ _, tt) c, mkStore (Some r3) (memoryCooldowns s))
          end
      end
  end.

Definition recent (windowStart : Z) (entry : json) : bool :=
  match jget "timestamp" entry with Some (JNum ts) => windowStart <=? ts | _ => false end.

Definition isFlapping (ruleId deviceId : string) (windowMinutes : Z) (threshold : nat) (subjectKey : option string) (now t : Z)
    (l : Landed) (s : Store) : result string bool * Store :=
  match redis s with
  | None => (Ok false, s)
  | Some r =>
      let '(a, r1) := call r t (flapKey ruleId deviceId subjectKey) LRANGE_all l in
      (rmap (λ x, match x with
                  | RList entries =>
                      if (length entries <? threshold)%nat then false
                      else (threshold <=? length (List.filter (recent (now - windowMinutes * 60 * 1000)) entries))%nat
                  | _ => false
                  end) a, mkStore (Some r1) (memoryCooldowns s))
  end.

End noise.
Arguments Store R : clear implicits.

(** ** Keys of different alerts *)

(** Identifiers of rules and devices: no colon, and not the word in the adaptive keys. *)
Definition colon_free (s : string) : bool := bool_decide (":"%char ∉ chars s).
Definition plain_id (s : string) : bool := colon_free s && negb (String.eqb s "adaptive").

Lemma sep_split {A} (c : A) a b x y : c ∉ a → c ∉ b → a ++ c :: x = b ++ c :: y → a = b ∧ x = y.
Proof.
  revert b. induction a as [|e a IH]; intros [|d b] Ha Hb; cbn; [by intros [= ->]| | |].
  - intros [= <- _]. by destruct Hb; left.
  - intros [= -> _]. by destruct Ha; left.
  - intros [= -> E]. apply IH in E as [-> ->]; [done|..]; intros ?; [apply Ha|apply Hb]; by right.
Qed.

Lemma key_split a b x y :
  colon_free a = true → colon_free b = true → a +:+ ":" +:+ x = b +:+ ":" +:+ y → a = b ∧ x = y.
Proof.
  unfold colon_free. rewrite !bool_decide_eq_true. intros Ha Hb E. apply (f_equal chars) in E. rewrite !chars_app in E.
  apply sep_split in E as [E1 E2]; [|done..]. split; by apply chars_inj.
Qed.

Lemma append_nil s : s +:+ "" = s.
Proof. apply chars_inj. rewrite chars_app. apply app_nil_r. Qed.

Lemma colon_free_no a x : colon_free (a +:+ ":" +:+ x) = false.
Proof.
  unfold colon_free. rewrite bool_decide_eq_false, !chars_app. intros H. apply H, elem_of_app. right. left.
Qed.

Definition Id : Type := string * string * option string.
Definition id_ok (i : Id) : bool := plain_id i.1.1 && plain_id i.1.2.
Definition identity (i : Id) : string := subjectIdentity i.1.1 i.1.2 i.2.
Definition ck (i : Id) : string := buildCooldownKey i.1.1 i.1.2 i.2.
Definition ak (i : Id) : string := adaptiveKey i.1.1 i.1.2 i.2.
Definition fk (i : Id) : string := flapKey i.1.1 i.1.2 i.2.

Lemma plain_colon s : plain_id s = true → colon_free s = true ∧ s ≠ "adaptive".
Proof. unfold plain_id. rewrite andb_true_iff, negb_true_iff, String.eqb_neq. done. Qed.

Lemma identity_inj i j : id_ok i = true → id_ok j = true → identity i = identity j → i = j.
Proof.
  destruct i as [[r d] s], j as [[r' d'] s']. unfold id_ok, identity, subjectIdentity. cbn [fst snd].
  intros [[Hr _]%plain_colon [Hd _]%plain_colon]%andb_true_iff [[Hr' _]%plain_colon [Hd' _]%plain_colon]%andb_true_iff.
  intros [-> H]%key_split; [|done..]. f_equal; [f_equal|]; revert H.
  - destruct s as [s|], s' as [s'|].
    + by intros [-> _]%key_split.
    + rewrite append_nil. intros <-. by rewrite colon_free_no in Hd'.
    + rewrite append_nil. intros ->. by rewrite colon_free_no in Hd.
    + by rewrite !append_nil.
  - destruct s as [s|], s' as [s'|].
    + by intros [_ ->]%key_split.
    + rewrite append_nil. intros <-. by rewrite colon_free_no in Hd'.
    + rewrite append_nil. intros ->. by rewrite colon_free_no in Hd.
    + done.
Qed.

Lemma ck_inj i j : id_ok i = true → id_ok j = true → ck i = ck j → i = j.
Proof. intros Hi Hj H. apply identity_inj; [done..|]. unfold ck, buildCooldownKey in H. by apply append_cancel, (append_cancel ":") in H. Qed.

Lemma ak_inj i j : id_ok i = true → id_ok j = true → ak i = ak j → i = j.
Proof. intros Hi Hj H. apply identity_inj; [done..|]. unfold ak, adaptiveKey in H. by apply append_cancel, (append_cancel ":adaptive:") in H. Qed.

Lemma ck_ak i j : id_ok i = true → ck i ≠ ak j.
Proof.
  unfold id_ok, ck, ak, buildCooldownKey, adaptiveKey, subjectIdentity. intros [[Hr Hn]%plain_colon _]%andb_true_iff H.
  apply append_cancel in H. change (":adaptive:" +:+ ?x) with (":" +:+ ("adaptive" +:+ ":" +:+ x)) in H. apply (append_cancel ":") in H.
  by apply key_split in H as [? _].
Qed.

Lemma fk_ck i j : fk i ≠ ck j.
Proof. unfold fk, ck, flapKey, buildCooldownKey, FLAP_PREFIX, COOLDOWN_PREFIX. cbn. intros [=]. Qed.
Lemma fk_ak i j : fk i ≠ ak j.
Proof. unfold fk, ak, flapKey, adaptiveKey, FLAP_PREFIX, COOLDOWN_PREFIX. cbn. intros [=]. Qed.

(** ** Histories *)

Inductive Op :=
| op_set (i : Id) (minutes now : Z) (get set track : Landed)
| op_clear (ruleId deviceId : string) (l : Landed)
| op_extend (ruleId deviceId : string) (minutes now : Z) (ttl extend get set track : Landed)
| op_record (i : Id) (x : Transition) (now : Z) (push trim keep : Landed).

Definition op_id (o : Op) : Id :=
  match o with
  | op_set i _ _ _ _ _ | op_record i _ _ _ _ _ => i
  | op_clear r d _ | op_extend r d _ _ _ _ _ _ _ => (r, d, None)
  end.

Section histories.
Context {R : Type} `{Redis R}.

Definition apply_op (s : Store R) (o : Z * Op) : Store R :=
  match o.2 with
  | op_set i minutes now get set track => (setCooldown i.1.1 i.1.2 minutes i.2 now o.1 get set track s).2
  | op_clear r d l => (clearCooldown r d o.1 l s).2
  | op_extend r d minutes now ttl extend get set track => (extendCooldown r d minutes now o.1 ttl extend get set track s).2
  | op_record i x now push trim keep => (recordStateTransition i.1.1 i.1.2 x i.2 now o.1 push trim keep s).2
  end.
Definition run_ops (s : Store R) (ops : list (Z * Op)) : Store R := foldl apply_op s ops.

(** A change at time [t] that a key does not see. *)
Definition unseen (key : string) (t : Z) (r r' : R) : Prop := ∀ t', t ≤ t' → peek r' t' key = peek r t' key.

Lemma unseen_trans key t r1 r2 r3 : unseen key t r1 r2 → unseen key t r2 r3 → unseen key t r1 r3.
Proof. intros H1 H2 t' Ht. by rewrite H2, H1. Qed.

Lemma call_cases r t k c l : (call r t k c l).2 = r ∨ (call r t k c l).2 = (exec r t k c).1.
Proof. unfold call. destruct (exec r t k c) as [r1 a]. destruct l as [|[]]; [destruct a|..]; auto. Qed.

Lemma call_unseen key r t k c l : k ≠ key → unseen key t r (call r t k c l).2.
Proof. intros Hk t' Ht. destruct (call_cases r t k c l) as [-> | ->]; [done|]. by apply peek_other. Qed.

(** A command that leaves what its key holds. *)
Lemma call_reads key r t k c l : (∀ o, (run_cmd t c o).1 = o) → unseen key t r (call r t k c l).2.
Proof.
  intros Hc t' Ht. destruct (call_cases r t k c l) as [-> | ->]; [done|]. destruct (decide (k = key)) as [->|]; [|by apply peek_other].
  rewrite !(peek_later _ t t') by done. by rewrite peek_exec, Hc, peek_now.
Qed.

Ltac split_call := match goal with |- context [call ?r ?t ?k ?c ?l] =>
  let a := fresh "a" in let r' := fresh "r" in let E := fresh "E" in
  destruct (call r t k c l) as [a r'] eqn:E end.

Lemma get_reads t o : (run_cmd t GET o).1 = o.
Proof. by destruct o. Qed.
Lemma ttl_reads t o : (run_cmd t TTL o).1 = o.
Proof. by destruct o. Qed.

Lemma from_call (P : R → R → Prop) r t k c l a r' :
  call r t k c l = (a, r') → P r (call r t k c l).2 → P r r'.
Proof. by intros ->. Qed.

(** Follow a key through the calls of an operation. *)
Ltac chase keys := repeat match goal with
  | E : call ?r ?t ?k ?c ?l = (_, ?r') |- unseen ?key ?t ?x ?r' =>
      eapply unseen_trans; [|eapply (from_call (unseen key t)); [exact E|]; first [apply call_unseen; keys | apply call_reads; done]]; clear E
  | |- unseen _ _ ?r ?r => intros ? ?; reflexivity
  end.

Lemma set_unseen i minutes now t get set track m r key :
  key ≠ ck i → key ≠ ak i →
  ∃ r', redis (setCooldown i.1.1 i.1.2 minutes i.2 now t get set track (mkStore (Some r) m)).2 = Some r' ∧ unseen key t r r'.
Proof.
  intros H1 H2. unfold setCooldown. cbn [redis memoryCooldowns]. fold (ak i) (ck i). repeat split_call.
  destruct a0; (try split_call); cbn; eexists; (split; [reflexivity|]); chase ltac:(congruence).
Qed.

Lemma ttl_unseen key r t k l a r' : call r t k TTL l = (a, r') → unseen key t r r'.
Proof. intros E. eapply (from_call (unseen key t)); [exact E|]. apply call_reads, ttl_reads. Qed.

(** An operation for another alert is not seen by the two cooldown keys of this one. *)
Lemma op_unseen o t m r key :
  key ≠ ck (op_id o) → key ≠ ak (op_id o) → key ≠ fk (op_id o) →
  ∃ r' m', apply_op (mkStore (Some r) m) (t, o) = mkStore (Some r') m' ∧ unseen key t r r'.
Proof.
  intros H1 H2 H3. destruct o as [i minutes now get set track|rl d l|rl d minutes now ttl extend get set track|i x now push trim keep];
    cbn [op_id] in *; unfold apply_op; cbn [snd fst].
  - destruct (set_unseen i minutes now t get set track m r key H1 H2) as (r' & Hr & Hu).
    destruct (setCooldown _ _ _ _ _ _ _ _ _ _).2 as [q m'] eqn:E. cbn in Hr. subst q. eauto.
  - unfold clearCooldown. cbn. change (buildCooldownKey rl d None) with (ck (rl, d, None)). split_call. cbn.
    eexists _, _. split; [reflexivity|]. chase ltac:(congruence).
  - unfold extendCooldown, getCooldownRemaining. cbn -[setCooldown buildCooldownKey]. change (buildCooldownKey rl d None) with (ck (rl, d, None)). split_call.
    pose proof (ttl_unseen key _ _ _ _ _ _ E) as Hu. destruct a as [a|e]; cbn -[setCooldown]; [|eauto].
    destruct (0 <? _); [split_call; cbn; eexists _, _; split; [reflexivity|]; eapply unseen_trans; [exact Hu|]; clear E; chase ltac:(congruence)|].
    destruct (set_unseen (rl, d, None) minutes now t get set track m r0 key H1 H2) as (r' & Hr & Hu').
    cbn [fst snd] in Hr. destruct (setCooldown _ _ _ _ _ _ _ _ _ _).2 as [q m'] eqn:Eq. cbn in Hr. subst q.
    eexists _, _. split; [reflexivity|]. by eapply unseen_trans.
  - unfold recordStateTransition. cbn [redis memoryCooldowns]. fold (fk i). split_call. destruct a as [a|]; [split_call; destruct a0 as [a0|]; [split_call|]|];
      cbn; (eexists _, _; split; [reflexivity|]); chase ltac:(congruence).
Qed.

(** ** The multiplier *)

Definition multiplier_in (e : Entry) : Prop := ∃ a k, e_value e = VJson (cooldown_json a k) ∧ k ∈ [1; 2; 4].
Definition multipliers_ok (r : R) (t : Z) : Prop :=
  ∀ i e, id_ok i = true → peek r t (ak i) = Some e → multiplier_in e.

Lemma multipliers_later r t t' : t ≤ t' → multipliers_ok r t → multipliers_ok r t'.
Proof.
  intros Ht Hm i e Hi. rewrite (peek_later r t t') by done. destruct (peek r t (ak i)) as [e0|] eqn:E; [|done]. cbn.
  destruct (alive t' e0); [|done]. intros [= <-]. by eapply Hm.
Qed.

Lemma call_get r t k l :
  (call r t k GET l).1 = match l with
                         | lost _ => Err "connection lost"
                         | replied => match (run_cmd t GET (peek r t k)).2 with RErr => Err "ReplyError" | a => Ok a end
                         end.
Proof.
  unfold call. pose proof (exec_reply r t k GET) as Hr. destruct (exec r t k GET) as [r1 a]. cbn [snd] in Hr. subst a.
  destruct l; [|done]. by destruct (run_cmd t GET (peek r t k)).2.
Qed.

Lemma next_multiplier_in now r t i l :
  id_ok i = true → multipliers_ok r t → next_multiplier now (call r t (ak i) GET l).1 ∈ [1; 2; 4].
Proof.
  intros Hi Hm. rewrite call_get. destruct l; [|by left]. destruct (peek r t (ak i)) as [e|] eqn:E; [|by left].
  destruct (Hm i e Hi E) as (a & k & Hv & Hk). cbn. rewrite Hv. cbn.
  repeat (apply elem_of_cons in Hk as [-> |Hk]); [..|by apply not_elem_of_nil in Hk]; cbn;
    destruct (_ <? _); cbn; by apply (bool_decide_unpack _).
Qed.

Lemma call_replied_setex r t k n v : 0 < n →
  call r t k (SETEX n v) replied = (Ok ROk, (exec r t k (SETEX n v)).1).
Proof.
  intros Hn. unfold call. pose proof (exec_reply r t k (SETEX n v)) as Hr. destruct (exec r t k (SETEX n v)) as [r1 a].
  cbn in Hr. rewrite (proj2 (Z.ltb_lt _ _) Hn) in Hr. cbn in Hr. by subst a.
Qed.

Lemma setex_peek r t k n v t' : 0 < n → t ≤ t' →
  peek (exec r t k (SETEX n v)).1 t' k = if t' <? t + n * 1000 then Some (mkEntry v (Some (t + n * 1000))) else None.
Proof.
  intros Hn Ht. rewrite (peek_later _ t t') by done. rewrite peek_exec. cbn. rewrite (proj2 (Z.ltb_lt _ _) Hn). cbn.
  rewrite (proj2 (Z.ltb_lt t _)) by lia. cbn. done.
Qed.

(** What any call leaves in the adaptive keys. *)
Lemma multipliers_call r t i c l :
  id_ok i = true → multipliers_ok r t → (∃ n now k, c = SETEX n (VJson (cooldown_json now k)) ∧ k ∈ [1; 2; 4]) ∨ c = GET →
  multipliers_ok (call r t (ak i) c l).2 t.
Proof.
  intros Hi Hm Hc. destruct (call_cases r t (ak i) c l) as [-> | ->]; [done|]. intros j e Hj.
  destruct (decide (i = j)) as [<-|Hne]; [|rewrite peek_other; [by apply Hm| |done]; intros ?%ak_inj; done].
  rewrite peek_exec. destruct Hc as [(n & now & k & -> & Hk)| ->].
  - cbn [run_cmd]. destruct (0 <? n); cbn [fst]; [|rewrite peek_now; by apply Hm].
    cbn. destruct (t <? _); [|done]. intros [= <-]. by exists now, k.
  - rewrite get_reads, peek_now. by apply Hm.
Qed.

Lemma multipliers_unseen r r' t : multipliers_ok r t → (∀ i, id_ok i = true → unseen (ak i) t r r') → multipliers_ok r' t.
Proof. intros Hm Hu i e Hi He. eapply Hm; [exact Hi|]. by rewrite <- Hu. Qed.

Lemma call_other_multipliers r t k c l :
  multipliers_ok r t → (∀ i, id_ok i = true → k ≠ ak i) → multipliers_ok (call r t k c l).2 t.
Proof. intros Hm Hk. eapply multipliers_unseen; [exact Hm|]. intros i Hi. apply call_unseen. auto. Qed.

Lemma multipliers_set i minutes now t get set track m r :
  id_ok i = true → multipliers_ok r t →
  ∃ r', redis (setCooldown i.1.1 i.1.2 minutes i.2 now t get set track (mkStore (Some r) m)).2 = Some r' ∧ multipliers_ok r' t.
Proof.
  intros Hi Hm. unfold setCooldown. cbn [redis memoryCooldowns]. fold (ak i) (ck i).
  pose proof (next_multiplier_in now r t i get Hi Hm) as Hk.
  pose proof (multipliers_call r t i GET get Hi Hm ltac:(by right)) as Hm1. split_call. cbn [fst snd] in *.
  set (k := next_multiplier now a) in *.
  pose proof (call_other_multipliers r0 t (ck i) (SETEX (minutes * k * 60) (VJson (cooldown_json now k))) set Hm1
                (λ j _, ck_ak i j Hi)) as Hm2. split_call. cbn [snd] in Hm2.
  destruct a0; [|cbn; eauto].
  pose proof (multipliers_call r1 t i (SETEX 3600 (VJson (cooldown_json now k))) track Hi Hm2 ltac:(left; eauto)) as Hm3.
  split_call. cbn. eauto.
Qed.

Lemma multipliers_op o t m r :
  id_ok (op_id o) = true → multipliers_ok r t →
  ∃ r' m', apply_op (mkStore (Some r) m) (t, o) = mkStore (Some r') m' ∧ multipliers_ok r' t.
Proof.
  intros Hi Hm. destruct o as [i minutes now get set track|rl d l|rl d minutes now ttl extend get set track|i x now push trim keep];
    cbn [op_id] in *; unfold apply_op; cbn [snd fst].
  - destruct (multipliers_set i minutes now t get set track m r Hi Hm) as (r' & Hr & Hm').
    destruct (setCooldown _ _ _ _ _ _ _ _ _ _).2 as [q m'] eqn:E. cbn in Hr. subst q. eauto.
  - unfold clearCooldown. cbn. change (buildCooldownKey rl d None) with (ck (rl, d, None)).
    pose proof (call_other_multipliers r t (ck (rl, d, None)) DEL l Hm (λ j _, ck_ak _ j Hi)) as Hm1. split_call. cbn. eauto.
  - unfold extendCooldown, getCooldownRemaining. cbn -[setCooldown buildCooldownKey].
    change (buildCooldownKey rl d None) with (ck (rl, d, None)).
    pose proof (call_other_multipliers r t (ck (rl, d, None)) TTL ttl Hm (λ j _, ck_ak _ j Hi)) as Hm1. split_call. cbn [snd] in Hm1.
    destruct a as [a|e]; cbn -[setCooldown]; [|eauto]. set (n := match a with RInt n => n | _ => 0 end). destruct (0 <? n).
    + pose proof (call_other_multipliers r0 t (ck (rl, d, None)) (EXPIRE (n + minutes * 60)) extend Hm1 (λ j _, ck_ak _ j Hi)) as Hm2.
      split_call. cbn. eauto.
    + destruct (multipliers_set (rl, d, None) minutes now t get set track m r0 Hi Hm1) as (r' & Hr & Hm').
      cbn [fst snd] in Hr. destruct (setCooldown _ _ _ _ _ _ _ _ _ _).2 as [q m'] eqn:Eq. cbn in Hr. subst q. eauto.
  - unfold recordStateTransition. cbn [redis memoryCooldowns]. fold (fk i).
    pose proof (call_other_multipliers r t (fk i) (RPUSH (transition_json x now)) push Hm (λ j _, fk_ak i j)) as Hm1. split_call.
    destruct a as [a|]; [|cbn; eauto]. cbn [snd] in Hm1.
    pose proof (call_other_multipliers r0 t (fk i) (LTRIM_last 20) trim Hm1 (λ j _, fk_ak i j)) as Hm2. split_call.
    destruct a0 as [a0|]; [|cbn; eauto]. cbn [snd] in Hm2.
    pose proof (call_other_multipliers r1 t (fk i) (EXPIRE 1800) keep Hm2 (λ j _, fk_ak i j)) as Hm3. split_call. cbn. eauto.
Qed.

(** ** How long a cooldown lasts *)

(** The times of a history do not decrease and start from [t0]; [last_time] is the end. *)
Fixpoint in_order (t0 : Z) (ops : list (Z * Op)) : Prop :=
  match ops with [] => True | o :: ops' => t0 ≤ o.1 ∧ in_order o.1 ops' end.
Fixpoint last_time (t0 : Z) (ops : list (Z * Op)) : Z :=
  match ops with [] => t0 | o :: ops' => last_time o.1 ops' end.

Lemma last_time_le t ops : in_order t ops → t ≤ last_time t ops.
Proof. revert t. induction ops as [|[u o] ops IH]; intros t; cbn; [lia|]. intros [? ?%IH]. lia. Qed.

Lemma multipliers_run ops t0 m r :
  in_order t0 ops → Forall (λ o, id_ok (op_id o.2) = true) ops → multipliers_ok r t0 →
  ∃ r' m', run_ops (mkStore (Some r) m) ops = mkStore (Some r') m' ∧ multipliers_ok r' (last_time t0 ops).
Proof.
  revert t0 m r. induction ops as [|[t o] ops IH]; intros t0 m r Ho Hi Hm; [by eauto|].
  destruct Ho as [Ht Ho]. apply Forall_cons in Hi as [Hi His]. cbn [fst snd] in *.
  destruct (multipliers_op o t m r Hi) as (r1 & m1 & E & Hm1); [by eapply multipliers_later|].
  destruct (IH t m1 r1 Ho His Hm1) as (r' & m' & E' & Hm'). exists r', m'. split; [|done].
  unfold run_ops in *. cbn [foldl]. by rewrite E.
Qed.

Lemma unseen_run ops t0 m r i :
  in_order t0 ops → id_ok i = true → Forall (λ o, id_ok (op_id o.2) = true ∧ op_id o.2 ≠ i) ops →
  ∃ r' m', run_ops (mkStore (Some r) m) ops = mkStore (Some r') m'
           ∧ ∀ t', last_time t0 ops ≤ t' → peek r' t' (ck i) = peek r t' (ck i).
Proof.
  intros Ho Hi. revert t0 m r Ho. induction ops as [|[t o] ops IH]; intros t0 m r Ho Hall; [by eauto|].
  destruct Ho as [Ht Ho]. apply Forall_cons in Hall as [[Hj Hne] Hall]. cbn [fst snd] in *.
  destruct (op_unseen o t m r (ck i)) as (r1 & m1 & E & Hu1).
  { intros ?%ck_inj; [by subst|done..]. } { by apply ck_ak. } { intros Hk. by apply (fk_ck (op_id o) i). }
  destruct (IH t m1 r1 Ho Hall) as (r' & m' & E' & Hu). exists r', m'. split; [unfold run_ops in *; cbn [foldl]; by rewrite E|].
  intros t' Ht'. rewrite Hu by done. apply Hu1. etrans; [by apply last_time_le|exact Ht'].
Qed.

(** How long a cooldown lasts.  Whatever cooldowns and transitions were recorded
    before, answered by Redis or not, a cooldown of a positive number of minutes that
    Redis answers holds for that time or twice or four times it, exactly: until then the
    check answers that it is active, after it that it is not, whatever happens meanwhile
    for other rules, devices and components. *)
Theorem cooldown_lasts (r : R) pre i minutes now t0 get others now' t :
  multipliers_ok r 0 → in_order 0 pre → Forall (λ o, id_ok (op_id o.2) = true) pre → id_ok i = true → 0 < minutes →
  last_time 0 pre ≤ t0 → in_order t0 others → Forall (λ o, id_ok (op_id o.2) = true ∧ op_id o.2 ≠ i) others →
  last_time t0 others ≤ t →
  let set := setCooldown i.1.1 i.1.2 minutes i.2 now t0 get replied replied (run_ops (mkStore (Some r) ∅) pre) in
  set.1 = Ok tt
  ∧ ∃ k, k ∈ [1; 2; 4]
      ∧ (isCooldownActive i.1.1 i.1.2 i.2 now' t replied (run_ops set.2 others)).1 = Ok (t <? t0 + k * minutes * 60 * 1000).
Proof.
  intros Hm0 Hpre Hids Hi Hmin Hlast Hord Hothers Ht.
  destruct (multipliers_run pre 0 ∅ r Hpre Hids Hm0) as (r1 & m1 & E1 & Hm1). rewrite E1.
  apply (multipliers_later _ _ t0) in Hm1; [|done]. pose proof (next_multiplier_in now r1 t0 i get Hi Hm1) as Hk.
  unfold setCooldown. cbn [redis memoryCooldowns]. fold (ak i) (ck i).
  destruct (call r1 t0 (ak i) GET get) as [got r2] eqn:E2. cbn [fst] in Hk. set (k := next_multiplier now got) in *.
  assert (0 < k) as Hkpos by (clear - Hk; repeat (apply elem_of_cons in Hk as [-> |Hk]; [lia|]); by apply not_elem_of_nil in Hk).
  rewrite call_replied_setex by nia. rewrite call_replied_setex by lia. cbn [fst snd rmap rbind]. split; [done|].
  set (r3 := (exec r2 t0 (ck i) _).1). set (r4 := (exec r3 t0 (ak i) _).1).
  destruct (unseen_run others t0 m1 r4 i Hord Hi Hothers) as (r5 & m5 & E5 & Hu). rewrite E5.
  exists k. split; [done|]. unfold isCooldownActive. cbn [redis]. fold (ck i).
  pose proof (exec_reply r5 t (ck i) EXISTS) as Hrep. unfold call. destruct (exec r5 t (ck i) EXISTS) as [r6 a].
  cbn [snd run_cmd] in Hrep. rewrite Hu in Hrep by done. assert (t0 ≤ t) as Htt by (etrans; [by apply last_time_le|done]).
  unfold r4 in Hrep. rewrite peek_other in Hrep; [|intros Hc; by apply (ck_ak i i Hi)|done].
  unfold r3 in Hrep. rewrite setex_peek in Hrep by (try nia; done). subst a.
  replace (t0 + minutes * k * 60 * 1000) with (t0 + k * minutes * 60 * 1000) by lia.
  by destruct (t <? t0 + k * minutes * 60 * 1000).
Qed.

End histories.

Definition ex_id : Id := ("r1", "d1", None).
Lemma ex_empty : multipliers_ok (R := gmap string Entry) ∅ 0.
Proof. intros i e _. cbn. by rewrite lookup_empty. Qed.

Lemma cooldown_lasts_witness :
  let pre := [(1000, op_set ex_id 5 1000 replied replied replied)] in
  let others := [(500000, op_set ("r1", "d1", Some "disk:0") 5 500000 replied replied replied)] in
  let set := setCooldown "r1" "d1" 5 None 400000 400000 replied replied replied
               (run_ops (mkStore (Some (∅ : gmap string Entry)) ∅) pre) in
  set.1 = Ok tt
  ∧ ∃ k, k ∈ [1; 2; 4]
      ∧ (isCooldownActive "r1" "d1" None 900000 900000 replied (run_ops set.2 others)).1 = Ok (900000 <? 400000 + k * 5 * 60 * 1000).
Proof.
  apply (cooldown_lasts (∅ : gmap string Entry) [(1000, op_set ex_id 5 1000 replied replied replied)] ex_id 5 400000 400000 replied
           [(500000, op_set ("r1", "d1", Some "disk:0") 5 500000 replied replied replied)] 900000 900000);
    [exact ex_empty|cbn; lia|by repeat constructor|reflexivity|lia|cbn; lia|cbn; lia| |cbn; lia].
  repeat constructor. intros [=].
Defined.

(** The doubled cooldown of the witness is still active at 900 seconds. *)
Example ex_doubled :
  let pre := [(1000, op_set ex_id 5 1000 replied replied replied); (400000, op_set ex_id 5 400000 replied replied replied)] in
  (isCooldownActive "r1" "d1" None 900000 900000 replied (run_ops (mkStore (Some (∅ : gmap string Entry)) ∅) pre)).1 = Ok true.
Proof. vm_compute. reflexivity. Qed.

(** A cooldown of zero minutes is refused by Redis, and the call throws. *)
Lemma zero_cooldown_throws {R} `{Redis R} (r : R) m i now t get set track :
  ∃ e, (setCooldown i.1.1 i.1.2 0 i.2 now t get set track (mkStore (Some r) m)).1 = Err e.
Proof.
  unfold setCooldown. cbn [redis]. destruct (call r t _ GET get) as [got r1]. rewrite Z.mul_0_l. cbn [Z.mul].
  unfold call. match goal with |- context [exec r1 t ?k ?c] => pose proof (exec_reply r1 t k c) as Hr; destruct (exec r1 t k c) as [r2 a] end.
  cbn in Hr. subst a. destruct set; cbn; eauto.
Qed.

(** Moving the cooldown of a component to another rule loses the device. *)
Lemma moved_component_key :
  rekeyed "r2" (buildCooldownKey "r1" "d1" (Some "disk-0")) = buildCooldownKey "r2" "disk-0" None
  ∧ rekeyed "r2" (buildCooldownKey "r1" "d1" None) = buildCooldownKey "r2" "d1" None.
Proof. by vm_compute. Qed.

End Noise.
