(* ===== verification/Alerts.v ===== *)
(** * Alerts

    [services/alertService.ts], the four handlers of [routes/alerts/alerts.ts] that move
    one alert, its bulk handler and [jobs/suppressionExpiryReaper.ts].  An alert is
    created for a rule, a device and possibly a component, unless it is cooling down,
    already open or flapping; it is acknowledged, suppressed, resolved and dismissed by
    compare-and-set; an alert of a component stages its events in its own row
    ([AlertOutbox] delivers them).  [Db] is the alerts with their rules and templates,
    the monitor tables, the retirement outbox and the events published; the noise
    controls are a [Noise.Store].  Clocks, generated ids and whether a publication
    succeeds are inputs; a handler is given the row its first read found, since the row
    may have changed by the time it writes. *)
From S2P Require Import Prelude JsText Redis RateLimit Transaction MonitorEpisodes AlertNoise.
From stdpp Require Import base tactics list sorting strings gmap.
From Stdlib Require Import ZArith Lia.
Open Scope Z_scope.

Module Alerts.
Import Noise.

(** ** Rows *)

Inductive AlertStatus := s_active | s_acknowledged | s_resolved | s_suppressed | s_dismissed.
#[export] Instance AlertStatus_eq_dec : EqDecision AlertStatus.
Proof. solve_decision. Defined.

(** [SubjectAlertDispatch]: the pending event of a row, and the lease of its sender. *)
Record Dispatch := mkDispatch {
  d_eventId : string; d_cooldownMinutes : Z; d_owner : bool; d_leaseToken : option string; d_leaseUntil : option Z }.

Record Alert := mkAlert {
  al_ruleId : option string; al_deviceId : string; al_subjectKey : option string; al_orgId : string;
  al_monitorId : option string; al_episodeId : option string; al_requiresHuman : bool; al_triggeredAt : Z;
  al_status : AlertStatus; al_acknowledgedAt : option Z; al_acknowledgedBy : option string;
  al_resolvedAt : option Z; al_resolvedBy : option string; al_resolutionReason : option string;
  al_suppressedUntil : option Z; al_dismissedAt : option Z; al_dismissedBy : option string;
  al_subjectDispatch : option Dispatch; al_resolutionDispatch : option Dispatch }.

(** A rule with what its override settings say, and a template. *)
Record Rule := mkRule {
  ru_templateId : string; ru_managedByMonitorId : option string; ru_cooldownMinutes : option Z;
  ru_autoResolve : option bool; ru_conditions : option json; ru_autoResolveConditions : option json }.
Record Template := mkTemplate {
  tp_cooldownMinutes : Z; tp_autoResolve : bool; tp_conditions : json; tp_autoResolveConditions : option json }.

Inductive EventType := alert_triggered | alert_acknowledged | alert_resolved.
#[export] Instance EventType_eq_dec : EqDecision EventType.
Proof. solve_decision. Defined.
Record Event := mkEvent { ev_type : EventType; ev_alertId : string; ev_id : string }.

(** [hardware_alert_retirement_outbox], by event id: the recovery of a component that is
    gone, kept apart from the alert. *)
Record Retirement := mkRetirement {
  rt_alertId : string; rt_ruleId : option string; rt_deviceId : string; rt_subjectKey : option string; rt_pending : Dispatch }.

Record Db := mkDb {
  alerts : gmap string Alert; rules : gmap string Rule; templates : gmap string Template;
  monitoring : MonitorEpisodes.Db; retirements : gmap string Retirement; bus : list Event }.

Definition on_alerts (f : gmap string Alert → gmap string Alert) (db : Db) : Db :=
  mkDb (f (alerts db)) (rules db) (templates db) (monitoring db) (retirements db) (bus db).
Definition on_monitoring (f : MonitorEpisodes.Db → MonitorEpisodes.Db) (db : Db) : Db :=
  mkDb (alerts db) (rules db) (templates db) (f (monitoring db)) (retirements db) (bus db).
Definition on_retirements (f : gmap string Retirement → gmap string Retirement) (db : Db) : Db :=
  mkDb (alerts db) (rules db) (templates db) (monitoring db) (f (retirements db)) (bus db).
Definition publish (e : Event) (db : Db) : Db :=
  mkDb (alerts db) (rules db) (templates db) (monitoring db) (retirements db) (e :: bus db).

(** ** Compare-and-set *)

Definition RESOLVABLE_ALERT_STATUSES : list AlertStatus := [s_active; s_acknowledged; s_suppressed].
Definition ACKNOWLEDGEABLE_ALERT_STATUSES : list AlertStatus := [s_active].
Definition SUPPRESSIBLE_ALERT_STATUSES : list AlertStatus := [s_active; s_acknowledged; s_suppressed].
Definition DISMISSIBLE_ALERT_STATUSES : list AlertStatus := [s_active; s_acknowledged; s_suppressed; s_resolved].

(** The row before the write, if the write was made. *)
Definition cas_alert (id : string) (from : list AlertStatus) (set : Alert → Alert) (db : Db) : option Alert * Db :=
  match alerts db !! id with
  | Some a => if bool_decide (al_status a ∈ from) then (Some a, on_alerts <[id := set a]> db) else (None, db)
  | None => (None, db)
  end.

Definition set_status (st : AlertStatus) (a : Alert) : Alert :=
  mkAlert (al_ruleId a) (al_deviceId a) (al_subjectKey a) (al_orgId a) (al_monitorId a) (al_episodeId a) (al_requiresHuman a)
    (al_triggeredAt a) st (al_acknowledgedAt a) (al_acknowledgedBy a) (al_resolvedAt a) (al_resolvedBy a) (al_resolutionReason a)
    (al_suppressedUntil a) (al_dismissedAt a) (al_dismissedBy a) (al_subjectDispatch a) (al_resolutionDispatch a).
Definition set_acknowledged (now : Z) (userId : string) (a : Alert) : Alert :=
  mkAlert (al_ruleId a) (al_deviceId a) (al_subjectKey a) (al_orgId a) (al_monitorId a) (al_episodeId a) (al_requiresHuman a)
    (al_triggeredAt a) s_acknowledged (Some now) (Some userId) (al_resolvedAt a) (al_resolvedBy a) (al_resolutionReason a)
    (al_suppressedUntil a) (al_dismissedAt a) (al_dismissedBy a) (al_subjectDispatch a) (al_resolutionDispatch a).
Definition set_resolved (now : Z) (by_ reason : option string) (a : Alert) : Alert :=
  mkAlert (al_ruleId a) (al_deviceId a) (al_subjectKey a) (al_orgId a) (al_monitorId a) (al_episodeId a) (al_requiresHuman a)
    (al_triggeredAt a) s_resolved (al_acknowledgedAt a) (al_acknowledgedBy a) (Some now) by_ reason
    (al_suppressedUntil a) (al_dismissedAt a) (al_dismissedBy a) (al_subjectDispatch a) (al_resolutionDispatch a).
(** The resolution of a handler: no reason is written. *)
Definition set_resolution_of_user (now : Z) (userId : string) (a : Alert) : Alert :=
  set_resolved now (Some userId) (al_resolutionReason a) a.
Definition set_suppressed (until : option Z) (a : Alert) : Alert :=
  mkAlert (al_ruleId a) (al_deviceId a) (al_subjectKey a) (al_orgId a) (al_monitorId a) (al_episodeId a) (al_requiresHuman a)
    (al_triggeredAt a) s_suppressed (al_acknowledgedAt a) (al_acknowledgedBy a) (al_resolvedAt a) (al_resolvedBy a) (al_resolutionReason a)
    until (al_dismissedAt a) (al_dismissedBy a) (al_subjectDispatch a) (al_resolutionDispatch a).
Definition set_dismissed (now : Z) (userId : string) (a : Alert) : Alert :=
  mkAlert (al_ruleId a) (al_deviceId a) (al_subjectKey a) (al_orgId a) (al_monitorId a) (al_episodeId a) (al_requiresHuman a)
    (al_triggeredAt a) s_dismissed (al_acknowledgedAt a) (al_acknowledgedBy a) (al_resolvedAt a) (al_resolvedBy a) (al_resolutionReason a)
    (al_suppressedUntil a) (Some now) (Some userId) (al_subjectDispatch a) (al_resolutionDispatch a).
Definition set_dispatches (trigger resolution : option Dispatch) (a : Alert) : Alert :=
  mkAlert (al_ruleId a) (al_deviceId a) (al_subjectKey a) (al_orgId a) (al_monitorId a) (al_episodeId a) (al_requiresHuman a)
    (al_triggeredAt a) (al_status a) (al_acknowledgedAt a) (al_acknowledgedBy a) (al_resolvedAt a) (al_resolvedBy a) (al_resolutionReason a)
    (al_suppressedUntil a) (al_dismissedAt a) (al_dismissedBy a) trigger resolution.
Definition set_episode (e : option string) (a : Alert) : Alert :=
  mkAlert (al_ruleId a) (al_deviceId a) (al_subjectKey a) (al_orgId a) (al_monitorId a) e (al_requiresHuman a)
    (al_triggeredAt a) (al_status a) (al_acknowledgedAt a) (al_acknowledgedBy a) (al_resolvedAt a) (al_resolvedBy a) (al_resolutionReason a)
    (al_suppressedUntil a) (al_dismissedAt a) (al_dismissedBy a) (al_subjectDispatch a) (al_resolutionDispatch a).

(** ** Creating *)

Record CreateAlertParams := mkParams {
  cp_ruleId : string; cp_deviceId : string; cp_orgId : string; cp_subjectKey : option string;
  cp_monitorId : option string; cp_episodeId : option string; cp_requiresHuman : bool }.

Definition same_identity (ruleId : option string) (deviceId : string) (subjectKey : option string) (a : Alert) : bool :=
  bool_decide (al_ruleId a = ruleId) && String.eqb (al_deviceId a) deviceId && bool_decide (al_subjectKey a = subjectKey).
Definition is_open_alert (a : Alert) : bool := bool_decide (al_status a ∈ RESOLVABLE_ALERT_STATUSES).

(** An open alert of the identity, as the dedupe query and the unique index see it. *)
Definition open_for (ruleId : option string) (deviceId : string) (subjectKey : option string) (db : Db) : bool :=
  existsb (λ ka, same_identity ruleId deviceId subjectKey ka.2 && is_open_alert ka.2) (map_to_list (alerts db)).

Definition new_alert (p : CreateAlertParams) (rule : Rule) (now : Z) : Alert :=
  mkAlert (Some (cp_ruleId p)) (cp_deviceId p) (cp_subjectKey p) (cp_orgId p)
    (match cp_monitorId p with Some m => Some m | None => ru_managedByMonitorId rule end)
    (cp_episodeId p) (cp_requiresHuman p) now s_active None None None None None None None None None None.

(** [INSERT ... ON CONFLICT DO NOTHING]. *)
Definition insert_alert (p : CreateAlertParams) (rule : Rule) (id : string) (now : Z) (db : Db) : bool * Db :=
  match alerts db !! id with
  | Some _ => (false, db)
  | None => if open_for (Some (cp_ruleId p)) (cp_deviceId p) (cp_subjectKey p) db then (false, db)
            else (true, on_alerts <[id := new_alert p rule now]> db)
  end.

(** The cooldown of a rule: its override, its template's, a fallback. *)
Definition cooldown_of (rule : Rule) (fallback : Z) (db : Db) : Z :=
  match ru_cooldownMinutes rule with
  | Some n => n
  | None => match templates db !! ru_templateId rule with Some tp => tp_cooldownMinutes tp | None => fallback end
  end.

(** The insert of a component's alert with its episode, the claim on the episode and the
    pending event, in one transaction. [monitor] is what an episode is allocated for. *)
Definition insert_subject (p : CreateAlertParams) (rule : Rule) (monitor : option (MonitorEpisodes.Monitor * string)) (id : string)
    (now : Z) : Transaction Db string (option string) :=
  let* inserted := λ db, Ok (insert_alert p rule id now db) in
  if negb inserted then ret None
  else
    let* episode := match cp_episodeId p, monitor with
                    | Some e, _ => ret (Some e)
                    | None, Some (m, newId) => λ db,
                        match MonitorEpisodes.allocateSubjectEpisode m (cp_deviceId p) (cp_orgId p) newId now (monitoring db) with
                        | Ok (e, md) => Ok (Some e, on_monitoring (λ _, md) db)
                        | Err x => Err x
                        end
                    | None, None => ret None
                    end in
    let* owner := λ db, match episode with
                        | Some e => let '(b, md) := MonitorEpisodes.linkEpisodeAlert e id (monitoring db) in
                                    Ok (b, on_monitoring (λ _, md) db)
                        | None => Ok (false, db)
                        end in
    let* cooldown := query (cooldown_of rule 5) in
    let* _ := modify (on_alerts (alter (λ a, set_dispatches (Some (mkDispatch id cooldown owner None None)) (al_resolutionDispatch a)
                                               (set_episode episode a)) id)) in
    ret (Some id).

Section service.
Context {R : Type} `{Redis R}.

(** *** Effects: the tables and the noise controls, and what is thrown *)

Definition Act (A : Type) : Type := Db * Store R → result string A * (Db * Store R).
Definition pure {A} (a : A) : Act A := λ w, (Ok a, w).
Definition fail {A} (e : string) : Act A := λ w, (Err e, w).
Definition andThen {A B} (c : Act A) (k : A → Act B) : Act B :=
  λ w, match c w with (Ok a, w1) => k a w1 | (Err e, w1) => (Err e, w1) end.
Definition reading {A} (f : Db → A) : Act A := λ w, (Ok (f w.1), w).
Definition on_db {A} (f : Db → A * Db) : Act A := λ w, let '(a, db) := f w.1 in (Ok a, (db, w.2)).
Definition in_db {A} (c : Transaction Db string A) : Act A := λ w, let '(r, db) := run_tx c w.1 in (r, (db, w.2)).
(** [withDbTransaction]: a throw takes the tables back, not Redis. *)
Definition atomically {A} (c : Act A) : Act A :=
  λ w, match c w with (Ok a, w1) => (Ok a, w1) | (Err e, w1) => (Err e, (w.1, w1.2)) end.
(** What is thrown is logged. *)
Definition logged {A} (dflt : A) (c : Act A) : Act A :=
  λ w, match c w with (Ok a, w1) => (Ok a, w1) | (Err _, w1) => (Ok dflt, w1) end.
Fixpoint for_each {X A} (l : list X) (f : A → X → Act A) (a : A) : Act A :=
  match l with [] => pure a | x :: l' => andThen (f a x) (for_each l' f) end.

(** How the Redis calls of an operation fare. *)
Record Fates := mkFates {
  f_exists : Landed; f_lrange : Landed; f_get : Landed; f_set : Landed; f_track : Landed;
  f_push : Landed; f_trim : Landed; f_keep : Landed }.

(** Whether an alert may be created: not cooling down, not open, not flapping.  A flapping
    rule that is not a component's is made to cool down. *)
Definition admission (p : CreateAlertParams) (rule : Rule) (now t : Z) (f : Fates) (db : Db) (s : Store R)
    : result string bool * Store R :=
  match isCooldownActive (cp_ruleId p) (cp_deviceId p) (cp_subjectKey p) now t (f_exists f) s with
  | (Err e, s1) => (Err e, s1)
  | (Ok true, s1) => (Ok false, s1)
  | (Ok false, s1) =>
      if open_for (Some (cp_ruleId p)) (cp_deviceId p) (cp_subjectKey p) db then (Ok false, s1)
      else
        match isFlapping (cp_ruleId p) (cp_deviceId p) 10 4 (cp_subjectKey p) now t (f_lrange f) s1 with
        | (Err e, s2) => (Err e, s2)
        | (Ok false, s2) => (Ok true, s2)
        | (Ok true, s2) =>
            match cp_subjectKey p with
            | None => let '(r, s3) := setCooldown (cp_ruleId p) (cp_deviceId p) (cooldown_of rule 5 db) None now t
                                        (f_get f) (f_set f) (f_track f) s2 in (rmap (λ _, false) r, s3)
            | Some _ => (Ok false, s2)
            end
        end
  end.

(** [publishAlertTriggeredOrRollback]: [published], and if not, whether the row was deleted. *)
Definition publishAlertTriggeredOrRollback (id eventId : string) (published deleted : bool) (db : Db) : bool * Db :=
  if published then (true, publish (mkEvent alert_triggered id eventId) db)
  else (false, if deleted then on_alerts (delete id) db else db).

(** What follows a publication: the transition and the cooldown. *)
Definition after_trigger (p : CreateAlertParams) (cooldown now t : Z) (f : Fates) (s : Store R) : result string unit * Store R :=
  match recordStateTransition (cp_ruleId p) (cp_deviceId p) triggered None now t (f_push f) (f_trim f) (f_keep f) s with
  | (Err e, s1) => (Err e, s1)
  | (Ok _, s1) => setCooldown (cp_ruleId p) (cp_deviceId p) cooldown None now t (f_get f) (f_set f) (f_track f) s1
  end.

(** The writes of a call whose checks passed, in the transaction of its caller: the row
    of a component with its pending event, or the row and its publication. [rule] is what
    the call read at its beginning. *)
Definition create_writes (p : CreateAlertParams) (rule : Rule) (monitor : option (MonitorEpisodes.Monitor * string)) (id eventId : string)
    (now : Z) (published deleted : bool) (db : Db) : result string (option string) * Db :=
  match cp_subjectKey p with
  | Some _ => run_tx (insert_subject p rule monitor id now) db
  | None =>
      let '(inserted, db1) := insert_alert p rule id now db in
      if negb inserted then (Ok None, db1)
      else let '(ok, db2) := publishAlertTriggeredOrRollback id eventId published deleted db1 in
           (Ok (if ok then Some id else None), db2)
  end.

(** The whole call, at one moment; [AlertHistory] also lets others run between its checks
    and its writes. *)
Definition createAlert (p : CreateAlertParams) (monitor : option (MonitorEpisodes.Monitor * string)) (id eventId : string)
    (now t : Z) (f : Fates) (published deleted : bool) (w : Db * Store R) : result string (option string) * (Db * Store R) :=
  let '(db, s) := w in
  if bool_decide (cp_subjectKey p = Some "") then (Err "subjectKey must not be empty", w)
  else
    match rules db !! cp_ruleId p with
    | None => (Ok None, w)
    | Some rule =>
        match admission p rule now t f db s with
        | (Err e, s1) => (Err e, (db, s1))
        | (Ok false, s1) => (Ok None, (db, s1))
        | (Ok true, s1) =>
            let '(r, db1) := create_writes p rule monitor id eventId now published deleted db in
            match r, cp_subjectKey p with
            | Ok (Some x), None => let '(done, s2) := after_trigger p (cooldown_of rule 5 db) now t f s1 in
                                   (rmap (λ _, Some x) done, (db1, s2))
            | _, _ => (r, (db1, s1))
            end
        end
    end.

(** [createSourcedAlert]: an alert without a rule. *)
Definition sourced_alert (deviceId orgId : string) (monitorId episodeId : option string) (requiresHuman : bool) (triggeredAt : Z) : Alert :=
  mkAlert None deviceId None orgId monitorId episodeId requiresHuman triggeredAt s_active None None None None None None None None None None.

Definition createSourcedAlert (deviceId orgId : string) (monitorId episodeId : option string) (requiresHuman : bool) (triggeredAt : Z)
    (id eventId : string) (published deleted : bool) (db : Db) : option string * Db :=
  match alerts db !! id with
  | Some _ => (None, db)
  | None =>
      let '(ok, db1) := publishAlertTriggeredOrRollback id eventId published deleted
                          (on_alerts <[id := sourced_alert deviceId orgId monitorId episodeId requiresHuman triggeredAt]> db) in
      (if ok then Some id else None, db1)
  end.

(** ** Resolving *)

(** The effects after the compare-and-set was won: the transition (a failure is logged),
    the cooldown of the rule (a failure throws), the event (a failure throws). *)
Definition resolve_effects (id : string) (a : Alert) (eventId : string) (now t : Z) (f : Fates) (published : bool) (w : Db * Store R)
    : result string bool * (Db * Store R) :=
  let '(db, s) := w in
  let s1 := match al_ruleId a with
            | Some r => (recordStateTransition r (al_deviceId a) resolved (al_subjectKey a) now t (f_push f) (f_trim f) (f_keep f) s).2
            | None => s
            end in
  let '(cooled, s2) := match al_ruleId a ≫= λ r, (r,.) <$> rules db !! r with
                       | Some (r, rule) => setCooldown r (al_deviceId a) (cooldown_of rule 15 db) (al_subjectKey a) now t
                                             (f_get f) (f_set f) (f_track f) s1
                       | None => (Ok tt, s1)
                       end in
  match cooled with
  | Err e => (Err e, (db, s2))
  | Ok _ => if published then (Ok true, (publish (mkEvent alert_resolved id eventId) db, s2))
            else (Err "publish failed", (db, s2))
  end.

(** A component's recovery stages its event in the row instead. *)
Definition stage_resolution (id : string) (a : Alert) (eventId : string) (db : Db) : Db :=
  let cooldown := match al_ruleId a ≫= λ r, rules db !! r with
                  | Some rule => cooldown_of rule 15 db
                  | None => 15
                  end in
  on_alerts (alter (set_dispatches None (Some (mkDispatch eventId cooldown false None None))) id) db.

Definition resolveAlert (id : string) (resolvedBy reason : option string) (deferSubjectEffects : bool) (eventId : string)
    (now t : Z) (f : Fates) (published : bool) (w : Db * Store R) : result string bool * (Db * Store R) :=
  let '(db, s) := w in
  let why := match reason with Some _ => reason | None => (λ _, "manual") <$> truthy resolvedBy end in
  match cas_alert id RESOLVABLE_ALERT_STATUSES (set_resolved now resolvedBy why) db with
  | (None, db1) => (Ok false, (db1, s))
  | (Some a, db1) =>
      match deferSubjectEffects, truthy (al_subjectKey a) with
      | true, Some _ => (Ok true, (stage_resolution id a eventId db1, s))
      | _, _ => resolve_effects id a eventId now t f published (db1, s)
      end
  end.

Definition json_truthy (j : json) : bool :=
  match j with
  | JNull => false
  | JBool b => b
  | JNum n => negb (n =? 0)
  | JStr s => negb (String.eqb s "")
  | _ => true
  end.

(** [evaluate conditions deviceId] is whether the conditions are met. *)
Definition checkAutoResolve (evaluate : json → string → bool) (id eventId : string) (now t : Z) (f : Fates) (published : bool)
    (w : Db * Store R) : result string bool * (Db * Store R) :=
  let '(db, s) := w in
  match alerts db !! id with
  | Some a =>
      if bool_decide (al_status a ≠ s_active) || bool_decide (is_Some (truthy (al_subjectKey a))) || al_requiresHuman a
      then (Ok false, w)
      else
        match al_ruleId a ≫= λ r, rules db !! r with
        | None => (Ok false, w)
        | Some rule =>
            match templates db !! ru_templateId rule with
            | None => (Ok false, w)
            | Some tp =>
                let auto := default (tp_autoResolve tp) (ru_autoResolve rule) in
                let conditions := default JNull (match ru_autoResolveConditions rule with
                                                 | Some c => Some c
                                                 | None => tp_autoResolveConditions tp
                                                 end) in
                let cleared := if json_truthy conditions then evaluate conditions (al_deviceId a)
                               else negb (evaluate (default (tp_conditions tp) (ru_conditions rule)) (al_deviceId a)) in
                if auto && cleared then resolveAlert id None (Some "condition_cleared") false eventId now t f published w
                else (Ok false, w)
            end
        end
  | None => (Ok false, w)
  end.

(** [checkAllAutoResolve]: the count of alerts resolved; what throws is logged.
    [inputs] gives each alert its event id, its Redis calls and its publication. *)
Definition auto_resolvable (orgId : option string) (a : Alert) : bool :=
  bool_decide (al_status a = s_active) && negb (al_requiresHuman a)
  && match truthy orgId with Some o => String.eqb (al_orgId a) o | None => true end.

Definition checkAllAutoResolve (evaluate : json → string → bool) (orgId : option string) (inputs : string → string * Fates * bool)
    (now t : Z) (w : Db * Store R) : nat * (Db * Store R) :=
  foldl (λ acc id, let '(eventId, f, published) := inputs id in
                   match checkAutoResolve evaluate id eventId now t f published acc.2 with
                   | (Ok true, w1) => (S acc.1, w1)
                   | (_, w1) => (acc.1, w1)
                   end)
    (0%nat, w) (List.filter (λ ka, auto_resolvable orgId ka.2) (map_to_list (alerts w.1))).*1.

(** ** The handlers *)

(** [POST /alerts/:id/resolve]: the status the caller gets; the cooldown is that of the
    row first read, and its failure is the caller's error. *)
Definition resolve_handler (seen : option Alert) (id userId eventId : string) (now t : Z) (f : Fates) (published : bool)
    (w : Db * Store R) : Z * (Db * Store R) :=
  let '(db, s) := w in
  match seen with
  | None => (404, w)
  | Some alert =>
      match al_status alert with
      | s_resolved => (409, w)
      | s_dismissed => (400, w)
      | _ =>
          match cas_alert id RESOLVABLE_ALERT_STATUSES (set_resolution_of_user now userId) db with
          | (None, db1) => (409, (db1, s))
          | (Some _, db1) =>
              let '(cooled, s1) := match al_ruleId alert ≫= λ r, (r,.) <$> rules db1 !! r with
                                   | Some (r, rule) => setCooldown r (al_deviceId alert) (cooldown_of rule 15 db1) (al_subjectKey alert)
                                                         now t (f_get f) (f_set f) (f_track f) s
                                   | None => (Ok tt, s)
                                   end in
              match cooled with
              | Err _ => (500, (db1, s1))
              | Ok _ => (200, (if published then publish (mkEvent alert_resolved id eventId) db1 else db1, s1))
              end
          end
      end
  end.

End service.

(** [POST /alerts/:id/acknowledge]. *)
Definition acknowledge_handler (seen : option Alert) (id userId eventId : string) (now : Z) (published : bool) (db : Db) : Z * Db :=
  match seen with
  | None => (404, db)
  | Some alert =>
      match al_status alert with
      | s_acknowledged => (409, db)
      | s_active =>
          match cas_alert id ACKNOWLEDGEABLE_ALERT_STATUSES (set_acknowledged now userId) db with
          | (None, db1) => (409, db1)
          | (Some _, db1) => (200, if published then publish (mkEvent alert_acknowledged id eventId) db1 else db1)
          end
      | _ => (400, db)
      end
  end.

(** A deadline that was asked for: [None] does not parse. *)
Definition deadline (now : Z) (until : option (option Z)) : result unit (option Z) :=
  match until with
  | None => Ok None
  | Some (Some u) => if u <=? now then Err tt else Ok (Some u)
  | Some None => Err tt
  end.

(** [POST /alerts/:id/suppress]. *)
Definition suppress_handler (seen : option Alert) (id : string) (until : option (option Z)) (now : Z) (db : Db) : Z * Db :=
  match seen with
  | None => (404, db)
  | Some alert =>
      match al_status alert with
      | s_resolved | s_dismissed => (400, db)
      | _ =>
          match deadline now until with
          | Err _ => (400, db)
          | Ok suppressedUntil =>
              match cas_alert id SUPPRESSIBLE_ALERT_STATUSES (set_suppressed suppressedUntil) db with
              | (None, db1) => (409, db1)
              | (Some _, db1) => (200, db1)
              end
          end
      end
  end.

(** [POST /alerts/:id/dismiss]. *)
Definition dismiss_handler (seen : option Alert) (id userId : string) (now : Z) (db : Db) : Z * Db :=
  match seen with
  | None => (404, db)
  | Some alert =>
      match al_status alert with
      | s_dismissed => (409, db)
      | _ =>
          match cas_alert id DISMISSIBLE_ALERT_STATUSES (set_dismissed now userId) db with
          | (None, db1) => (409, db1)
          | (Some _, db1) => (200, db1)
          end
      end
  end.

(** ** The bulk handler *)

Inductive BulkAction := b_acknowledge | b_suppress | b_dismiss | b_resolve.
Inductive BulkOutcome := updated | skipped.
#[export] Instance BulkOutcome_eq_dec : EqDecision BulkOutcome.
Proof. solve_decision. Defined.

Definition bulk_skips (action : BulkAction) (st : AlertStatus) : bool :=
  match action with
  | b_acknowledge => bool_decide (st ≠ s_active)
  | b_dismiss => bool_decide (st = s_dismissed)
  | b_suppress | b_resolve => bool_decide (st ∈ [s_resolved; s_dismissed])
  end.
Definition bulk_set (action : BulkAction) (userId : string) (until : option Z) (now : Z) : Alert → Alert :=
  match action with
  | b_acknowledge => set_acknowledged now userId
  | b_suppress => set_suppressed until
  | b_dismiss => set_dismissed now userId
  | b_resolve => set_resolution_of_user now userId
  end.
Definition bulk_event (action : BulkAction) : option EventType :=
  match action with b_acknowledge => Some alert_acknowledged | b_resolve => Some alert_resolved | _ => None end.

(** One alert of the batch, whose snapshot had the status [st]: the write is pinned to it.
    The database answers; an error of it, which the handler counts apart, is not modelled. *)
Definition bulk_one (action : BulkAction) (userId : string) (until : option Z) (now : Z) (id : string) (st : AlertStatus)
    (eventId : string) (published : bool) (db : Db) : BulkOutcome * Db :=
  if bulk_skips action st then (skipped, db)
  else
    match cas_alert id [st] (bulk_set action userId until now) db with
    | (None, db1) => (skipped, db1)
    | (Some _, db1) => (updated, match bulk_event action with
                                 | Some e => if published then publish (mkEvent e id eventId) db1 else db1
                                 | None => db1
                                 end)
    end.

(** The batch: what became of each alert. *)
Definition bulk_handler (action : BulkAction) (userId : string) (until : option (option Z)) (now : Z)
    (accessible : list (string * AlertStatus)) (eventId : string → string) (published : string → bool) (db : Db)
    : Z * list (string * BulkOutcome) * Db :=
  match (match action with b_suppress => deadline now until | _ => Ok None end) with
  | Err _ => (400, [], db)
  | Ok suppressedUntil =>
      match accessible with
      | [] => (404, [], db)
      | _ => foldl (λ acc a, let '(o, db1) := bulk_one action userId suppressedUntil now a.1 a.2 (eventId a.1) (published a.1) acc.2 in
                             (200, acc.1.2 ++ [(a.1, o)], db1)) (200, [], db) accessible
      end
  end.

(** ** The reaper of timed suppressions *)

Definition MAX_REAP_PER_RUN : nat := 500.
Definition suppression_due (now : Z) (a : Alert) : option Z :=
  match al_status a, al_suppressedUntil a with
  | s_suppressed, Some u => if u <? now then Some u else None
  | _, _ => None
  end.
Definition earlier (x y : Z * string) : Prop := x.1 ≤ y.1.
#[export] Instance earlier_dec : RelDecision earlier := λ x y, Z_le_dec x.1 y.1.

(** The earliest deadlines first; [locked] rows are skipped. *)
Definition reap_batch (now : Z) (locked : string → bool) (db : Db) : list string :=
  take MAX_REAP_PER_RUN
    (merge_sort earlier
       (omap (λ ka, if locked ka.1 then None else (λ u, (u, ka.1)) <$> suppression_due now ka.2) (map_to_list (alerts db)))).*2.
Definition set_unsuppressed (a : Alert) : Alert := set_status s_active (set_suppressed None a).
Definition reapExpiredSuppressions (now : Z) (locked : string → bool) (db : Db) : nat * Db :=
  let batch := reap_batch now locked db in
  (length batch, foldl (λ d id, (cas_alert id [s_suppressed] set_unsuppressed d).2) db batch).

End Alerts.

Notation "'let!' x := c 'in' k" := (Alerts.andThen c (fun x => k))
  (at level 10, x pattern, k at level 200) : tx_scope.
