(* ===== verification/AlertSpacing.v ===== *)
(** * No second alert within the cooldown

    [createAlert] of [Alerts] composed with the cooldowns of [AlertNoise]: an alert
    that fired silences its rule on the device until the cooldown of the rule has passed,
    whatever other cooldowns and transitions are recorded in the meantime, as long as Redis
    is connected and the calls that come later start after the cooldown was set. *)
From S2P Require Import Prelude JsText Redis RateLimit Transaction MonitorEpisodes AlertNoise Alerts.
From stdpp Require Import base tactics list strings gmap.
From Stdlib Require Import ZArith Lia.
Open Scope Z_scope.

Module Spacing.
Import Noise Alerts.

Section spacing.
Context {R : Type} `{Redis R}.

(** The cooldown of [i] holds from [t] to [until], and the multipliers are sound. *)
Definition covered (i : Id) (until t : Z) (r : R) : Prop := ∀ t', t ≤ t' → t' < until → is_Some (peek r t' (ck i)).
Definition guarded (i : Id) (until t : Z) (r : R) : Prop := covered i until t r ∧ multipliers_ok r t.

Lemma covered_later i until t t' r : t ≤ t' → covered i until t r → covered i until t' r.
Proof. intros Ht Hc u Hu. apply Hc. lia. Qed.
Lemma covered_unseen i until t r r' : unseen (ck i) t r r' → covered i until t r → covered i until t r'.
Proof. intros Hu Hc u H1 H2. rewrite Hu by done. by apply Hc. Qed.

(** A cooldown of at least [minutes] set on [i] keeps it covered for that long. *)
Lemma set_covers i minutes more now t get set track m (r : R) until :
  id_ok i = true → 0 < minutes → minutes ≤ more → until ≤ t + minutes * 60 * 1000 → multipliers_ok r t →
  let answer := setCooldown i.1.1 i.1.2 more i.2 now t get set track (mkStore (Some r) m) in
  (covered i until t r ∨ answer.1 = Ok tt) → ∃ r', redis answer.2 = Some r' ∧ covered i until t r'.
Proof.
  intros Hi Hpos Hle Hu Hm. unfold setCooldown. cbn [redis memoryCooldowns]. fold (ak i) (ck i).
  pose proof (next_multiplier_in now r t i get Hi Hm) as Hk.
  assert (unseen (ck i) t r (call r t (ak i) GET get).2) as U1 by (apply call_unseen; intros Hc; by apply (ck_ak i i Hi)).
  destruct (call r t (ak i) GET get) as [got r1] eqn:E1. cbn [fst snd] in *. set (k := next_multiplier now got) in *.
  assert (1 ≤ k) as Hk1 by (clear - Hk; repeat (apply elem_of_cons in Hk as [-> |Hk]; [lia|]); by apply not_elem_of_nil in Hk).
  set (n := more * k * 60). assert (minutes * 60 ≤ n) as Hn by (unfold n; nia).
  assert (Hset : ∀ l, (call r1 t (ck i) (SETEX n (VJson (cooldown_json now k))) l).2 = r1
                      ∨ covered i until t (call r1 t (ck i) (SETEX n (VJson (cooldown_json now k))) l).2).
  { intros l. destruct (call_cases r1 t (ck i) (SETEX n (VJson (cooldown_json now k))) l) as [-> | ->]; [by left|right].
    intros t' H1 H2. rewrite setex_peek by lia. rewrite (proj2 (Z.ltb_lt _ _)) by lia. eauto. }
  assert (Hran : ∀ l a, (call r1 t (ck i) (SETEX n (VJson (cooldown_json now k))) l).1 = Ok a →
                   covered i until t (call r1 t (ck i) (SETEX n (VJson (cooldown_json now k))) l).2).
  { intros l a. destruct l as [|b]; [|by unfold call; destruct (exec _ _ _ _); destruct b].
    rewrite call_replied_setex by lia. intros _ t' H1 H2. cbn [snd]. rewrite setex_peek by lia. rewrite (proj2 (Z.ltb_lt _ _)) by lia. eauto. }
  specialize (Hset set). specialize (Hran set). destruct (call r1 t (ck i) _ set) as [a r2]. cbn [fst snd] in *. destruct a as [a|e].
  - assert (unseen (ck i) t r2 (call r2 t (ak i) (SETEX 3600 (VJson (cooldown_json now k))) track).2) as U3
      by (apply call_unseen; intros Hc; by apply (ck_ak i i Hi)).
    destruct (call r2 t (ak i) _ track) as [b r3]. cbn. intros _. exists r3. split; [done|]. eapply covered_unseen; [exact U3|]. by eapply Hran.
  - cbn. intros [Hc|[=]]. exists r2. split; [done|]. destruct Hset as [->|]; [|done]. by eapply covered_unseen.
Qed.

Lemma record_unseen key i x now t push trim keep m (r : R) :
  key ≠ fk i →
  ∃ r', redis (recordStateTransition i.1.1 i.1.2 x i.2 now t push trim keep (mkStore (Some r) m)).2 = Some r' ∧ unseen key t r r'.
Proof.
  intros Hk. unfold recordStateTransition. cbn [redis memoryCooldowns]. fold (fk i).
  assert (Hc : ∀ q c l, unseen key t q (call q t (fk i) c l).2) by (intros; by apply call_unseen).
  specialize (Hc r (RPUSH (transition_json x now)) push) as U1. destruct (call r t (fk i) _ push) as [a r1]. cbn [snd] in U1.
  destruct a as [a|]; [|cbn; eauto].
  specialize (Hc r1 (LTRIM_last 20) trim) as U2. destruct (call r1 t (fk i) _ trim) as [b r2]. cbn [snd] in U2.
  destruct b as [b|]; [|cbn; eauto using unseen_trans].
  specialize (Hc r2 (EXPIRE 1800) keep) as U3. destruct (call r2 t (fk i) _ keep) as [c r3]. cbn in *. eauto using unseen_trans.
Qed.

(** Operations that do not shorten the cooldown of [i]: those of other alerts, its own
    transitions, and cooldowns of it that are no shorter. *)
Definition harmless (i : Id) (minutes : Z) (o : Op) : Prop :=
  id_ok (op_id o) = true
  ∧ (op_id o ≠ i ∨ match o with op_set _ more _ _ _ _ => minutes ≤ more | op_record _ _ _ _ _ _ => True | _ => False end).

Lemma guarded_op i minutes until o t m (r : R) :
  id_ok i = true → 0 < minutes → until ≤ t + minutes * 60 * 1000 → harmless i minutes o → guarded i until t r →
  ∃ r' m', apply_op (mkStore (Some r) m) (t, o) = mkStore (Some r') m' ∧ guarded i until t r'.
Proof.
  intros Hi Hpos Hu [Ho Hh] [Hc Hm]. destruct (multipliers_op o t m r Ho Hm) as (r' & m' & E & Hm').
  exists r', m'. split; [done|]. split; [|done]. destruct (decide (op_id o = i)) as [Ei|Hne].
  - destruct Hh as [Hne|Hh]; [done|]. destruct o as [j more now get set track|rl d l|rl d minutes' now ttl extend get set track|j x now push trim keep];
      cbn in Ei; try done; subst j; unfold apply_op in E; cbn [fst snd] in E.
    + destruct (set_covers i minutes more now t get set track m r until Hi Hpos Hh Hu Hm) as (r2 & E2 & Hc2); [by left|].
      rewrite E in E2. injection E2 as ->. done.
    + destruct (record_unseen (ck i) i x now t push trim keep m r) as (r2 & E2 & U2); [intros Hk; by apply (fk_ck i i)|].
      rewrite E in E2. injection E2 as ->. by eapply covered_unseen.
  - destruct (op_unseen o t m r (ck i)) as (r2 & m2 & E2 & U2).
    { intros ?%ck_inj; [by subst|done..]. } { by apply ck_ak. } { intros Hk. by apply (fk_ck (op_id o) i). }
    rewrite E in E2. injection E2 as -> ->. by eapply covered_unseen.
Qed.

Lemma guarded_run i minutes until ops t0 m (r : R) :
  id_ok i = true → 0 < minutes → until ≤ t0 + minutes * 60 * 1000 → in_order t0 ops → Forall (λ o, harmless i minutes o.2) ops →
  guarded i until t0 r →
  ∃ r' m', run_ops (mkStore (Some r) m) ops = mkStore (Some r') m' ∧ guarded i until (last_time t0 ops) r'.
Proof.
  intros Hi Hpos. revert t0 m r. induction ops as [|[t o] ops IH]; intros t0 m r Hu Ho Hall Hg; [by eauto|].
  destruct Ho as [Ht Ho]. apply Forall_cons in Hall as [Hh Hall]. cbn [fst snd] in *.
  destruct (guarded_op i minutes until o t m r Hi Hpos) as (r1 & m1 & E & Hg1); [lia|done| |].
  { destruct Hg as [Hc Hm]. split; [by eapply covered_later|by eapply multipliers_later]. }
  destruct (IH t m1 r1 ltac:(lia) Ho Hall Hg1) as (r' & m' & E' & Hg'). exists r', m'. split; [|done].
  unfold run_ops in *. cbn [foldl]. by rewrite E.
Qed.

(** The last step of a call that created an alert, answered: the cooldown is set. *)
Lemma triggered_covers p minutes now t f m (r : R) s' :
  let i := (cp_ruleId p, cp_deviceId p, None) in
  id_ok i = true → 0 < minutes → multipliers_ok r t →
  after_trigger p minutes now t f (mkStore (Some r) m) = (Ok tt, s') →
  ∃ r' m', s' = mkStore (Some r') m' ∧ guarded i (t + minutes * 60 * 1000) t r'.
Proof.
  intros i Hi Hpos Hm. unfold after_trigger.
  destruct (multipliers_op (op_record i triggered now (f_push f) (f_trim f) (f_keep f)) t m r Hi Hm) as (r3 & m3 & E3 & M3).
  unfold apply_op in E3. cbn [fst snd i] in E3. destruct (recordStateTransition _ _ _ _ _ _ _ _ _ _) as [[u|e] s3]; [|done].
  cbn [snd] in E3. subst s3.
  destruct (multipliers_set i minutes now t (f_get f) (f_set f) (f_track f) m3 r3 Hi M3) as (r4 & E4 & M4).
  pose proof (set_covers i minutes minutes now t (f_get f) (f_set f) (f_track f) m3 r3 (t + minutes * 60 * 1000) Hi Hpos ltac:(lia) ltac:(lia) M3) as Hc.
  cbn [fst snd i] in *. destruct (setCooldown _ _ _ _ _ _ _ _ _ _) as [[[]|e] s4]; [|done]. cbn in *.
  intros [= <-]. destruct Hc as (r5 & E5 & Hc5); [by right|]. destruct s4 as [q m4]. cbn in *. subst q. injection E5 as <-. by exists r4, m4.
Qed.

(** A whole call that answered with an alert of no component ended with that step. *)
Lemma created_triggered p monitor id eventId now t f published deleted db (s : Store R) x w' :
  cp_subjectKey p = None → createAlert p monitor id eventId now t f published deleted (db, s) = (Ok (Some x), w') →
  ∃ rule s1, rules db !! cp_ruleId p = Some rule ∧ (admission p rule now t f db s) = (Ok true, s1)
    ∧ after_trigger p (cooldown_of rule 5 db) now t f s1 = (Ok tt, w'.2).
Proof.
  intros Hk. unfold createAlert. case_bool_decide; [done|]. destruct (rules db !! _) as [rule|]; [|done].
  destruct (admission _ _ _ _ _ _ _) as [[[]|] s1] eqn:Ea; try done. rewrite Hk. destruct (create_writes _ _ _ _ _ _ _ _ _) as [[[y|]|] db1]; try done.
  destruct (after_trigger _ _ _ _ _ _) as [[[]|] s2] eqn:Et; [|done]. intros [= <- <-]. by exists rule, s1.
Qed.

(** While the cooldown holds, a call creates nothing: the tables are as they were. *)
Lemma covered_creates_nothing p monitor id eventId now t f published deleted db m (r : R) until t0 :
  let i := (cp_ruleId p, cp_deviceId p, None) in
  cp_subjectKey p = None → covered i until t0 r → t0 ≤ t → t < until →
  let answer := createAlert p monitor id eventId now t f published deleted (db, mkStore (Some r) m) in
  (answer.1 = Ok None ∨ ∃ e, answer.1 = Err e) ∧ answer.2.1 = db.
Proof.
  intros i Hk Hc Ht1 Ht2. cbn zeta. unfold createAlert. rewrite Hk. case_bool_decide; [done|].
  destruct (rules db !! cp_ruleId p) as [rule|]; [|by split; [left|]].
  unfold admission. rewrite Hk. unfold isCooldownActive. cbn [redis].
  change (buildCooldownKey (cp_ruleId p) (cp_deviceId p) None) with (ck i).
  pose proof (exec_reply r t (ck i) EXISTS) as Hrep. unfold call. destruct (exec r t (ck i) EXISTS) as [r4 a].
  cbn [snd run_cmd] in Hrep. destruct (Hc t Ht1 Ht2) as [e He]. rewrite He in Hrep. subst a.
  destruct (f_exists f) as [|[]]; cbn; split; eauto.
Qed.

(** C13: alerts are spaced.  [createAlert] of an alert of no component ends, once the
    alert is published, by recording the transition and setting the cooldown
    ([after_trigger]).  After that step was answered at time [t0], no call that starts
    before the cooldown of the rule, as that call read it, has passed creates an alert for
    the rule and the device: it answers that none was created, or throws when the reply of
    Redis is lost, and leaves the tables as they are, whatever they have become (the alert
    may have been resolved at once) and whatever was recorded meanwhile, answered by Redis
    or not: other alerts' records, and this one's transitions and cooldowns no shorter than
    the rule's.  Redis is connected at both calls and in between, its clock does not run
    back and it holds at first no multiplier but those the code writes; identifiers do not
    contain the separator of the keys; the cooldown is positive and nobody clears or
    extends it; a call that passed its checks before [t0] is not held back. *)
Theorem alerts_are_spaced (r : R) m pre p rule db now t0 f s'
    others p' monitor' id' eventId' now' t f' published' deleted' db' :
  let i := (cp_ruleId p, cp_deviceId p, None) in let minutes := cooldown_of rule 5 db in
  multipliers_ok r 0 → in_order 0 pre → Forall (λ o, id_ok (op_id o.2) = true) pre → last_time 0 pre ≤ t0 →
  id_ok i = true → 0 < minutes →
  after_trigger p minutes now t0 f (run_ops (mkStore (Some r) m) pre) = (Ok tt, s') →
  in_order t0 others → Forall (λ o, harmless i minutes o.2) others →
  cp_ruleId p' = cp_ruleId p → cp_deviceId p' = cp_deviceId p → cp_subjectKey p' = None →
  last_time t0 others ≤ t → t < t0 + minutes * 60 * 1000 →
  let answer := createAlert p' monitor' id' eventId' now' t f' published' deleted' (db', run_ops s' others) in
  (answer.1 = Ok None ∨ ∃ e, answer.1 = Err e) ∧ answer.2.1 = db'.
Proof.
  intros i minutes Hm0 Hpre Hids Hlast Hi Hpos Hcr Hord Hoth Er Ed Ek Ht1 Ht2.
  destruct (multipliers_run pre 0 m r Hpre Hids Hm0) as (r1 & m1 & E1 & Hm1). rewrite E1 in Hcr.
  apply (multipliers_later _ _ t0) in Hm1; [|done].
  destruct (triggered_covers _ _ _ _ _ _ _ _ Hi Hpos Hm1 Hcr) as (r2 & m2 & -> & Hg).
  destruct (guarded_run i _ (t0 + minutes * 60 * 1000) others t0 m2 r2 Hi Hpos ltac:(lia) Hord Hoth Hg) as (r3 & m3 & -> & [Hc _]).
  eapply covered_creates_nothing; [done|by rewrite Er, Ed|done|done].
Qed.

End spacing.

Definition ex_spaced_rule : Rule := mkRule "t1" None (Some 5) (Some true) None None.
Definition ex_spaced_db : Db := mkDb ∅ {["r1" := ex_spaced_rule]} ∅ (MonitorEpisodes.mkDb ∅ ∅) ∅ [].
Definition ex_spaced_params : CreateAlertParams := mkParams "r1" "d1" "o1" None None None false.
Definition ex_fates : Fates := mkFates replied replied replied replied replied replied replied replied.
Definition ex_first : result string (option string) * (Db * Store (gmap string Entry)) :=
  createAlert ex_spaced_params None "a1" "e1" 1000 1000 ex_fates true true (ex_spaced_db, mkStore (Some ∅) ∅).
Definition ex_last_step : Store (gmap string Entry) :=
  (after_trigger ex_spaced_params 5 1000 1000 ex_fates (run_ops (mkStore (Some ∅) ∅) [])).2.

Definition ex_others : list (Z * Op) :=
  [(61000, op_record ("r1", "d1", None) resolved 61000 replied replied replied); (61000, op_set ("r1", "d1", None) 5 61000 replied replied replied)].

Definition ex_again (s : Store (gmap string Entry)) (t : Z) : result string (option string) * (Db * Store (gmap string Entry)) :=
  createAlert ex_spaced_params None "a2" "e2" t t ex_fates true true (ex_spaced_db, s).

(** Resolved after a minute, with the same cooldown; refused after three and created again
    after seventeen (the cooldown had doubled). *)
Lemma alerts_are_spaced_witness :
  let again := ex_again (run_ops ex_last_step ex_others) in
  ((again 181000).1 = Ok None ∨ ∃ e, (again 181000).1 = Err e) ∧ (again 181000).2.1 = ex_spaced_db
  ∧ (again 1081000).1 = Ok (Some "a2").
Proof.
  cbn zeta. apply and_assoc. split; [|vm_compute; reflexivity].
  apply (alerts_are_spaced (∅ : gmap string Entry) ∅ [] ex_spaced_params ex_spaced_rule ex_spaced_db 1000 1000 ex_fates ex_last_step ex_others);
    [exact ex_empty|done|done|cbn; lia|reflexivity|cbn; lia|vm_compute; reflexivity|cbn; lia| |reflexivity|reflexivity|reflexivity|cbn; lia|cbn; lia].
  constructor; [split; [reflexivity|right; exact I]|constructor; [split; [reflexivity|right; cbn; lia]|constructor]].
Defined.

(** ** Edges *)

(** A process that has lost Redis consults its own memory instead, which knows nothing of
    the cooldown: a second alert is created within it. *)
Example redis_lost_creates_again :
  ex_first.1 = Ok (Some "a1") ∧ (ex_again ex_first.2.2 181000).1 = Ok None
  ∧ (ex_again (mkStore None (memoryCooldowns ex_first.2.2)) 181000).1 = Ok (Some "a2").
Proof. vm_compute. done. Qed.

End Spacing.
