(* ===== verification/AlertOutbox.v ===== *)
(** * The outboxes of component alerts

    [services/subjectAlertOutbox.ts], [services/hardwareHealth/retire.ts] and
    [retirementOutbox.ts].  The alert of a component is written with a pending event in
    its row; a dispatcher claims rows for five minutes, publishes, and then acknowledges
    or undoes.  Each statement of the dispatcher is one definition, since other requests
    run between them; [deliver] puts them in the order of the code.  Which rows a batch
    holds (the oldest hundred that no one has locked) is an input. *)
From S2P Require Import Prelude JsText Redis RateLimit Transaction MonitorEpisodes AlertNoise Alerts.
From stdpp Require Import base tactics list strings gmap.
From Stdlib Require Import ZArith Lia.
Open Scope Z_scope.

Module Outbox.
Import Noise Alerts.

Inductive Slot := trigger_slot | resolution_slot.
#[export] Instance Slot_eq_dec : EqDecision Slot.
Proof. solve_decision. Defined.

Definition slot_of (slot : Slot) (a : Alert) : option Dispatch :=
  match slot with trigger_slot => al_subjectDispatch a | resolution_slot => al_resolutionDispatch a end.
Definition with_slot (slot : Slot) (d : option Dispatch) (a : Alert) : Alert :=
  match slot with
  | trigger_slot => set_dispatches d (al_resolutionDispatch a) a
  | resolution_slot => set_dispatches (al_subjectDispatch a) d a
  end.
Definition slot_statuses (slot : Slot) : list AlertStatus :=
  match slot with trigger_slot => [s_active; s_acknowledged; s_suppressed] | resolution_slot => [s_resolved] end.
Definition slot_event (slot : Slot) : EventType :=
  match slot with trigger_slot => alert_triggered | resolution_slot => alert_resolved end.

Definition leased (token : option string) (until : option Z) (d : Dispatch) : Dispatch :=
  mkDispatch (d_eventId d) (d_cooldownMinutes d) (d_owner d) token until.
Definition LEASE_MS : Z := 5 * 60 * 1000.

(** ** Claiming *)

(** What the worker holds of a row: as returned by the claim. *)
Record Claimed := mkClaimed { c_id : string; c_row : Alert; c_pending : Dispatch }.

Definition claimable (slot : Slot) (deviceId : option string) (now : Z) (a : Alert) : bool :=
  match slot_of slot a with
  | Some d => bool_decide (al_status a ∈ slot_statuses slot)
              && match deviceId with Some v => String.eqb (al_deviceId a) v | None => true end
              && match d_leaseUntil d with Some u => u <? now | None => true end
  | None => false
  end.

Definition claim_one (slot : Slot) (deviceId : option string) (token : string) (now : Z) (id : string) (db : Db)
    : option Claimed * Db :=
  match alerts db !! id with
  | Some a =>
      if claimable slot deviceId now a then
        let held := leased (Some token) (Some (now + LEASE_MS)) <$> slot_of slot a in
        let a1 := with_slot slot held a in
        (mkClaimed id a1 <$> held, on_alerts <[id := a1]> db)
      else (None, db)
  | None => (None, db)
  end.

Definition claim (slot : Slot) (deviceId : option string) (token : string) (now : Z) (batch : list string) (db : Db)
    : list Claimed * Db :=
  foldl (λ acc id, let '(c, db1) := claim_one slot deviceId token now id acc.2 in (acc.1 ++ option_list c, db1)) ([], db) batch.

(** ** Delivering one row *)

Definition holds_lease (slot : Slot) (c : Claimed) (a : Alert) : bool :=
  match slot_of slot a ≫= d_leaseToken, d_leaseToken (c_pending c) with
  | Some x, Some y => String.eqb x y
  | _, _ => false
  end.
Definition owned (slot : Slot) (c : Claimed) (db : Db) : option Alert :=
  match alerts db !! c_id c with Some a => if holds_lease slot c a then Some a else None | None => None end.

Definition renew (slot : Slot) (c : Claimed) (now : Z) (db : Db) : bool * Db :=
  match owned slot c db with
  | Some a => if bool_decide (al_status a ∈ slot_statuses slot)
              then (true, on_alerts <[c_id c := with_slot slot ((λ d, leased (d_leaseToken d) (Some (now + LEASE_MS)) d) <$> slot_of slot a) a]> db)
              else (false, db)
  | None => (false, db)
  end.

Definition acknowledge (slot : Slot) (c : Claimed) (db : Db) : Db :=
  match owned slot c db with
  | Some a => on_alerts <[c_id c := with_slot slot None a]> db
  | None => db
  end.

(** A failed trigger is undone: the alert never was.  A failed resolution is released. *)
Definition compensate (slot : Slot) (c : Claimed) (db : Db) : Db :=
  match owned slot c db with
  | None => db
  | Some a =>
      match slot with
      | resolution_slot => on_alerts <[c_id c := with_slot slot (leased None None <$> slot_of slot a) a]> db
      | trigger_slot =>
          on_alerts (delete (c_id c)) (on_monitoring (MonitorEpisodes.takeBackAlert (c_id c) (al_episodeId (c_row c))) db)
      end
  end.

Section dispatcher.
Context {R : Type} `{Redis R}.

(** The effects of a delivery, each of which may fail without the others. *)
Definition effects (slot : Slot) (c : Claimed) (now t : Z) (f : Fates) (s : Store R) : Store R :=
  match truthy (al_ruleId (c_row c)), truthy (al_subjectKey (c_row c)) with
  | Some r, Some k =>
      let x := match slot with trigger_slot => triggered | resolution_slot => resolved end in
      let s1 := (recordStateTransition r (al_deviceId (c_row c)) x (Some k) now t (f_push f) (f_trim f) (f_keep f) s).2 in
      (setCooldown r (al_deviceId (c_row c)) (d_cooldownMinutes (c_pending c)) (Some k) now t (f_get f) (f_set f) (f_track f) s1).2
  | _, _ => s
  end.

(** One claimed row.  [published]: whether the publication succeeded; [settled]: whether
    the write after it did. *)
Definition deliver (slot : Slot) (c : Claimed) (now t : Z) (f : Fates) (published settled : bool) (w : Db * Store R) : Db * Store R :=
  let '(db, s) := w in
  let '(live, db1) := renew slot c now db in
  if negb live then (db1, s)
  else if published then
    let db2 := publish (mkEvent (slot_event slot) (c_id c) (d_eventId (c_pending c))) db1 in
    (if settled then acknowledge slot c db2 else db2, effects slot c now t f s)
  else (if settled then compensate slot c db1 else db1, s).

(** ** Escalations of component monitors *)

(** [stagePendingSubjectEscalations], for one pair whose monitor is of a component kind
    and whose device is not parked: the alert and its event, and the stamp on the state. *)
Definition stage_escalation (p : string * string) (orgId id : string) (now : Z) : Transaction Db string unit :=
  let* state := query (λ db, MonitorEpisodes.states (monitoring db) !! p) in
  match state ≫= MonitorEpisodes.escalation_due with
  | None => ret tt
  | Some episodeId =>
      let* taken := query (λ db, bool_decide (is_Some (alerts db !! id))) in
      if (taken : bool) then throw "duplicate key"
      else
        let* _ := modify (on_alerts <[id := set_dispatches (Some (mkDispatch id 0 true None None)) None
                                              (sourced_alert p.2 orgId (Some p.1) (Some episodeId) true now)]>) in
        modify (on_monitoring (MonitorEpisodes.stampEscalation p.1 p.2 id))
  end.
Fixpoint stagePendingSubjectEscalations (batch : list (string * string * string * string)) (now : Z) : Transaction Db string unit :=
  match batch with
  | [] => ret tt
  | (monitorId, deviceId, orgId, id) :: batch' =>
      let* _ := stage_escalation (monitorId, deviceId) orgId id now in stagePendingSubjectEscalations batch' now
  end.

(** ** Components that are gone *)

Definition stageRetiredSubjectResolution (id : string) : Transaction Db string unit :=
  let* row := query (λ db, alerts db !! id) in
  match row with
  | Some a =>
      match al_status a, al_resolutionDispatch a with
      | s_resolved, Some d =>
          let* taken := query (λ db, bool_decide (is_Some (retirements db !! d_eventId d))) in
          if (taken : bool) then throw "duplicate key"
          else
            let* _ := modify (on_retirements <[d_eventId d := mkRetirement id (al_ruleId a) (al_deviceId a) (al_subjectKey a)
                                                                (leased None None d)]>) in
            modify (on_alerts <[id := with_slot resolution_slot None a]>)
      | _, _ => throw "Retired subject has no recovery envelope"
      end
  | None => throw "Retired subject has no recovery envelope"
  end.

(** [eventId] gives each alert the id of its event. *)
Definition resolveAlertsForRemovedComponents (deviceId : string) (componentKeys : list string) (eventId : string → string)
    (now t : Z) (f : Fates) (published : bool) : Act nat :=
  match componentKeys with
  | [] => pure 0%nat
  | _ =>
      atomically (
        let! open := reading (λ db, (List.filter (λ ka, String.eqb (al_deviceId ka.2) deviceId
                                                   && match al_subjectKey ka.2 with
                                                      | Some k => bool_decide (k ∈ componentKeys)
                                                      | None => false
                                                      end
                                                   && is_open_alert ka.2) (map_to_list (alerts db))).*1) in
        for_each open (λ count id,
          let! won := resolveAlert (R := R) id None (Some "source_retired") true (eventId id) now t f published in
          if negb won then pure count
          else let! _ := in_db (stageRetiredSubjectResolution id) in pure (S count)) 0%nat)
  end.

(** [drainRetirementOutbox]: claim a row, and deliver what was claimed. *)
Definition retirement_leased (token : option string) (until : option Z) (r : Retirement) : Retirement :=
  mkRetirement (rt_alertId r) (rt_ruleId r) (rt_deviceId r) (rt_subjectKey r) (leased token until (rt_pending r)).
Definition claim_retirement (deviceId : option string) (token : string) (now : Z) (id : string) (db : Db) : option Retirement * Db :=
  match retirements db !! id with
  | Some r => if match d_leaseUntil (rt_pending r) with Some u => u <? now | None => true end
                 && match deviceId with Some v => String.eqb (rt_deviceId r) v | None => true end
              then let r1 := retirement_leased (Some token) (Some (now + LEASE_MS)) r in (Some r1, on_retirements <[id := r1]> db)
              else (None, db)
  | None => (None, db)
  end.

(** The write on a row the worker still holds. *)
Definition on_owned (id token : string) (f : option Retirement → option Retirement) (db : Db) : Db :=
  match retirements db !! id with
  | Some r => if bool_decide (d_leaseToken (rt_pending r) = Some token) then on_retirements (partial_alter f id) db else db
  | None => db
  end.

Definition retirement_event (r : Retirement) : Event := mkEvent alert_resolved (rt_alertId r) (d_eventId (rt_pending r)).
Definition retirement_effects (r : Retirement) (now t : Z) (f : Fates) (s : Store R) : result string unit * Store R :=
  match rt_ruleId r, rt_subjectKey r with
  | Some rule, Some k =>
      match recordStateTransition rule (rt_deviceId r) resolved (Some k) now t (f_push f) (f_trim f) (f_keep f) s with
      | (Err e, s1) => (Err e, s1)
      | (Ok _, s1) => setCooldown rule (rt_deviceId r) (d_cooldownMinutes (rt_pending r)) (Some k) now t
                        (f_get f) (f_set f) (f_track f) s1
      end
  | _, _ => (Ok tt, s)
  end.
Definition settle_retirement (id token : string) : Db → Db := on_owned id token (λ _, None).
Definition release_retirement (id token : string) : Db → Db := on_owned id token (fmap (retirement_leased None None)).

Definition deliver_retirement (id token : string) (r : Retirement) (now t : Z) (f : Fates) (published : bool) (w : Db * Store R)
    : Db * Store R :=
  let '(db, s) := w in
  if negb published then (release_retirement id token db, s)
  else
    let db1 := publish (retirement_event r) db in
    match retirement_effects r now t f s with
    | (Ok _, s1) => (settle_retirement id token db1, s1)
    | (Err _, s1) => (release_retirement id token db1, s1)
    end.

End dispatcher.

End Outbox.
