(* ===== verification/AlertSweep.v ===== *)
(** * The alert sweep of a device

    [services/alertSubjects.ts] and [evaluateDeviceAlertsInMode] of
    [services/alertService.ts]: every rule that applies to a device is evaluated; a
    breach opens or keeps an episode of its monitor, an escalation is raised when the
    monitor recurs, an alert is created; a rule about components reconciles one alert per
    component; monitors that no longer apply are detached.  The rules that apply and the
    result of their conditions are inputs. *)
From S2P Require Import Prelude JsText ZoneClock Redis RateLimit Transaction Maintenance MonitorEpisodes AlertNoise Alerts AlertOutbox.
From stdpp Require Import base tactics list strings gmap.
From Stdlib Require Import ZArith Lia.
Open Scope Z_scope.

Module Sweep.
Import Noise Alerts Outbox.
Import MonitorEpisodes (Monitor, m_id, Observation, breach, ok, unknown).

(** ** Evidence *)

Inductive SubjectStatus := sb_breaching | sb_recovered | sb_unknown.
#[export] Instance SubjectStatus_eq_dec : EqDecision SubjectStatus.
Proof. solve_decision. Defined.
Record Subject := mkSubject { sb_key : string; sb_status : SubjectStatus }.
Record EvaluationResult := mkEvaluation { er_triggered : bool; er_unknown : bool; er_subjects : option (list Subject) }.

Definition SUBJECT_MONITOR_KINDS : list string := ["hardware_health"; "time_sync"].
Definition isSubjectMonitorKind (kind : option string) : bool :=
  match kind with Some k => bool_decide (k ∈ SUBJECT_MONITOR_KINDS) | None => false end.

(** The entry of a key in a [Map] built from the list: the last one. *)
Definition by_key (subjects : list Subject) (key : string) : option SubjectStatus :=
  sb_status <$> List.find (λ s, String.eqb (sb_key s) key) (rev subjects).

(** A rule that applies, with its template and its monitor with its kind. *)
Record Applicable := mkApplicable {
  ap_ruleId : string; ap_rule : Rule; ap_template : Template; ap_monitor : option (Monitor * string) }.

Inductive Mode := device_sweep | network_check (monitorIds : list string).

(** What a rule is given from outside: its evaluations, the ids generated, how calls fare. *)
Record Inputs := mkInputs {
  i_first : result string EvaluationResult; i_second : result string EvaluationResult;
  i_alertId : option string → string; i_episodeId : option string → string; i_eventId : string → string;
  i_escalationId : string; i_escalationEvent : string;
  i_fates : option string → Fates; i_published : bool; i_deleted : bool; i_escalated : bool; i_stamped : bool }.

Definition with_monitoring {A} (c : Transaction MonitorEpisodes.Db string A) : Transaction Db string A :=
  λ db, match c (monitoring db) with Ok (a, md) => Ok (a, on_monitoring (λ _, md) db) | Err e => Err e end.

Section sweep.
Context {R : Type} `{Redis R}.
Context (formatToParts : string → Z → option Parts) (Date_parse : string → option Z).

(** ** Components *)

Definition open_subjects (ruleId deviceId : string) (db : Db) : list (string * Alert) :=
  List.filter (λ ka, bool_decide (al_ruleId ka.2 = Some ruleId) && String.eqb (al_deviceId ka.2) deviceId
                     && bool_decide (is_Some (al_subjectKey ka.2)) && is_open_alert ka.2) (map_to_list (alerts db)).

Definition subject_params (a : Applicable) (deviceId orgId key : string) : CreateAlertParams :=
  mkParams (ap_ruleId a) deviceId orgId (Some key) (ru_managedByMonitorId (ap_rule a)) None false.

(** The breaching components, in turn. *)
Definition create_subject (a : Applicable) (deviceId orgId : string) (i : Inputs) (now t : Z) (created : list string) (s : Subject)
    : Act (R := R) (list string) :=
  match sb_status s with
  | sb_breaching =>
      let k := Some (sb_key s) in
      let! id := createAlert (subject_params a deviceId orgId (sb_key s)) ((λ m, (m.1, i_episodeId i k)) <$> ap_monitor a)
                   (i_alertId i k) "" now t (i_fates i k) true true in
      pure (created ++ option_list id)
  | _ => pure created
  end.

(** The open alerts whose component recovered. *)
Definition recover_subject (subjects : list Subject) (i : Inputs) (now t : Z) (_ : unit) (ka : string * Alert) : Act (R := R) unit :=
  if negb (al_requiresHuman ka.2) && bool_decide (al_subjectKey ka.2 ≫= by_key subjects = Some sb_recovered) then
    let! _ := resolveAlert ka.1 None (Some "condition_cleared") true (i_eventId i ka.1) now t (i_fates i (al_subjectKey ka.2)) true in
    pure tt
  else pure tt.

Definition evaluateSubjectAlerts (a : Applicable) (deviceId orgId : string) (subjects : list Subject) (dataUnknown : bool) (i : Inputs)
    (now t : Z) : Act (R := R) (Observation * list string) :=
  let! created := for_each subjects (create_subject a deviceId orgId i now t) [] in
  let! _ := (if default (tp_autoResolve (ap_template a)) (ru_autoResolve (ap_rule a)) then
               let! opens := reading (open_subjects (ap_ruleId a) deviceId) in
               for_each opens (recover_subject subjects i now t) tt
             else pure tt) in
  let! remaining := reading (open_subjects (ap_ruleId a) deviceId) in
  pure (match remaining with
        | _ :: _ => breach
        | [] => if dataUnknown || existsb (λ s, bool_decide (sb_status s = sb_unknown)) subjects then unknown else ok
        end, created).

(** The transaction of a rule about components. *)
Definition reconcile_subjects (a : Applicable) (deviceId orgId : string) (suppress : bool) (i : Inputs) (now t : Z)
    : Act (R := R) (list string) :=
  atomically (
    match i_second i with
    | Err e => fail e
    | Ok evidence =>
        match er_subjects evidence with
        | None => fail "Subject evidence disappeared during evaluation"
        | Some subjects =>
            let admitted := if suppress then List.filter (λ s, negb (bool_decide (sb_status s = sb_breaching))) subjects else subjects in
            let! answer := evaluateSubjectAlerts a deviceId orgId admitted (er_unknown evidence) i now t in
            let! _ := match ap_monitor a with
                      | Some m => if suppress then pure tt
                                  else let! _ := in_db (with_monitoring (MonitorEpisodes.recordMonitorEvaluation m.1 deviceId orgId answer.1
                                                                           (i_episodeId i None) now)) in pure tt
                      | None => pure tt
                      end in
            pure answer.2
        end
    end).

(** ** One device-level rule *)

(** [fireEscalationLatch]: the alert, and its id on the state. *)
Definition raise_escalation (m : Monitor) (deviceId orgId episodeId : string) (i : Inputs) (now : Z) (db : Db) : unit * Db :=
  let '(created, db1) := createSourcedAlert deviceId orgId (Some (m_id m)) (Some episodeId) true now (i_escalationId i)
                           (i_escalationEvent i) (i_escalated i) (i_deleted i) db in
  (tt, if i_stamped i then on_monitoring (MonitorEpisodes.fireEscalationLatch (m_id m) deviceId created) db1 else db1).

(** The episode of the evaluation; a failure costs the episode, not the alert. *)
Definition record_episode (m : Monitor) (deviceId orgId : string) (result : EvaluationResult) (i : Inputs) (now : Z)
    : Act (R := R) (option string) :=
  logged None (
    let observation := if er_triggered result then breach else if er_unknown result then unknown else ok in
    let! outcome := in_db (with_monitoring (MonitorEpisodes.recordMonitorEvaluation m deviceId orgId observation (i_episodeId i None) now)) in
    let! _ := match MonitorEpisodes.r_episodeId outcome with
              | Some e => if MonitorEpisodes.r_latched outcome || MonitorEpisodes.r_needsEscalationAlert outcome
                          then on_db (raise_escalation m deviceId orgId e i now) else pure tt
              | None => pure tt
              end in
    pure (MonitorEpisodes.r_episodeId outcome)).

Definition device_params (a : Applicable) (deviceId orgId : string) (episodeId : option string) : CreateAlertParams :=
  mkParams (ap_ruleId a) deviceId orgId None (ru_managedByMonitorId (ap_rule a)) episodeId false.

Definition raise_alert (a : Applicable) (deviceId orgId : string) (episodeId : option string) (i : Inputs) (now t : Z)
    : Act (R := R) (list string) :=
  let! id := createAlert (device_params a deviceId orgId episodeId) None (i_alertId i None) (i_eventId i (i_alertId i None)) now t
               (i_fates i None) (i_published i) (i_deleted i) in
  let! _ := match truthy id, truthy episodeId with
            | Some x, Some e => on_db (λ db, let '(b, md) := MonitorEpisodes.linkEpisodeAlert e x (monitoring db) in
                                             (b, on_monitoring (λ _, md) db))
            | _, _ => pure false
            end in
  pure (option_list (truthy id)).

(** ** The rules *)

Definition kind_of (a : Applicable) : option string := snd <$> ap_monitor a.

(** A rule the pass is not responsible for, and whether its monitor still counts as
    evaluated. *)
Definition passed_over (mode : Mode) (suppress : bool) (a : Applicable) : option (option string) :=
  let managed := ru_managedByMonitorId (ap_rule a) in
  let isNetworkCheck := bool_decide (kind_of a = Some "network_check") in
  if suppress && negb (isSubjectMonitorKind (kind_of a)) then Some None
  else
    match mode with
    | device_sweep => if isNetworkCheck then Some (truthy managed) else None
    | network_check ids =>
        match truthy managed with
        | Some m => if isNetworkCheck && bool_decide (m ∈ ids) then None else Some None
        | None => Some None
        end
    end.

(** The alerts created and the monitor evaluated. *)
Definition evaluate_rule (mode : Mode) (suppress : bool) (a : Applicable) (i : Inputs) (deviceId orgId : string) (now t : Z)
    : Act (R := R) (list string * option string) :=
  let managed := truthy (ru_managedByMonitorId (ap_rule a)) in
  match passed_over mode suppress a with
  | Some counted => pure ([], counted)
  | None =>
      match i_first i with
      | Err _ => pure ([], None)
      | Ok result =>
          match er_subjects result with
          | Some _ =>
              let! created := logged [] (reconcile_subjects a deviceId orgId suppress i now t) in
              pure (created, managed)
          | None =>
              if suppress then pure ([], None)
              else
                let! episodeId := match managed, ap_monitor a with
                                  | Some _, Some m => record_episode m.1 deviceId orgId result i now
                                  | _, _ => pure None
                                  end in
                let! created := (if er_triggered result then logged [] (raise_alert a deviceId orgId episodeId i now t) else pure []) in
                pure (created, match ap_monitor a with Some _ => managed | None => None end)
          end
      end
  end.

(** [detachUnresolvedMonitors]. *)
Definition unresolved (deviceId : string) (evaluated : list string) (db : Db) : list string :=
  (List.filter (λ ps, String.eqb ps.1.2 deviceId && bool_decide (is_Some (MonitorEpisodes.ds_currentEpisodeId ps.2))
                      && bool_decide (ps.1.1 ∉ evaluated)) (map_to_list (MonitorEpisodes.states (monitoring db)))).*1.*1.
Definition detachUnresolvedMonitors (deviceId : string) (evaluated : list string) (now : Z) (db : Db) : Db :=
  on_monitoring (λ md, foldl (λ acc m, MonitorEpisodes.detachMonitorFromDevice m deviceId now acc) md (unresolved deviceId evaluated db)) db.

(** In a maintenance window that silences alerts. *)
Definition maintenance_suppresses (maintenance : option Maintenance.MaintenanceSettings) (now : Z) : bool :=
  match maintenance with
  | Some m => let st := Maintenance.isInMaintenanceWindow formatToParts Date_parse m now in
              Maintenance.active st && Maintenance.st_suppressAlerts st
  | None => false
  end.

(** [None] for a device: it is gone. *)
Definition evaluateDeviceAlertsInMode (mode : Mode) (maintenance : option Maintenance.MaintenanceSettings) (deviceId : string)
    (device : option string) (rules : list (Applicable * Inputs)) (now t : Z) : Act (R := R) (list string) :=
  let suppress := maintenance_suppresses maintenance now in
  match rules, device with
  | [], _ | _, None => pure []
  | _, Some orgId =>
      let! acc := for_each rules (λ acc ai,
                    let! r := evaluate_rule mode suppress ai.1 ai.2 deviceId orgId now t in
                    pure (acc.1 ++ r.1, acc.2 ++ option_list r.2)) ([], []) in
      let! _ := match mode with
                | device_sweep => if suppress then pure tt else on_db (λ db, (tt, detachUnresolvedMonitors deviceId acc.2 now db))
                | _ => pure tt
                end in
      pure acc.1
  end.

End sweep.

End Sweep.
