(* ===== verification/AlertInvariant.v ===== *)
(** * What every write of the alert tables keeps

    The invariant of [AlertHistory] on the tables of [Alerts], relative to the tables
    an operation started from, and one lemma per kind of write: an update of a row, an
    insertion, a deletion, a publication, a move to the retirement outbox. *)
From S2P Require Import Prelude JsText Redis Transaction MonitorEpisodes AlertNoise Alerts AlertOutbox.
From stdpp Require Import base tactics list strings gmap.
From Stdlib Require Import ZArith Lia.
Open Scope Z_scope.

Module AlertInvariant.
Import Noise Alerts Outbox.

(** ** Rows *)

(** What the columns of a row say together. *)
Record shaped (a : Alert) : Prop := {
  sh_open : is_open_alert a = true → al_resolvedAt a = None ∧ al_resolvedBy a = None ∧ al_resolutionDispatch a = None;
  sh_resolved : al_status a = s_resolved → is_Some (al_resolvedAt a);
  sh_dismissed : al_status a = s_dismissed → is_Some (al_dismissedAt a) ∧ is_Some (al_dismissedBy a);
  sh_kept : al_status a ≠ s_dismissed → al_dismissedAt a = None ∧ al_dismissedBy a = None;
  sh_acknowledged : al_status a = s_acknowledged → is_Some (al_acknowledgedAt a) ∧ is_Some (al_acknowledgedBy a);
  sh_human : al_requiresHuman a = true → is_Some (al_resolvedAt a) →
             is_Some (al_resolvedBy a) ∨ (is_Some (al_subjectKey a) ∧ al_resolutionReason a = Some "source_retired") }.

(** A row without its pending events. *)
Definition apart (a : Alert) : Alert := set_dispatches None None a.

(** How a row may change: never its identity; once it has ended, by a dismissal only. *)
Record evolves (a a' : Alert) : Prop := {
  ev_identity : al_ruleId a' = al_ruleId a ∧ al_deviceId a' = al_deviceId a ∧ al_subjectKey a' = al_subjectKey a
                ∧ al_orgId a' = al_orgId a ∧ al_requiresHuman a' = al_requiresHuman a ∧ al_triggeredAt a' = al_triggeredAt a;
  ev_ended : is_open_alert a = false →
             apart a' = apart a ∨ (al_status a = s_resolved ∧ ∃ now user, apart a' = apart (set_dismissed now user a)) }.

Lemma evolves_refl a : evolves a a.
Proof. split; [done|by left]. Qed.

Lemma open_cases a : is_open_alert a = bool_decide (al_status a ≠ s_resolved ∧ al_status a ≠ s_dismissed).
Proof. unfold is_open_alert. by destruct (al_status a). Qed.

Lemma apart_status a b : apart a = apart b → al_status a = al_status b.
Proof. by intros E%(f_equal al_status). Qed.
Lemma apart_dismissed now user a b : apart a = apart b → apart (set_dismissed now user a) = apart (set_dismissed now user b).
Proof. intros E. by apply (f_equal (set_dismissed now user)) in E. Qed.

Lemma ended_status a b : al_status a = al_status b → is_open_alert a = is_open_alert b.
Proof. unfold is_open_alert. by intros ->. Qed.

(** What has ended stays ended. *)
Lemma stays_ended a a' : evolves a a' → is_open_alert a = false → is_open_alert a' = false.
Proof.
  intros [_ E] Ho. destruct (E Ho) as [Es%apart_status|(_ & now & user & Es%apart_status)]; rewrite (ended_status _ _ Es); done.
Qed.

Lemma evolves_trans a b c : evolves a b → evolves b c → evolves a c.
Proof.
  intros H1 H2. split; [destruct H1 as [I1 _], H2 as [I2 _]; naive_solver congruence|]. intros Ho.
  pose proof (ev_ended _ _ H2 (stays_ended _ _ H1 Ho)) as E2. destruct (ev_ended _ _ H1 Ho) as [E1|(Hr & now & u & E1)].
  - destruct E2 as [E2|(Hr & now & u & E2)]; [left; congruence|right]. split; [by rewrite <- (apart_status _ _ E1)|].
    exists now, u. rewrite E2. by apply apart_dismissed.
  - destruct E2 as [E2|(Hr2 & _)]; [right; split; [done|]; exists now, u; congruence|].
    apply apart_status in E1. cbn in E1. congruence.
Qed.

Definition same_key (a b : Alert) : Prop :=
  al_ruleId a = al_ruleId b ∧ al_deviceId a = al_deviceId b ∧ al_subjectKey a = al_subjectKey b.

Lemma same_identity_key a b : same_identity (al_ruleId b) (al_deviceId b) (al_subjectKey b) a = true ↔ same_key a b.
Proof. unfold same_identity, same_key. rewrite !andb_true_iff, !bool_decide_eq_true, String.eqb_eq. tauto. Qed.

Lemma open_for_false r d k db i a :
  open_for r d k db = false → alerts db !! i = Some a → al_ruleId a = r → al_deviceId a = d → al_subjectKey a = k → is_open_alert a = false.
Proof.
  unfold open_for. intros Hf Hi <- <- <-. destruct (is_open_alert a) eqn:Ho; [|done]. exfalso.
  enough (existsb (λ ka, same_identity (al_ruleId a) (al_deviceId a) (al_subjectKey a) ka.2 && is_open_alert ka.2) (map_to_list (alerts db)) = true) by congruence.
  apply existsb_exists. exists (i, a). split; [by apply list_elem_of_In, elem_of_map_to_list|]. cbn.
  rewrite Ho, andb_true_r. by apply same_identity_key.
Qed.

(** ** Tables *)

Section invariant.
(** The identifiers used before and those the operation generates, what the dispatchers
    hold, and the tables at the start. *)
Context (used gen : string → Prop) (flight : list (Slot * Claimed)) (retired : list Retirement) (db0 : Db).

(** An event about an alert that was published, or is on its way. *)
Inductive mentions (db : Db) (slot : Slot) (id : string) (e : string) : Prop :=
| m_bus : mkEvent (slot_event slot) id e ∈ bus db → mentions db slot id e
| m_row a d : alerts db !! id = Some a → slot_of slot a = Some d → d_eventId d = e → mentions db slot id e
| m_flight c : (slot, c) ∈ flight → c_id c = id → d_eventId (c_pending c) = e → mentions db slot id e
| m_retired r : slot = resolution_slot → (∃ key, retirements db !! key = Some r) ∨ r ∈ retired → rt_alertId r = id →
                    d_eventId (rt_pending r) = e → mentions db slot id e.

Record Inv (db : Db) : Prop := {
  inv_shaped : ∀ i a, alerts db !! i = Some a → shaped a;
  inv_unique : ∀ i j a b, alerts db !! i = Some a → alerts db !! j = Some b → is_open_alert a = true → is_open_alert b = true →
                 same_key a b → is_Some (al_ruleId a) → i = j;
  inv_once : ∀ slot i e e', mentions db slot i e → mentions db slot i e' → e = e';
  inv_ended : ∀ i e a, mentions db resolution_slot i e → alerts db !! i = Some a → is_open_alert a = false;
  inv_born : ∀ i, is_Some (alerts db !! i) → used i ∨ gen i;
  inv_known : ∀ slot i e, mentions db slot i e → used i ∨ is_Some (alerts db !! i);
  inv_evolves : ∀ i a a', alerts db0 !! i = Some a → alerts db !! i = Some a' → evolves a a';
  inv_gone : ∀ i, used i → alerts db0 !! i = None → alerts db !! i = None;
  inv_settings : rules db = rules db0 ∧ templates db = templates db0 }.

Context (Hused : ∀ i, is_Some (alerts db0 !! i) → used i).

(** A write that leaves the alerts and the events. *)
Lemma inv_same db db' :
  Inv db → alerts db' = alerts db → rules db' = rules db → templates db' = templates db →
  (∀ slot i e, mentions db' slot i e → mentions db slot i e) → Inv db'.
Proof.
  intros [H1 H2 H3 H4 HB H5 H6 H7 H8] Ha Hr Ht Hm. split; rewrite ?Ha, ?Hr, ?Ht; eauto; naive_solver.
Qed.

Lemma mentions_alerts db f slot i e :
  mentions (on_alerts f db) slot i e →
  mentions db slot i e ∨ ∃ a d, f (alerts db) !! i = Some a ∧ slot_of slot a = Some d ∧ d_eventId d = e.
Proof. intros [Hb|a d Ha Hd He|c Hc Hi He|r Hs Hr Hi He]; [left; by apply m_bus|right; by exists a, d|left; by eapply m_flight|left; by eapply m_retired]. Qed.

Lemma mentions_outside db f slot i e :
  mentions db slot i e → (∀ a d, alerts db !! i = Some a → slot_of slot a = Some d → ∃ a' d', f (alerts db) !! i = Some a'
    ∧ slot_of slot a' = Some d' ∧ d_eventId d' = d_eventId d) → mentions (on_alerts f db) slot i e.
Proof.
  intros [Hb|a d Ha Hd He|c Hc Hi He|r Hs Hr Hi He] Hf; [by apply m_bus| |by eapply m_flight|by eapply m_retired].
  destruct (Hf a d Ha Hd) as (a' & d' & ? & ? & ?). eapply m_row; [done..|congruence].
Qed.

(** An update of a row.  A pending event it has was there before, or is the first of an
    alert that has ended. *)
Lemma inv_update db id a a' :
  Inv db → alerts db !! id = Some a → evolves a a' → shaped a' →
  (∀ slot d, slot_of slot a' = Some d →
     (∃ d0, slot_of slot a = Some d0 ∧ d_eventId d0 = d_eventId d)
     ∨ (slot = resolution_slot ∧ is_open_alert a' = false ∧ ∀ e, ¬ mentions db resolution_slot id e)) →
  Inv (on_alerts <[id := a']> db).
Proof.
  intros [H1 H2 H3 H4 HB H5 H6 H7 H8] Ha Hev Hsh Hslot.
  assert (Hm : ∀ slot i e, mentions (on_alerts <[id := a']> db) slot i e →
             mentions db slot i e ∨ (i = id ∧ slot = resolution_slot ∧ is_open_alert a' = false
               ∧ (∀ e, ¬ mentions db resolution_slot id e) ∧ ∃ d, slot_of slot a' = Some d ∧ d_eventId d = e)).
  { intros slot i e [?|(b & d & Hb & Hd & He)]%mentions_alerts; [by left|]. rewrite lookup_insert_Some in Hb.
    destruct Hb as [[<- <-]|[_ Hb]]; [|left; by eapply m_row].
    destruct (Hslot _ _ Hd) as [(d0 & Hd0 & Ee)|(-> & ? & ?)]; [left; eapply m_row; [done..|congruence]|]. right. eauto 10. }
  assert (Hopen : is_open_alert a' = true → is_open_alert a = true).
  { destruct (is_open_alert a) eqn:Eo; [done|]. by rewrite (stays_ended _ _ Hev Eo). }
  destruct (ev_identity _ _ Hev) as (Ir & Id & Ik & _).
  split; cbn.
  - intros i b. rewrite lookup_insert_Some. intros [[<- <-]|[_ ?]]; eauto.
  - unfold same_key. intros i j b c. rewrite !lookup_insert_Some. intros [[<- <-]|[? Hb]] [[<- <-]|[? Hc]] Ob Oc [? [? ?]] Hr; try done.
    + eapply (H2 id j a c); eauto; [split_and!; congruence|by rewrite <- Ir].
    + eapply (H2 i id b a); eauto. split_and!; congruence.
    + by eapply (H2 i j b c).
  - intros slot i e e' M1%Hm M2%Hm. destruct M1 as [M1|(-> & -> & _ & Hno & d & Hd & <-)], M2 as [M2|(? & ? & _ & Hno' & d' & Hd' & <-)].
    + by eapply H3. + subst. by destruct (Hno' e). + by destruct (Hno e'). + congruence.
  - intros i e b M%Hm. rewrite lookup_insert_Some. intros [[-> <-]|[Hne Hb]].
    + destruct M as [M|(_ & _ & ? & _)]; [|done]. specialize (H4 _ _ _ M Ha). by eapply stays_ended.
    + destruct M as [M|(? & _)]; [by eapply H4|congruence].
  - intros i. destruct (decide (i = id)) as [->|Hne]; [intros _; apply HB; eauto|]. rewrite lookup_insert_ne by done. apply HB.
  - intros slot i e M%Hm. destruct (decide (i = id)) as [->|Hne]; [right; rewrite lookup_insert_eq; eauto|].
    rewrite lookup_insert_ne by done. destruct M as [M|(? & _)]; [by eapply H5|done].
  - intros i b c Hb. rewrite lookup_insert_Some. intros [[<- <-]|[_ Hc]]; [eapply evolves_trans; [by eapply H6|done]|by eapply H6].
  - intros i Hu Hn. rewrite lookup_insert_None. split; [by apply H7|]. intros <-. specialize (H7 _ Hu Hn). congruence.
  - done.
Qed.

Definition newborn (id : string) : Prop := ¬ used id ∧ gen id.

(** A new row, with an identifier never used. *)
Lemma inv_insert db id a :
  Inv db → alerts db !! id = None → newborn id → shaped a → is_open_alert a = true →
  (∀ r, al_ruleId a = Some r → open_for (al_ruleId a) (al_deviceId a) (al_subjectKey a) db = false) →
  Inv (on_alerts <[id := a]> db).
Proof.
  intros [H1 H2 H3 H4 HB H5 H6 H7 H8] Hn [Hu Hg] Hsh Ho Hfree.
  assert (Hno : ∀ slot e, ¬ mentions db slot id e).
  { intros slot e [?|[? ?]]%H5; [done|congruence]. }
  assert (Hm : ∀ slot i e, mentions (on_alerts <[id := a]> db) slot i e →
             mentions db slot i e ∧ i ≠ id ∨ (i = id ∧ slot = trigger_slot ∧ ∃ d, slot_of slot a = Some d ∧ d_eventId d = e)).
  { intros slot i e [M|(b & d & Hb & Hd & He)]%mentions_alerts; [left; split; [done|]; intros ->; by apply (Hno slot e)|].
    rewrite lookup_insert_Some in Hb. destruct Hb as [[<- <-]|[Hne Hb]]; [|left; split; [by eapply m_row|done]].
    right. split; [done|]. destruct slot; [eauto|]. destruct (sh_open _ Hsh Ho) as (_ & _ & Hr). cbn in Hd. congruence. }
  split; cbn.
  - intros i b. rewrite lookup_insert_Some. intros [[<- <-]|[_ ?]]; eauto.
  - intros i j b c. rewrite !lookup_insert_Some. intros [[<- <-]|[? Hb]] [[<- <-]|[? Hc]] Ob Oc Hk [r Hr]; try done.
    + destruct Hk as (K1 & K2 & K3). by rewrite (open_for_false _ _ _ db j c (Hfree r Hr) Hc) in Oc by congruence.
    + destruct Hk as (K1 & K2 & K3). by rewrite (open_for_false _ _ _ db i b (Hfree r ltac:(congruence)) Hb) in Ob by congruence.
    + by eapply (H2 i j b c).
  - intros slot i e e' M1%Hm M2%Hm. destruct M1 as [[M1 ?]|(-> & _ & d & Hd & <-)], M2 as [[M2 ?]|(? & _ & d' & Hd' & <-)];
      [by eapply H3|done..|congruence].
  - intros i e b M%Hm. rewrite lookup_insert_Some. intros [[-> <-]|[Hne Hb]].
    + destruct M as [[_ ?]|(_ & ? & _)]; done.
    + destruct M as [[M _]|(? & ? & _)]; [by eapply H4|done].
  - intros i. destruct (decide (i = id)) as [->|Hne]; [by right|]. rewrite lookup_insert_ne by done. apply HB.
  - intros slot i e M%Hm. destruct (decide (i = id)) as [->|Hne]; [right; rewrite lookup_insert_eq; eauto|].
    rewrite lookup_insert_ne by done. destruct M as [[M _]|(? & _)]; [by eapply H5|done].
  - intros i b c Hb. rewrite lookup_insert_Some. intros [[<- <-]|[_ Hc]]; [|by eapply H6]. destruct Hu. apply Hused. eauto.
  - intros i Hui Hn0. rewrite lookup_insert_None. split; [by apply H7|]. by intros <-.
  - done.
Qed.

Lemma inv_delete db id :
  Inv db → used id ∨ (∀ slot e, ¬ mentions db slot id e) → Inv (on_alerts (delete id) db).
Proof.
  intros [H1 H2 H3 H4 HB H5 H6 H7 H8] Hid.
  assert (Hm : ∀ slot i e, mentions (on_alerts (delete id) db) slot i e → mentions db slot i e).
  { intros slot i e [M|(b & d & Hb & Hd & He)]%mentions_alerts; [done|]. apply lookup_delete_Some in Hb as [_ Hb]. by eapply m_row. }
  split; cbn.
  - intros i b [_ ?]%lookup_delete_Some. eauto.
  - intros i j b c [_ Hb]%lookup_delete_Some [_ Hc]%lookup_delete_Some. eauto.
  - eauto.
  - intros i e b M [_ Hb]%lookup_delete_Some. eauto.
  - intros i [a [_ Ha]%lookup_delete_Some]. eauto.
  - intros slot i e M%Hm. destruct (decide (i = id)) as [->|Hne].
    + destruct Hid as [Hid|Hid]; [by left|by destruct (Hid slot e)].
    + rewrite lookup_delete_ne by done. eauto.
  - intros i b c Hb [_ Hc]%lookup_delete_Some. eauto.
  - intros i Hu Hn. apply lookup_delete_None. eauto.
  - done.
Qed.

Lemma inv_publish db slot id e :
  Inv db → used id ∨ is_Some (alerts db !! id) → (∀ e', mentions db slot id e' → e' = e) →
  (slot = resolution_slot → ∀ a, alerts db !! id = Some a → is_open_alert a = false) →
  Inv (publish (mkEvent (slot_event slot) id e) db).
Proof.
  intros [H1 H2 H3 H4 HB H5 H6 H7 H8] Hid Hsame Hend.
  assert (Hm : ∀ s i x, mentions (publish (mkEvent (slot_event slot) id e) db) s i x → mentions db s i x ∨ (s = slot ∧ i = id ∧ x = e)).
  { intros s i x [Hb|a d Ha Hd He|c Hc Hi He|r Hs Hr Hi He];
      [|left; by eapply m_row|left; by eapply m_flight|left; by eapply m_retired].
    apply elem_of_cons in Hb as [Hb|Hb]; [|left; by apply m_bus]. right. injection Hb as E -> ->. split; [|done].
    by destruct s, slot. }
  split; cbn; eauto.
  - intros s i x y M1%Hm M2%Hm. destruct M1 as [M1|(-> & -> & ->)], M2 as [M2|(? & ? & ->)]; subst; eauto. symmetry. eauto.
  - intros i x a M%Hm Ha. destruct M as [M|(<- & -> & _)]; eauto.
  - intros s i x M%Hm. destruct M as [M|(-> & -> & _)]; eauto.
Qed.

(** Acknowledgements are not among the events followed. *)
Lemma inv_acknowledged db id e : Inv db → Inv (publish (mkEvent alert_acknowledged id e) db).
Proof.
  intros Hi. eapply inv_same; [exact Hi|done..|]. intros s i x [Hb|a d Ha Hd He|c Hc Hc' He|r Hs Hr Hc' He];
    [|by eapply m_row|by eapply m_flight|by eapply m_retired].
  apply elem_of_cons in Hb as [Hb|Hb]; [|by apply m_bus]. by destruct s.
Qed.

Lemma inv_monitoring db f : Inv db → Inv (on_monitoring f db).
Proof.
  intros Hi. eapply inv_same; [exact Hi|done..|]. intros s i x [Hb|a d Ha Hd He|c Hc Hc' He|r Hs Hr Hc' He];
    [by apply m_bus|by eapply m_row|by eapply m_flight|by eapply m_retired].
Qed.

(** The retirement outbox: its rows are of events followed before. *)
Lemma inv_retirements db f :
  Inv db → (∀ key r, f (retirements db) !! key = Some r → mentions db resolution_slot (rt_alertId r) (d_eventId (rt_pending r))) →
  Inv (on_retirements f db).
Proof.
  intros Hi Hf. eapply inv_same; [exact Hi|done..|]. intros s i x [Hb|a d Ha Hd He|c Hc Hc' He|r -> [[key Hr]|Hr] <- <-];
    [by apply m_bus|by eapply m_row|by eapply m_flight|by apply (Hf key)|eapply m_retired; [done|by right|done..]].
Qed.

End invariant.

End AlertInvariant.
