(* ===== verification/AlertKeeps.v ===== *)
(** * Every operation keeps the invariant of the alerts

    The operations of [Alerts], [AlertOutbox] and [AlertSweep] against
    [AlertInvariant.Inv], each from the lemma of the writes it makes. *)
From S2P Require Import Prelude JsText ZoneClock Redis RateLimit Transaction Maintenance MonitorEpisodes AlertNoise Alerts AlertOutbox AlertSweep AlertInvariant.
From stdpp Require Import base tactics list sorting strings gmap.
From Stdlib Require Import ZArith Lia.
Open Scope Z_scope.

Module AlertKeeps.
Import Noise Alerts Outbox Sweep AlertInvariant.

(** ** Setters *)

(** A write from the given statuses that leaves the pending events. *)
Definition good_set (from : list AlertStatus) (set : Alert → Alert) : Prop :=
  ∀ a, shaped a → al_status a ∈ from →
    evolves a (set a) ∧ shaped (set a) ∧ al_subjectDispatch (set a) = al_subjectDispatch a
    ∧ al_resolutionDispatch (set a) = al_resolutionDispatch a.

(** A row is taken apart, its status by the list it is in. *)
Ltac by_status Hs := repeat (apply elem_of_cons in Hs as [Hs|Hs]); [..|by apply not_elem_of_nil in Hs].
Ltac good_row :=
  intros [? ? ? ? ? ? ? ? st ? ? ? ? ? ? ? ? ? ?] [So Sr Sd Sk Sa Sh] Hs; cbn in *; by_status Hs; subst st; cbn in *;
  (split_and!; [split|split|..]; cbn in *; solve [done | intros; done | intros; split_and!; eauto; tauto | intuition (done || eauto) | naive_solver]).

Lemma good_acknowledged now u : good_set ACKNOWLEDGEABLE_ALERT_STATUSES (set_acknowledged now u).
Proof. good_row. Qed.
Lemma good_suppressed until : good_set SUPPRESSIBLE_ALERT_STATUSES (set_suppressed until).
Proof. good_row. Qed.
Lemma good_dismissed now u : good_set DISMISSIBLE_ALERT_STATUSES (set_dismissed now u).
Proof. good_row. Qed.
Lemma good_unsuppressed : good_set [s_suppressed] set_unsuppressed.
Proof. good_row. Qed.
Lemma good_resolved_by now u : good_set RESOLVABLE_ALERT_STATUSES (set_resolution_of_user now u).
Proof. good_row. Qed.

Lemma good_subset from from' set : from' ⊆ from → good_set from set → good_set from' set.
Proof. intros Hs Hg a Ha Hin. apply Hg; auto. Qed.

(** Who may resolve an alert: a person; nobody in particular, when it does not require a
    human or its component is gone. *)
Definition may_resolve (by_ reason : option string) (a : Alert) : Prop :=
  is_Some by_ ∨ al_requiresHuman a = false ∨ (is_Some (al_subjectKey a) ∧ reason = Some "source_retired").

Lemma resolved_evolves now by_ reason a :
  shaped a → al_status a ∈ RESOLVABLE_ALERT_STATUSES → may_resolve by_ reason a →
  evolves a (set_resolved now by_ reason a) ∧ shaped (set_resolved now by_ reason a).
Proof.
  revert a. intros [? ? ? ? ? ? ? ? st ? ? ? ? ? ? ? ? ? ?] [So Sr Sd Sk Sa Sh] Hs Hb; unfold may_resolve in Hb; cbn in *; by_status Hs; subst st; cbn in *;
    (split; [split|split]; cbn in *; solve [done | intros; done | intros; split_and!; eauto; tauto | intuition (done || eauto) | naive_solver]).
Qed.

Lemma alter_present {A} (f : A → A) (m : gmap string A) i x : m !! i = Some x → alter f i m = <[i := f x]> m.
Proof.
  intros Hx. apply map_eq. intros j. destruct (decide (i = j)) as [<-|Hne].
  - by rewrite lookup_alter_eq, Hx, lookup_insert_eq.
  - by rewrite lookup_alter_ne, lookup_insert_ne.
Qed.

Section keeps.
Context {R : Type} `{Redis R}.
Context (used gen : string → Prop) (flight : list (Slot * Claimed)) (retired : list Retirement) (db0 : Db).
Context (Hused : ∀ i, is_Some (alerts db0 !! i) → used i).
Notation Inv := (Inv used gen flight retired db0).
Notation mentions := (mentions flight retired).

Lemma cas_cases id from set db :
  (cas_alert id from set db = (None, db))
  ∨ ∃ a, alerts db !! id = Some a ∧ al_status a ∈ from ∧ cas_alert id from set db = (Some a, on_alerts <[id := set a]> db).
Proof.
  unfold cas_alert. destruct (alerts db !! id) as [a|]; [|by left]. case_bool_decide; [right; eauto|by left].
Qed.

Lemma inv_set db id a a' :
  Inv db → alerts db !! id = Some a → evolves a a' → shaped a' → al_subjectDispatch a' = al_subjectDispatch a →
  al_resolutionDispatch a' = al_resolutionDispatch a → Inv (on_alerts <[id := a']> db).
Proof.
  intros Hi Ha He Hs D1 D2. eapply inv_update; [done..|]. intros slot d Hd. left. exists d. split; [|done].
  destruct slot; cbn in *; congruence.
Qed.

Lemma cas_inv id from set db : good_set from set → Inv db → Inv (cas_alert id from set db).2.
Proof.
  intros Hg Hi. destruct (cas_cases id from set db) as [-> |(a & Ha & Hs & ->)]; [done|]. cbn.
  destruct (Hg a (inv_shaped _ _ _ _ _ _ Hi _ _ Ha) Hs) as (? & ? & ? & ?). by eapply inv_set.
Qed.

(** ** Resolving *)

Lemma resolvable_open a : al_status a ∈ RESOLVABLE_ALERT_STATUSES ↔ is_open_alert a = true.
Proof. unfold is_open_alert. by rewrite bool_decide_eq_true. Qed.

Lemma open_unmentioned db id a e : Inv db → alerts db !! id = Some a → is_open_alert a = true → ¬ mentions db resolution_slot id e.
Proof. intros Hi Ha Ho M. by rewrite (inv_ended _ _ _ _ _ _ Hi _ _ _ M Ha) in Ho. Qed.

(** What a resolution that was won leaves: the row, ended, and no event yet. *)
Definition just_ended (id : string) (db : Db) : Prop :=
  (∃ a, alerts db !! id = Some a ∧ is_open_alert a = false) ∧ ∀ e, ¬ mentions db resolution_slot id e.

Lemma ended_now db id a a' :
  Inv db → alerts db !! id = Some a → is_open_alert a = true → is_open_alert a' = false →
  al_resolutionDispatch a' = al_resolutionDispatch a → just_ended id (on_alerts <[id := a']> db).
Proof.
  intros Hi Ha Ho Hc Hd. split; [exists a'; cbn; by rewrite lookup_insert_eq|]. intros e [M|(b & d & Hb & Hs & He)]%mentions_alerts.
  - by eapply open_unmentioned.
  - rewrite lookup_insert_eq in Hb. injection Hb as <-. cbn in Hs. rewrite Hd in Hs. eapply (open_unmentioned db id a e); [done..|].
    by eapply m_row.
Qed.

Lemma resolved_published db id e : Inv db → just_ended id db → Inv (publish (mkEvent alert_resolved id e) db).
Proof.
  intros Hi [(a & Ha & Hc) Hno]. apply (inv_publish _ _ _ _ _ db resolution_slot id e); [done|right; eauto| |].
  - intros e' M. by destruct (Hno e').
  - intros _ b Hb. congruence.
Qed.

Lemma effects_inv id a eventId now t f published db (s : Store R) :
  Inv db → just_ended id db → Inv (resolve_effects id a eventId now t f published (db, s)).2.1.
Proof.
  intros Hi He. unfold resolve_effects. destruct (match _ with Some _ => _ | None => _ end) as [[?|e] s2]; cbn; [|done].
  destruct published; cbn; [by apply resolved_published|done].
Qed.

Lemma staged_inv id a eventId db : Inv db → just_ended id db → Inv (stage_resolution id a eventId db).
Proof.
  intros Hi [(b & Hb & Hc) Hno]. unfold stage_resolution. set (d := mkDispatch _ _ _ _ _).
  replace (on_alerts _ db) with (on_alerts <[id := set_dispatches None (Some d) b]> db)
    by (unfold on_alerts; f_equal; symmetry; by apply alter_present).
  assert (Hs := inv_shaped _ _ _ _ _ _ Hi _ _ Hb).
  eapply inv_update; [done..| | |].
  - split; [done|by left].
  - destruct Hs. split; try done. intros Ho. change (is_open_alert b = true) in Ho. congruence.
  - intros slot d' Hd'. destruct slot; [done|]. by right.
Qed.

Lemma resolve_inv id by_ reason defer eventId now t f published w :
  Inv w.1 → (∀ a, alerts w.1 !! id = Some a → may_resolve by_ reason a) →
  Inv (resolveAlert (R := R) id by_ reason defer eventId now t f published w).2.1.
Proof.
  destruct w as [db s]. cbn [fst]. intros Hi Hby. unfold resolveAlert.
  set (why := match reason with Some _ => _ | None => _ end).
  destruct (cas_cases id RESOLVABLE_ALERT_STATUSES (set_resolved now by_ why) db) as [-> |(a & Ha & Hs & ->)]; [done|].
  assert (may_resolve by_ why a) as Hw by (destruct (Hby a Ha) as [?|[?|[? ->]]]; [by left|by right; left|by right; right]).
  destruct (resolved_evolves now by_ why a (inv_shaped _ _ _ _ _ _ Hi _ _ Ha) Hs Hw) as [He Hsh].
  assert (Inv (on_alerts <[id := set_resolved now by_ why a]> db)) as Hi1 by (by eapply inv_set).
  assert (just_ended id (on_alerts <[id := set_resolved now by_ why a]> db)) as Hj
    by (eapply ended_now; [done..|by apply resolvable_open|done|done]).
  destruct defer; [destruct (truthy (al_subjectKey a))|]; [by apply staged_inv|by apply effects_inv..].
Qed.

Lemma auto_inv evaluate id eventId now t f published w :
  Inv w.1 → Inv (checkAutoResolve (R := R) evaluate id eventId now t f published w).2.1.
Proof.
  destruct w as [db s]. cbn [fst]. intros Hi. unfold checkAutoResolve. destruct (alerts db !! id) as [a|] eqn:Ha; [|done].
  destruct (bool_decide _ || _ || _) eqn:Eg; [done|]. apply orb_false_iff in Eg as [_ Eh].
  destruct (_ ≫= _) as [rule|]; [|done]. destruct (templates db !! _) as [tp|]; [|done].
  destruct (_ && _); [|done]. apply resolve_inv; [done|]. cbn. intros b Hb. right; left. congruence.
Qed.

Lemma auto_all_inv evaluate orgId inputs now t w :
  Inv w.1 → Inv (checkAllAutoResolve (R := R) evaluate orgId inputs now t w).2.1.
Proof.
  unfold checkAllAutoResolve. generalize 0%nat. set (l := (List.filter _ _).*1). clearbody l.
  revert w. induction l as [|id l IH]; intros w n Hi; cbn [foldl]; [done|]. cbn [fst snd].
  destruct (inputs id) as [[eventId f] published].
  pose proof (auto_inv evaluate id eventId now t f published w Hi) as Hi1.
  destruct (checkAutoResolve _ _ _ _ _ _ _ _) as [[[]|] w1]; by apply IH.
Qed.

(** ** Handlers *)

Lemma resolve_handler_inv seen id u eventId now t f published w :
  Inv w.1 → Inv (resolve_handler (R := R) seen id u eventId now t f published w).2.1.
Proof.
  destruct w as [db s]. cbn [fst]. intros Hi. unfold resolve_handler. destruct seen as [b|]; [|done].
  assert (Hc : Inv (match cas_alert id RESOLVABLE_ALERT_STATUSES (set_resolution_of_user now u) db with
              | (None, db1) => (409, (db1, s))
              | (Some _, db1) =>
                  let '(cooled, s1) := match al_ruleId b ≫= λ r, (r,.) <$> rules db1 !! r with
                    | Some (r, rule) => setCooldown r (al_deviceId b) (cooldown_of rule 15 db1) (al_subjectKey b) now t (f_get f) (f_set f) (f_track f) s
                    | None => (Ok tt, s) end in
                  match cooled with
                  | Err _ => (500, (db1, s1))
                  | Ok _ => (200, (if published then publish (mkEvent alert_resolved id eventId) db1 else db1, s1))
                  end
              end).2.1).
  { destruct (cas_cases id RESOLVABLE_ALERT_STATUSES (set_resolution_of_user now u) db) as [-> |(a & Ha & Hs & E)]; [done|].
    pose proof (cas_inv id _ _ db (good_resolved_by now u) Hi) as Hi1. rewrite E in Hi1 |- *. cbn [snd] in Hi1.
    destruct (match _ with Some _ => _ | None => _ end) as [[?|?] s1]; cbn; [|done]. destruct published; [|done].
    apply resolved_published; [done|]. eapply ended_now; [done..|by apply resolvable_open|done|done]. }
  destruct (al_status b); first [exact Hc|done].
Qed.

Ltac by_cas := match goal with |- context [cas_alert ?i ?fr ?st ?d] =>
  let E := fresh "E" in let Hc := fresh "Hc" in
  pose proof (cas_inv i fr st d) as Hc; destruct (cas_alert i fr st d) as [[?|] ?] eqn:E; cbn [snd] in Hc |- * end.

Lemma acknowledge_inv seen id u eventId now published db : Inv db → Inv (acknowledge_handler seen id u eventId now published db).2.
Proof.
  intros Hi. unfold acknowledge_handler. destruct seen as [b|]; [|done]. destruct (al_status b); try done.
  by_cas; [|by apply Hc; [apply good_acknowledged|]]. specialize (Hc (good_acknowledged now u) Hi).
  destruct published; [by apply inv_acknowledged|done].
Qed.

Lemma suppress_inv seen id until now db : Inv db → Inv (suppress_handler seen id until now db).2.
Proof.
  intros Hi. unfold suppress_handler. destruct seen as [b|]; [|done].
  destruct (al_status b); try done; (destruct (deadline now until) as [u|]; [|done]; by_cas; (apply Hc; [apply good_suppressed|done])).
Qed.

Lemma dismiss_inv seen id u now db : Inv db → Inv (dismiss_handler seen id u now db).2.
Proof.
  intros Hi. unfold dismiss_handler. destruct seen as [b|]; [|done].
  destruct (al_status b); try done; (by_cas; (apply Hc; [apply good_dismissed|done])).
Qed.

Lemma good_bulk action u until now st : bulk_skips action st = false → good_set [st] (bulk_set action u until now).
Proof.
  intros Hs. destruct action; cbn in Hs.
  - apply bool_decide_eq_false in Hs. eapply good_subset; [|apply good_acknowledged]. intros x Hx%list_elem_of_singleton. subst.
    destruct (decide (st = s_active)) as [->|]; [by left|done].
  - eapply good_subset; [|apply good_suppressed]. intros x Hx%list_elem_of_singleton. subst. by destruct st; apply (bool_decide_unpack _).
  - eapply good_subset; [|apply good_dismissed]. intros x Hx%list_elem_of_singleton. subst. by destruct st; apply (bool_decide_unpack _).
  - eapply good_subset; [|apply good_resolved_by]. intros x Hx%list_elem_of_singleton. subst. by destruct st; apply (bool_decide_unpack _).
Qed.

Lemma bulk_one_inv action u until now id st eventId published db :
  Inv db → Inv (bulk_one action u until now id st eventId published db).2.
Proof.
  intros Hi. unfold bulk_one. destruct (bulk_skips action st) eqn:Hs; [done|].
  pose proof (cas_inv id _ _ db (good_bulk action u until now st Hs) Hi) as Hi1.
  destruct (cas_cases id [st] (bulk_set action u until now) db) as [-> |(a & Ha & Hin & E)]; [done|].
  rewrite E in Hi1 |- *. cbn in Hi1 |- *. destruct action; cbn in *; try done; destruct published; try done;
    [by apply inv_acknowledged|]. apply resolved_published; [done|]. eapply ended_now; [done..| |done|done].
  apply list_elem_of_singleton in Hin. unfold is_open_alert. rewrite Hin. by destruct st.
Qed.

Lemma bulk_inv action u until now accessible eventId published db :
  Inv db → Inv (bulk_handler action u until now accessible eventId published db).2.
Proof.
  intros Hi. unfold bulk_handler. destruct (match action with b_suppress => _ | _ => _ end) as [d|]; [|done].
  destruct accessible as [|x l]; [done|]. generalize (x :: l). clear x l. intros l.
  generalize (200, @nil (string * BulkOutcome)). revert db Hi. induction l as [|x l IH]; intros db Hi acc; cbn [foldl]; [done|].
  pose proof (bulk_one_inv action u d now x.1 x.2 (eventId x.1) (published x.1) db Hi) as Hi1. cbn [fst snd].
  destruct (bulk_one _ _ _ _ _ _ _ _ _) as [o db1]. by apply IH.
Qed.

Lemma reap_inv now locked db : Inv db → Inv (reapExpiredSuppressions now locked db).2.
Proof.
  unfold reapExpiredSuppressions. cbn [snd]. generalize (reap_batch now locked db). intros l. revert db.
  induction l as [|id l IH]; intros db Hi; cbn [foldl]; [done|]. apply IH, cas_inv; [apply good_unsuppressed|done].
Qed.

(** ** Creating *)

Lemma inv_tables db db' :
  Inv db → alerts db' = alerts db → rules db' = rules db → templates db' = templates db → retirements db' = retirements db →
  bus db' = bus db → Inv db'.
Proof.
  intros Hi Ha Hr Ht Hq Hb. eapply inv_same; [exact Hi|done..|]. intros slot i e [M|a d M1 M2 M3|c M1 M2 M3|r M1 M2 M3 M4].
  - apply m_bus. by rewrite <- Hb.
  - eapply m_row; [by rewrite <- Ha|done..].
  - by eapply m_flight.
  - eapply m_retired; [done|by rewrite <- Hq|done..].
Qed.

Definition unmentioned (id : string) (db : Db) : Prop := ∀ slot e, ¬ mentions db slot id e.

Lemma fresh_unmentioned id db : Inv db → newborn used gen id → alerts db !! id = None → unmentioned id db.
Proof. intros Hi [Hu _] Hn slot e [?|[? ?]]%(inv_known _ _ _ _ _ _ Hi); [done|congruence]. Qed.

Lemma plain_unmentioned id a db :
  unmentioned id db → al_subjectDispatch a = None → al_resolutionDispatch a = None → unmentioned id (on_alerts <[id := a]> db).
Proof.
  intros Hn D1 D2 slot e [M|(b & d & Hb & Hd & _)]%mentions_alerts; [by apply (Hn slot e)|].
  rewrite lookup_insert_eq in Hb. injection Hb as <-. destruct slot; cbn in Hd; congruence.
Qed.

Lemma triggered_or_not id eventId published deleted db :
  Inv db → is_Some (alerts db !! id) → unmentioned id db → Inv (publishAlertTriggeredOrRollback id eventId published deleted db).2.
Proof.
  intros Hi Hp Hn. unfold publishAlertTriggeredOrRollback. destruct published; [|destruct deleted]; cbn; [| |done].
  - apply (inv_publish _ _ _ _ _ db trigger_slot id eventId); [done|by right| |done]. intros e M. by destruct (Hn _ _ M).
  - apply inv_delete; [done|by right].
Qed.

Lemma inserted_inv p rule id now db x e :
  Inv db → newborn used gen id → alerts db !! id = None →
  open_for (Some (cp_ruleId p)) (cp_deviceId p) (cp_subjectKey p) db = false →
  Inv (on_alerts <[id := set_dispatches x None (set_episode e (new_alert p rule now))]> db).
Proof.
  intros Hi Hu Hn Hf. apply inv_insert; [done..| |done|by intros r _]. split; try done. by intros _ [].
Qed.

Lemma insert_inv p rule id now db :
  Inv db → newborn used gen id →
  insert_alert p rule id now db = (false, db)
  ∨ (insert_alert p rule id now db = (true, on_alerts <[id := new_alert p rule now]> db)
     ∧ Inv (on_alerts <[id := new_alert p rule now]> db) ∧ unmentioned id (on_alerts <[id := new_alert p rule now]> db)
     ∧ ∀ x e, Inv (on_alerts <[id := set_dispatches x None (set_episode e (new_alert p rule now))]> db)).
Proof.
  intros Hi Hu. unfold insert_alert. destruct (alerts db !! id) as [a|] eqn:Hn; [by left|].
  destruct (open_for _ _ _ _) eqn:Hf; [by left|]. right. split; [done|].
  pose proof (λ x e, inserted_inv p rule id now db x e Hi Hu Hn Hf) as Hx. split_and!; [apply (Hx None (cp_episodeId p))| |done].
  apply plain_unmentioned; [by apply fresh_unmentioned|done..].
Qed.

(** The dispatch and the episode of a row that was just inserted do not matter. *)
Lemma subject_inv p rule monitor id now db :
  Inv db → newborn used gen id → Inv (run_tx (insert_subject p rule monitor id now) db).2.
Proof.
  intros Hi Hu. unfold run_tx, insert_subject, bind. destruct (insert_inv p rule id now db Hi Hu) as [-> |(-> & _ & _ & Hx)]; [done|].
  cbn. set (db1 := on_alerts _ db).
  match goal with |- context [match ?c db1 with Ok _ => _ | Err _ => _ end] => destruct (c db1) as [[episode db2]|] eqn:E end; [|done].
  assert (alerts db2 = alerts db1 ∧ rules db2 = rules db1 ∧ templates db2 = templates db1 ∧ retirements db2 = retirements db1 ∧ bus db2 = bus db1)
    as (Ea & Er & Et & Eq & Eb).
  { destruct (cp_episodeId p); [by injection E as <- <-|]. destruct monitor as [[m newId]|]; [|by injection E as <- <-].
    match type of E with match ?c with Ok _ => _ | Err _ => _ end = _ => destruct c as [[e md]|] end; [|done]. by injection E as <- <-. }
  assert (∃ owner md, match episode with
                      | Some e => let '(b, md) := MonitorEpisodes.linkEpisodeAlert e id (monitoring db2) in
                                  Ok (b, on_monitoring (λ _, md) db2)
                      | None => Ok (false, db2)
                      end = Ok (E := string) (owner, on_monitoring (λ _, md) db2)) as (owner & md & ->).
  { destruct episode as [e|]; [|exists false, (monitoring db2); by destruct db2].
    destruct (MonitorEpisodes.linkEpisodeAlert _ _ _) as [b md]. eauto. }
  subst db1. cbn in Ea, Er, Et, Eq, Eb |- *. set (disp := mkDispatch _ _ _ _ _).
  apply (inv_tables (on_alerts <[id := set_dispatches (Some disp) None (set_episode episode (new_alert p rule now))]> db)); cbn; [| |congruence..].
  - apply Hx.
  - rewrite Ea. rewrite (alter_present _ _ id (new_alert p rule now)) by (cbn; by rewrite lookup_insert_eq). by rewrite insert_insert_eq.
Qed.

(** ** Acts *)

Definition keeps {A} (c : Act (R := R) A) : Prop := ∀ w, Inv w.1 → Inv (c w).2.1.

Lemma keeps_pure {A} (a : A) : keeps (pure a).
Proof. by intros w. Qed.
Lemma keeps_fail {A} e : keeps (fail (A := A) e).
Proof. by intros w. Qed.
Lemma keeps_reading {A} (f : Db → A) : keeps (reading f).
Proof. by intros w. Qed.
Lemma keeps_then {A B} (c : Act A) (k : A → Act B) : keeps c → (∀ a, keeps (k a)) → keeps (andThen c k).
Proof. intros Hc Hk w Hw. unfold andThen. specialize (Hc w Hw). destruct (c w) as [[a|e] w1]; [by apply Hk|done]. Qed.
Lemma keeps_atomically {A} (c : Act A) : keeps c → keeps (atomically c).
Proof. intros Hc w Hw. unfold atomically. specialize (Hc w Hw). by destruct (c w) as [[a|e] w1]. Qed.
Lemma keeps_logged {A} (d : A) c : keeps c → keeps (logged d c).
Proof. intros Hc w Hw. unfold logged. specialize (Hc w Hw). by destruct (c w) as [[a|e] w1]. Qed.
Lemma keeps_each {X A} (l : list X) (f : A → X → Act A) : (∀ x, x ∈ l → ∀ a, keeps (f a x)) → ∀ a, keeps (for_each l f a).
Proof.
  induction l as [|x l IH]; intros Hf a; cbn; [apply keeps_pure|]. apply keeps_then; [apply Hf; by left|].
  intros b. apply IH. intros y Hy. apply Hf. by right.
Qed.
Lemma keeps_on_db {A} (f : Db → A * Db) : (∀ db, Inv db → Inv (f db).2) → keeps (on_db f).
Proof. intros Hf [db s] Hw. unfold on_db. specialize (Hf db Hw). cbn. by destruct (f db). Qed.
Lemma keeps_in_db {A} (c : Transaction Db string A) : (∀ db, Inv db → Inv (run_tx c db).2) → keeps (in_db c).
Proof. intros Hf [db s] Hw. unfold in_db. specialize (Hf db Hw). cbn in *. by destruct (run_tx c db). Qed.

Lemma writes_inv p rule monitor id eventId now published deleted db :
  Inv db → newborn used gen id → Inv (create_writes p rule monitor id eventId now published deleted db).2.
Proof.
  intros Hi Hu. unfold create_writes. destruct (cp_subjectKey p) as [k|] eqn:Ek; [by apply subject_inv|].
  destruct (insert_inv p rule id now db Hi Hu) as [-> |(-> & Hi1 & Hn & _)]; [done|]. cbn [negb].
  pose proof (triggered_or_not id eventId published deleted _ Hi1 ltac:(cbn; rewrite lookup_insert_eq; eauto) Hn) as Hi2.
  by destruct (publishAlertTriggeredOrRollback _ _ _ _ _) as [[] db2].
Qed.

Lemma create_keeps p monitor id eventId now t f published deleted :
  newborn used gen id → keeps (createAlert p monitor id eventId now t f published deleted).
Proof.
  intros Hu [db s] Hi. cbn [fst] in Hi. unfold createAlert. case_bool_decide; [done|]. destruct (rules db !! _) as [rule|]; [|done].
  destruct (admission p rule now t f db s) as [[[]|e] s1]; [|done..].
  pose proof (writes_inv p rule monitor id eventId now published deleted db Hi Hu) as Hi1.
  destruct (create_writes _ _ _ _ _ _ _ _ _) as [[[x|]|] db1]; cbn [snd] in Hi1; destruct (cp_subjectKey p); try done.
  by destruct (after_trigger _ _ _ _ _ _) as [r s2].
Qed.

Lemma sourced_inv deviceId orgId m e human at_ id eventId published deleted db :
  Inv db → newborn used gen id → Inv (createSourcedAlert deviceId orgId m e human at_ id eventId published deleted db).2.
Proof.
  intros Hi Hu. unfold createSourcedAlert. destruct (alerts db !! id) eqn:Hn; [done|].
  assert (Inv (on_alerts <[id := sourced_alert deviceId orgId m e human at_]> db)) as Hi1
    by (apply inv_insert; [done..| |done|done]; split; cbn; try done; by intros _ []).
  pose proof (triggered_or_not id eventId published deleted _ Hi1 ltac:(cbn; rewrite lookup_insert_eq; eauto)) as Hi2.
  ospecialize (Hi2 _); [apply plain_unmentioned; [by apply fresh_unmentioned|done..]|].
  by destruct (publishAlertTriggeredOrRollback _ _ _ _ _).
Qed.

(** ** The outboxes *)

Lemma slot_write db id a slot x :
  Inv db → alerts db !! id = Some a → (∀ d, x = Some d → ∃ d0, slot_of slot a = Some d0 ∧ d_eventId d0 = d_eventId d) →
  Inv (on_alerts <[id := with_slot slot x a]> db).
Proof.
  intros Hi Ha Hx. assert (Hs := inv_shaped _ _ _ _ _ _ Hi _ _ Ha). eapply inv_update; [done..| | |].
  - destruct slot; (split; [done|by left]).
  - destruct Hs as [So Sr Sd Sk Sa Sh]. destruct slot; split; try done. intros Ho. destruct (So Ho) as (? & ? & Hn). split_and!; [done..|].
    cbn. destruct x as [d|]; [|done]. destruct (Hx d eq_refl) as (d0 & Hd0 & _). cbn in Hd0. congruence.
  - intros slot' d Hd. left. destruct slot, slot'; cbn in Hd |- *; solve [by apply Hx | exists d; done].
Qed.

Lemma owned_row slot c db a : owned slot c db = Some a → alerts db !! c_id c = Some a.
Proof. unfold owned. destruct (alerts db !! c_id c) as [b|]; [|done]. by destruct (holds_lease slot c b); intros [= ->]. Qed.

Lemma claim_one_inv slot deviceId token now id db : Inv db → Inv (claim_one slot deviceId token now id db).2.
Proof.
  intros Hi. unfold claim_one. destruct (alerts db !! id) as [a|] eqn:Ha; [|done]. destruct (claimable _ _ _ _); [|done]. cbn.
  apply slot_write; [done..|]. intros d. destruct (slot_of slot a) as [d0|]; [|done]. intros [= <-]. by exists d0.
Qed.

(** What is claimed was pending. *)
Lemma claim_one_mentions slot deviceId token now id db c :
  (claim_one slot deviceId token now id db).1 = Some c → mentions (claim_one slot deviceId token now id db).2 slot (c_id c) (d_eventId (c_pending c)).
Proof.
  unfold claim_one. destruct (alerts db !! id) as [a|] eqn:Ha; [|done]. destruct (claimable _ _ _ _); [|done]. cbn.
  destruct (slot_of slot a) as [d0|]; [|done]. intros [= <-]. eapply m_row; [cbn; by rewrite lookup_insert_eq| |reflexivity]. by destruct slot.
Qed.

Lemma renew_inv slot c now db : Inv db → Inv (renew slot c now db).2.
Proof.
  intros Hi. unfold renew. destruct (owned slot c db) as [a|] eqn:Ho; [|done]. case_bool_decide; [|done].
  apply slot_write; [done|by eapply owned_row|]. intros d. destruct (slot_of slot a) as [d0|]; [|done]. intros [= <-]. by exists d0.
Qed.

Lemma acknowledge_slot_inv slot c db : Inv db → Inv (acknowledge slot c db).
Proof. intros Hi. unfold acknowledge. destruct (owned slot c db) as [a|] eqn:Ho; [|done]. apply slot_write; [done|by eapply owned_row|done]. Qed.

Lemma compensate_inv slot c db : Inv db → (∀ i, is_Some (alerts db !! i) → used i) → Inv (compensate slot c db).
Proof.
  intros Hi Hu. unfold compensate. destruct (owned slot c db) as [a|] eqn:Ho; [|done]. apply owned_row in Ho. destruct slot.
  - apply inv_delete; [by apply inv_monitoring|]. left. apply Hu. eauto.
  - apply slot_write; [done..|]. intros d. destruct (slot_of resolution_slot a) as [d0|]; [|done]. intros [= <-]. by exists d0.
Qed.

(** Publishing what is on its way. *)
Lemma mentioned_published db slot id e : Inv db → mentions db slot id e → Inv (publish (mkEvent (slot_event slot) id e) db).
Proof.
  intros Hi M. apply inv_publish; [done|by eapply inv_known| |].
  - intros e' M'. by eapply inv_once.
  - intros -> a Ha. by eapply inv_ended.
Qed.

Lemma stage_escalation_inv p orgId id now db : Inv db → newborn used gen id → Inv (run_tx (stage_escalation p orgId id now) db).2.
Proof.
  intros Hi Hu. unfold run_tx, stage_escalation, bind, query. destruct (_ ≫= MonitorEpisodes.escalation_due) as [e|]; [|done].
  case_bool_decide as Hn; [done|]. cbn. apply inv_monitoring, inv_insert; [done|done|by apply eq_None_not_Some|done| |done|done].
  by split; cbn; [..|intros _ []].
Qed.

Lemma stage_retired_inv id db : Inv db → Inv (run_tx (stageRetiredSubjectResolution id) db).2.
Proof.
  intros Hi. unfold run_tx, stageRetiredSubjectResolution, bind, query. destruct (alerts db !! id) as [a|] eqn:Ha; [|done].
  destruct (al_status a); try done. destruct (al_resolutionDispatch a) as [d|] eqn:Hd; [|done]. case_bool_decide; [done|]. cbn.
  assert (M : mentions db resolution_slot id (d_eventId d)) by (by eapply m_row).
  apply (slot_write (on_retirements _ db) id a resolution_slot None); [|done|done]. apply inv_retirements; [done|].
  intros key r. rewrite lookup_insert_Some. intros [[_ <-]|[_ Hr]]; [done|]. eapply m_retired; [done|by left; exists key|done..].
Qed.

Lemma claim_retirement_inv deviceId token now id db : Inv db → Inv (claim_retirement deviceId token now id db).2.
Proof.
  intros Hi. unfold claim_retirement. destruct (retirements db !! id) as [r|] eqn:Hr; [|done]. destruct (_ && _); [|done]. cbn.
  apply inv_retirements; [done|]. intros key r'. rewrite lookup_insert_Some.
  intros [[_ <-]|[_ Hr']]; (eapply m_retired; [done|left; eauto|done..]).
Qed.

Lemma claim_retirement_mentions deviceId token now id db r :
  (claim_retirement deviceId token now id db).1 = Some r →
  mentions (claim_retirement deviceId token now id db).2 resolution_slot (rt_alertId r) (d_eventId (rt_pending r)).
Proof.
  unfold claim_retirement. destruct (retirements db !! id) as [r0|] eqn:Hr; [|done]. destruct (_ && _); [|done]. cbn.
  intros [= <-]. eapply m_retired; [done|left; exists id; cbn; by rewrite lookup_insert_eq|done..].
Qed.

Lemma on_owned_inv id token f db :
  Inv db → (∀ r r', f (Some r) = Some r' → rt_alertId r' = rt_alertId r ∧ d_eventId (rt_pending r') = d_eventId (rt_pending r)) →
  Inv (on_owned id token f db).
Proof.
  intros Hi Hf. unfold on_owned. destruct (retirements db !! id) as [r|] eqn:Hr; [|done]. case_bool_decide; [|done].
  apply inv_retirements; [done|]. intros key r'. destruct (decide (id = key)) as [<-|Hne].
  - rewrite lookup_partial_alter_eq, Hr. intros (Ea & Ee)%Hf. rewrite Ea, Ee. eapply m_retired; [done|left; eauto|done..].
  - rewrite lookup_partial_alter_ne by done. intros Hr'. eapply m_retired; [done|left; eauto|done..].
Qed.

Lemma settle_retirement_inv id token db : Inv db → Inv (settle_retirement id token db).
Proof. intros Hi. by apply on_owned_inv. Qed.
Lemma release_retirement_inv id token db : Inv db → Inv (release_retirement id token db).
Proof. intros Hi. apply on_owned_inv; [done|]. by intros q q' [= <-]. Qed.

(** ** The sweep *)

Lemma with_monitoring_inv {A} (c : Transaction MonitorEpisodes.Db string A) db : Inv db → Inv (run_tx (with_monitoring c) db).2.
Proof. intros Hi. unfold run_tx, with_monitoring. destruct (c (monitoring db)) as [[a md]|]; [|done]. by apply inv_monitoring. Qed.

Definition fresh_inputs (i : Inputs) : Prop := (∀ k, newborn used gen (i_alertId i k)) ∧ newborn used gen (i_escalationId i).

Lemma create_subject_keeps a deviceId orgId i now t created s : fresh_inputs i → keeps (create_subject a deviceId orgId i now t created s).
Proof.
  intros [Hf _]. unfold create_subject. destruct (sb_status s); try apply keeps_pure.
  apply keeps_then; [by apply create_keeps|]. intros; apply keeps_pure.
Qed.

Lemma record_episode_keeps m deviceId orgId r i now : fresh_inputs i → keeps (record_episode m deviceId orgId r i now).
Proof.
  intros [_ Hf]. unfold record_episode. apply keeps_logged, keeps_then; [apply keeps_in_db; intros db Hi; by apply with_monitoring_inv|].
  intros o. apply keeps_then; [|intros; apply keeps_pure]. destruct (MonitorEpisodes.r_episodeId o) as [e|]; [|apply keeps_pure].
  destruct (_ || _); [|apply keeps_pure]. apply keeps_on_db. intros db Hi. unfold raise_escalation.
  pose proof (sourced_inv deviceId orgId (Some (MonitorEpisodes.m_id m)) (Some e) true now (i_escalationId i) (i_escalationEvent i)
                (i_escalated i) (i_deleted i) db Hi Hf) as Hi1.
  destruct (createSourcedAlert _ _ _ _ _ _ _ _ _ _ _) as [created db1]. cbn in *. destruct (i_stamped i); [by apply inv_monitoring|done].
Qed.

Lemma raise_alert_keeps a deviceId orgId e i now t : fresh_inputs i → keeps (raise_alert a deviceId orgId e i now t).
Proof.
  intros [Hf _]. unfold raise_alert. apply keeps_then; [by apply create_keeps|]. intros id. apply keeps_then; [|intros; apply keeps_pure].
  destruct (truthy id) as [x|], (truthy e) as [y|]; try apply keeps_pure. apply keeps_on_db. intros db Hi.
  destruct (MonitorEpisodes.linkEpisodeAlert _ _ _) as [b md]. by apply inv_monitoring.
Qed.

End keeps.

(** ** A second starting point *)

Lemma rebase used gen flight retired db0 db : Inv used gen flight retired db0 db → Inv used gen flight retired db db.
Proof.
  intros [H1 H2 H3 H4 HB H5 H6 H7 H8]. split; try done. intros i a a' Ha Ha'. rewrite Ha in Ha'. injection Ha' as <-. apply evolves_refl.
Qed.

Lemma chain used gen flight retired db0 db1 db2 :
  (∀ i, is_Some (alerts db0 !! i) → used i) → Inv used gen flight retired db0 db1 → Inv used gen flight retired db1 db2 → Inv used gen flight retired db0 db2.
Proof.
  intros Hu [G1 G2 G3 G4 GB G5 G6 G7 G8] [H1 H2 H3 H4 HB H5 H6 H7 H8]. split; try done.
  - intros i a a2 Ha Ha2. destruct (alerts db1 !! i) as [a1|] eqn:Ha1.
    + eapply evolves_trans; [by eapply G6|by eapply H6].
    + rewrite (H7 i) in Ha2; [done|apply Hu; eauto|done].
  - intros i Hi Hn. apply H7; [done|]. by apply G7.
  - destruct G8, H8. split; congruence.
Qed.

Section sweep_keeps.
Context {R : Type} `{Redis R}.
Context (formatToParts : string → Z → option Parts) (Date_parse : string → option Z).
Context (used gen : string → Prop) (flight : list (Slot * Claimed)) (retired : list Retirement) (db0 : Db).
Context (Hused : ∀ i, is_Some (alerts db0 !! i) → used i).
Notation keeps := (keeps (R := R) used gen flight retired).

(** Writing only on rows read before, by an act that keeps them from there. *)
Lemma each_from {X A} (l : list X) (f : A → X → Act (R := R) A) (base : Db) :
  (∀ x, x ∈ l → ∀ a, keeps base (f a x)) → ∀ a w, Inv used gen flight retired base w.1 → Inv used gen flight retired base (for_each l f a w).2.1.
Proof. intros Hf a w Hw. by apply keeps_each. Qed.

Lemma open_subjects_in ruleId deviceId db ka :
  ka ∈ open_subjects ruleId deviceId db → alerts db !! ka.1 = Some ka.2 ∧ is_Some (al_subjectKey ka.2).
Proof.
  unfold open_subjects. intros [Hin Hb]%list_elem_of_In%filter_In. split.
  - apply list_elem_of_In in Hin. destruct ka. by apply elem_of_map_to_list in Hin.
  - rewrite !andb_true_iff, !bool_decide_eq_true in Hb. tauto.
Qed.

Lemma recover_keeps base subjects i now t u ka :
  alerts base !! ka.1 = Some ka.2 → keeps base (recover_subject subjects i now t u ka).
Proof.
  intros Ha w Hw. unfold recover_subject. destruct (negb _ && _) eqn:Eh; [|done]. apply andb_true_iff in Eh as [Eh%negb_true_iff _].
  unfold andThen. match goal with |- context [resolveAlert ?x1 ?x2 ?x3 ?x4 ?x5 ?x6 ?x7 ?x8 ?x9 ?x0] =>
    pose proof (resolve_inv used gen flight retired base x1 x2 x3 x4 x5 x6 x7 x8 x9 x0) as Hr; destruct (resolveAlert x1 x2 x3 x4 x5 x6 x7 x8 x9 x0) as [[b|] w1] end;
    (apply Hr; [done|]; intros a Ha'; right; left; by rewrite (proj1 (proj2 (proj2 (proj2 (proj2 (ev_identity _ _ (inv_evolves _ _ _ _ _ _ Hw _ _ _ Ha Ha')))))))).
Qed.

Lemma subjects_keeps a deviceId orgId subjects unk i now t :
  fresh_inputs used gen i → keeps db0 (evaluateSubjectAlerts a deviceId orgId subjects unk i now t).
Proof.
  intros Hf. unfold evaluateSubjectAlerts. apply keeps_then; [apply keeps_each; intros; by apply create_subject_keeps|].
  intros created. apply keeps_then; [|intros _; apply keeps_then; [apply keeps_reading|intros; apply keeps_pure]].
  destruct (default _ _); [|apply keeps_pure]. intros w Hw. unfold andThen, reading. cbn [fst].
  eapply chain; [done|exact Hw|]. apply each_from; [|by eapply rebase]. intros ka [Hka _]%open_subjects_in u. by apply recover_keeps.
Qed.

Lemma rule_keeps mode suppress a i deviceId orgId now t :
  fresh_inputs used gen i → keeps db0 (evaluate_rule mode suppress a i deviceId orgId now t).
Proof.
  intros Hf. unfold evaluate_rule. destruct (passed_over _ _ _); [apply keeps_pure|]. destruct (i_first i) as [r|]; [|apply keeps_pure].
  destruct (er_subjects r).
  - apply keeps_then; [|intros; apply keeps_pure]. apply keeps_logged. unfold reconcile_subjects. apply keeps_atomically.
    destruct (i_second i) as [ev|]; [|apply keeps_fail]. destruct (er_subjects ev); [|apply keeps_fail].
    apply keeps_then; [by apply subjects_keeps|]. intros answer. apply keeps_then; [|intros; apply keeps_pure].
    destruct (ap_monitor a) as [m|]; [|apply keeps_pure]. destruct suppress; [apply keeps_pure|].
    apply keeps_then; [|intros; apply keeps_pure]. apply keeps_in_db. intros. by apply with_monitoring_inv.
  - destruct suppress; [apply keeps_pure|]. apply keeps_then.
    + destruct (truthy _), (ap_monitor a); try apply keeps_pure. by apply record_episode_keeps.
    + intros e. apply keeps_then; [|intros; apply keeps_pure]. destruct (er_triggered r); [|apply keeps_pure].
      by apply keeps_logged, raise_alert_keeps.
Qed.

Lemma sweep_keeps mode maintenance deviceId device rules now t :
  Forall (λ ai, fresh_inputs used gen ai.2) rules →
  keeps db0 (evaluateDeviceAlertsInMode formatToParts Date_parse mode maintenance deviceId device rules now t).
Proof.
  intros Hf. unfold evaluateDeviceAlertsInMode. destruct rules as [|x l] eqn:E; [apply keeps_pure|]. rewrite <- E in *. clear x l E.
  destruct device as [orgId|]; [|apply keeps_pure]. apply keeps_then.
  - apply keeps_each. intros ai Hin acc. apply keeps_then; [|intros; apply keeps_pure]. apply rule_keeps.
    rewrite Forall_forall in Hf. by apply (Hf ai).
  - intros acc. apply keeps_then; [|intros; apply keeps_pure]. destruct mode; [|apply keeps_pure].
    destruct (maintenance_suppresses _ _ _ _); [apply keeps_pure|]. apply keeps_on_db. intros. by apply inv_monitoring.
Qed.

(** Retirement, from the tables it starts from. *)
Lemma retire_keeps deviceId keys eventId now t f published s :
  Inv used gen flight retired db0 db0 →
  Inv used gen flight retired db0 (resolveAlertsForRemovedComponents (R := R) deviceId keys eventId now t f published (db0, s)).2.1.
Proof.
  intros Hi. unfold resolveAlertsForRemovedComponents. destruct keys as [|k ks]; [done|].
  unfold atomically, andThen, reading. cbn [fst]. set (l := (List.filter _ _).*1).
  assert (Hl : ∀ id, id ∈ l → ∃ a, alerts db0 !! id = Some a ∧ is_Some (al_subjectKey a)).
  { intros id (ka & -> & [Hin Hb]%list_elem_of_In%filter_In)%list_elem_of_fmap. apply list_elem_of_In in Hin. destruct ka as [id a].
    apply elem_of_map_to_list in Hin. exists a. split; [done|]. cbn in Hb. destruct (al_subjectKey a); [eauto|].
    by rewrite andb_false_r in Hb. }
  match goal with |- context [for_each ?x ?y ?z ?w] =>
    assert (Inv used gen flight retired db0 (for_each x y z w).2.1) as Hc; [|by destruct (for_each x y z w) as [[]]] end.
  apply keeps_each; [|done]. intros id Hin acc w Hw. destruct (Hl id Hin) as (a & Ha & Eh). unfold andThen.
  assert (Inv used gen flight retired db0 (resolveAlert id None (Some "source_retired") true (eventId id) now t f published w).2.1) as Hr.
  { apply resolve_inv; [done|]. intros b Hb. right; right. split; [|done].
    by rewrite (proj1 (proj2 (proj2 (ev_identity _ _ (inv_evolves _ _ _ _ _ _ Hw _ _ _ Ha Hb))))). }
  destruct (resolveAlert _ _ _ _ _ _ _ _ _ _) as [[[]|] w1]; [|done..]. cbn [negb].
  apply (keeps_then _ _ _ _ _ (in_db (stageRetiredSubjectResolution id))); [|intros; apply keeps_pure|done].
  apply keeps_in_db. intros. by apply stage_retired_inv.
Qed.

End sweep_keeps.

End AlertKeeps.
