(* ===== verification/AlertHistory.v ===== *)
(** * Histories of alerts

    Any sequence of the operations of [Alerts], [AlertOutbox] and [AlertSweep], with the
    statements of the dispatchers and the writes of a creation interleaved with everything
    else, keeps the promises of the alert tables.  A transaction may also be rolled back
    after its operations ran: the tables are as before, but what was published and what
    was written to Redis stays. *)
From S2P Require Import Prelude JsText ZoneClock Redis RateLimit Transaction Maintenance MonitorEpisodes AlertNoise Alerts AlertOutbox AlertSweep AlertInvariant AlertKeeps.
From stdpp Require Import base tactics list strings gmap.
From Stdlib Require Import ZArith Lia.
Open Scope Z_scope.

Module AlertHistory.
Import Noise Alerts Outbox Sweep AlertInvariant AlertKeeps.

(** The tables and the noise controls, and what the dispatchers hold in memory: rows
    claimed, and retirements claimed with their key and token. *)
Record World (R : Type) := mkWorld {
  w_db : Db; w_store : Store R; w_flight : list (Slot * Claimed); w_retired : list (string * string * Retirement) }.
Arguments mkWorld {R} _ _ _ _.
Arguments w_db {R} _.
Arguments w_store {R} _.
Arguments w_flight {R} _.
Arguments w_retired {R} _.

(** A statement of a dispatcher names the row it holds by its position. *)
Inductive Op :=
| op_create (p : CreateAlertParams) (monitor : option (MonitorEpisodes.Monitor * string)) (id eventId : string) (now t : Z) (f : Fates)
    (published deleted : bool)
| op_create_writes (p : CreateAlertParams) (rule : Rule) (monitor : option (MonitorEpisodes.Monitor * string)) (id eventId : string) (now : Z)
    (published deleted : bool)
| op_sourced (deviceId orgId : string) (monitorId episodeId : option string) (requiresHuman : bool) (triggeredAt : Z) (id eventId : string)
    (published deleted : bool)
| op_rollback (id : string)
| op_resolve (id user : string) (reason : option string) (defer : bool) (eventId : string) (now t : Z) (f : Fates) (published : bool)
| op_auto (evaluate : json → string → bool) (orgId : option string) (inputs : string → string * Fates * bool) (now t : Z)
| op_resolve_handler (seen : option Alert) (id user eventId : string) (now t : Z) (f : Fates) (published : bool)
| op_acknowledge (seen : option Alert) (id user eventId : string) (now : Z) (published : bool)
| op_suppress (seen : option Alert) (id : string) (until : option (option Z)) (now : Z)
| op_dismiss (seen : option Alert) (id user : string) (now : Z)
| op_bulk (action : BulkAction) (user : string) (until : option (option Z)) (now : Z) (accessible : list (string * AlertStatus))
    (eventId : string → string) (published : string → bool)
| op_reap (now : Z) (locked : string → bool)
| op_sweep (mode : Mode) (maintenance : option Maintenance.MaintenanceSettings) (deviceId : string) (device : option string)
    (rules : list (Applicable * Inputs)) (now t : Z)
| op_stage (monitorId deviceId orgId id : string) (now : Z)
| op_retire (deviceId : string) (keys : list string) (eventId : string → string) (now t : Z) (f : Fates) (published : bool)
| op_claim (slot : Slot) (deviceId : option string) (token : string) (now : Z) (id : string)
| op_renew (n : nat) (now : Z)
| op_publish (n : nat)
| op_settle (n : nat)
| op_compensate (n : nat)
| op_effects (n : nat) (now t : Z) (f : Fates)
| op_claim_retirement (deviceId : option string) (token : string) (now : Z) (id : string)
| op_publish_retirement (n : nat)
| op_retirement_effects (n : nat) (now t : Z) (f : Fates)
| op_settle_retirement (n : nat)
| op_release_retirement (n : nat).

(** A step of a history: an operation whose transaction commits, or a transaction that is
    rolled back after it ran some operations. *)
Inductive Step := commit (o : Op) | rolled_back (os : list Op).

(** The identifiers an operation generates for alerts. *)
Definition generates (o : Op) (x : string) : Prop :=
  match o with
  | op_create _ _ id _ _ _ _ _ _ | op_create_writes _ _ _ id _ _ _ _ | op_sourced _ _ _ _ _ _ id _ _ _ | op_stage _ _ _ id _ => x = id
  | op_sweep _ _ _ _ rules _ _ => ∃ ai, ai ∈ rules ∧ ((∃ k, x = i_alertId ai.2 k) ∨ x = i_escalationId ai.2)
  | _ => False
  end.

(** The dispatchers publish, and write to Redis, outside any transaction. *)
Definition transactional (o : Op) : Prop :=
  match o with op_publish _ | op_effects _ _ _ _ | op_publish_retirement _ | op_retirement_effects _ _ _ _ => False | _ => True end.
Definition step_ok (s : Step) : Prop := match s with commit _ => True | rolled_back os => Forall transactional os end.

(** Generated identifiers are new. *)
Definition step_generates (s : Step) (x : string) : Prop := match s with commit o => generates o x | rolled_back _ => False end.
Fixpoint fresh (used : string → Prop) (steps : list Step) : Prop :=
  match steps with
  | [] => True
  | s :: steps' => (∀ x, step_generates s x → ¬ used x) ∧ fresh (λ x, used x ∨ step_generates s x) steps'
  end.

Section histories.
Context {R : Type} `{Redis R}.
Context (formatToParts : string → Z → option Parts) (Date_parse : string → option Z).

Definition on_tables (f : Db → Db) (w : World R) : World R := mkWorld (f (w_db w)) (w_store w) (w_flight w) (w_retired w).
Definition by_act {A} (c : Act (R := R) A) (w : World R) : World R :=
  let w1 := (c (w_db w, w_store w)).2 in mkWorld w1.1 w1.2 (w_flight w) (w_retired w).
Definition in_flight (n : nat) (f : Slot → Claimed → World R → World R) (w : World R) : World R :=
  match w_flight w !! n with Some (slot, c) => f slot c w | None => w end.
Definition in_retirement (n : nat) (f : string → string → Retirement → World R → World R) (w : World R) : World R :=
  match w_retired w !! n with Some (id, token, r) => f id token r w | None => w end.

Definition apply_op (w : World R) (o : Op) : World R :=
  match o with
  | op_create p monitor id eventId now t f published deleted => by_act (createAlert p monitor id eventId now t f published deleted) w
  | op_create_writes p rule monitor id eventId now published deleted =>
      on_tables (λ db, (create_writes p rule monitor id eventId now published deleted db).2) w
  | op_sourced deviceId orgId m e human at_ id eventId published deleted =>
      on_tables (λ db, (createSourcedAlert deviceId orgId m e human at_ id eventId published deleted db).2) w
  | op_rollback id => on_tables (on_alerts (delete id)) w
  | op_resolve id user reason defer eventId now t f published => by_act (resolveAlert id (Some user) reason defer eventId now t f published) w
  | op_auto evaluate orgId inputs now t =>
      by_act (λ v, let '(n, v1) := checkAllAutoResolve evaluate orgId inputs now t v in (Ok n, v1)) w
  | op_resolve_handler seen id user eventId now t f published =>
      by_act (λ v, let '(n, v1) := resolve_handler seen id user eventId now t f published v in (Ok n, v1)) w
  | op_acknowledge seen id user eventId now published => on_tables (λ db, (acknowledge_handler seen id user eventId now published db).2) w
  | op_suppress seen id until now => on_tables (λ db, (suppress_handler seen id until now db).2) w
  | op_dismiss seen id user now => on_tables (λ db, (dismiss_handler seen id user now db).2) w
  | op_bulk action user until now accessible eventId published =>
      on_tables (λ db, (bulk_handler action user until now accessible eventId published db).2) w
  | op_reap now locked => on_tables (λ db, (reapExpiredSuppressions now locked db).2) w
  | op_sweep mode maintenance deviceId device rules now t =>
      by_act (evaluateDeviceAlertsInMode formatToParts Date_parse mode maintenance deviceId device rules now t) w
  | op_stage monitorId deviceId orgId id now => on_tables (λ db, (run_tx (stage_escalation (monitorId, deviceId) orgId id now) db).2) w
  | op_retire deviceId keys eventId now t f published => by_act (resolveAlertsForRemovedComponents deviceId keys eventId now t f published) w
  | op_claim slot deviceId token now id =>
      let '(c, db) := claim_one slot deviceId token now id (w_db w) in
      mkWorld db (w_store w) (w_flight w ++ option_list ((slot,.) <$> c)) (w_retired w)
  | op_renew n now => in_flight n (λ slot c, on_tables (λ db, (renew slot c now db).2)) w
  | op_publish n => in_flight n (λ slot c, on_tables (publish (mkEvent (slot_event slot) (c_id c) (d_eventId (c_pending c))))) w
  | op_settle n => in_flight n (λ slot c, on_tables (acknowledge slot c)) w
  | op_compensate n => in_flight n (λ slot c, on_tables (compensate slot c)) w
  | op_effects n now t f => in_flight n (λ slot c v, mkWorld (w_db v) (effects slot c now t f (w_store v)) (w_flight v) (w_retired v)) w
  | op_claim_retirement deviceId token now id =>
      let '(r, db) := claim_retirement deviceId token now id (w_db w) in
      mkWorld db (w_store w) (w_flight w) (w_retired w ++ option_list ((λ x, (id, token, x)) <$> r))
  | op_publish_retirement n => in_retirement n (λ _ _ r, on_tables (publish (retirement_event r))) w
  | op_retirement_effects n now t f =>
      in_retirement n (λ _ _ r v, mkWorld (w_db v) (retirement_effects r now t f (w_store v)).2 (w_flight v) (w_retired v)) w
  | op_settle_retirement n => in_retirement n (λ id token _, on_tables (settle_retirement id token)) w
  | op_release_retirement n => in_retirement n (λ id token _, on_tables (release_retirement id token)) w
  end.
Definition run (w : World R) (ops : list Op) : World R := foldl apply_op w ops.

(** The delivery of a row is the statements in turn. *)
Lemma deliver_is_steps n slot c now t f published settled (w : World R) :
  w_flight w !! n = Some (slot, c) →
  deliver slot c now t f published settled (w_db w, w_store w)
  = (λ v : World R, (w_db v, w_store v))
      (run w (op_renew n now :: (if negb (renew slot c now (w_db w)).1 then []
                                 else if published then op_publish n :: (if settled then [op_settle n] else []) ++ [op_effects n now t f]
                                 else if settled then [op_compensate n] else []))).
Proof.
  intros Hn. unfold deliver. destruct (renew slot c now (w_db w)) as [live db1] eqn:Er.
  unfold run. cbn [foldl apply_op]. unfold in_flight, on_tables. rewrite Hn, Er. cbn [snd w_flight w_db w_store w_retired].
  destruct live; cbn [negb fst foldl]; [|done]. destruct published, settled; cbn [foldl apply_op app]; unfold in_flight, on_tables;
    repeat (cbn [w_flight w_db w_store w_retired foldl apply_op]; unfold in_flight, on_tables; rewrite ?Hn); done.
Qed.

Lemma retirement_is_steps n id token r now t f published (w : World R) :
  w_retired w !! n = Some (id, token, r) →
  deliver_retirement id token r now t f published (w_db w, w_store w)
  = (λ v : World R, (w_db v, w_store v))
      (run w (if published then [op_publish_retirement n; op_retirement_effects n now t f;
                                 match (retirement_effects r now t f (w_store w)).1 with
                                 | Ok _ => op_settle_retirement n
                                 | Err _ => op_release_retirement n
                                 end]
              else [op_release_retirement n])).
Proof.
  intros Hn. unfold deliver_retirement, run. destruct published; cbn [foldl apply_op negb]; unfold in_retirement, on_tables; rewrite ?Hn; [|done].
  cbn [w_retired w_db w_store w_flight]. rewrite Hn. cbn [w_retired w_db w_store w_flight].
  destruct (retirement_effects r now t f (w_store w)) as [[]]; cbn [fst snd apply_op]; unfold in_retirement, on_tables; cbn [w_retired w_db w_store];
    rewrite Hn; done.
Qed.

(** A call of [createAlert] is its checks, its writes and the effects after them. *)
Lemma create_is_writes p monitor id eventId now t f published deleted (w : World R) x s' db' :
  createAlert p monitor id eventId now t f published deleted (w_db w, w_store w) = (Ok (Some x), (db', s')) →
  ∃ rule, rules (w_db w) !! cp_ruleId p = Some rule ∧ (admission p rule now t f (w_db w) (w_store w)).1 = Ok true
    ∧ db' = w_db (apply_op w (op_create_writes p rule monitor id eventId now published deleted)).
Proof.
  unfold createAlert. case_bool_decide; [done|]. destruct (rules _ !! _) as [rule|]; [|done].
  destruct (admission _ _ _ _ _ _ _) as [[[]|] s1] eqn:Ea; try done. intros E. exists rule. rewrite Ea. split_and!; [done..|]. cbn.
  destruct (create_writes _ _ _ _ _ _ _ _ _) as [[[y|]|] db1]; destruct (cp_subjectKey p); try (by injection E); try done.
  destruct (after_trigger _ _ _ _ _ _) as [[] s2]; by injection E.
Qed.

(** *** Histories *)

Definition take_step (w : World R) (s : Step) : World R :=
  match s with
  | commit o => apply_op w o
  | rolled_back os => mkWorld (w_db w) (w_store (run w os)) (w_flight w) (w_retired w)
  end.
Definition live (w : World R) (steps : list Step) : World R := foldl take_step w steps.

(** What operations published; what the transactions that were rolled back published; all
    that was published. *)
Definition said (w v : World R) : list Event := take (length (bus (w_db v)) - length (bus (w_db w))) (bus (w_db v)).
Fixpoint undone (w : World R) (steps : list Step) : list Event :=
  match steps with
  | [] => []
  | s :: steps' => match s with commit _ => [] | rolled_back os => said w (run w os) end ++ undone (take_step w s) steps'
  end.
Definition heard (w : World R) (steps : list Step) : list Event := undone w steps ++ bus (w_db (live w steps)).

(** ** The invariant *)

Notation rows := (fmap (M := list) snd).

Lemma inv_flight used gen flight retired flight' retired' db0 db :
  Inv used gen flight retired db0 db →
  (∀ slot c, (slot, c) ∈ flight' → mentions flight retired db slot (c_id c) (d_eventId (c_pending c))) →
  (∀ r, r ∈ retired' → mentions flight retired db resolution_slot (rt_alertId r) (d_eventId (rt_pending r))) →
  Inv used gen flight' retired' db0 db.
Proof.
  intros [H1 H2 H3 H4 HB H5 H6 H7 H8] Hf Hr.
  assert (Hm : ∀ slot i e, mentions flight' retired' db slot i e → mentions flight retired db slot i e).
  { intros slot i e [M|a d M1 M2 M3|c M1 <- <-|r -> [M|M] <- <-];
      [by apply m_bus|by eapply m_row|by apply Hf|eapply m_retired; [done|by left|done..]|by apply Hr]. }
  split; eauto.
Qed.

(** The invariant of a world, relative to the identifiers used. *)
Definition settled_world (used : string → Prop) (w : World R) : Prop :=
  Inv used (λ _, False) (w_flight w) (rows (w_retired w)) (w_db w) (w_db w).

Lemma settled_used used w i : settled_world used w → is_Some (alerts (w_db w) !! i) → used i.
Proof. intros Hw [?|[]]%(inv_born _ _ _ _ _ _ Hw). done. Qed.

Lemma with_gen used gen gen' flight retired db0 db :
  Inv used gen flight retired db0 db → (∀ x, gen x → gen' x) → Inv used gen' flight retired db0 db.
Proof. intros [H1 H2 H3 H4 HB H5 H6 H7 H8] Hg. split; eauto. intros i Hi. destruct (HB i Hi); eauto. Qed.

Lemma act_step {A} used gen (c : Act (R := R) A) w :
  keeps used gen (w_flight w) (rows (w_retired w)) (w_db w) c → Inv used gen (w_flight w) (rows (w_retired w)) (w_db w) (w_db w) →
  Inv used gen (w_flight (by_act c w)) (rows (w_retired (by_act c w))) (w_db w) (w_db (by_act c w)).
Proof. intros Hc Hi. by apply (Hc (w_db w, w_store w)). Qed.

Lemma claimed_mentions slot c (w : World R) db : (slot, c) ∈ w_flight w → mentions (w_flight w) (rows (w_retired w)) db slot (c_id c) (d_eventId (c_pending c)).
Proof. intros Hc. by eapply m_flight. Qed.
Lemma retired_mentions r (w : World R) db :
  r ∈ rows (w_retired w) → mentions (w_flight w) (rows (w_retired w)) db resolution_slot (rt_alertId r) (d_eventId (rt_pending r)).
Proof. intros Hr. eapply m_retired; [done|by right|done..]. Qed.

(** One operation, relative to the tables before it. *)
Lemma alert_step used o w :
  settled_world used w → (∀ x, generates o x → ¬ used x) →
  Inv used (generates o) (w_flight (apply_op w o)) (rows (w_retired (apply_op w o))) (w_db w) (w_db (apply_op w o)).
Proof.
  intros Hs Hfr. pose proof (λ i, settled_used used w i Hs) as Hu.
  assert (Inv used (generates o) (w_flight w) (rows (w_retired w)) (w_db w) (w_db w)) as Hi by (by eapply with_gen).
  assert (Hnew : ∀ x, generates o x → newborn used (generates o) x) by (intros x Hx; split; auto).
  destruct o; cbn [apply_op].
  - apply act_step; [|done]. apply create_keeps; [done|by apply Hnew].
  - apply writes_inv; [done|done|by apply Hnew].
  - apply sourced_inv; [done|done|by apply Hnew].
  - cbn. destruct (alerts (w_db w) !! id) as [a|] eqn:Ha; [apply inv_delete; [done|left; apply Hu; eauto]|].
    cbn. replace (on_alerts (delete id) (w_db w)) with (w_db w); [done|]. destruct (w_db w). cbn in *. unfold on_alerts. cbn. by rewrite delete_id.
  - apply (resolve_inv _ _ _ _ _ id (Some user) reason defer eventId now t f published (w_db w, w_store w)); [done|]. left. eauto.
  - unfold by_act. pose proof (auto_all_inv _ _ _ _ _ evaluate orgId inputs now t (w_db w, w_store w) Hi) as Hr.
    by destruct (checkAllAutoResolve _ _ _ _ _ _).
  - unfold by_act. pose proof (resolve_handler_inv _ _ _ _ _ seen id user eventId now t f published (w_db w, w_store w) Hi) as Hr.
    by destruct (resolve_handler _ _ _ _ _ _ _ _ _).
  - by apply acknowledge_inv.
  - by apply suppress_inv.
  - by apply dismiss_inv.
  - by apply bulk_inv.
  - by apply reap_inv.
  - apply act_step; [|done]. apply sweep_keeps; [done|]. apply Forall_forall. intros ai Hai.
    split; [intros k|]; apply Hnew; exists ai; eauto.
  - apply stage_escalation_inv; [done..|]. by apply Hnew.
  - by apply retire_keeps.
  - pose proof (claim_one_inv _ _ _ _ _ slot deviceId token now id (w_db w) Hi) as Hc.
    pose proof (claim_one_mentions (w_flight w) (rows (w_retired w)) slot deviceId token now id (w_db w)) as Hm.
    destruct (claim_one _ _ _ _ _ _) as [c db]. cbn in *. eapply inv_flight; [exact Hc| |].
    + intros s x [Hx|Hx]%elem_of_app; [by apply claimed_mentions|]. destruct c as [c|]; [|by apply not_elem_of_nil in Hx].
      apply list_elem_of_singleton in Hx as [= -> ->]. by apply Hm.
    + intros r Hr. by apply retired_mentions.
  - unfold in_flight. destruct (w_flight w !! n) as [[slot c]|]; [|done]. by apply renew_inv.
  - unfold in_flight. destruct (w_flight w !! n) as [[slot c]|] eqn:En; [|done].
    apply mentioned_published; [done|]. apply claimed_mentions. by eapply list_elem_of_lookup_2.
  - unfold in_flight. destruct (w_flight w !! n) as [[slot c]|]; [|done]. by apply acknowledge_slot_inv.
  - unfold in_flight. destruct (w_flight w !! n) as [[slot c]|]; [|done]. by apply compensate_inv.
  - unfold in_flight. destruct (w_flight w !! n) as [[slot c]|]; done.
  - pose proof (claim_retirement_inv _ _ _ _ _ deviceId token now id (w_db w) Hi) as Hc.
    pose proof (claim_retirement_mentions (w_flight w) (rows (w_retired w)) deviceId token now id (w_db w)) as Hm.
    destruct (claim_retirement _ _ _ _ _) as [r db]. cbn in *. rewrite fmap_app. eapply inv_flight; [exact Hc| |].
    + intros s x Hx. by apply claimed_mentions.
    + intros q [Hq|Hq]%elem_of_app; [by apply retired_mentions|]. destruct r as [r|]; [|by apply not_elem_of_nil in Hq].
      apply list_elem_of_singleton in Hq as ->. by apply Hm.
  - unfold in_retirement. destruct (w_retired w !! n) as [[[id token] r]|] eqn:En; [|done].
    apply (mentioned_published _ _ _ _ _ _ resolution_slot); [done|]. apply retired_mentions.
    apply list_elem_of_fmap. exists (id, token, r). split; [done|]. by eapply list_elem_of_lookup_2.
  - unfold in_retirement. destruct (w_retired w !! n) as [[[id token] r]|]; done.
  - unfold in_retirement. destruct (w_retired w !! n) as [[[id token] r]|]; [|done]. by apply settle_retirement_inv.
  - unfold in_retirement. destruct (w_retired w !! n) as [[[id token] r]|]; [|done]. by apply release_retirement_inv.
Qed.

(** One step: what is rolled back leaves the tables. *)
Lemma take_step_inv used s w :
  settled_world used w → (∀ x, step_generates s x → ¬ used x) →
  Inv used (step_generates s) (w_flight (take_step w s)) (rows (w_retired (take_step w s))) (w_db w) (w_db (take_step w s)).
Proof. destruct s as [o|os]; intros Hs Hfr; [by apply alert_step|]. by eapply with_gen. Qed.

(** How the tables of two moments relate. *)
Record follows (used : string → Prop) (db db' : Db) : Prop := {
  fo_evolves : ∀ i a a', alerts db !! i = Some a → alerts db' !! i = Some a' → evolves a a';
  fo_gone : ∀ i, used i → alerts db !! i = None → alerts db' !! i = None;
  fo_settings : rules db' = rules db ∧ templates db' = templates db }.

Lemma step_settled used s w :
  settled_world used w → (∀ x, step_generates s x → ¬ used x) → settled_world (λ x, used x ∨ step_generates s x) (take_step w s).
Proof.
  intros Hs Hfr. pose proof (take_step_inv used s w Hs Hfr) as [H1 H2 H3 H4 HB H5 H6 H7 H8]. split; [done..| | | |done|done].
  - intros i Hp. left. by apply HB.
  - intros slot i e M. destruct (H5 _ _ _ M); auto.
  - intros i a a' E E'. rewrite E in E'. injection E' as <-. apply evolves_refl.
Qed.

Lemma live_settled used w steps more :
  settled_world used w → fresh used (steps ++ more) → ∃ used', settled_world used' (live w steps) ∧ fresh used' more.
Proof.
  revert used w. induction steps as [|s steps IH]; intros used w Hs Hf; [by exists used|].
  destruct Hf as [Hfr Hf]. eapply (IH _ (take_step w s)); [|exact Hf]. by apply step_settled.
Qed.

Lemma live_follows used w steps : settled_world used w → fresh used steps → follows used (w_db w) (w_db (live w steps)).
Proof.
  revert used w. induction steps as [|s steps IH]; intros used w Hs Hf.
  { split; [|done|done]. cbn. intros i a a' E E'. rewrite E in E'. injection E' as <-. apply evolves_refl. }
  destruct Hf as [Hfr Hf]. destruct (IH _ _ (step_settled used s w Hs Hfr) Hf) as [F1 F2 [F3 F4]].
  pose proof (take_step_inv used s w Hs Hfr) as [_ _ _ _ _ _ H6 H7 [H8 H9]].
  cbn [live foldl] in *. fold (live (take_step w s) steps) in *. split.
  - intros i a a' Ha Ha'. destruct (alerts (w_db (take_step w s)) !! i) as [a1|] eqn:E1.
    + eapply evolves_trans; [by eapply H6|by eapply F1].
    + rewrite (F2 i) in Ha'; [done| |done]. left. eapply settled_used; [exact Hs|eauto].
  - intros i Hu Hn. apply F2; [by left|]. by apply H7.
  - split; congruence.
Qed.

(** ** What holds of every history *)

(** No alert yet; the rules, the monitors and the noise controls are any. *)
Definition start (w : World R) : Prop :=
  alerts (w_db w) = ∅ ∧ retirements (w_db w) = ∅ ∧ bus (w_db w) = [] ∧ w_flight w = [] ∧ w_retired w = [].
Definition history (w : World R) (steps : list Step) : Prop := start w ∧ Forall step_ok steps ∧ fresh (λ _, False) steps.

Lemma start_settled w : start w → settled_world (λ _, False) w.
Proof.
  intros (Ha & Hr & Hb & Hf & Hq).
  assert (Hm : ∀ slot i e, ¬ mentions (w_flight w) (rows (w_retired w)) (w_db w) slot i e).
  { intros slot i e [M|a d M _ _|c M _ _|r _ [[key M]|M] _ _]; revert M; rewrite ?Ha, ?Hr, ?Hb, ?Hf, ?Hq.
    - by intros ?%not_elem_of_nil. - by rewrite lookup_empty. - by intros ?%not_elem_of_nil. - by rewrite lookup_empty. - by intros ?%not_elem_of_nil. }
  split; rewrite ?Ha.
  - intros i a. by rewrite lookup_empty.
  - intros i j a b. by rewrite lookup_empty.
  - intros slot i e e' M. by destruct (Hm _ _ _ M).
  - intros i e a M. by destruct (Hm _ _ _ M).
  - intros i. rewrite lookup_empty. by intros [].
  - intros slot i e M. by destruct (Hm _ _ _ M).
  - intros i a a'. by rewrite lookup_empty.
  - done.
  - done.
Qed.

Lemma history_settled w steps : history w steps → ∃ used, settled_world used (live w steps).
Proof.
  intros (Hs%start_settled & _ & Hf). rewrite <- (app_nil_r steps) in Hf. destruct (live_settled _ w steps [] Hs Hf) as (used & ? & _). eauto.
Qed.

(** Two moments of one history. *)
Lemma history_follows w steps more : history w (steps ++ more) → ∃ used, follows used (w_db (live w steps)) (w_db (live w (steps ++ more))).
Proof.
  intros (Hs%start_settled & _ & Hf). rewrite (foldl_app _ steps more w : live w (steps ++ more) = live (live w steps) more).
  destruct (live_settled _ w steps more Hs Hf) as (used & Hu & Hm). exists used. by apply live_follows.
Qed.

(** C16: one open alert.  Whatever sweeps, handlers, batches, reapers and dispatchers do,
    and in whatever order, transactions rolled back or not, a rule has at most one open alert (active, acknowledged or
    suppressed) for a device and component: nothing reopens an alert that has ended, and
    nothing creates a second one. *)
Theorem one_open_alert w steps i j a b r :
  history w steps → alerts (w_db (live w steps)) !! i = Some a → alerts (w_db (live w steps)) !! j = Some b →
  al_ruleId a = Some r → al_ruleId b = Some r → al_deviceId a = al_deviceId b → al_subjectKey a = al_subjectKey b →
  al_status a ∈ RESOLVABLE_ALERT_STATUSES → al_status b ∈ RESOLVABLE_ALERT_STATUSES → i = j.
Proof.
  intros [used Hs]%history_settled Ha Hb Hra Hrb Hd Hk Hoa%resolvable_open Hob%resolvable_open.
  eapply (inv_unique _ _ _ _ _ _ Hs); [done..|split_and!; congruence|eauto].
Qed.

(** C7: an alert ends once.  Between two moments of a history a row keeps its rule,
    device, component, organization, creation time and whether it requires a human.  Once
    it is resolved or dismissed, every column of it but the pending events of the outboxes
    is as it was (the status, who acknowledged, resolved, suppressed or dismissed it, when
    and why), except that a resolved alert may be dismissed, which writes the status and
    who dismissed it when, and nothing else; a dismissed alert never changes.  So a late
    acknowledgement, suppression or resolution of it writes nothing.  (The conversion of
    rules to monitors and the linking of network changes, which move rows to another rule,
    component or device, are not among the operations.) *)
Theorem alert_ends_once w steps more i a a' :
  history w (steps ++ more) → alerts (w_db (live w steps)) !! i = Some a → alerts (w_db (live w (steps ++ more))) !! i = Some a' →
  (al_ruleId a', al_deviceId a', al_subjectKey a', al_orgId a', al_triggeredAt a', al_requiresHuman a')
    = (al_ruleId a, al_deviceId a, al_subjectKey a, al_orgId a, al_triggeredAt a, al_requiresHuman a)
  ∧ (al_status a ∈ [s_resolved; s_dismissed] →
       set_dispatches None None a' = set_dispatches None None a
       ∨ (al_status a = s_resolved
          ∧ ∃ now user, set_dispatches None None a' = set_dispatches None None (set_dismissed now user a))).
Proof.
  intros [used [F _ _]]%history_follows Ha Ha'. destruct (F _ _ _ Ha Ha') as [(I1 & I2 & I3 & I4 & I5 & I6) E]. split.
  - by rewrite I1, I2, I3, I4, I5, I6.
  - intros Hs. apply E. rewrite open_cases. apply bool_decide_eq_false. set_solver.
Qed.

(** C6: announced once.  Whatever is retried, leased twice or delivered after a crash, all
    the [alert.triggered] events published about an alert carry one event id, and so do
    all its [alert.resolved] events, and an alert whose resolution was announced is not
    open; the only exceptions are the events of a transaction that was rolled back after
    it had published ([undone]), since a sweep, a handler or a batch publishes before the
    transaction around it commits. *)
Theorem announced_once w steps slot i e e' :
  history w steps → mkEvent (slot_event slot) i e ∈ heard w steps → mkEvent (slot_event slot) i e' ∈ heard w steps →
  mkEvent (slot_event slot) i e ∈ undone w steps ∨ mkEvent (slot_event slot) i e' ∈ undone w steps
  ∨ (e = e' ∧ (slot = resolution_slot → ∀ a, alerts (w_db (live w steps)) !! i = Some a → al_status a ∈ [s_resolved; s_dismissed])).
Proof.
  intros [used Hs]%history_settled [?|He]%elem_of_app [?|He']%elem_of_app; [by left|by left|by right; left|right; right].
  split; [eapply (inv_once _ _ _ _ _ _ Hs slot i); by apply m_bus|].
  intros -> a Ha. pose proof (inv_ended _ _ _ _ _ _ Hs i e a ltac:(by apply (m_bus _ _ _ resolution_slot)) Ha) as Ho.
  rewrite open_cases in Ho. apply bool_decide_eq_false in Ho. destruct (al_status a); set_solver.
Qed.

(** C22: an escalation is closed by a person.  An alert that requires a human and is
    resolved names who resolved it, unless it is of a component and the component was
    retired, whose alerts are resolved whatever they require: no automatic resolution, no
    recovery of a component and no sweep resolved it.  (The alerts that the recurrence of
    a monitor raises are of no component.) *)
Theorem escalations_closed_by_people w steps i a :
  history w steps → alerts (w_db (live w steps)) !! i = Some a → al_requiresHuman a = true → al_status a = s_resolved →
  (∃ user, al_resolvedBy a = Some user) ∨ (is_Some (al_subjectKey a) ∧ al_resolutionReason a = Some "source_retired").
Proof.
  intros [used Hs]%history_settled Ha Hh Hr. pose proof (inv_shaped _ _ _ _ _ _ Hs _ _ Ha) as [_ Sr _ _ _ Sh].
  destruct (Sh Hh (Sr Hr)) as [Hu|Hk]; [by left|by right].
Qed.

(** Histories in which every transaction commits. *)
Lemma commits_ok ops : Forall step_ok (commit <$> ops).
Proof. apply Forall_fmap, Forall_forall. done. Qed.
Lemma commits_undo_nothing w ops : undone w (commit <$> ops) = [].
Proof. revert w. induction ops as [|o ops IH]; intros w; [done|]. apply (IH (apply_op w o)). Qed.
Lemma commits_run w ops : live w (commit <$> ops) = run w ops.
Proof. unfold live, run. revert w. induction ops as [|o ops IH]; intros w; [done|]. apply (IH (apply_op w o)). Qed.

End histories.

(** ** A history *)

Definition ex_rule : Rule := mkRule "t1" None (Some 5) (Some true) None None.
Definition ex_db : Db := mkDb ∅ {["r1" := ex_rule]} {["t1" := mkTemplate 5 true JNull None]} (MonitorEpisodes.mkDb ∅ ∅) ∅ [].
Definition ex_world : World (gmap string Entry) := mkWorld ex_db (mkStore (Some ∅) ∅) [] [].
Definition ex_run : list Op → World (gmap string Entry) := run (λ _ _, None) (λ _, None) ex_world.
Definition ex_row (i : string) (ops : list Op) : Alert :=
  default (sourced_alert "" "" None None false 0) (alerts (w_db (ex_run ops)) !! i).
Definition well : Fates := mkFates replied replied replied replied replied replied replied replied.
Definition ex_params (k : option string) : CreateAlertParams := mkParams "r1" "d1" "o1" k None None false.

(** Created, acknowledged, resolved by a person; created again after the cooldown. *)
Definition ex_ops : list Op :=
  [op_create (ex_params None) None "a1" "e1" 1000 1000 well true true;
   op_acknowledge (Some (sourced_alert "" "" None None false 0)) "a1" "u1" "e2" 2000 true;
   op_resolve_handler (Some (new_alert (ex_params None) ex_rule 1000)) "a1" "u1" "e3" 3000 3000 well true;
   op_create (ex_params None) None "a2" "e4" 4000 4000 well true true;
   op_create (ex_params None) None "a3" "e5" 900000 900000 well true true].
(** Late writes, from rows read before. *)
Definition ex_late : list Op :=
  [op_acknowledge (Some (sourced_alert "" "" None None false 0)) "a1" "u2" "e6" 910000 true;
   op_resolve "a1" "u2" None false "e7" 911000 911000 well true;
   op_dismiss (Some (sourced_alert "" "" None None false 0)) "a1" "u3" 912000].
(** A component: its event is published, the worker dies, another publishes it again. *)
Definition ex_component : list Op :=
  [op_create (ex_params (Some "disk:0")) None "a1" "" 1000 1000 well true true;
   op_claim trigger_slot None "w1" 2000 "a1"; op_renew 0 2000; op_publish 0;
   op_claim trigger_slot None "w2" 400000 "a1"; op_renew 1 400000; op_publish 1; op_settle 1; op_effects 1 400000 400000 well].
Definition ex_escalation : list Op :=
  [op_sourced "d1" "o1" (Some "m1") (Some "ep1") true 1000 "a1" "e1" true true;
   op_auto (λ _ _, true) None (λ _, ("e2", well, true)) 2000 2000;
   op_resolve_handler (Some (sourced_alert "" "" None None false 0)) "a1" "u1" "e3" 3000 3000 well true].

Definition ex_steps : list Op → list Step := fmap commit.

Lemma ex_history : history ex_world (ex_steps ex_ops ++ ex_steps ex_late) ∧ history ex_world (ex_steps ex_ops).
Proof. split; (split; [done|split; [rewrite ?Forall_app; try split; apply commits_ok|]]); cbn; intuition congruence. Qed.
Lemma ex_component_history : history ex_world (ex_steps ex_component).
Proof. split; [done|split; [apply commits_ok|]]; cbn; intuition congruence. Qed.
Lemma ex_escalation_history : history ex_world (ex_steps ex_escalation).
Proof. split; [done|split; [apply commits_ok|]]; cbn; intuition congruence. Qed.

Lemma one_open_alert_witness :
  al_status (ex_row "a1" ex_ops) = s_resolved ∧ alerts (w_db (ex_run ex_ops)) !! "a2" = None
  ∧ al_status (ex_row "a3" ex_ops) = s_active ∧ "a3" = "a3".
Proof.
  split; [vm_compute; reflexivity|]. split; [vm_compute; reflexivity|]. split; [vm_compute; reflexivity|].
  apply (one_open_alert (λ _ _, None) (λ _, None) ex_world (ex_steps ex_ops) "a3" "a3" (ex_row "a3" ex_ops) (ex_row "a3" ex_ops) "r1");
    [exact (proj2 ex_history)|vm_compute; reflexivity..| |]; apply (bool_decide_unpack _); vm_compute; exact I.
Defined.

(** Resolved, then acknowledged, resolved and dismissed too late: only the dismissal is
    written, and the resolution stays. *)
Lemma alert_ends_once_witness :
  let a := ex_row "a1" ex_ops in let a' := ex_row "a1" (ex_ops ++ ex_late) in
  (al_status a, al_status a') = (s_resolved, s_dismissed)
  ∧ (set_dispatches None None a' = set_dispatches None None a
     ∨ (al_status a = s_resolved ∧ ∃ now user, set_dispatches None None a' = set_dispatches None None (set_dismissed now user a))).
Proof.
  split; [vm_compute; reflexivity|].
  destruct (alert_ends_once (λ _ _, None) (λ _, None) ex_world (ex_steps ex_ops) (ex_steps ex_late) "a1" (ex_row "a1" ex_ops)
              (ex_row "a1" (ex_ops ++ ex_late))) as (_ & E); [exact (proj1 ex_history)|vm_compute; reflexivity..|].
  apply E. apply (bool_decide_unpack _); vm_compute; exact I.
Defined.

Lemma announced_once_witness :
  bus (w_db (ex_run ex_component)) = [mkEvent alert_triggered "a1" "a1"; mkEvent alert_triggered "a1" "a1"]
  ∧ "a1" = "a1".
Proof.
  split; [vm_compute; reflexivity|].
  destruct (announced_once (λ _ _, None) (λ _, None) ex_world (ex_steps ex_component) trigger_slot "a1" "a1" "a1" ex_component_history) as [E|[E|[E _]]];
    [apply list_elem_of_In; vm_compute; auto..| | |done]; unfold ex_steps in E; rewrite commits_undo_nothing in E; by apply not_elem_of_nil in E.
Defined.

Lemma escalations_closed_by_people_witness :
  al_status (ex_row "a1" (take 2 ex_escalation)) = s_active
  ∧ ((∃ user, al_resolvedBy (ex_row "a1" ex_escalation) = Some user)
     ∨ (is_Some (al_subjectKey (ex_row "a1" ex_escalation)) ∧ al_resolutionReason (ex_row "a1" ex_escalation) = Some "source_retired")).
Proof.
  split; [vm_compute; reflexivity|].
  apply (escalations_closed_by_people (λ _ _, None) (λ _, None) ex_world (ex_steps ex_escalation) "a1" (ex_row "a1" ex_escalation) ex_escalation_history);
    vm_compute; reflexivity.
Defined.

(** ** Edges *)

(** The automatic resolution runs in one transaction and publishes before it commits: if
    the commit fails, the resolution of an alert that is still open was announced, and the
    next run announces it again with another event id.  A creation that is rolled back
    announces an alert that does not exist. *)
Definition ex_auto (eventId : string) (t : Z) : Op := op_auto (λ _ _, false) None (λ _, (eventId, well, true)) t t.
Definition ex_undone : list Step :=
  [commit (op_create (ex_params None) None "a1" "e1" 1000 1000 well true true); rolled_back [ex_auto "e2" 2000]].
Example rolled_back_announcement :
  history ex_world (ex_undone ++ [commit (ex_auto "e3" 3000)])
  ∧ al_status <$> alerts (w_db (live (λ _ _, None) (λ _, None) ex_world ex_undone)) !! "a1" = Some s_active
  ∧ heard (λ _ _, None) (λ _, None) ex_world (ex_undone ++ [commit (ex_auto "e3" 3000)])
    = [mkEvent alert_resolved "a1" "e2"; mkEvent alert_resolved "a1" "e3"; mkEvent alert_triggered "a1" "e1"].
Proof.
  split; [|vm_compute; done]. split; [done|split; [|cbn; intuition congruence]].
  repeat constructor.
Qed.
Example rolled_back_creation :
  let steps := [rolled_back [op_create (ex_params None) None "a1" "e1" 1000 1000 well true true]] in
  alerts (w_db (live (λ _ _, None) (λ _, None) ex_world steps)) = ∅
  ∧ heard (λ _ _, None) (λ _, None) ex_world steps = [mkEvent alert_triggered "a1" "e1"].
Proof. vm_compute. done. Qed.

(** The retirement of a component resolves its alert though it requires a human. *)
Example retirement_resolves_any :
  let ops := [op_create (mkParams "r1" "d1" "o1" (Some "disk:0") None None true) None "a1" "" 1000 1000 well true true;
              op_retire "d1" ["disk:0"] (λ _, "e2") 2000 2000 well true] in
  (al_status (ex_row "a1" ops), al_resolvedBy (ex_row "a1" ops), al_resolutionReason (ex_row "a1" ops))
  = (s_resolved, None, Some "source_retired").
Proof. vm_compute. done. Qed.

(** Two calls that both passed their checks: the second finds the first alert resolved, and
    creates another within the cooldown. *)
Example overlapping_calls_both_create :
  let ops := [op_create (ex_params None) None "a1" "e1" 1000 1000 well true true;
              op_resolve_handler (Some (sourced_alert "" "" None None false 0)) "a1" "u1" "e2" 1001 1001 well true;
              op_create_writes (ex_params None) ex_rule None "a2" "e3" 1002 true true] in
  (al_status (ex_row "a1" ops), al_status (ex_row "a2" ops)) = (s_resolved, s_active).
Proof. vm_compute. done. Qed.

(** A rule may be given a cooldown of zero minutes, which Redis refuses: the alert is
    resolved and its [alert.resolved] is never published. *)
Definition ex_zero : World (gmap string Entry) :=
  mkWorld (mkDb ∅ {["r1" := mkRule "t1" None (Some 0) None None None]} {["t1" := mkTemplate 5 true JNull None]} (MonitorEpisodes.mkDb ∅ ∅) ∅ [])
    (mkStore (Some ∅) ∅) [] [].
Example zero_cooldown_unannounced :
  let w := run (λ _ _, None) (λ _, None) ex_zero
             [op_create (ex_params None) None "a1" "e1" 1000 1000 well true true; op_resolve "a1" "u1" None false "e2" 2000 2000 well true] in
  al_status <$> alerts (w_db w) !! "a1" = Some s_resolved ∧ bus (w_db w) = [mkEvent alert_triggered "a1" "e1"].
Proof. vm_compute. done. Qed.

(** The recovery of a component that is gone is then published at every tick. *)
Example zero_cooldown_retirement_repeats :
  let w := run (λ _ _, None) (λ _, None) ex_zero
             [op_create (ex_params (Some "disk:0")) None "a1" "" 1000 1000 well true true; op_retire "d1" ["disk:0"] (λ _, "e2") 2000 2000 well true;
              op_claim_retirement None "w1" 3000 "e2"; op_publish_retirement 0; op_retirement_effects 0 3000 3000 well; op_release_retirement 0;
              op_claim_retirement None "w2" 4000 "e2"; op_publish_retirement 1; op_retirement_effects 1 4000 4000 well; op_release_retirement 1] in
  (∀ x, (λ r, (retirement_effects r.2 3000 3000 well (w_store w)).1) <$> head (w_retired w) ≠ Some (Ok x))
  ∧ bus (w_db w) = [mkEvent alert_resolved "a1" "e2"; mkEvent alert_resolved "a1" "e2"] ∧ is_Some (retirements (w_db w) !! "e2").
Proof. vm_compute. split; [by intros x|eauto]. Qed.

(** The undoing of a failed publication does not look at the status: an alert that a
    person resolved after the lease was renewed is deleted with its resolution. *)
Example compensation_deletes_resolved :
  let ops := [op_create (ex_params (Some "disk:0")) None "a1" "" 1000 1000 well true true; op_claim trigger_slot None "w1" 2000 "a1"; op_renew 0 2000;
              op_resolve_handler (Some (sourced_alert "" "" None None false 0)) "a1" "u1" "e1" 3000 3000 well true] in
  al_status <$> alerts (w_db (ex_run ops)) !! "a1" = Some s_resolved ∧ alerts (w_db (ex_run (ops ++ [op_compensate 0]))) !! "a1" = None.
Proof. vm_compute. done. Qed.

(** The pending [alert.resolved] of a component is sent from the status [resolved] only:
    an alert dismissed before the drain keeps it forever. *)
Lemma dismissed_recovery_unsent deviceId now a : al_status a = s_dismissed → claimable resolution_slot deviceId now a = false.
Proof. unfold claimable. intros ->. by destruct (slot_of _ _). Qed.

(** A monitor with an open episode on the device. *)
Definition ex_monitor : MonitorEpisodes.Monitor := MonitorEpisodes.mkMonitor "m1" None None false.
Definition ex_monitored : World (gmap string Entry) :=
  mkWorld (mkDb ∅ ∅ ∅ (MonitorEpisodes.mkDb {["ep1" := MonitorEpisodes.mkEpisode "m1" "d1" "o1" 0 None None None None None]}
                         {[("m1", "d1") := MonitorEpisodes.with_current (Some "ep1") (MonitorEpisodes.fresh_state "o1")]}) ∅ [])
    (mkStore (Some ∅) ∅) [] [].
Definition ex_failing : Applicable * Inputs :=
  (mkApplicable "r1" (mkRule "t1" (Some "m1") None None None None) (mkTemplate 5 true JNull None) (Some (ex_monitor, "threshold")),
   mkInputs (Err "timeout") (Err "timeout") (λ _, "a1") (λ _, "ep2") (λ _, "e1") "a2" "e2" (λ _, well) true true true true).
Definition ex_end (rules : list (Applicable * Inputs)) : option MonitorEpisodes.EndReason :=
  let w := run (λ _ _, None) (λ _, None) ex_monitored [op_sweep device_sweep None "d1" (Some "o1") rules 1000 1000] in
  MonitorEpisodes.episodes (monitoring (w_db w)) !! "ep1" ≫= MonitorEpisodes.ep_endReason.

(** A rule whose evaluation fails is not counted as evaluated, so the sweep closes the
    episode of its monitor as detached; and a device to which no rule applies any more is
    never swept, so the episode of its last monitor stays open. *)
Example failed_evaluation_detaches : ex_end [ex_failing] = Some MonitorEpisodes.monitor_detached.
Proof. vm_compute. reflexivity. Qed.
Example last_monitor_not_detached : ex_end [] = None.
Proof. vm_compute. reflexivity. Qed.

End AlertHistory.
