(* ===== verification/AlertConditions.v ===== *)
(** * Alert conditions

    [services/alertConditions/index.ts] and [registry.ts]: a tree of conditions is read
    from JSON, validated, scanned for retired types, and evaluated against a device.  The
    leaves are evaluated at once, and finish in any order: [order] is the order in which
    they did.  The handlers of the condition types query the database and are parameters
    of the registry; numbers are the JSON numbers. *)
From S2P Require Import Prelude JsText.
From stdpp Require Import base tactics list list_numbers strings gmap pretty.
From Stdlib Require Import ZArith Lia.

Module Conditions.

(** ** The registry *)

Record Subject := mkSubject { sj_key : string; sj_status : string }.
Record ConditionResult := mkResult {
  cr_passed : bool; cr_description : string; cr_actualValue : option json; cr_dataAvailable : option bool;
  cr_subjects : option (list Subject) }.

Record ConditionHandler := mkHandler {
  h_type : string; h_aliases : list string; h_evaluate : json → ConditionResult; h_validate : json → string → list string }.
Definition Registry : Type := gmap string ConditionHandler.

Definition register (handler : ConditionHandler) (handlers : Registry) : Registry :=
  foldl (λ hs alias, <[alias := handler]> hs) (<[h_type handler := handler]> handlers) (h_aliases handler).

(** [cond.type], as a key and as text. *)
Definition type_of (cond : json) : option string := jstring (jget "type" cond).
Definition type_text (cond : json) : string :=
  match jget "type" cond with Some (JStr s) => s | Some JNull => "null" | Some _ => "?" | None => "undefined" end.

Section registry.
Context (handlers : Registry).

Definition handler_of (cond : json) : option ConditionHandler := type_of cond ≫= λ t, handlers !! t.
Definition registry_evaluate (cond : json) : ConditionResult :=
  match handler_of cond with
  | Some h => h_evaluate h cond
  | None => mkResult false ("Unknown condition type: " +:+ type_text cond) None None None
  end.
Definition registry_validate (cond : json) (path : string) : list string :=
  match handler_of cond with
  | Some h => h_validate h cond path
  | None => [path +:+ ".type: Unknown condition type '" +:+ type_text cond +:+ "'"]
  end.
Definition getRegisteredTypes : list string := (map_to_list handlers).*1.
End registry.

(** ** Trees *)

Inductive RootCondition :=
| Leaf (condition : json)
| Group (all : bool) (conditions : list RootCondition).   (* [logic === 'and'] *)

Definition has (k : string) (j : json) : bool := bool_decide (is_Some (jget k j)).
Definition isConditionGroup (j : json) : bool := has "logic" j && has "conditions" j.
Definition is_and (j : json) : bool := bool_decide (jstring (jget "logic" j) = Some "and").

(** The tree the evaluator walks; [None]: it throws, on a primitive or on a group whose
    [conditions] is not an array. *)
Fixpoint read (j : json) : option RootCondition :=
  match j with
  | JObj l =>
      if isConditionGroup j then
        (fix find (l : list (string * json)) : option RootCondition :=
           match l with
           | [] => None
           | (k, v) :: l' =>
               if String.eqb k "conditions" then
                 match v with
                 | JArr cs => Group (is_and j) <$>
                     (fix reads (cs : list json) : option (list RootCondition) :=
                        match cs with
                        | [] => Some []
                        | c :: cs' => match read c, reads cs' with Some t, Some ts => Some (t :: ts) | _, _ => None end
                        end) cs
                 | _ => None
                 end
               else find l'
           end) l
      else Some (Leaf j)
  | JArr _ => Some (Leaf j)
  | _ => None
  end.
Definition reads (cs : list json) : option (list RootCondition) :=
  foldr (λ c acc, match read c, acc with Some t, Some ts => Some (t :: ts) | _, _ => None end) (Some []) cs.

(** Falsy conditions, an array, an object, anything else. *)
Inductive Root := no_conditions | bad_format | unreadable | root (t : RootCondition).
Definition root_condition (conditions : option json) : Root :=
  match conditions with
  | None | Some JNull | Some (JBool false) | Some (JNum 0) | Some (JStr "") => no_conditions
  | Some (JArr cs) => match reads cs with Some ts => root (Group true ts) | None => unreadable end
  | Some (JObj l) => match read (JObj l) with Some t => root t | None => unreadable end
  | Some _ => bad_format
  end.

Fixpoint leaves (t : RootCondition) : list json :=
  match t with
  | Leaf c => [c]
  | Group _ ts => (fix go (ts : list RootCondition) : list json := match ts with [] => [] | x :: ts' => leaves x ++ go ts' end) ts
  end.

(** ** Evaluation *)

(** A slot of [leafActualValues]. *)
Record Slot := mkSlot { sl_type : option string; sl_actualValue : option json }.
Record Accumulator := mkAcc {
  met : list string; notMet : list string; leafActualValues : list Slot; sawUnknown : bool; acc_subjects : option (list Subject) }.

Definition is_number (j : json) : bool := match j with JNum _ | JFrac _ => true | _ => false end.
Definition number (o : option json) : option json := match o with Some j => if is_number j then Some j else None | None => None end.

(** The slots are reserved in the order of the tree, before any leaf finishes. *)
Definition reserve (ls : list json) : Accumulator :=
  mkAcc [] [] ((λ c, mkSlot (type_of c) None) <$> ls) false None.

(** A leaf finishes: the continuation after its [await]. *)
Definition settle (n : nat) (r : ConditionResult) (acc : Accumulator) : Accumulator :=
  mkAcc (if cr_passed r then met acc ++ [cr_description r] else met acc)
    (if cr_passed r then notMet acc else notMet acc ++ [cr_description r])
    (alter (λ s, match number (cr_actualValue r) with Some v => mkSlot (sl_type s) (Some v) | None => s end) n (leafActualValues acc))
    (sawUnknown acc || bool_decide (cr_dataAvailable r = Some false))
    (cr_subjects r).

Definition pickPrimaryActualValue (candidates : list Slot) : option json :=
  let value s := number (sl_actualValue s) in
  let metric s := match sl_type s with Some t => String.eqb t "threshold" || String.eqb t "metric" | None => false end in
  match list_find (λ s, metric s = true ∧ is_Some (value s)) candidates with
  | Some (_, s) => value s
  | None => list_find (λ s, is_Some (value s)) candidates ≫= λ x, value x.2
  end.

(** Whether the tree holds, from the answers of its leaves in order, and the answers left. *)
Fixpoint holds (t : RootCondition) (rs : list ConditionResult) : bool * list ConditionResult :=
  match t with
  | Leaf _ => match rs with r :: rs' => (cr_passed r, rs') | [] => (false, []) end
  | Group all ts =>
      (fix go (ts : list RootCondition) (rs : list ConditionResult) : bool * list ConditionResult :=
         match ts with
         | [] => (all, rs)
         | x :: ts' => let '(b, rs1) := holds x rs in let '(b', rs2) := go ts' rs1 in
                       (if all then b && b' else b || b', rs2)
         end) ts rs
  end.

(** The first leaf that compares a value: [operator in cond] and a numeric [value]. *)
Definition isThresholdLike (c : json) : bool := has "operator" c && bool_decide (is_Some (number (jget "value" c))).
Definition findFirstThreshold (t : RootCondition) : option json := snd <$> list_find (λ c, isThresholdLike c = true) (leaves t).

Definition METRIC_NAME_MAP : list (string * string) :=
  [("cpu", "cpuPercent"); ("cpuPercent", "cpuPercent"); ("ram", "ramPercent"); ("ramPercent", "ramPercent"); ("memory", "ramPercent");
   ("disk", "diskPercent"); ("diskPercent", "diskPercent"); ("processCount", "processCount"); ("processes", "processCount")].
Definition normalizeMetricName (metric : string) : option string :=
  snd <$> List.find (λ p, String.eqb p.1 metric) METRIC_NAME_MAP.

Definition getOperatorDisplay (operator : string) : string :=
  match List.find (λ p, String.eqb p.1 operator) [("gt", ">"); ("gte", ">="); ("lt", "<"); ("lte", "<="); ("eq", "="); ("neq", "!=")] with
  | Some p => p.2
  | None => operator
  end.

Record Context := mkContext {
  cx_metric : option string; cx_actualValue : option json; cx_threshold : option json; cx_operator : option string;
  cx_durationMinutes : option json }.
Definition no_context : Context := mkContext None None None None None.

(** [latest]: the columns of the newest sample of the device. *)
Definition context_of (t : RootCondition) (primary : option json) (latest : string → option json) : Context :=
  match findFirstThreshold t with
  | Some c =>
      let metric := truthy (jstring (jget "metric" c)) in
      mkContext metric
        (match primary with Some v => Some v | None => (metric ≫= normalizeMetricName) ≫= latest end)
        (jget "value" c) (getOperatorDisplay <$> jstring (jget "operator" c)) (jget "durationMinutes" c)
  | None => mkContext None primary None None None
  end.

Record EvaluationResult := mkEvaluation {
  er_triggered : bool; er_met : list string; er_notMet : list string; er_unknown : bool; er_subjects : option (list Subject);
  er_context : Context }.

(** [answers]: the result of each leaf, in the order of the tree. *)
Definition evaluate_tree (t : RootCondition) (answers : list ConditionResult) (order : list nat) (latest : string → option json)
    : EvaluationResult :=
  let acc := foldl (λ acc n, match answers !! n with Some r => settle n r acc | None => acc end) (reserve (leaves t)) order in
  mkEvaluation (holds t answers).1 (met acc) (notMet acc) (sawUnknown acc)
    (match t with Leaf _ => acc_subjects acc | Group _ _ => None end)
    (context_of t (pickPrimaryActualValue (leafActualValues acc)) latest).

(** The schedule gives the order in which the leaves of a tree finish; [None]: it throws. *)
Definition evaluateConditions (evaluate : json → ConditionResult) (conditions : option json) (schedule : nat → list nat)
    (latest : string → option json) : option EvaluationResult :=
  match root_condition conditions with
  | no_conditions => Some (mkEvaluation false [] ["No conditions defined"] true None no_context)
  | bad_format => Some (mkEvaluation false [] ["Invalid conditions format"] true None no_context)
  | unreadable => None
  | root t => Some (evaluate_tree t (evaluate <$> leaves t) (schedule (length (leaves t))) latest)
  end.

(** [evaluateAutoResolveConditions]: whether to resolve. *)
Definition evaluateAutoResolveConditions (evaluate : json → ConditionResult) (conditions : option json) (schedule : nat → list nat)
    (latest : string → option json) : option bool :=
  match root_condition conditions with
  | no_conditions => Some false
  | _ => er_triggered <$> evaluateConditions evaluate conditions schedule latest
  end.

(** ** Validation *)

Section validate.
Context (handlers : Registry).

Fixpoint validateSingle (cond : json) (path : string) : list string :=
  match cond with
  | JObj l =>
      if has "logic" cond then
        (if bool_decide (jstring (jget "logic" cond) = Some "and") || bool_decide (jstring (jget "logic" cond) = Some "or") then []
         else [path +:+ ".logic: Must be 'and' or 'or'"])
        ++ (fix find (l : list (string * json)) : list string :=
              match l with
              | [] => [path +:+ ".conditions: Must be an array"]
              | (k, v) :: l' =>
                  if String.eqb k "conditions" then
                    match v with
                    | JArr cs => (fix go (i : nat) (cs : list json) : list string :=
                                    match cs with
                                    | [] => []
                                    | c :: cs' => validateSingle c (path +:+ ".conditions[" +:+ pretty i +:+ "]") ++ go (S i) cs'
                                    end) 0%nat cs
                    | _ => [path +:+ ".conditions: Must be an array"]
                    end
                  else find l'
              end) l
      else if has "type" cond then registry_validate handlers cond path
      else [path +:+ ": Missing 'type' or 'logic' property"]
  | JArr _ => [path +:+ ": Missing 'type' or 'logic' property"]
  | _ => [path +:+ ": Must be an object"]
  end.

Definition validateConditions (conditions : option json) : list string :=
  match conditions with
  | None | Some JNull | Some (JBool false) | Some (JNum 0) | Some (JStr "") => ["Conditions cannot be empty"]
  | Some (JArr cs) => concat (imap (λ i c, validateSingle c ("conditions[" +:+ pretty i +:+ "]")) cs)
  | Some c => validateSingle c "conditions"
  end.
End validate.

(** ** Retired types *)

Definition MAX_CONDITION_DEPTH : nat := 10.
Definition MAX_CONDITION_NODES : nat := 2000.
Definition RETIRED_CONDITION_TYPES : list string := ["custom"].

Record Scan := mkScan { retired : list string; visited : nat; truncated : bool }.
Definition found (t : string) (s : Scan) : Scan :=
  if bool_decide (t ∈ retired s) then s else mkScan (retired s ++ [t]) (visited s) (truncated s).
Definition retired_type (j : json) : option string :=
  match type_of j with Some t => if bool_decide (t ∈ RETIRED_CONDITION_TYPES) then Some t else None | None => None end.

Fixpoint walk (node : json) (depth : nat) (s : Scan) : Scan :=
  match node with
  | JArr cs =>
      if (MAX_CONDITION_DEPTH <? depth)%nat then mkScan (retired s) (visited s) true
      else if (MAX_CONDITION_NODES <? S (visited s))%nat then mkScan (retired s) (S (visited s)) true
      else (fix go (cs : list json) (s : Scan) : Scan := match cs with [] => s | c :: cs' => go cs' (walk c depth s) end)
             cs (mkScan (retired s) (S (visited s)) (truncated s))
  | JObj l =>
      if (MAX_CONDITION_DEPTH <? depth)%nat then mkScan (retired s) (visited s) true
      else if (MAX_CONDITION_NODES <? S (visited s))%nat then mkScan (retired s) (S (visited s)) true
      else
        let s1 := mkScan (retired s) (S (visited s)) (truncated s) in
        (fix go (l : list (string * json)) (s : Scan) : Scan := match l with [] => s | (_, v) :: l' => go l' (walk v (S depth) s) end)
          l (match retired_type node with Some t => found t s1 | None => s1 end)
  | _ => s
  end.
Definition findRetiredConditionTypes (conditions : json) : Scan := walk conditions 0 (mkScan [] 0 false).

Definition conditionPayloadsFrom (value : json) : list json :=
  match value with JObj _ => option_list (jget "conditions" value) ++ option_list (jget "autoResolveConditions" value) | _ => [] end.

(** Which message, if any. *)
Inductive RetiredError := names_retired (types : list string) | too_large.
Definition retiredConditionTypeError (conditions : option json) : option RetiredError :=
  match conditions with
  | None | Some JNull => None
  | Some c => let s := findRetiredConditionTypes c in
              match retired s with
              | _ :: _ => Some (names_retired (retired s))
              | [] => if truncated s then Some too_large else None
              end
  end.

End Conditions.
