(* ===== verification/ConditionFacts.v ===== *)
(** * What the conditions of an alert promise

    The result of an evaluation does not depend on the order in which the leaves of the
    tree finish; conditions that pass the validation are evaluated by registered handlers
    only; the scan for retired types refuses exactly the payloads that have one or that
    exceed its bounds. *)
From S2P Require Import Prelude JsText AlertConditions.
From stdpp Require Import base tactics list list_numbers strings gmap pretty.
From Stdlib Require Import ZArith Lia.

Module ConditionFacts.
Import Conditions.

(** ** Induction on nested JSON *)

Section json_induction.
Context (P : json → Prop) (Hnull : P JNull) (Hbool : ∀ b, P (JBool b)) (Hnum : ∀ n, P (JNum n)) (Hfrac : ∀ t, P (JFrac t))
  (Hstr : ∀ s, P (JStr s)) (Harr : ∀ l, Forall P l → P (JArr l)) (Hobj : ∀ l, Forall (λ kv, P kv.2) l → P (JObj l)).
Fixpoint json_nested (j : json) : P j :=
  match j with
  | JNull => Hnull | JBool b => Hbool b | JNum n => Hnum n | JFrac t => Hfrac t | JStr s => Hstr s
  | JArr l => Harr l ((fix go l := match l return Forall P l with [] => Forall_nil_2 _ | x :: l' => Forall_cons_2 _ _ _ (json_nested x) (go l') end) l)
  | JObj l => Hobj l ((fix go l := match l return Forall (λ kv, P kv.2) l with
                                   | [] => Forall_nil_2 _
                                   | x :: l' => Forall_cons_2 _ _ _ (json_nested x.2) (go l') end) l)
  end.
End json_induction.

(** ** The order of the leaves *)

Section order.
Context (answers : list ConditionResult).

Definition step (acc : Accumulator) (n : nat) : Accumulator := match answers !! n with Some r => settle n r acc | None => acc end.
Definition filled (n : nat) (s : Slot) : Slot :=
  match answers !! n ≫= λ r, number (cr_actualValue r) with Some v => mkSlot (sl_type s) (Some v) | None => s end.

Lemma filled_twice n s : filled n (filled n s) = filled n s.
Proof. unfold filled. by destruct (_ ≫= _). Qed.

Lemma step_slots acc n k : leafActualValues (step acc n) !! k = (if decide (k = n) then filled k else id) <$> leafActualValues acc !! k.
Proof.
  unfold step, filled. destruct (decide (k = n)) as [->|Hne].
  - destruct (answers !! n) as [r|]; cbn; [|by rewrite option_fmap_id]. rewrite list_lookup_alter_eq.
    destruct (leafActualValues acc !! n) as [s|]; cbn; [|done]. by destruct (number (cr_actualValue r)).
  - rewrite option_fmap_id. destruct (answers !! n) as [r|]; cbn; [|done]. by rewrite list_lookup_alter_ne.
Qed.

(** What each leaf left in its slot, whenever it finished. *)
Lemma fold_slots order acc k :
  leafActualValues (foldl step acc order) !! k = (if decide (k ∈ order) then filled k else id) <$> leafActualValues acc !! k.
Proof.
  revert acc. induction order as [|n order IH]; intros acc; cbn [foldl].
  { rewrite decide_False by apply not_elem_of_nil. by rewrite option_fmap_id. }
  rewrite IH, step_slots. destruct (decide (k = n)) as [->|Hne].
  - rewrite (decide_True (P := n ∈ n :: order)) by by left. destruct (decide (n ∈ order)); destruct (leafActualValues acc !! n); cbn; [|done..].
    by rewrite filled_twice.
  - rewrite option_fmap_id. destruct (decide (k ∈ order)), (decide (k ∈ n :: order)); set_solver.
Qed.

Definition passed_at (n : nat) : list string := match answers !! n with Some r => if cr_passed r then [cr_description r] else [] | None => [] end.
Definition failed_at (n : nat) : list string := match answers !! n with Some r => if cr_passed r then [] else [cr_description r] | None => [] end.
Definition unknown_at (n : nat) : bool := match answers !! n with Some r => bool_decide (cr_dataAvailable r = Some false) | None => false end.

Lemma fold_lists order acc :
  met (foldl step acc order) = met acc ++ (order ≫= passed_at) ∧ notMet (foldl step acc order) = notMet acc ++ (order ≫= failed_at)
  ∧ sawUnknown (foldl step acc order) = sawUnknown acc || existsb unknown_at order.
Proof.
  revert acc. induction order as [|n order IH]; intros acc; cbn [foldl existsb]; [by rewrite !app_nil_r, orb_false_r|].
  destruct (IH (step acc n)) as (-> & -> & ->). rewrite !bind_cons. unfold step, passed_at at 2, failed_at at 2, unknown_at at 2.
  destruct (answers !! n) as [r|]; cbn [met notMet sawUnknown settle]; [|done]. rewrite orb_assoc.
  destruct (cr_passed r); by rewrite <- ?app_assoc.
Qed.

Lemma existsb_perm (f : nat → bool) l l' : l ≡ₚ l' → existsb f l = existsb f l'.
Proof. induction 1; cbn; [done|congruence|by rewrite !orb_assoc, (orb_comm (f y))|congruence]. Qed.

(** Two orders of the same leaves. *)
Lemma tree_order t latest order order' :
  order ≡ₚ order' → (∀ c, t = Leaf c → order = order') →
  let r := evaluate_tree t answers order latest in let r' := evaluate_tree t answers order' latest in
  (er_triggered r, er_unknown r, er_subjects r, er_context r) = (er_triggered r', er_unknown r', er_subjects r', er_context r')
  ∧ er_met r ≡ₚ er_met r' ∧ er_notMet r ≡ₚ er_notMet r'.
Proof.
  intros Hp Hleaf. unfold evaluate_tree. fold step. cbn [er_triggered er_unknown er_subjects er_context er_met er_notMet].
  destruct (fold_lists order (reserve (leaves t))) as (-> & -> & ->). destruct (fold_lists order' (reserve (leaves t))) as (-> & -> & ->).
  rewrite (existsb_perm unknown_at order order') by done. split_and!; [|by rewrite Hp..].
  assert (leafActualValues (foldl step (reserve (leaves t)) order) = leafActualValues (foldl step (reserve (leaves t)) order')) as ->.
  { apply list_eq. intros k. rewrite !fold_slots. destruct (decide (k ∈ order)) as [Hk|Hk], (decide (k ∈ order')) as [Hk'|Hk'];
      [done|by rewrite Hp in Hk|by rewrite <- Hp in Hk'|done]. }
  destruct t as [c|]; [|done]. by rewrite (Hleaf c eq_refl).
Qed.
End order.

(** C15: conditions settle the same in any order.  However the evaluations of the leaves
    interleave (they are awaited together), the verdict, whether data was missing, the
    evidence about components and the whole context of the alert (metric, value,
    threshold, operator, duration) are those of the evaluation from left to right; the
    descriptions of the conditions met and not met are the same up to their order. *)
Theorem conditions_order_independent evaluate conditions schedule latest :
  (∀ n, schedule n ≡ₚ seq 0 n) →
  match evaluateConditions evaluate conditions schedule latest, evaluateConditions evaluate conditions (seq 0) latest with
  | Some r, Some r' =>
      (er_triggered r, er_unknown r, er_subjects r, er_context r) = (er_triggered r', er_unknown r', er_subjects r', er_context r')
      ∧ er_met r ≡ₚ er_met r' ∧ er_notMet r ≡ₚ er_notMet r'
  | None, None => True
  | _, _ => False
  end.
Proof.
  intros Hs. unfold evaluateConditions. destruct (root_condition conditions) as [| | |t]; try done.
  apply tree_order; [done|]. intros c ->. specialize (Hs 1%nat). by apply Permutation_singleton_r in Hs.
Qed.

Definition ex_leaf (t : string) (n : Z) : json := JObj [("type", JStr t); ("operator", JStr "gt"); ("value", JNum n); ("metric", JStr "cpu")].
Definition ex_tree : option json :=
  Some (JObj [("logic", JStr "or"); ("conditions", JArr [ex_leaf "disk_io_high" 1; JObj [("logic", JStr "and"); ("conditions", JArr [ex_leaf "threshold" 90; ex_leaf "offline" 5])]])]).
Definition ex_evaluate (c : json) : ConditionResult :=
  match type_of c with
  | Some "threshold" => mkResult true "cpu > 90 for 5min" (Some (JNum 95)) None None
  | Some "offline" => mkResult true "Device offline for 5min" None None None
  | _ => mkResult false "no samples" (Some (JNum 0)) (Some false) None
  end.

(** The last leaf finishes first: still the value of the threshold leaf. *)
Lemma conditions_order_independent_witness :
  match evaluateConditions ex_evaluate ex_tree (λ n, reverse (seq 0 n)) (λ _, None), evaluateConditions ex_evaluate ex_tree (seq 0) (λ _, None) with
  | Some r, Some r' =>
      (er_triggered r, er_unknown r, er_subjects r, er_context r) = (er_triggered r', er_unknown r', er_subjects r', er_context r')
      ∧ er_met r ≡ₚ er_met r' ∧ er_notMet r ≡ₚ er_notMet r'
  | None, None => True
  | _, _ => False
  end
  ∧ (λ r, (er_triggered r, cx_actualValue (er_context r), er_met r)) <$> evaluateConditions ex_evaluate ex_tree (λ n, reverse (seq 0 n)) (λ _, None)
    = Some (true, Some (JNum 95), ["Device offline for 5min"; "cpu > 90 for 5min"]).
Proof.
  split; [|vm_compute; reflexivity]. apply (conditions_order_independent ex_evaluate ex_tree (λ n, reverse (seq 0 n)) (λ _, None)).
  intros n. apply reverse_Permutation.
Defined.

(** ** Validation *)

Section validation.
Context (handlers : Registry).

Lemma find_conditions {A} (f : json → A) (d : A) l :
  (fix find (l : list (string * json)) : A := match l with [] => d | (k, v) :: l' => if String.eqb k "conditions" then f v else find l' end) l
  = match jget "conditions" (JObj l) with Some v => f v | None => d end.
Proof. induction l as [|[k v] l IH]; [done|]. cbn. destruct (String.eqb k "conditions"); [done|]. apply IH. Qed.

Lemma jget_in k l v : jget k (JObj l) = Some v → ∃ k', (k', v) ∈ l.
Proof.
  cbn. destruct (List.find _ l) as [[k' v']|] eqn:E; [|done]. intros [= <-]. exists k'. apply find_some in E as [E _]. by apply list_elem_of_In.
Qed.

(** The same equations, without the inner loops. *)
Lemma read_obj l :
  read (JObj l) = if isConditionGroup (JObj l)
                  then match jget "conditions" (JObj l) with Some (JArr cs) => Group (is_and (JObj l)) <$> reads cs | _ => None end
                  else Some (Leaf (JObj l)).
Proof.
  cbn [read]. destruct (isConditionGroup _); [|done].
  rewrite (find_conditions (λ v, match v with JArr cs => Group (is_and (JObj l)) <$> reads cs | _ => None end)).
  by destruct (jget "conditions" (JObj l)) as [[]|].
Qed.

Definition good_leaf (c : json) : Prop := ∃ h, handler_of handlers c = Some h ∧ ∃ path, h_validate h c path = [].
Definition good_tree (t : RootCondition) : Prop := ∀ c, c ∈ leaves t → good_leaf c.

Lemma leaves_group b ts : leaves (Group b ts) = ts ≫= leaves.
Proof. cbn. induction ts as [|t ts IH]; [done|]. by rewrite bind_cons, <- IH. Qed.

Definition valid_reads (c : json) : Prop := ∀ path, validateSingle handlers c path = [] → ∃ t, read c = Some t ∧ good_tree t.

(** The sub-conditions of a group, whatever their paths. *)
Lemma all_valid cs (paths : nat → string) i :
  Forall valid_reads cs →
  (fix go (i : nat) (cs : list json) : list string :=
     match cs with [] => [] | c :: cs' => validateSingle handlers c (paths i) ++ go (S i) cs' end) i cs = [] →
  ∃ ts, reads cs = Some ts ∧ Forall good_tree ts.
Proof.
  intros H. revert i. induction H as [|c cs Hc _ IH]; intros i; [by exists []|].
  intros [E1 E2]%app_eq_nil. destruct (Hc _ E1) as (t & Et & Gt). destruct (IH _ E2) as (ts & Ets & Gts).
  exists (t :: ts). cbn. change (foldr _ (Some []) cs) with (reads cs). rewrite Et, Ets. split; [done|by constructor].
Qed.

Lemma good_group b ts : Forall good_tree ts → good_tree (Group b ts).
Proof. intros H c. rewrite leaves_group. intros (t & Hc & Ht)%list_elem_of_bind. rewrite Forall_forall in H. by apply (H t Ht). Qed.

Lemma object_valid l : (∀ cs, jget "conditions" (JObj l) = Some (JArr cs) → Forall valid_reads cs) → valid_reads (JObj l).
Proof.
  intros IH path. cbn [validateSingle]. destruct (has "logic" (JObj l)) eqn:Hlogic.
  - intros [_ E]%app_eq_nil. revert E.
    rewrite (find_conditions (λ v, match v with
                 | JArr cs => (fix go (i : nat) (cs : list json) : list string :=
                     match cs with
                     | [] => []
                     | c :: cs' => validateSingle handlers c (path +:+ ".conditions[" +:+ pretty i +:+ "]") ++ go (S i) cs'
                     end) 0%nat cs
                 | _ => [path +:+ ".conditions: Must be an array"]
                 end)).
    destruct (jget "conditions" (JObj l)) as [[| | | | |cs|]|] eqn:Ev; try done. intros E.
    destruct (all_valid cs (λ i, path +:+ ".conditions[" +:+ pretty i +:+ "]") 0 (IH cs eq_refl) E) as (ts & Ets & G).
    rewrite read_obj. unfold isConditionGroup, has in *. rewrite Hlogic, Ev, bool_decide_true by eauto. cbn [andb]. rewrite Ets.
    eexists. split; [reflexivity|]. by apply good_group.
  - destruct (has "type" (JObj l)); [|done]. intros E. rewrite read_obj. unfold isConditionGroup. rewrite Hlogic. cbn [andb].
    exists (Leaf (JObj l)). split; [done|]. intros c Hc. apply list_elem_of_singleton in Hc as ->. unfold registry_validate in E.
    destruct (handler_of handlers (JObj l)) as [h|] eqn:Eh; [|done]. exists h. eauto.
Qed.

Lemma json_valid j : valid_reads j ∧ ∀ cs, j = JArr cs → Forall valid_reads cs.
Proof.
  induction j as [| | | | |l IH|l IH] using json_nested; split; try done.
  - intros cs [= <-]. eapply Forall_impl; [exact IH|]. by intros x [? _].
  - apply object_valid. intros cs [k Hin]%jget_in. rewrite Forall_forall in IH. by apply (IH _ Hin).
Qed.

Lemma roots_valid cs (paths : nat → string) : concat (imap (λ i c, validateSingle handlers c (paths i)) cs) = [] →
  ∃ ts, reads cs = Some ts ∧ Forall good_tree ts.
Proof.
  revert paths. induction cs as [|c cs IH]; intros paths; [by exists []|]. cbn. intros [E1 E2]%app_eq_nil.
  destruct (IH (λ i, paths (S i)) E2) as (ts & Ets & G). destruct (proj1 (json_valid c) _ E1) as (t & Et & Gt).
  exists (t :: ts). change (foldr _ (Some []) cs) with (reads cs). rewrite Et, Ets. split; [done|by constructor].
Qed.

(** Valid conditions are evaluated.  Conditions without validation errors are read as
    a tree in every leaf of which a registered handler is found, whose own validation of
    the leaf passed: the evaluation neither throws on their shape nor answers that a
    condition type is unknown. *)
Theorem validated_conditions_run conditions schedule latest :
  validateConditions handlers conditions = [] →
  ∃ t r, root_condition conditions = root t ∧ evaluateConditions (registry_evaluate handlers) conditions schedule latest = Some r
    ∧ ∀ c, c ∈ leaves t → ∃ h, handler_of handlers c = Some h ∧ registry_evaluate handlers c = h_evaluate h c ∧ ∃ path, h_validate h c path = [].
Proof.
  intros Hv.
  assert (∃ t, root_condition conditions = root t ∧ good_tree t) as (t & Et & G).
  { unfold validateConditions in Hv. destruct conditions as [[|[]|[]|x|[]|cs|l]|]; cbn in Hv; try done; cbn [root_condition].
    - destruct (roots_valid cs (λ i, "conditions[" +:+ pretty i +:+ "]") Hv) as (ts & -> & Gs). eexists. split; [done|]. by apply good_group.
    - destruct (proj1 (json_valid (JObj l)) "conditions" Hv) as (t & -> & Gt). eauto. }
  unfold evaluateConditions. rewrite Et. eexists t, _. split_and!; [done..|]. intros c Hc. destruct (G c Hc) as (h & Eh & Hp).
  exists h. unfold registry_evaluate. by rewrite Eh.
Qed.

End validation.

Definition ex_handler (t : string) (aliases : list string) : ConditionHandler :=
  mkHandler t aliases ex_evaluate (λ c path, if has "value" c then [] else [path +:+ ".value: Must be a number"]).
Definition ex_registry : Registry :=
  register (ex_handler "disk_io_high" []) (register (ex_handler "offline" ["status"]) (register (ex_handler "threshold" ["metric"]) ∅)).

Lemma validated_conditions_run_witness :
  ∃ t r, root_condition ex_tree = root t ∧ evaluateConditions (registry_evaluate ex_registry) ex_tree (seq 0) (λ _, None) = Some r
    ∧ ∀ c, c ∈ leaves t → ∃ h, handler_of ex_registry c = Some h ∧ registry_evaluate ex_registry c = h_evaluate h c ∧ ∃ path, h_validate h c path = [].
Proof. apply (validated_conditions_run ex_registry ex_tree (seq 0) (λ _, None)). vm_compute. reflexivity. Defined.

(** ** The scan *)

(** The arrays and objects of a value, with the number of objects above them. *)
Fixpoint nodes (depth : nat) (j : json) : list (nat * json) :=
  match j with
  | JArr cs => (depth, j) :: (fix go (cs : list json) : list (nat * json) := match cs with [] => [] | c :: cs' => nodes depth c ++ go cs' end) cs
  | JObj l => (depth, j) :: (fix go (l : list (string * json)) : list (nat * json) :=
                               match l with [] => [] | (_, v) :: l' => nodes (S depth) v ++ go l' end) l
  | _ => []
  end.

Definition shallow (ns : list (nat * json)) : Prop := Forall (λ dn, (dn.1 ≤ MAX_CONDITION_DEPTH)%nat) ns.
Definition clean (ns : list (nat * json)) : Prop := Forall (λ dn, retired_type dn.2 = None) ns.

(** What a part of the walk over [ns] does to a scan within its bounds. *)
Record covers (ns : list (nat * json)) (f : Scan → Scan) : Prop := {
  co_truncated : ∀ s, truncated s = true → truncated (f s) = true;
  co_bounds : ∀ s, truncated s = false → (visited s ≤ MAX_CONDITION_NODES)%nat →
                truncated (f s) = false ↔ shallow ns ∧ (visited s + length ns ≤ MAX_CONDITION_NODES)%nat;
  co_visited : ∀ s, truncated (f s) = false → visited (f s) = (visited s + length ns)%nat;
  co_retired : ∀ s, truncated (f s) = false → retired (f s) = [] ↔ retired s = [] ∧ clean ns }.

Lemma covers_nil : covers [] (λ s, s).
Proof.
  split; unfold shallow, clean; [done| | |].
  - intros s Ht Hv. rewrite Forall_nil. cbn. split; [intros _; split; [done|lia]|done].
  - intros s _. cbn. lia.
  - intros s _. rewrite Forall_nil. tauto.
Qed.

Lemma covers_app ns ns' f g : covers ns f → covers ns' g → covers (ns ++ ns') (λ s, g (f s)).
Proof.
  intros [Tf Bf Vf Rf] [Tg Bg Vg Rg].
  assert (Hback : ∀ s, truncated (g (f s)) = false → truncated (f s) = false).
  { intros s Hs. destruct (truncated (f s)) eqn:E; [|done]. by rewrite (Tg _ E) in Hs. }
  split; unfold shallow, clean in *.
  - eauto.
  - intros s Hs Hv. rewrite Forall_app, length_app. destruct (truncated (f s)) eqn:E.
    + rewrite (Tg _ E). split; [done|]. intros [[H1 _] H2]. exfalso. enough (true = false) by done. rewrite <- E. apply Bf; [done..|]. split; [done|lia].
    + pose proof (proj1 (Bf s Hs Hv) E) as [H1 H2]. rewrite Bg; [|done|rewrite (Vf s E); lia]. rewrite (Vf s E).
      split; [intros [? ?]; split; [done|lia]|intros [[_ ?] ?]; split; [done|lia]].
  - intros s Hs. rewrite (Vg _ Hs), (Vf _ (Hback s Hs)), length_app. lia.
  - intros s Hs. rewrite (Rg _ Hs), (Rf _ (Hback s Hs)), Forall_app. tauto.
Qed.

Lemma covers_list {X} (w : X → Scan → Scan) (ns : X → list (nat * json)) l :
  Forall (λ x, covers (ns x) (w x)) l → covers (l ≫= ns) (λ s, foldl (λ s x, w x s) s l).
Proof. induction 1 as [|x l Hx _ IH]; [apply covers_nil|]. rewrite bind_cons. by apply (covers_app _ _ (w x) (λ s, foldl (λ s x, w x s) s l)). Qed.

Definition check (j : json) (s : Scan) : Scan := match retired_type j with Some t => found t s | None => s end.
Lemma check_keeps j s :
  visited (check j s) = visited s ∧ truncated (check j s) = truncated s ∧ (retired (check j s) = [] ↔ retired s = [] ∧ retired_type j = None).
Proof.
  unfold check. destruct (retired_type j) as [t|]; [|tauto]. unfold found. case_bool_decide as Ht; cbn; split_and!; try done.
  - split; [|intros [_ [=]]]. intros E. rewrite E in Ht. by apply not_elem_of_nil in Ht.
  - split; [intros [_ ?]%app_eq_nil; done|intros [_ [=]]].
Qed.

(** A node: counted, checked, then its parts. *)
Lemma covers_node d j ns f :
  covers ns f →
  covers ((d, j) :: ns) (λ s, if (MAX_CONDITION_DEPTH <? d)%nat then mkScan (retired s) (visited s) true
                              else if (MAX_CONDITION_NODES <? S (visited s))%nat then mkScan (retired s) (S (visited s)) true
                              else f (check j (mkScan (retired s) (S (visited s)) (truncated s)))).
Proof.
  intros [T B V Rr]. pose proof (check_keeps j) as Hc. split; unfold shallow, clean in *.
  - intros s Hs. destruct (_ <? _)%nat; [done|]. destruct (_ <? _)%nat; [done|]. apply T. by rewrite (proj1 (proj2 (Hc _))).
  - intros s Hs Hv. rewrite Forall_cons. cbn [length fst]. destruct (Nat.ltb_spec MAX_CONDITION_DEPTH d); [cbn; split; [done|intros [[? _] _]; lia]|].
    destruct (Nat.ltb_spec MAX_CONDITION_NODES (S (visited s))); [cbn; split; [done|intros [_ ?]; lia]|].
    destruct (Hc (mkScan (retired s) (S (visited s)) (truncated s))) as (E1 & E2 & _). cbn in E1, E2.
    rewrite B; [|by rewrite E2|rewrite E1; lia]. rewrite E1. split; [intros [? ?]; split; [done|lia]|intros [[_ ?] ?]; split; [done|lia]].
  - intros s. destruct (_ <? _)%nat; [done|]. destruct (_ <? _)%nat; [done|]. intros E. rewrite (V _ E), (proj1 (Hc _)). cbn. lia.
  - intros s. destruct (_ <? _)%nat; [done|]. destruct (_ <? _)%nat; [done|]. intros E.
    rewrite (Rr _ E), (proj2 (proj2 (Hc _))), Forall_cons. cbn. tauto.
Qed.

Lemma nodes_arr d cs : nodes d (JArr cs) = (d, JArr cs) :: (cs ≫= nodes d).
Proof. done. Qed.
Lemma nodes_obj d l : nodes d (JObj l) = (d, JObj l) :: (l ≫= λ kv, nodes (S d) kv.2).
Proof. cbn. f_equal. induction l as [|[k v] l IH]; [done|]. by rewrite bind_cons, IH. Qed.

Lemma covers_ext ns f g : (∀ s, f s = g s) → covers ns f → covers ns g.
Proof. intros E [T B V Rr]. split; intros s; rewrite <- (E s); auto. Qed.

Lemma walk_covers j d : covers (nodes d j) (walk j d).
Proof.
  revert d. induction j as [| | | | |cs IH|l IH] using json_nested; intros d; try exact covers_nil.
  - rewrite nodes_arr. eapply covers_ext; [|apply covers_node, (covers_list (λ c, walk c d)); eapply Forall_impl; [exact IH|]; cbn; auto].
    intros s. cbn [walk]. destruct (_ <? _)%nat; [done|]. destruct (_ <? _)%nat; [done|]. cbn.
    generalize (mkScan (retired s) (S (visited s)) (truncated s)). clear. induction cs as [|c cs IH]; intros s; [done|]. apply IH.
  - rewrite nodes_obj. eapply covers_ext; [|apply covers_node, (covers_list (λ kv, walk kv.2 (S d))); eapply Forall_impl; [exact IH|]; cbn; auto].
    intros s. cbn [walk]. destruct (_ <? _)%nat; [done|]. destruct (_ <? _)%nat; [done|]. cbn zeta.
    fold (check (JObj l) (mkScan (retired s) (S (visited s)) (truncated s))).
    generalize (check (JObj l) (mkScan (retired s) (S (visited s)) (truncated s))). clear. induction l as [|[k v] l IH]; intros s; [done|]. apply IH.
Qed.

(** C23: the scan for retired types.  A payload is accepted if and only if it has at most
    two thousand arrays and objects, none of them under more than ten objects, and no
    object anywhere in it, in whatever envelope, is of a retired type. *)
Theorem retired_scan_exact c :
  retiredConditionTypeError (Some c) = None ↔
  (length (nodes 0 c) ≤ MAX_CONDITION_NODES)%nat
  ∧ ∀ d n, (d, n) ∈ nodes 0 c → (d ≤ MAX_CONDITION_DEPTH)%nat ∧ ∀ t, type_of n = Some t → t ∉ RETIRED_CONDITION_TYPES.
Proof.
  assert (Hrt : ∀ n, retired_type n = None ↔ ∀ t, type_of n = Some t → t ∉ RETIRED_CONDITION_TYPES).
  { intros n. unfold retired_type. destruct (type_of n) as [t|]; [|naive_solver]. case_bool_decide; naive_solver. }
  assert (retiredConditionTypeError (Some c) = None ↔ truncated (findRetiredConditionTypes c) = false ∧ retired (findRetiredConditionTypes c) = []) as ->.
  { replace (retiredConditionTypeError (Some c)) with (match retired (findRetiredConditionTypes c) with
      | _ :: _ => Some (names_retired (retired (findRetiredConditionTypes c)))
      | [] => if truncated (findRetiredConditionTypes c) then Some too_large else None end) by (by destruct c).
    destruct (retired _), (truncated _); naive_solver. }
  destruct (walk_covers c 0) as [_ B _ Rr]. unfold findRetiredConditionTypes. set (s0 := mkScan [] 0 false).
  specialize (B s0 eq_refl ltac:(unfold s0; cbn; lia)). specialize (Rr s0). unfold shallow, clean in *. rewrite Forall_forall in B. rewrite Forall_forall in Rr.
  change (visited s0 + length (nodes 0 c))%nat with (length (nodes 0 c)) in B. split.
  - intros [Ht Hr]. destruct (proj1 B Ht) as [Hd Hlen]. destruct (proj1 (Rr Ht) Hr) as [_ Hc]. split; [done|].
    intros d n Hin. split; [by apply (Hd _ Hin)|]. apply Hrt. by apply (Hc _ Hin).
  - intros [Hlen Hall]. assert (truncated (walk c 0 s0) = false) as Ht by (apply B; split; [|done]; intros [d n] Hin; by apply (Hall d n)).
    split; [done|]. apply (Rr Ht). split; [done|]. intros [d n] Hin. apply Hrt. by apply (Hall d n).
Qed.

(** A retired type in the envelope of the template editor, and a deep nest. *)
Example ex_retired :
  retiredConditionTypeError (Some (JObj [("triggers", JArr [JObj [("type", JStr "custom")]])])) = Some (names_retired ["custom"])
  ∧ retiredConditionTypeError (Some (Nat.iter 12 (λ j, JObj [("conditions", JArr [j])]) JNull)) = Some too_large
  ∧ retiredConditionTypeError ex_tree = None.
Proof. vm_compute. done. Qed.

End ConditionFacts.
